(** * PaDiM anomaly detection: a shallow embedding of [padim.py]

    The development follows [src/anomaly_detection/padim/padim.py].

    Numbers.  The script computes with numpy [float32]/[float64] arrays.
    In the main model every array entry is an exact rational ([Q]);
    statements about entries use rational equality [==].  Rounding, [inf]
    and [nan] are outside that model (in particular [x / 0] is [0] in
    [Q]).  The mean of the training features and the normalisation of
    the score maps, whose results depend on the rounding, are modelled a
    second time over an arbitrary arithmetic ([Dtype]), with exact
    rationals and the IEEE 754 binary formats as instances.

    Arrays.  A numpy array is a nested list in the axis order of the
    source: [embedding_vectors[b][c][i]], [mean[c][i]], [cov[c1][c2][i]].

    Libraries.  The neural network, PIL, OpenCV, scipy, sklearn and
    skimage are not part of the repository; the functions the script
    calls from them are fields of the classes [Backbone] and [NumLib]. *)

From Stdlib Require Import QArith Qfield Qminmax Lia List ZArith String DecimalString Ascii Sorted.
From Stdlib Require SpecFloat.
From stdpp Require Import base list gmap strings.

Import ListNotations.

(** ** Arrays *)

Abbreviation vector := (list Q).
Abbreviation matrix := (list (list Q)).
Abbreviation array3 := (list (list (list Q))).
Abbreviation array4 := (list (list (list (list Q)))).

Definition sumQ (l : list Q) : Q := fold_right Qplus 0%Q l.

(** [A[r][c]] and [A[a][b][c]], with 0 outside the array. *)
Definition get2 (A : matrix) (r c : nat) : Q := nth c (nth r A []) 0%Q.
Definition get3 (A : array3) (a b c : nat) : Q := nth c (nth b (nth a A []) []) 0%Q.

(** [np.zeros((r, c))] and [np.zeros((a, b, c))]. *)
Definition zeros2 (r c : nat) : matrix := repeat (repeat 0%Q c) r.
Definition zeros3 (a b c : nat) : array3 := repeat (zeros2 b c) a.

(** [B, C, H, W = E.shape] *)
Definition shape4 (E : array4) : nat * nat * nat * nat :=
  (length E, length (hd [] E), length (hd [] (hd [] E)),
   length (hd [] (hd [] (hd [] E)))).

(** [E.reshape(B, C, H * W)]: the rows of every channel are laid end to end. *)
Definition reshape_BC_HW (E : array4) : array3 := map (map (@concat Q)) E.

(** Element-wise [A + B] on matrices of one shape. *)
Definition madd (A B : matrix) : matrix := zip_with (zip_with Qplus) A B.

(** [np.sum(E, axis=0)] for [E] of shape [(B, C, HW)]. *)
Definition np_sum0 (C HW : nat) (E : array3) : matrix :=
  fold_right madd (zeros2 C HW) E.

(** [E[:, :, i]]: shape [(B, C)]. *)
Definition loc_slice (E : array3) (i : nat) : matrix :=
  map (map (fun v => nth i v 0%Q)) E.

(** [A[:, [i]]]: shape [(C, 1)]. *)
Definition col_keepdim (A : matrix) (i : nat) : matrix :=
  map (fun row => [nth i row 0%Q]) A.

(** [A.T] *)
Definition transpose (A : matrix) : matrix :=
  map (fun j => map (fun row => nth j row 0%Q) A) (seq 0 (length (hd [] A))).

(** [A / n] *)
Definition mdiv (A : matrix) (n : Q) : matrix := map (map (fun x => x / n)%Q) A.

(** [m - r] where [m] has shape [(B, C)] and [r] has shape [(1, C)]:
    numpy broadcasts the single row of [r] over the rows of [m]. *)
Definition msub_row (m r : matrix) : matrix :=
  map (fun row => zip_with Qminus row (hd [] r)) m.

Definition dot (u v : vector) : Q := sumQ (zip_with Qmult u v).

(** [A @ B] *)
Definition matmul (A B : matrix) : matrix :=
  map (fun ra => map (fun cb => dot ra cb) (transpose B)) A.

(** [cov[:, :, i] += M] *)
Definition add_loc (cov : array3) (i : nat) (M : matrix) : array3 :=
  zip_with (zip_with (fun v x => <[i := (nth i v 0 + x)%Q]> v)) cov M.

(** [cov[:, :, i] = M] *)
Definition set_loc (cov : array3) (i : nat) (M : matrix) : array3 :=
  zip_with (zip_with (fun v x => <[i := x]> v)) cov M.

(** [np.identity(C)] *)
Definition identity (C : nat) : matrix :=
  map (fun r => map (fun c => if Nat.eqb r c then 1%Q else 0%Q) (seq 0 C)) (seq 0 C).

(** [a * M] and [A + B] used in the regularisation step. *)
Definition mscale (a : Q) (M : matrix) : matrix := map (map (Qmult a)) M.

Definition nat2Q (n : nat) : Q := inject_Z (Z.of_nat n).

(** ** Python helpers *)

(** [range(0, stop, step)] for [step > 0]. *)
Definition range_step (stop step : nat) : list nat :=
  map (fun k => k * step) (seq 0 ((stop + step - 1) / step)).

(** [l[i:j]] for [0 <= i <= j]. *)
Definition slice {A} (l : list A) (i j : nat) : list A := take (j - i) (drop i l).

(** [s.endswith(suf)] *)
Definition endswith (s suf : string) : bool :=
  let n := String.length s in
  let m := String.length suf in
  if (m <=? n)%nat then String.eqb (String.substring (n - m) m s) suf else false.

(** [os.path.join(a, b)] for a relative name [b], as [os.listdir] yields. *)
Definition path_join (a b : string) : string :=
  if String.eqb a "" then b
  else if endswith a "/" then (a ++ b)%string
  else (a ++ "/" ++ b)%string.

(** [sorted] on strings (code-point order), by insertion. *)
Fixpoint insert_sorted (s : string) (l : list string) : list string :=
  match l with
  | [] => [s]
  | x :: r => if String.leb s x then s :: l else x :: insert_sorted s r
  end.

Definition sorted (l : list string) : list string := fold_right insert_sorted [] l.

(** ** Effects: log lines, inference calls, process exit, exceptions *)

Inductive log_level := INFO | ERROR.

Inductive event :=
| Log (lvl : log_level) (msg : string)
| Predict (batch : nat)            (* net.predict on a batch of that many images *)
| PickleLoad (file : string)
| PickleDump (dir : string)        (* the "<basename(dir)>.pkl" feature file *)
| Download                         (* check_and_download_models *)
| SaveFig (image_path : string)    (* fig_img.savefig for one test image, with the *)
          (heat_map : list (list Q))  (* 'Predicted heat map' panel,           *)
          (mask : list (list Q))      (* the 'Predicted mask' panel            *)
          (score : Q).                (* and the anomaly score of the title    *)

Inductive exn :=
| ValueError | TypeError | ZeroDivisionError | IndexError
| UnboundLocalError | AttributeError.

Inductive outcome (A : Type) :=
| Returned (a : A)
| Exited (status : Z)              (* sys.exit(status) *)
| Raised (e : exn).
Arguments Returned {A} a.
Arguments Exited {A} status.
Arguments Raised {A} e.

(** A computation yields the events it performed, in order, and how it ended. *)
Definition M (A : Type) : Type := list event * outcome A.

Definition ret {A} (a : A) : M A := ([], Returned a).
Definition bind {A B} (m : M A) (f : A -> M B) : M B :=
  match m with
  | (tr, Returned a) => let (tr', o) := f a in (tr ++ tr', o)
  | (tr, Exited s) => (tr, Exited s)
  | (tr, Raised e) => (tr, Raised e)
  end.
Definition emit (e : event) : M unit := ([e], Returned tt).
Definition sys_exit {A} (status : Z) : M A := ([], Exited status).
Definition raise {A} (e : exn) : M A := ([], Raised e).

Notation "x <- c1 ;; c2" := (bind c1 (fun x => c2))
  (at level 100, c1 at next level, right associativity).
Notation "c1 ;;; c2" := (bind c1 (fun _ => c2))
  (at level 100, right associativity).

(** [for x in l: s = body(x, s)] *)
Fixpoint for_each {A S} (l : list A) (body : A -> S -> M S) (s : S) : M S :=
  match l with
  | [] => ret s
  | x :: r => s' <- body x s ;; for_each r body s'
  end.

Definition trace {A} (m : M A) : list event := fst m.
Definition result {A} (m : M A) : outcome A := snd m.

(** ** Parameters *)

Definition IMAGE_RESIZE : nat := 256.
Definition IMAGE_SIZE : nat := 224.

(** The parsed command line ([args]). *)
Record Args := {
  feat : option string;            (* -f / --feat *)
  batch_size : Z;                  (* int(args.batch_size) *)
  train_dir : string;              (* -tr / --train_dir *)
  aug : bool;                      (* -ag / --aug *)
  aug_num : Z;                     (* -an / --aug_num *)
  threshold : option Q;            (* -th / --threshold *)
  input : list string;             (* args.input: the test image paths *)
}.

(** What the script reads from the file system. *)
Class Env := {
  listdir : string -> list string;             (* os.listdir *)
  pickle_load : string -> matrix * array3;     (* pickle.load of a feature file *)
  image_shape : string -> nat * nat;           (* (h, w) of load_image(path) *)
  load_gt : bool -> string -> option matrix;   (* channel 0 of the preprocessed
                                                  '<name>_mask.png', [None] when
                                                  there is no such file *)
}.

(** The feature source.  One call stands for: [load_image], [cvtColor],
    [preprocess] (or [preprocess_aug] when [aug] is set), [np.vstack],
    [create_net], [net.predict], [get_blob_data], [postprocess], the [idx]
    selection, giving [embedding_vectors] of shape [(B, C, H, W)] for the
    images of one batch on one augmentation lap.  For a test batch every
    path comes with the references [(angle, pad_h, pad_w)] drawn for it by
    [preprocess_aug] ([None] without augmentation); for a training batch
    the draws are part of the call. *)
Class Backbone := {
  train_embedding : bool -> nat -> list string -> array4;
  test_embedding : nat -> list (string * option (Z * Z * Z)) -> array4;
}.

(** [if x:] on an optional string. *)
Definition truthy (o : option string) : bool :=
  match o with
  | Some s => negb (String.eqb s "")
  | None => false
  end.

Definition str_of_nat (n : nat) : string := NilZero.string_of_uint (Nat.to_uint n).

(** [range(0, stop, step)] with Python's errors: a zero step raises,
    a negative step gives the empty range. *)
Definition py_range_step (stop : nat) (step : Z) : M (list nat) :=
  if (step =? 0)%Z then raise ValueError
  else if (step <? 0)%Z then ret []
  else ret (range_step stop (Z.to_nat step)).

(** [range(n)] *)
Definition py_range (n : Z) : list nat := seq 0 (Z.to_nat n).

(** The 'from (%s ~ %s)' progress line of both image loops. *)
Definition batch_log (a : Args) (files : list string) (i_aug i_img : nat) : event :=
  let bs := Z.to_nat (batch_size a) in
  let lo := nth i_img files "" in
  let hi := nth (min (length files - 1) (i_img + bs)) files "" in
  if aug a
  then Log INFO ("from (" ++ lo ++ " ~ " ++ hi ++ ") on augmentation lap " ++ str_of_nat i_aug)
  else Log INFO ("from (" ++ lo ++ " ~ " ++ hi ++ ") ").

(** ** [get_train_outputs] *)

(** The Python variables that live across the two training loops. *)
Record train_state := {
  ts_stats : option (matrix * array3);   (* [mean] and [cov]; [None] before the first batch *)
  ts_N : nat;
  ts_C : nat;
  ts_HW : nat;
}.

Definition train_init : train_state :=
  {| ts_stats := None; ts_N := 0; ts_C := 0; ts_HW := 0 |}.

(** Lines 264-280: one batch is added to the running [mean] and [cov].
    [N] already counts the images of this batch, [E] is the reshaped
    [embedding_vectors] and [HW] stands for [H * W]. *)
Definition accumulate (N C HW : nat) (E : array3) (stats : option (matrix * array3))
  : matrix * array3 :=
  let '(mean, cov) :=
    match stats with
    | None => (zeros2 C HW, zeros3 C C HW)
    | Some p => p
    end in
  let mean := madd mean (np_sum0 C HW E) in
  let cov :=
    fold_left (fun cov i =>
      let m := loc_slice E i in
      let m := msub_row m (mdiv (transpose (col_keepdim mean i)) (nat2Q N)) in
      add_loc cov i (matmul (transpose m) m))
      (seq 0 HW) cov in
  (mean, cov).

(** The body of the inner loop (lines 216-280). *)
Definition train_batch `{Backbone} (a : Args) (train_imgs : list string)
    (i_aug i_img : nat) (st : train_state) : M train_state :=
  emit (batch_log a train_imgs i_aug i_img) ;;;
  let imgs := slice train_imgs i_img (i_img + Z.to_nat (batch_size a)) in
  let N := ts_N st + length imgs in
  emit (Predict (length imgs)) ;;;
  let E := train_embedding (aug a) i_aug imgs in
  let '(_, C, H, W) := shape4 E in
  let E := reshape_BC_HW E in
  ret {| ts_stats := Some (accumulate N C (H * W) E (ts_stats st));
         ts_N := N; ts_C := C; ts_HW := H * W |}.

(** Lines 281-286: the mean is divided by [N], every covariance by
    [N - 1], and [0.01 * I] is added. *)
Definition regularize (C HW N : nat) (cov : array3) : array3 :=
  let I := identity C in
  fold_left (fun cov i =>
    set_loc cov i (madd (mdiv (loc_slice cov i) (inject_Z (Z.of_nat N - 1)))
                        (mscale (1 # 100) I)))
    (seq 0 HW) cov.

Definition train_files `{Env} (a : Args) : list string :=
  sorted (map (path_join (train_dir a))
              (List.filter (fun f => endswith f ".png" || endswith f ".jpg" || endswith f ".bmp")
                      (listdir (train_dir a)))).

(** Lines 206-280: the two loops over augmentation laps and batches. *)
Definition train_loop `{Backbone} (a : Args) (train_imgs : list string) : M train_state :=
  laps <- (if aug a
           then emit (Log INFO "extract train set features with augmentation") ;;;
                ret (aug_num a)
           else emit (Log INFO "extract train set features without augmentation") ;;;
                ret 1%Z) ;;
  for_each (py_range laps) (fun i_aug st =>
    starts <- py_range_step (length train_imgs) (batch_size a) ;;
    for_each starts (train_batch a train_imgs i_aug) st) train_init.

(** Lines 281-297. *)
Definition train_finish (a : Args) (st : train_state) : M (matrix * array3) :=
  match ts_stats st with
  | None => raise TypeError          (* mean / N with mean = None *)
  | Some (mean, cov) =>
      let mean := mdiv mean (nat2Q (ts_N st)) in
      let cov := regularize (ts_C st) (ts_HW st) (ts_N st) cov in
      emit (Log INFO "saving train set feature") ;;;
      emit (PickleDump (train_dir a)) ;;;
      emit (Log INFO "saved.") ;;;
      ret (mean, cov)
  end.

Definition get_train_outputs `{Env} `{Backbone} (a : Args) : M (matrix * array3) :=
  if truthy (feat a) then
    let f := default "" (feat a) in
    emit (Log INFO ("loading train set feature from: " ++ f)) ;;;
    emit (PickleLoad f) ;;;
    emit (Log INFO "loaded.") ;;;
    ret (pickle_load f)
  else
    let train_imgs := train_files a in
    if (length train_imgs =? 0)%nat then
      emit (Log ERROR ("train images not found in '" ++ train_dir a ++ "'")) ;;;
      sys_exit (-1)
    else
      st <- train_loop a train_imgs ;;
      train_finish a st.

(** ** [preprocess_aug]: the recorded augmentation parameters *)

(** numpy's global random generator: [randint low high g] is the value of
    [np.random.randint(low, high)] in generator state [g], with the next
    state. *)
Class RandomState := {
  rng : Type;
  randint : Z -> Z -> rng -> Z * rng;
}.

(** numpy's contract: the value is drawn from the half-open interval
    [[low, high)]. *)
Class RandomStateLaws `{RandomState} : Prop := {
  randint_range : forall low high g,
    (low < high)%Z -> (low <= fst (randint low high g) < high)%Z;
}.

(** [np.random.randint(low, high)]; an empty interval raises. *)
Definition np_randint `{RandomState} (low high : Z) (g : rng) : outcome Z * rng :=
  if (low <? high)%Z
  then let (v, g') := randint low high g in (Returned v, g')
  else (Raised ValueError, g).

(** [(h, w)] of the image after the resize at lines 134-140
    (PIL sizes are (width, height)). *)
Definition resized_shape (h w : nat) : nat * nat :=
  if (w <? h)%nat
  then (IMAGE_RESIZE * h / w, IMAGE_RESIZE)%nat
  else (IMAGE_RESIZE, IMAGE_RESIZE * w / h)%nat.

Definition default_angle_range : list Z := [-10; 10]%Z.

(** The references [(angle, pad_h, pad_w)] returned by
    [preprocess_aug(img, mask=False, angle_range, return_refs=True)]
    for an image of shape [(h, w)]: lines 145-161. *)
Definition preprocess_aug `{RandomState} (angle_range : list Z) (h w : nat) (g : rng)
  : outcome (Z * Z * Z) * rng :=
  let '(h', w') := resized_shape h w in
  match angle_range with
  | [] => (Raised IndexError, g)
  | lo :: _ =>
      match np_randint lo (lo + 1) g with
      | (Returned angle, g1) =>
          match np_randint 0 (Z.of_nat h' - Z.of_nat IMAGE_SIZE) g1 with
          | (Returned pad_h, g2) =>
              match np_randint 0 (Z.of_nat w' - Z.of_nat IMAGE_SIZE) g2 with
              | (Returned pad_w, g3) => (Returned (angle, pad_h, pad_w), g3)
              | (Exited s, g3) => (Exited s, g3)
              | (Raised e, g3) => (Raised e, g3)
              end
          | (Exited s, g2) => (Exited s, g2)
          | (Raised e, g2) => (Raised e, g2)
          end
      | (Exited s, g1) => (Exited s, g1)
      | (Raised e, g1) => (Raised e, g1)
      end
  end.

(** ** The numeric libraries *)

Class NumLib := {
  linalg_inv : matrix -> matrix;               (* np.linalg.inv *)
  sqrt : Q -> Q;                               (* np.sqrt inside scipy's mahalanobis *)
  resize_bilinear : nat -> nat -> matrix -> matrix;
                                               (* Image.fromarray(s).resize((w, h), BILINEAR) *)
  warp_rotate : Z -> nat -> matrix -> matrix;  (* getRotationMatrix2D(centre, angle, 1) and
                                                  warpAffine to a [size] x [size] map *)
  gaussian_filter : matrix -> matrix;          (* scipy's gaussian_filter(_, sigma=4) *)
  precision_recall_curve : list Q -> list Q -> list Q * list Q * list Q;
  opening : matrix -> matrix;                  (* morphology.opening(_, disk(4)) *)
}.

(** ** Mahalanobis distances (lines 499-506) *)

Definition vsub (u v : vector) : vector := zip_with Qminus u v.

(** [A[:, i]] *)
Definition column (A : matrix) (i : nat) : vector := map (fun row => nth i row 0%Q) A.

(** [np.dot(delta, VI)] for a vector and a matrix. *)
Definition vecmat (d : vector) (VI : matrix) : vector :=
  map (fun col => dot d col) (transpose VI).

(** scipy's [mahalanobis(u, v, VI)]. *)
Definition mahalanobis `{NumLib} (u v : vector) (VI : matrix) : Q :=
  let delta := vsub u v in
  sqrt (dot (vecmat delta VI) delta).

(** [A[:, i] = v] *)
Definition set_column (A : matrix) (i : nat) (v : vector) : matrix :=
  zip_with (fun row x => <[i := x]> row) A v.

(** [dist_tmp] of one batch: shape [(B, H * W)]. *)
Definition batch_distances `{NumLib} (train_outputs : matrix * array3)
    (HW : nat) (E : array3) : matrix :=
  fold_left (fun dist_tmp i =>
    let mean := column (fst train_outputs) i in
    let conv_inv := linalg_inv (loc_slice (snd train_outputs) i) in
    let dist := map (fun sample => mahalanobis (column sample i) mean conv_inv) E in
    set_column dist_tmp i dist)
    (seq 0 HW) (zeros2 (length E) HW).

(** ** More numpy *)

Definition lift {A} (o : outcome A) : M A := ([], o).

(** [l[i]] *)
Definition py_index {A} (l : list A) (i : nat) : M A :=
  match l !! i with
  | Some x => ret x
  | None => raise IndexError
  end.

(** [np.vstack(l)] on a list of matrices. *)
Definition np_vstack (l : list matrix) : M matrix :=
  match l with
  | [] => raise ValueError
  | _ => ret (concat l)
  end.

(** [v.reshape(H, W)] of one flat row. *)
Definition reshape_HW (H W : nat) (v : vector) : matrix :=
  map (fun r => take W (drop (r * W) v)) (seq 0 H).

(** [D.reshape(N, H, W)] for [D] of shape [(rows, H * W)]. *)
Definition np_reshape_NHW (N H W : nat) (D : matrix) : M array3 :=
  if (length (concat D) =? N * H * W)%nat
  then ret (map (reshape_HW H W) D)
  else raise ValueError.

(** [np.pad(A, ((top, bottom), (left, right)))]: zero padding; a negative
    width raises. *)
Definition np_pad (A : matrix) (top bottom left right : Z) : M matrix :=
  if ((top <? 0) || (bottom <? 0) || (left <? 0) || (right <? 0))%Z
  then raise ValueError
  else
    let w := (Z.to_nat left + length (hd [] A) + Z.to_nat right)%nat in
    ret (repeat (repeat 0%Q w) (Z.to_nat top)
         ++ map (fun row => repeat 0%Q (Z.to_nat left) ++ row ++ repeat 0%Q (Z.to_nat right)) A
         ++ repeat (repeat 0%Q w) (Z.to_nat bottom)).

(** [(height, width)] of a matrix. *)
Definition shape2 (A : matrix) : nat * nat := (length A, length (hd [] A)).

(** [a.max()] and [a.min()] over all entries; an empty array raises. *)
Definition np_max (l : list Q) : M Q :=
  match l with
  | [] => raise ValueError
  | x :: r => ret (fold_left Qmax r x)
  end.

Definition np_min (l : list Q) : M Q :=
  match l with
  | [] => raise ValueError
  | x :: r => ret (fold_left Qmin r x)
  end.

Definition flatten3 (A : array3) : list Q := concat (concat A).

(** [np.argmax(l)]: the first index of the maximum. *)
Fixpoint argmax_from (best : Q) (ibest : nat) (i : nat) (l : list Q) : nat :=
  match l with
  | [] => ibest
  | x :: r => if Qlt_le_dec best x
              then argmax_from x i (S i) r
              else argmax_from best ibest (S i) r
  end.

Definition np_argmax (l : list Q) : M nat :=
  match l with
  | [] => raise ValueError
  | x :: r => ret (argmax_from x 0 1 r)
  end.

(** [score_map.reshape(aug_num, -1, R, R)] followed by [np.mean(_, axis=0)]:
    entry [j] is the mean of the maps [j], [n + j], [2n + j], ... *)
Definition mean_over_laps (aug_num : Z) (R : nat) (score_map : array3) : M array3 :=
  if (aug_num <=? 0)%Z then raise ValueError
  else
    let k := Z.to_nat aug_num in
    let n := (length score_map / k)%nat in
    if (n * k =? length score_map)%nat then
      ret (map (fun j =>
             mdiv (np_sum0 R R (map (fun lap => nth (lap * n + j) score_map []) (seq 0 k)))
                  (inject_Z aug_num))
             (seq 0 n))
    else raise ValueError.

(** ** [recognize_from_image]: the test loop (lines 386-509) *)

Section TestLoop.
Context `{Env} `{Backbone} `{NumLib} `{RandomState}.

(** The Python variables that live across the test loops.  [te_pad_h] and
    [te_pad_w] are the plain variables [pad_h] and [pad_w], which keep the
    values unpacked for the last image; they are unbound ([None]) until
    an augmented image has been prepared. *)
Record test_state := {
  te_gt_imgs : list (option matrix);
  te_angle_list : list Z;
  te_pad_h_list : list Z;
  te_pad_w_list : list Z;
  te_pad_h : option Z;
  te_pad_w : option Z;
  te_N : nat;
  te_dist_list : list matrix;
  te_H : nat;
  te_W : nat;
  te_rng : rng;
}.

Definition test_init (g : rng) : test_state :=
  {| te_gt_imgs := []; te_angle_list := []; te_pad_h_list := []; te_pad_w_list := [];
     te_pad_h := None; te_pad_w := None; te_N := 0; te_dist_list := [];
     te_H := 0; te_W := 0; te_rng := g |}.

(** Lines 419-455: one image is prepared; [imgs] collects the batch. *)
Definition prepare_image (a : Args) (image_path : string)
    (acc : list (string * option (Z * Z * Z)) * test_state)
  : M (list (string * option (Z * Z * Z)) * test_state) :=
  let '(imgs, st) := acc in
  let gt_img := load_gt (aug a) image_path in
  if aug a then
    let '(h, w) := image_shape image_path in
    let '(o, g') := preprocess_aug default_angle_range h w (te_rng st) in
    refs <- lift o ;;
    let '(angle, pad_h, pad_w) := refs in
    ret (imgs ++ [(image_path, Some refs)],
         {| te_gt_imgs := te_gt_imgs st ++ [gt_img];
            te_angle_list := te_angle_list st ++ [angle];
            te_pad_h_list := te_pad_h_list st ++ [pad_h];
            te_pad_w_list := te_pad_w_list st ++ [pad_w];
            te_pad_h := Some pad_h;
            te_pad_w := Some pad_w;
            te_N := te_N st; te_dist_list := te_dist_list st;
            te_H := te_H st; te_W := te_W st; te_rng := g' |})
  else
    ret (imgs ++ [(image_path, None)],
         {| te_gt_imgs := te_gt_imgs st ++ [gt_img];
            te_angle_list := te_angle_list st;
            te_pad_h_list := te_pad_h_list st;
            te_pad_w_list := te_pad_w_list st;
            te_pad_h := te_pad_h st;
            te_pad_w := te_pad_w st;
            te_N := te_N st; te_dist_list := te_dist_list st;
            te_H := te_H st; te_W := te_W st; te_rng := te_rng st |}).

(** Lines 407-506: the body of the inner test loop (benchmark mode off). *)
Definition test_batch (a : Args) (train_outputs : matrix * array3)
    (i_aug i_img : nat) (st : test_state) : M test_state :=
  emit (batch_log a (input a) i_aug i_img) ;;;
  acc <- for_each (slice (input a) i_img (i_img + Z.to_nat (batch_size a)))
                  (prepare_image a) ([], st) ;;
  let '(imgs, st) := acc in
  let N := te_N st + length imgs in
  emit (Predict (length imgs)) ;;;
  let E := test_embedding i_aug imgs in
  let '(_, _, H, W) := shape4 E in
  let E := reshape_BC_HW E in
  let dist_tmp := batch_distances train_outputs (H * W) E in
  ret {| te_gt_imgs := te_gt_imgs st;
         te_angle_list := te_angle_list st;
         te_pad_h_list := te_pad_h_list st;
         te_pad_w_list := te_pad_w_list st;
         te_pad_h := te_pad_h st;
         te_pad_w := te_pad_w st;
         te_N := N;
         te_dist_list := te_dist_list st ++ [dist_tmp];
         te_H := H; te_W := W; te_rng := te_rng st |}.

(** Lines 393-509: both loops, then [np.vstack] and the reshape to
    [(N, H, W)]. *)
Definition test_loop (a : Args) (train_outputs : matrix * array3) (g : rng)
  : M (test_state * array3) :=
  laps <- (if aug a
           then emit (Log INFO "infer with augmentation") ;;; ret (aug_num a)
           else emit (Log INFO "infer without augmentation") ;;; ret 1%Z) ;;
  st <- for_each (py_range laps) (fun i_aug st =>
          starts <- py_range_step (length (input a)) (batch_size a) ;;
          for_each starts (test_batch a train_outputs i_aug) st) (test_init g) ;;
  D <- np_vstack (te_dist_list st) ;;
  dist_list <- np_reshape_NHW (te_N st) (te_H st) (te_W st) D ;;
  ret (st, dist_list).

(** ** Score maps (lines 511-544) *)

(** Without augmentation: every distance map is upsampled. *)
Definition score_map_plain (dist_list : array3) : array3 :=
  map (resize_bilinear IMAGE_SIZE IMAGE_SIZE) dist_list.

(** Lines 527-533 ("reverse crop") for image [i].  The top and left
    widths are read from the recorded lists; the bottom and right widths
    are computed from the variables [pad_h] and [pad_w]. *)
Definition reverse_crop (st : test_state) (i : nat) (score_map_tmp : matrix) : M matrix :=
  pad_top <- py_index (te_pad_h_list st) i ;;
  pad_left <- py_index (te_pad_w_list st) i ;;
  pad_h <- match te_pad_h st with Some v => ret v | None => raise UnboundLocalError end ;;
  let pad_bottom := (Z.of_nat IMAGE_RESIZE - Z.of_nat IMAGE_SIZE - pad_h)%Z in
  pad_w <- match te_pad_w st with Some v => ret v | None => raise UnboundLocalError end ;;
  let pad_right := (Z.of_nat IMAGE_RESIZE - Z.of_nat IMAGE_SIZE - pad_w)%Z in
  np_pad score_map_tmp pad_top pad_bottom pad_left pad_right.

(** Lines 534-541 ("reverse rotate") for image [i]. *)
Definition reverse_rotate (st : test_state) (i : nat) (score_map_tmp : matrix) : M matrix :=
  angle <- py_index (te_angle_list st) i ;;
  ret (warp_rotate (- angle) IMAGE_RESIZE score_map_tmp).

(** Lines 521-542: the body of the reversal loop. *)
Definition reverse_one (st : test_state) (dist_list : array3) (i : nat)
    (score_map : array3) : M array3 :=
  score_map_tmp <- py_index dist_list i ;;
  let score_map_tmp := resize_bilinear IMAGE_SIZE IMAGE_SIZE score_map_tmp in
  score_map_tmp <- reverse_crop st i score_map_tmp ;;
  score_map_tmp <- reverse_rotate st i score_map_tmp ;;
  ret (<[i := score_map_tmp]> score_map).

(** With augmentation: upsample, reverse the augmentation, average the laps. *)
Definition score_map_aug (a : Args) (st : test_state) (dist_list : array3) : M array3 :=
  score_map <- for_each (seq 0 (te_N st)) (reverse_one st dist_list)
                 (zeros3 (te_N st) IMAGE_RESIZE IMAGE_RESIZE) ;;
  mean_over_laps (aug_num a) IMAGE_RESIZE score_map.

(** ** Smoothing, normalisation and image scores (lines 546-558) *)

Definition smooth (score_map : array3) : array3 := map gaussian_filter score_map.

Definition normalize (score_map : array3) : M array3 :=
  max_score <- np_max (flatten3 score_map) ;;
  min_score <- np_min (flatten3 score_map) ;;
  ret (map (map (map (fun x => ((x - min_score) / (max_score - min_score))%Q))) score_map).

Definition anormal_scores_of (score_map : array3) : M (list Q) :=
  for_each score_map (fun m acc => v <- np_max (concat m) ;; ret (acc ++ [v])) [].

(** ** Threshold (lines 560-573) *)

(** [np.divide(a, b, out=np.zeros_like(a), where=b != 0)] *)
Definition f1_scores (precision recall : list Q) : list Q :=
  zip_with (fun p r =>
    let a := (2 * p * r)%Q in
    let b := (p + r)%Q in
    if Qeq_bool b 0 then 0%Q else (a / b)%Q) precision recall.

(** [np.asarray(gt).flatten()]; a missing mask cannot be flattened into
    numbers and makes [precision_recall_curve] raise. *)
Definition flatten_masks (gt : list (option matrix)) : M (list Q) :=
  for_each gt (fun g acc =>
    match g with
    | Some m => ret (acc ++ concat m)
    | None => raise ValueError
    end) [].

(** Lines 562-565: all masks, or the first [int(len / aug_num)] of them
    when augmentation is on. *)
Definition selected_masks (a : Args) (gt_imgs : list (option matrix))
  : M (list (option matrix)) :=
  if aug a
  then if (aug_num a =? 0)%Z then raise ZeroDivisionError
       else ret (take (Z.to_nat (Z.quot (Z.of_nat (length gt_imgs)) (aug_num a))) gt_imgs)
  else ret gt_imgs.

Definition select_threshold (a : Args) (gt_imgs : list (option matrix))
    (scores : array3) : M Q :=
  match threshold a with
  | None =>
      gt_sel <- selected_masks a gt_imgs ;;
      gt_mask <- flatten_masks gt_sel ;;
      let '(precision, recall, thresholds) :=
        precision_recall_curve gt_mask (flatten3 scores) in
      let f1 := f1_scores precision recall in
      k <- np_argmax f1 ;;
      t <- py_index thresholds k ;;
      emit (Log INFO "Optimal threshold") ;;;
      ret t
  | Some t => ret t
  end.

End TestLoop.

(** ** [plot_fig] and the arrays it shares with its caller *)

(** numpy arrays are objects: the caller and [plot_fig] hold references to
    the same [scores] array, and [scores[i]] is a view of its [i]-th map,
    not a copy.  The store maps object identities to array contents. *)
Definition loc := nat.

Inductive obj :=
| Arr2 (m : matrix)
| Arr3 (a : array3).

Abbreviation store := (gmap loc obj).

(** What a Python name can be bound to: a whole two-dimensional array, or
    the view [base[i]] of a three-dimensional one. *)
Inductive aref :=
| Whole (l : loc)
| Sub (l : loc) (i : nat).

Definition alloc (o : obj) (h : store) : loc * store :=
  let l := fresh (dom h) in (l, <[l := o]> h).

(** The current contents seen through a reference. *)
Definition read_ref (h : store) (r : aref) : M matrix :=
  match r with
  | Whole l => match h !! l with
               | Some (Arr2 m) => ret m
               | _ => raise TypeError
               end
  | Sub l i => match h !! l with
               | Some (Arr3 a) => py_index a i
               | _ => raise TypeError
               end
  end.

(** An in-place write through a reference. *)
Definition write_ref (h : store) (r : aref) (m : matrix) : store :=
  match r with
  | Whole l => <[l := Arr2 m]> h
  | Sub l i => match h !! l with
               | Some (Arr3 a) => <[l := Arr3 (<[i := m]> a)]> h
               | _ => h
               end
  end.

(** [mask[mask > t] = v] and [mask[mask <= t] = v] on the contents. *)
Definition assign_gt (t v : Q) (m : matrix) : matrix :=
  map (map (fun x => if Qlt_le_dec t x then v else x)) m.
Definition assign_le (t v : Q) (m : matrix) : matrix :=
  map (map (fun x => if Qlt_le_dec t x then x else v)) m.

Section PlotFig.
Context `{NumLib}.

(** Lines 312-374: the loop body for image [i].  Of the rendering, the
    array operations, the log line and the saved figure are kept; the
    figure is recorded with the heat map, the mask and the score it
    shows. *)
Definition plot_one (file_list : list string) (scores : loc) (anormal_scores : list Q)
    (gt_imgs : list (option matrix)) (threshold : Q) (i : nat) (h : store) : M store :=
  image_path <- py_index file_list i ;;
  gt <- py_index gt_imgs i ;;
  _ <- match gt with
       | Some g => ret g
       | None => raise AttributeError        (* None.transpose *)
       end ;;
  m <- read_ref h (Sub scores i) ;;
  let heat_map := mscale 255 m in            (* a new array *)
  let mask := Sub scores i in                (* a view *)
  m <- read_ref h mask ;;
  let h := write_ref h mask (assign_gt threshold 1 m) in
  m <- read_ref h mask ;;
  let h := write_ref h mask (assign_le threshold 0 m) in
  m <- read_ref h mask ;;
  let '(l, h) := alloc (Arr2 (opening m)) h in
  let mask := Whole l in                     (* rebound to the new array *)
  m <- read_ref h mask ;;
  let h := write_ref h mask (mscale 255 m) in
  score <- py_index anormal_scores i ;;
  emit (Log INFO "Anomaly score") ;;;
  m <- read_ref h mask ;;
  emit (SaveFig image_path heat_map m score) ;;;
  ret h.

Definition plot_fig (file_list : list string) (scores : loc) (anormal_scores : list Q)
    (gt_imgs : list (option matrix)) (threshold : Q) (h : store) : M store :=
  for_each (seq 0 (length file_list))
           (plot_one file_list scores anormal_scores gt_imgs threshold) h.

End PlotFig.

(** ** [recognize_from_image] and [main] *)

Section Main.
Context `{Env} `{Backbone} `{NumLib} `{RandomState}.

Record report := {
  r_scores : loc;                 (* the normalised [scores] array *)
  r_store : store;                (* the arrays when the function returns *)
  r_score_map : array3;           (* the smoothed maps before normalisation *)
  r_anormal_scores : list Q;
  r_threshold : Q;
}.

Definition recognize_from_image (a : Args) (g : rng) : M report :=
  train_outputs <- get_train_outputs a ;;
  r <- test_loop a train_outputs g ;;
  let '(st, dist_list) := r in
  score_map <- (if aug a
                then score_map_aug a st dist_list
                else ret (score_map_plain dist_list)) ;;
  let score_map := smooth score_map in
  scores <- normalize score_map ;;
  anormal_scores <- anormal_scores_of score_map ;;
  threshold <- select_threshold a (te_gt_imgs st) scores ;;
  let '(l, h) := alloc (Arr3 scores) ∅ in
  h <- plot_fig (input a) l anormal_scores (te_gt_imgs st) threshold h ;;
  emit (Log INFO "Script finished successfully.") ;;;
  ret {| r_scores := l; r_store := h; r_score_map := score_map;
         r_anormal_scores := anormal_scores; r_threshold := threshold |}.

Definition main (a : Args) (g : rng) : M unit :=
  emit Download ;;;
  if (length (input a) =? 0)%nat then
    emit (Log ERROR "Input file not found") ;;;
    ret tt
  else
    recognize_from_image a g ;;;
    ret tt.

End Main.

(** ** Shapes *)

Definition is_shape1 (n : nat) (v : vector) : bool := (length v =? n)%nat.
Definition is_shape2 (r c : nat) (A : matrix) : bool :=
  (length A =? r)%nat && forallb (is_shape1 c) A.
Definition is_shape3 (a b c : nat) (A : array3) : bool :=
  (length A =? a)%nat && forallb (is_shape2 b c) A.
Definition is_shape4 (a b c d : nat) (A : array4) : bool :=
  (length A =? a)%nat && forallb (is_shape3 b c d) A.

(** The network keeps the batch dimension and gives every image [C]
    selected channels of [H] by [W] features. *)
Class BackboneLaws `{Backbone} (C H W : nat) : Prop := {
  train_embedding_shape : forall aug lap imgs,
    is_shape4 (length imgs) C H W (train_embedding aug lap imgs) = true;
  test_embedding_shape : forall lap imgs,
    is_shape4 (length imgs) C H W (test_embedding lap imgs) = true;
}.

(** ** Vocabulary of the statements *)

(** [Rect r c A]: [A] has shape [(r, c)]; [Box a b c A]: shape [(a, b, c)]. *)
Definition Rect (r c : nat) (A : matrix) : Prop :=
  length A = r /\ Forall (fun row => length row = c) A.

Definition Box (a b c : nat) (A : array3) : Prop :=
  length A = a /\ Forall (Rect b c) A.

(** Writing one location of a [(C, C', HW)] array: [cov[:, :, i] = f(old, M)]. *)
Definition update_loc (f : Q -> Q -> Q) (cov : array3) (i : nat) (M : matrix) : array3 :=
  zip_with (zip_with (fun v x => <[i := f (nth i v 0%Q) x]> v)) cov M.

(** The matrix [m.T @ m] added to [cov[:, :, i]] for one batch. *)
Definition scatter (mean : matrix) (N : nat) (E : array3) (i : nat) : matrix :=
  let m := loc_slice E i in
  let m := msub_row m (mdiv (transpose (col_keepdim mean i)) (nat2Q N)) in
  matmul (transpose m) m.

(** The value stored for one covariance entry [(c1, c2)] whose accumulated
    value is [x]. *)
Definition regularized (N : nat) (c1 c2 : nat) (x : Q) : Q :=
  (x / inject_Z (Z.of_nat N - 1) + (1 # 100) * (if Nat.eqb c1 c2 then 1 else 0))%Q.

(** A pixel above the threshold becomes 1, any other pixel 0. *)
Definition binarize (t : Q) (m : matrix) : matrix :=
  map (map (fun x => if Qlt_le_dec t x then 1%Q else 0%Q)) m.

(** F1 of one point of the curve. *)
Definition f1_of (p r : Q) : Q :=
  if Qeq_bool (p + r) 0 then 0%Q else (2 * p * r / (p + r))%Q.

(** Number of augmentation laps. *)
Definition laps_of (a : Args) : Z := if aug a then aug_num a else 1%Z.

(** The (lap, first image index) pairs in the order the loops visit them. *)
Definition schedule (a : Args) (n_imgs : nat) : list (nat * nat) :=
  flat_map (fun lap => map (pair lap) (range_step n_imgs (Z.to_nat (batch_size a))))
           (py_range (laps_of a)).

Definition stats_or_zero (C HW : nat) (o : option (matrix * array3)) : matrix * array3 :=
  match o with
  | Some p => p
  | None => (zeros2 C HW, zeros3 C C HW)
  end.

(** The reshaped embeddings of the training batch that starts at image
    [snd p] on lap [fst p]: one [(C, H * W)] matrix per sample. *)
Definition batch_of `{Backbone} (a : Args) (imgs : list string) (p : nat * nat) : array3 :=
  reshape_BC_HW
    (train_embedding (aug a) (fst p)
       (slice imgs (snd p) (snd p + Z.to_nat (batch_size a)))).

(** What the body of the training loop does to the state. *)
Definition train_step `{Backbone} (a : Args) (imgs : list string)
    (st : train_state) (p : nat * nat) : train_state :=
  let chunk := slice imgs (snd p) (snd p + Z.to_nat (batch_size a)) in
  let N := (ts_N st + length chunk)%nat in
  let E := train_embedding (aug a) (fst p) chunk in
  let '(_, C, H, W) := shape4 E in
  {| ts_stats := Some (accumulate N C (H * W) (reshape_BC_HW E) (ts_stats st));
     ts_N := N; ts_C := C; ts_HW := (H * W)%nat |}.

(** The state after some batches: [N] counts their samples, [mean] holds
    the entry-wise sum of the samples, and both arrays keep their shape. *)
Definition train_inv (C H W : nat) (st : train_state) (samples : list matrix) : Prop :=
  ts_N st = length samples /\
  Rect C (H * W) (fst (stats_or_zero C (H * W) (ts_stats st))) /\
  Box C C (H * W) (snd (stats_or_zero C (H * W) (ts_stats st))) /\
  forall c i, (c < C)%nat -> (i < H * W)%nat ->
    (get2 (fst (stats_or_zero C (H * W) (ts_stats st))) c i
     == sumQ (map (fun s => get2 s c i) samples))%Q.

(** The reference the streaming accumulation is compared with: the sample
    covariance of all vectors at location [i], computed in one pass with
    the mean of all of them ([np.cov]). *)
Definition sample_mean (samples : list matrix) (i c : nat) : Q :=
  (sumQ (map (fun s => get2 s c i) samples) / nat2Q (length samples))%Q.

Definition sample_covariance (samples : list matrix) (i c1 c2 : nat) : Q :=
  (sumQ (map (fun s => (get2 s c1 i - sample_mean samples i c1)
                       * (get2 s c2 i - sample_mean samples i c2)) samples)
   / inject_Z (Z.of_nat (length samples) - 1))%Q.

(** The figures a run saved, in order. *)
Fixpoint figures (tr : list event) : list (string * matrix * matrix * Q) :=
  match tr with
  | [] => []
  | SaveFig p heat mask score :: r => (p, heat, mask, score) :: figures r
  | _ :: r => figures r
  end.

(** A computation that saves no figure. *)
Definition quiet {A} (m : M A) : Prop := figures (trace m) = [].

(** The test state with the masks of one more batch. *)
Definition with_gt `{RandomState} (st : test_state) (gts : list (option matrix)) : test_state :=
  {| te_gt_imgs := te_gt_imgs st ++ gts;
     te_angle_list := te_angle_list st;
     te_pad_h_list := te_pad_h_list st;
     te_pad_w_list := te_pad_w_list st;
     te_pad_h := te_pad_h st;
     te_pad_w := te_pad_w st;
     te_N := te_N st; te_dist_list := te_dist_list st;
     te_H := te_H st; te_W := te_W st; te_rng := te_rng st |}.

(** What the body of the test loop does to the state without augmentation. *)
Definition test_step `{Env} `{Backbone} `{NumLib} `{RandomState}
    (a : Args) (train_outputs : matrix * array3) (st : test_state) (p : nat * nat)
  : test_state :=
  let chunk := slice (input a) (snd p) (snd p + Z.to_nat (batch_size a)) in
  let imgs := map (fun path => (path, @None (Z * Z * Z))) chunk in
  let st := with_gt st (map (load_gt false) chunk) in
  let E := test_embedding (fst p) imgs in
  let '(_, _, H, W) := shape4 E in
  {| te_gt_imgs := te_gt_imgs st;
     te_angle_list := te_angle_list st;
     te_pad_h_list := te_pad_h_list st;
     te_pad_w_list := te_pad_w_list st;
     te_pad_h := te_pad_h st;
     te_pad_w := te_pad_w st;
     te_N := (te_N st + length imgs)%nat;
     te_dist_list := te_dist_list st ++ [batch_distances train_outputs (H * W) (reshape_BC_HW E)];
     te_H := H; te_W := W; te_rng := te_rng st |}.

(** The libraries keep shapes: resizing gives the requested size, smoothing
    keeps the size of its argument. *)
Class NumLibLaws `{NumLib} : Prop := {
  resize_bilinear_shape : forall w h m, Rect h w (resize_bilinear w h m);
  gaussian_filter_shape : forall r c m, Rect r c m -> Rect r c (gaussian_filter m);
}.

(** The test state after the images [done], without augmentation: one
    distance row of [H * W] entries and one mask per image. *)
Definition test_inv `{Env} `{RandomState} (H W : nat) (st : test_state)
    (done : list string) : Prop :=
  te_N st = length done /\
  te_gt_imgs st = map (load_gt false) done /\
  Forall (fun row : list Q => length row = (H * W)%nat) (concat (te_dist_list st)) /\
  length (concat (te_dist_list st)) = length done /\
  (done <> [] -> te_dist_list st <> [] /\ (te_H st * te_W st = H * W)%nat).

(** [out] is the map of the prepared image [i] after the reversal of lines
    521-541: its distance map is upsampled to 224 x 224, padded with the
    top and left offsets recorded for image [i] and with the bottom and
    right widths that the variables [pad_h] and [pad_w] give, and rotated
    by the negated angle recorded for image [i]. *)
Definition reversed_map `{NumLib} `{RandomState} (st : test_state) (dist_list : array3)
    (i : nat) (out : matrix) : Prop :=
  exists d top left pad_h pad_w angle padded,
    dist_list !! i = Some d /\
    te_pad_h_list st !! i = Some top /\ te_pad_w_list st !! i = Some left /\
    te_pad_h st = Some pad_h /\ te_pad_w st = Some pad_w /\
    te_angle_list st !! i = Some angle /\
    np_pad (resize_bilinear IMAGE_SIZE IMAGE_SIZE d)
           top (Z.of_nat IMAGE_RESIZE - Z.of_nat IMAGE_SIZE - pad_h)
           left (Z.of_nat IMAGE_RESIZE - Z.of_nat IMAGE_SIZE - pad_w) = ret padded /\
    out = warp_rotate (- angle) IMAGE_RESIZE padded.

(** Every array of [l] is the [dist_tmp] of some test batch scored against
    [train_outputs]. *)
Definition distances_of_batches `{Backbone} `{NumLib} (train_outputs : matrix * array3)
    (l : list matrix) : Prop :=
  Forall (fun D => exists HW lap batch,
            D = batch_distances train_outputs HW (reshape_BC_HW (test_embedding lap batch))) l.

(** ** A small concrete installation

    Stand-ins for the file system, the network and the libraries, used to
    run the model on concrete inputs.  The network has one selected
    channel and a 1 x 1 feature map; the library stand-ins keep the shapes
    of the real functions. *)
Module Demo.

Definition listing (dir : string) : list string :=
if String.eqb dir "train" then ["b.png"; "a.png"; "notes.txt"] else ["notes.txt"].

Definition env : Env :=
{| listdir := listing;
   pickle_load := fun _ => ([], []);
   image_shape := fun _ => (300, 300)%nat;
   load_gt := fun _ _ => Some [[0; 1]; [1; 0]]%Q |}.

Definition feature (path : string) : list (list (list Q)) :=
if String.eqb path "train/a.png" then [[[0%Q]]]
else if String.eqb path "train/b.png" then [[[2%Q]]]
else [[[5%Q]]].

Definition net : Backbone :=
{| train_embedding := fun _ _ imgs => map feature imgs;
   test_embedding := fun _ imgs => map (fun p => feature (fst p)) imgs |}.

(** Inverse of a 1 x 1 matrix. *)
Definition inv_1x1 (m : matrix) : matrix := [[ / get2 m 0 0 ]]%Q.

(** Square root, exact on fractions of perfect squares. *)
Definition sqrt_floor (x : Q) : Q :=
(inject_Z (Z.sqrt (Qnum x)) / inject_Z (Z.sqrt (Zpos (Qden x))))%Q.

(** Nearest-neighbour resampling to [h] rows and [w] columns. *)
Definition resample (w h : nat) (m : matrix) : matrix :=
map (fun r => map (fun c => get2 m (r * length m / h) (c * length (hd [] m) / w))
                  (seq 0 w))
    (seq 0 h).

(** The map cut or zero-extended to [size] x [size], without rotation. *)
Definition recentre (angle : Z) (size : nat) (m : matrix) : matrix :=
map (fun r => map (fun c => get2 m r c) (seq 0 size)) (seq 0 size).

Definition fixed_curve (y_true probas : list Q) : list Q * list Q * list Q :=
([1 # 2; 1; 1], [1; 1 # 2; 0], [1 # 4; 3 # 4])%Q.

Definition lib : NumLib :=
{| linalg_inv := inv_1x1;
   sqrt := sqrt_floor;
   resize_bilinear := resample;
   warp_rotate := recentre;
   gaussian_filter := fun m => m;
   precision_recall_curve := fixed_curve;
   opening := fun m => m |}.

(** A linear congruential generator; the draw is reduced into [[low, high)]. *)
Definition lcg : RandomState :=
{| rng := Z;
   randint := fun low high g => ((low + g mod (high - low))%Z, (g * 7 + 3)%Z) |}.

Definition seed : Z := 5%Z.

(** [padim.py -tr train -bs <bs> -i x.png train/a.png] *)
Definition args (bs : Z) : Args :=
{| feat := None; batch_size := bs; train_dir := "train";
   aug := false; aug_num := 5; threshold := None;
   input := ["x.png"; "train/a.png"] |}.

(** The same with [--aug -an 2]. *)
Definition aug_args : Args :=
{| feat := None; batch_size := 1; train_dir := "train";
   aug := true; aug_num := 2; threshold := None;
   input := ["x.png"; "train/a.png"] |}.

(** [padim.py -tr empty] with no input image. *)
Definition empty_args : Args :=
{| feat := None; batch_size := 32; train_dir := "empty";
   aug := false; aug_num := 5; threshold := None; input := [] |}.

(** The train outputs of a run, for use by the test loop. *)
Definition trained (a : Args) : matrix * array3 :=
match result (@get_train_outputs env net a) with
| Returned t => t
| _ => ([], [])
end.

(** [padim.py -tr train -bs 1 -th 0.5 -i x.png train/a.png] *)
Definition threshold_args : Args :=
{| feat := None; batch_size := 1; train_dir := "train";
 aug := false; aug_num := 5; threshold := Some (1 # 2)%Q;
 input := ["x.png"; "train/a.png"] |}.

End Demo.

(** * Further parts of [padim.py] *)

(** ** Python strings and paths *)

(** [c in s] for a single character [c]. *)
Fixpoint contains_char (c : ascii) (s : string) : bool :=
  match s with
  | EmptyString => false
  | String x r => Ascii.eqb x c || contains_char c r
  end.

(** [s.split(c)]: the pieces between the occurrences of [c]; there is
    always at least one piece. *)
Fixpoint split_char (c : ascii) (s : string) : list string :=
  match s with
  | EmptyString => [EmptyString]
  | String x r =>
      if Ascii.eqb x c then EmptyString :: split_char c r
      else match split_char c r with
           | p :: ps => String x p :: ps
           | [] => [String x EmptyString]
           end
  end.

(** [s.split(c)[-1]] *)
Definition last_piece (c : ascii) (s : string) : string :=
  List.last (split_char c s) EmptyString.

(** [s.replace(old, new)] for a non-empty [old]: the text is scanned from
    the left, every occurrence of [old] found is replaced and the scan
    goes on behind it.  [skip] counts the characters of the occurrence
    that are still to be passed over. *)
Fixpoint replace_from (old new : string) (skip : nat) (s : string) : string :=
  match s with
  | EmptyString => EmptyString
  | String x r =>
      match skip with
      | S k => replace_from old new k r
      | O => if String.prefix old s
             then (new ++ replace_from old new (String.length old - 1) r)%string
             else String x (replace_from old new 0 r)
      end
  end.

(** With an empty [old], [new] is put before every character and at the end. *)
Fixpoint interleave (new s : string) : string :=
  match s with
  | EmptyString => new
  | String x r => (new ++ String x (interleave new r))%string
  end.

Definition py_replace (old new s : string) : string :=
  match old with
  | EmptyString => interleave new s
  | _ => replace_from old new 0 s
  end.

(** [os.path.basename(p)]: what follows the last '/'. *)
Definition basename (p : string) : string := last_piece "/" p.

(** [s.rfind(c)]: the last index of [c], if any. *)
Fixpoint rfind_from (c : ascii) (i : nat) (s : string) : option nat :=
  match s with
  | EmptyString => None
  | String x r =>
      match rfind_from c (S i) r with
      | Some j => Some j
      | None => if Ascii.eqb x c then Some i else None
      end
  end.

Definition rfind (c : ascii) (s : string) : option nat := rfind_from c 0 s.

(** Some character of [s] differs from [c]. *)
Fixpoint has_other (c : ascii) (s : string) : bool :=
  match s with
  | EmptyString => false
  | String x r => negb (Ascii.eqb x c) || has_other c r
  end.

(** [os.path.splitext(p)[0]]: [p] is cut at its last dot, if that dot
    comes after the last '/' and something other than dots stands
    between them. *)
Definition splitext_root (p : string) : string :=
  match rfind "." p with
  | None => p
  | Some dotIndex =>
      let filenameIndex := match rfind "/" p with Some s => S s | None => 0%nat end in
      if (filenameIndex <=? dotIndex)%nat
         && has_other "." (String.substring filenameIndex (dotIndex - filenameIndex) p)
      then String.substring 0 dotIndex p
      else p
  end.

(** ** Names of the files the script reads and writes *)

(** [utils.get_savepath], which is not part of this file. *)
Class Utils := {
  get_savepath : string -> string -> string -> string;
}.

(** Lines 365-371 of [plot_fig]: where the figure of [image_path] is saved. *)
Definition savepath_tmp `{Utils} (savepath image_path : string) : string :=
  if contains_char "." (last_piece "/" savepath)
  then get_savepath savepath image_path ".png"
  else
    let filename_tmp := last_piece "/" image_path in
    let ext_tmp := ("." ++ last_piece "." filename_tmp)%string in
    let filename_tmp := py_replace ext_tmp ".png" filename_tmp in
    (savepath ++ "/" ++ filename_tmp)%string.

(** Line 291 of [get_train_outputs]: the file the learned distribution is
    saved to, relative to the working directory. *)
Definition train_feat_file (train_dir : string) : string :=
  (basename train_dir ++ ".pkl")%string.

(** Lines 437-438 of [recognize_from_image]: the mask file looked up for
    a test image. *)
Definition gt_fpath (gt_type_dir image_path : string) : string :=
  let fname := splitext_root (basename image_path) in
  path_join gt_type_dir (fname ++ "_mask.png").

(** ** Benchmark mode (lines 468-480 of [recognize_from_image]) *)

(** The clock: [now_ms k] is the [k]-th value of
    [int(round(time.time() * 1000))] read during the run. *)
Class Clock := {
  now_ms : nat -> Z;
}.

(** One iteration of the timing loop; the state is the number of clock
    readings so far and [total_time]. *)
Definition benchmark_iteration `{Clock} (batch : nat) (i : nat) (st : nat * Z)
  : M (nat * Z) :=
  let '(tick, total_time) := st in
  let start := now_ms tick in
  emit (Predict batch) ;;;
  let end_ := now_ms (S tick) in
  emit (Log INFO "ailia processing time") ;;;
  ret (S (S tick), if (i =? 0)%nat then total_time else (total_time + (end_ - start))%Z).

(** The inference step for one batch.  The value returned with the clock
    position is the average that the last log line reports, when there is
    one. *)
Definition predict_batch `{Clock} (benchmark : bool) (benchmark_count : Z)
    (batch tick : nat) : M (nat * option Q) :=
  if benchmark then
    emit (Log INFO "BENCHMARK mode") ;;;
    st <- for_each (py_range benchmark_count) (benchmark_iteration batch) (tick, 0%Z) ;;
    let '(tick, total_time) := st in
    if (benchmark_count - 1 =? 0)%Z then raise ZeroDivisionError
    else
      let average := (inject_Z total_time / inject_Z (benchmark_count - 1))%Q in
      emit (Log INFO "average time") ;;;
      ret (tick, Some average)
  else
    emit (Predict batch) ;;;
    ret (tick, None).

(** The time the [i]-th timed inference took, the readings starting at [tick]. *)
Definition elapsed `{Clock} (tick i : nat) : Z :=
  (now_ms (tick + 2 * i + 1) - now_ms (tick + 2 * i))%Z.

Definition sumZ (l : list Z) : Z := fold_right Z.add 0%Z l.

(** ** [preprocess] and [preprocess_aug] on images

    An image is an array of shape (height, width, channels).  PIL,
    OpenCV and [image_utils.normalize_image] are not part of this file. *)

Class ImageLib := {
  pil_resize : bool -> nat -> nat -> array3 -> array3;
    (* np.array(Image.fromarray(img).resize((w, h), NEAREST if mask else ANTIALIAS)) *)
  warp_affine : Z -> array3 -> array3;
    (* getRotationMatrix2D((w / 2, h / 2), angle, 1) and warpAffine with dsize=(w, h) *)
  normalize_image : array3 -> array3;
    (* normalize_image(img.astype(np.float32), 'ImageNet') *)
}.

(** The libraries keep the number of channels; resizing gives the size
    asked for, rotating and normalising keep the size. *)
Class ImageLibLaws `{ImageLib} : Prop := {
  pil_resize_shape : forall mask w h h0 w0 c img,
    (0 < h0)%nat -> (0 < w0)%nat -> Box h0 w0 c img -> Box h w c (pil_resize mask w h img);
  warp_affine_shape : forall angle h w c img,
    Box h w c img -> Box h w c (warp_affine angle img);
  normalize_image_shape : forall h w c img,
    Box h w c img -> Box h w c (normalize_image img);
}.

(** [l[start:stop]] with Python's treatment of negative and too large
    bounds. *)
Definition py_slice {A} (l : list A) (start stop : Z) : list A :=
  let n := Z.of_nat (length l) in
  let norm := fun i : Z => if (i <? 0)%Z then Z.max (i + n) 0 else Z.min i n in
  take (Z.to_nat (norm stop - norm start)) (drop (Z.to_nat (norm start)) l).

(** [h, w = img.shape[:2]] *)
Definition shape_hw (img : array3) : nat * nat := (length img, length (hd [] img)).

(** Lines 104-107 and 135-138: the size (width, height) passed to
    [resize]; the longer side is [int(size * long / short)] and a side of
    length 0 makes the division raise. *)
Definition resize_size (h w : nat) : M (nat * nat) :=
  if (w <? h)%nat
  then if (w =? 0)%nat then raise ZeroDivisionError
       else ret (IMAGE_RESIZE, (IMAGE_RESIZE * h / w)%nat)
  else if (h =? 0)%nat then raise ZeroDivisionError
       else ret ((IMAGE_RESIZE * w / h)%nat, IMAGE_RESIZE).

(** [img[pad_h:pad_h + crop_size, pad_w:pad_w + crop_size, :]] *)
Definition crop (img : array3) (pad_h pad_w : Z) : array3 :=
  map (fun row => py_slice row pad_w (pad_w + Z.of_nat IMAGE_SIZE))
      (py_slice img pad_h (pad_h + Z.of_nat IMAGE_SIZE)).

(** [img / 255] *)
Definition scale_255 (img : array3) : array3 := map (map (map (fun x => x / 255)%Q)) img.

(** [img.transpose(2, 0, 1)]: height, width, channels to channels,
    height, width. *)
Definition hwc_to_chw (img : array3) : array3 :=
  map (fun k => map (map (fun px => nth k px 0%Q)) img)
      (seq 0 (length (hd [] (hd [] img)))).

(** Lines 98-126. *)
Definition preprocess `{ImageLib} (img : array3) (mask : bool) : M array4 :=
  let '(h, w) := shape_hw img in
  size <- resize_size h w ;;
  let img := pil_resize mask (fst size) (snd size) img in
  let '(h, w) := shape_hw img in
  let pad_h := ((Z.of_nat h - Z.of_nat IMAGE_SIZE) / 2)%Z in
  let pad_w := ((Z.of_nat w - Z.of_nat IMAGE_SIZE) / 2)%Z in
  let img := crop img pad_h pad_w in
  let img := if mask then scale_255 img else normalize_image img in
  ret [hwc_to_chw img].

(** Sequencing for code that draws random numbers and may raise. *)
Definition rbind `{RandomState} {A B} (m : outcome A * rng)
    (f : A -> rng -> outcome B * rng) : outcome B * rng :=
  match m with
  | (Returned x, g) => f x g
  | (Exited s, g) => (Exited s, g)
  | (Raised e, g) => (Raised e, g)
  end.

(** Lines 129-175: the whole of [preprocess_aug].  [angle], [pad_h] and
    [pad_w] are bound only when [mask] is false. *)
Definition preprocess_aug_image `{ImageLib} `{RandomState}
    (img : array3) (mask : bool) (angle_range : list Z) (return_refs : bool) (g : rng)
  : outcome (array4 * option (array3 * Z * Z * Z)) * rng :=
  let '(h, w) := shape_hw img in
  rbind (result (resize_size h w), g) (fun size g =>
  let img := pil_resize mask (fst size) (snd size) img in
  let img_resized := img in
  rbind (if mask then (Returned (img, None), g)
         else match angle_range with
              | [] => (Raised IndexError, g)
              | lo :: _ =>
                  rbind (np_randint lo (lo + 1) g) (fun angle g =>
                  (Returned (warp_affine angle img, Some angle), g))
              end) (fun rotated g =>
  let '(img, angle) := rotated in
  rbind (if mask then (Returned (img, None), g)
         else let '(h, w) := shape_hw img in
              rbind (np_randint 0 (Z.of_nat h - Z.of_nat IMAGE_SIZE) g) (fun pad_h g =>
              rbind (np_randint 0 (Z.of_nat w - Z.of_nat IMAGE_SIZE) g) (fun pad_w g =>
              (Returned (crop img pad_h pad_w, Some (pad_h, pad_w)), g)))) (fun cropped g =>
  let '(img, pads) := cropped in
  let img := if mask then scale_255 img else normalize_image img in
  let out := [hwc_to_chw img] in
  if return_refs then
    match angle, pads with
    | Some angle, Some (pad_h, pad_w) =>
        (Returned (out, Some (img_resized, angle, pad_h, pad_w)), g)
    | _, _ => (Raised UnboundLocalError, g)
    end
  else (Returned (out, None), g)))).

(** * Further vocabulary *)

(** The sizes of the batches passed to [net.predict], in order. *)
Fixpoint predicts (tr : list event) : list nat :=
  match tr with
  | [] => []
  | Predict n :: r => n :: predicts r
  | _ :: r => predicts r
  end.

(** The feature file is written as many times as [PickleDump] occurs. *)
Fixpoint dumps (tr : list event) : nat :=
  match tr with
  | [] => 0
  | PickleDump _ :: r => S (dumps r)
  | _ :: r => dumps r
  end.

(** The batches of one lap over [files]. *)
Definition batches_of (a : Args) (files : list string) : list (list string) :=
  map (fun i => slice files i (i + Z.to_nat (batch_size a)))
      (range_step (length files) (Z.to_nat (batch_size a))).

(** The pieces [ps] written one after the other, each behind a dot. *)
Definition dotted (ps : list string) : string :=
  fold_right (fun p acc => String "." (p ++ acc)%string) EmptyString ps.

(** [s] without its first [n] characters. *)
Fixpoint string_drop (n : nat) (s : string) : string :=
  match n, s with
  | S k, String _ r => string_drop k r
  | _, _ => s
  end.

(** What [replace] makes of [dotted ps] when ".e" is replaced by ".png":
    a piece that starts with [e] loses [e] and gets "png" instead. *)
Definition renamed (e : string) (ps : list string) : string :=
  fold_right (fun p acc =>
      if String.prefix e p then (".png" ++ string_drop (String.length e) p ++ acc)%string
      else String "." (p ++ acc)%string) EmptyString ps.

(** The shape of the image at [path] after the resize of [preprocess_aug]. *)
Definition resized_of `{Env} (path : string) : nat * nat :=
  resized_shape (fst (image_shape path)) (snd (image_shape path)).

(** What the test loops have recorded after preparing the images [done]
    with augmentation: one mask slot, one angle (always -10) and one pair
    of crop offsets per image, each offset within the range of its
    image, and in [pad_h], [pad_w] the offsets of the image prepared
    last. *)
Definition aug_records `{Env} `{RandomState} (st : test_state) (done : list string) : Prop :=
  te_gt_imgs st = map (load_gt true) done /\
  te_angle_list st = map (fun _ => (-10)%Z) done /\
  Forall2 (fun p pad_h =>
             (0 <= pad_h < Z.of_nat (fst (resized_of p)) - Z.of_nat IMAGE_SIZE)%Z)
          done (te_pad_h_list st) /\
  Forall2 (fun p pad_w =>
             (0 <= pad_w < Z.of_nat (snd (resized_of p)) - Z.of_nat IMAGE_SIZE)%Z)
          done (te_pad_w_list st) /\
  te_pad_h st = last (te_pad_h_list st) /\
  te_pad_w st = last (te_pad_w_list st).

(** The distance rows collected for the images [done]: one row of
    [H * W] entries per image. *)
Definition dist_records `{RandomState} (H W : nat) (st : test_state) (done : list string)
  : Prop :=
  te_N st = length done /\
  Forall (fun row : list Q => length row = (H * W)%nat) (concat (te_dist_list st)) /\
  length (concat (te_dist_list st)) = length done /\
  (done <> [] -> te_dist_list st <> [] /\ (te_H st * te_W st = H * W)%nat).

(** [warpAffine] with [dsize = (size, size)] gives a map of that size. *)
Class WarpLaws `{NumLib} : Prop := {
  warp_rotate_shape : forall angle size m, Rect size size (warp_rotate angle size m);
}.

(** The network treats the images of a batch one by one. *)
Class BackbonePerImage `{Backbone} : Prop := {
  test_embedding_per_image : forall lap imgs,
    test_embedding lap imgs = flat_map (fun x => test_embedding lap [x]) imgs;
}.

(** The reshaped embedding of one test image, passed through the network
    on its own without augmentation: shape (C, H * W). *)
Definition sample_of `{Backbone} (path : string) : matrix :=
  hd [] (reshape_BC_HW (test_embedding 0 [(path, None)])).

(** The distances of one sample at the locations [0 .. HW - 1]. *)
Definition distance_row `{NumLib} (train_outputs : matrix * array3) (HW : nat)
    (sample : matrix) : vector :=
  map (fun i => mahalanobis (column sample i) (column (fst train_outputs) i)
                            (linalg_inv (loc_slice (snd train_outputs) i)))
      (seq 0 HW).

(** * Floating-point arithmetic

    The arrays of the script hold IEEE 754 numbers: [mean] is a
    [float32] array (line 270), the score maps are [float32] without
    augmentation and [float64] with it.  The lines whose result depends on
    the rounding are written here over an arbitrary arithmetic, so that
    they can be read with exact rationals and with the binary formats. *)

(** The scalar operations of one array dtype. *)
Class Dtype := {
  num : Type;
  fzero : num;
  fone : num;
  fadd : num -> num -> num;
  fsub : num -> num -> num;
  fdiv : num -> num -> num;
  of_int : Z -> num;             (* the conversion of a Python int *)
  fleb : num -> num -> bool;     (* x <= y *)
  is_nan : num -> bool;
  is_finite : num -> bool;       (* neither nan nor an infinity *)
  value : num -> option Q;       (* the number a finite value stands for *)
}.

Definition fle `{Dtype} (x y : num) : Prop := fleb x y = true.
Definition flt `{Dtype} (x y : num) : Prop := fleb x y = true /\ fleb y x = false.

(** Exact rational arithmetic. *)
Definition exact : Dtype :=
{| num := Q; fzero := 0%Q; fone := 1%Q;
   fadd := Qplus; fsub := Qminus; fdiv := Qdiv;
   of_int := inject_Z;
   fleb := Qle_bool;
   is_nan := fun _ => false;
   is_finite := fun _ => true;
   value := Some |}.

(** The number a finite binary floating-point value stands for, as a
    reduced fraction. *)
Definition SF2Q (x : SpecFloat.spec_float) : option Q :=
  match x with
  | SpecFloat.S754_zero _ => Some 0%Q
  | SpecFloat.S754_finite s m e =>
      Some (Qred (inject_Z (SpecFloat.cond_Zopp s (Zpos m)) * Qpower 2 e))
  | _ => None
  end.

(** The IEEE 754 binary format with [prec] bits of precision and
    exponents below [emax], rounding to nearest, ties to even. *)
Definition binary (prec emax : Z) : Dtype :=
{| num := SpecFloat.spec_float;
   fzero := SpecFloat.S754_zero false;
   fone := SpecFloat.binary_normalize prec emax 1 0 false;
   fadd := SpecFloat.SFadd prec emax;
   fsub := SpecFloat.SFsub prec emax;
   fdiv := SpecFloat.SFdiv prec emax;
   of_int := fun n => SpecFloat.binary_normalize prec emax n 0 false;
   fleb := SpecFloat.SFleb;
   is_nan := fun x => match x with SpecFloat.S754_nan => true | _ => false end;
   is_finite := fun x => match x with
                         | SpecFloat.S754_zero _ | SpecFloat.S754_finite _ _ _ => true
                         | _ => false
                         end;
   value := SF2Q |}.

Definition binary32 : Dtype := binary 24 128.     (* np.float32 *)
Definition binary64 : Dtype := binary 53 1024.    (* np.float64 *)

(** The value [m * 2^e], rounded into the format. *)
Definition float32 (m e : Z) : @num binary32 := SpecFloat.binary_normalize 24 128 m e false.
Definition float64 (m e : Z) : @num binary64 := SpecFloat.binary_normalize 53 1024 m e false.

(** What the statements about rounded results assume of the arithmetic.
    Exact arithmetic has these properties, and so has IEEE 754 arithmetic
    that rounds to nearest and has subnormal numbers: rounding is
    monotone, [x - x] is 0, [0 / d] is 0 and [d / d] is 1, and the
    difference of two different numbers is not 0. *)
Class RoundingLaws `{Dtype} : Prop := {
  finite_not_nan : forall x, is_finite x = true -> is_nan x = false;
  fle_refl : forall x, is_finite x = true -> fle x x;
  fle_trans : forall x y z, fle x y -> fle y z -> fle x z;
  fle_total : forall x y, is_finite x = true -> is_finite y = true -> fle x y \/ fle y x;
  fsub_mono : forall x y m,
    is_finite x = true -> is_finite y = true -> is_finite m = true ->
    fle x y -> fle (fsub x m) (fsub y m);
  fsub_self : forall x, is_finite x = true -> fle (fsub x x) fzero /\ fle fzero (fsub x x);
  fsub_pos : forall x y,
    is_finite x = true -> is_finite y = true -> flt x y -> flt fzero (fsub y x);
  fdiv_mono : forall x y d,
    is_finite d = true -> flt fzero d -> fle x y -> fle (fdiv x d) (fdiv y d);
  fdiv_zero : forall d,
    is_finite d = true -> flt fzero d -> fle (fdiv fzero d) fzero /\ fle fzero (fdiv fzero d);
  fdiv_self : forall d,
    is_finite d = true -> flt fzero d -> fle (fdiv d d) fone /\ fle fone (fdiv d d);
}.

(** ** Arrays of a dtype *)

Section DtypeArrays.
Context {D : Dtype}.

Definition fget2 (A : list (list num)) (r c : nat) : num := nth c (nth r A []) fzero.

(** [A] has shape [(r, c)]. *)
Definition shaped2 (r c : nat) (A : list (list num)) : Prop :=
  length A = r /\ Forall (fun row => length row = c) A.

(** [np.zeros((r, c), dtype)] *)
Definition fzeros2 (r c : nat) : list (list num) := repeat (repeat fzero c) r.

(** Element-wise [A + B] on arrays of one shape. *)
Definition fmadd (A B : list (list num)) : list (list num) := zip_with (zip_with fadd) A B.

(** [np.sum(E, axis=0)] for [E] of shape [(B, C, HW)]: the samples are
    added to the zero array one after the other. *)
Definition fsum0 (C HW : nat) (E : list (list (list num))) : list (list num) :=
  fold_left fmadd E (fzeros2 C HW).

(** [A / n] for a Python int [n] *)
Definition fmdiv (A : list (list num)) (n : Z) : list (list num) :=
  map (map (fun x => fdiv x (of_int n))) A.

(** [B, C, H, W = E.shape] and [E.reshape(B, C, H * W)] *)
Definition fshape4 (E : list (list (list (list num)))) : nat * nat * nat * nat :=
  (length E, length (hd [] E), length (hd [] (hd [] E)),
   length (hd [] (hd [] (hd [] E)))).

Definition freshape_BC_HW (E : list (list (list (list num)))) : list (list (list num)) :=
  map (map (@concat num)) E.

(** ** The mean of [get_train_outputs] (lines 206-282)

    [mean] is a [float32] array: line 270 creates it, line 275 adds the
    sum of every batch to it in place, line 282 divides it by [N].  The
    covariance (lines 271, 276-280 and 283-286) reads [mean] but is never
    written to it and is left out here. *)

(** The feature source, as [Backbone], with entries of the dtype. *)
Class Features := {
  train_features : bool -> nat -> list string -> list (list (list (list num)));
}.

(** The network keeps the batch dimension and the feature shape. *)
Class FeaturesLaws `{Features} (C H W : nat) : Prop := {
  train_features_shape : forall aug lap imgs,
    length (train_features aug lap imgs) = length imgs /\
    Forall (fun sample =>
              length sample = C /\
              Forall (fun ch => length ch = H /\ Forall (fun row => length row = W) ch) sample)
           (train_features aug lap imgs);
}.

(** The variables [mean] and [N]. *)
Record mean_state := {
  ms_mean : option (list (list num));    (* [None] before the first batch *)
  ms_N : nat;
}.

Definition mean_init : mean_state := {| ms_mean := None; ms_N := 0 |}.

(** The body of the inner loop, lines 216-275. *)
Definition mean_batch `{Features} (a : Args) (train_imgs : list string)
    (i_aug i_img : nat) (st : mean_state) : M mean_state :=
  emit (batch_log a train_imgs i_aug i_img) ;;;
  let imgs := slice train_imgs i_img (i_img + Z.to_nat (batch_size a)) in
  let N := (ms_N st + length imgs)%nat in
  emit (Predict (length imgs)) ;;;
  let E := train_features (aug a) i_aug imgs in
  let '(_, C, H, W) := fshape4 E in
  let E := freshape_BC_HW E in
  let mean := match ms_mean st with
              | None => fzeros2 C (H * W)
              | Some mean => mean
              end in
  ret {| ms_mean := Some (fmadd mean (fsum0 C (H * W) E)); ms_N := N |}.

(** Lines 206-280: the loops over augmentation laps and batches. *)
Definition mean_loop `{Features} (a : Args) (train_imgs : list string) : M mean_state :=
  laps <- (if aug a
           then emit (Log INFO "extract train set features with augmentation") ;;;
                ret (aug_num a)
           else emit (Log INFO "extract train set features without augmentation") ;;;
                ret 1%Z) ;;
  for_each (py_range laps) (fun i_aug st =>
    starts <- py_range_step (length train_imgs) (batch_size a) ;;
    for_each starts (mean_batch a train_imgs i_aug) st) mean_init.

(** Lines 281-282: [mean = mean / N]. *)
Definition train_mean `{Features} (a : Args) (train_imgs : list string)
  : M (list (list num)) :=
  st <- mean_loop a train_imgs ;;
  match ms_mean st with
  | None => raise TypeError
  | Some mean => ret (fmdiv mean (Z.of_nat (ms_N st)))
  end.

(** The reshaped features of the batch that starts at image [snd p] on
    lap [fst p]: one [(C, H * W)] array per sample. *)
Definition fbatch_of `{Features} (a : Args) (imgs : list string) (p : nat * nat)
  : list (list (list num)) :=
  freshape_BC_HW
    (train_features (aug a) (fst p)
       (slice imgs (snd p) (snd p + Z.to_nat (batch_size a)))).

(** What the body of the loop does to [mean] and [N]. *)
Definition mean_step `{Features} (a : Args) (imgs : list string)
    (st : mean_state) (p : nat * nat) : mean_state :=
  let chunk := slice imgs (snd p) (snd p + Z.to_nat (batch_size a)) in
  let E := train_features (aug a) (fst p) chunk in
  let '(_, C, H, W) := fshape4 E in
  let mean := match ms_mean st with
              | None => fzeros2 C (H * W)
              | Some mean => mean
              end in
  {| ms_mean := Some (fmadd mean (fsum0 C (H * W) (freshape_BC_HW E)));
     ms_N := (ms_N st + length chunk)%nat |}.

(** The entries [(c, i)] of some samples, added from left to right. *)
Definition fsum_at (c i : nat) (samples : list (list (list num))) : num :=
  fold_left fadd (map (fun s => fget2 s c i) samples) fzero.

(** The state after the batches [ps]: [N] counts their samples, and every
    entry of [mean] is the sum of the batch sums, added in order. *)
Definition mean_after `{Features} (C H W : nat) (a : Args) (imgs : list string)
    (st : mean_state) (ps : list (nat * nat)) : Prop :=
  ms_N st = length (concat (map (fbatch_of a imgs) ps)) /\
  match ms_mean st with
  | None => ps = []
  | Some mean =>
      shaped2 C (H * W) mean /\
      forall c i, (c < C)%nat -> (i < H * W)%nat ->
        fget2 mean c i
        = fold_left fadd (map (fun p => fsum_at c i (fbatch_of a imgs p)) ps) fzero
  end.

(** ** Normalisation of the score maps (lines 550-553) *)

(** [np.maximum] and [np.minimum] as [max] and [min] apply them: the
    running value is kept unless the new one is larger (smaller); a nan
    is kept once it is met. *)
Definition fmaximum (acc x : num) : num := if fleb x acc || is_nan acc then acc else x.
Definition fminimum (acc x : num) : num := if fleb acc x || is_nan acc then acc else x.

(** [a.max()] and [a.min()] over all entries; an empty array raises. *)
Definition fnp_max (l : list num) : M num :=
  match l with
  | [] => raise ValueError
  | x :: r => ret (fold_left fmaximum r x)
  end.

Definition fnp_min (l : list num) : M num :=
  match l with
  | [] => raise ValueError
  | x :: r => ret (fold_left fminimum r x)
  end.

Definition fflatten3 (A : list (list (list num))) : list num := concat (concat A).

(** Line 553 for one entry. *)
Definition rescale (min_score max_score x : num) : num :=
  fdiv (fsub x min_score) (fsub max_score min_score).

(** Lines 550-553. *)
Definition fnormalize (score_map : list (list (list num))) : M (list (list (list num))) :=
  max_score <- fnp_max (fflatten3 score_map) ;;
  min_score <- fnp_min (fflatten3 score_map) ;;
  ret (map (map (map (rescale min_score max_score))) score_map).

End DtypeArrays.

(** ** Concrete float32 inputs *)
Module Float32.

(** Three training images whose single feature is 2^24, 1 and 1. *)
Definition feature (path : string) : list (list (list (@num binary32))) :=
  if String.eqb path "a.png" then [[[float32 1 24]]] else [[[float32 1 0]]].

Definition net : @Features binary32 :=
{| train_features := fun _ _ imgs => map feature imgs |}.

Definition train_imgs : list string := ["a.png"; "b.png"; "c.png"].

(** [-bs 1], no augmentation. *)
Definition args : Args :=
{| feat := None; batch_size := 1; train_dir := "train";
   aug := false; aug_num := 5; threshold := None; input := [] |}.

(** The scores 0, 1.5 + 2^-23, 1.5 + 2^-22 and 3 in one map. *)
Definition score_map : list (list (list (@num binary32))) :=
  [[[float32 0 0; float32 12582913 (-23)]; [float32 12582914 (-23); float32 3 0]]].

End Float32.

(** ** Concrete float64 inputs *)
Module Float64.

(** The scores 0, 1.5 + 2^-52, 1.5 + 2^-51 and 3 in one map. *)
Definition score_map : list (list (list (@num binary64))) :=
  [[[float64 0 0; float64 6755399441055745 (-52)];
    [float64 6755399441055746 (-52); float64 3 0]]].

End Float64.

(** The exact features of the demo network. *)
Definition exact_features (net : Backbone) : @Features exact :=
  @Build_Features exact (@train_embedding net).

(** ** More concrete inputs *)
Module Sample.

(** [padim.py -f train.pkl -bs <bs> -i x.png train/a.png] *)
Definition feat_args (bs : Z) : Args :=
{| feat := Some "train.pkl"; batch_size := bs; train_dir := "train";
   aug := false; aug_num := 5; threshold := None;
   input := ["x.png"; "train/a.png"] |}.

(** [padim.py -tr train -bs 1 --aug -an 2 -th 0.5 -i x.png train/a.png] *)
Definition aug_threshold_args : Args :=
{| feat := None; batch_size := 1; train_dir := "train";
   aug := true; aug_num := 2; threshold := Some (1 # 2)%Q;
   input := ["x.png"; "train/a.png"] |}.

(** A file system in which only [x.png] has a ground-truth mask. *)
Definition one_mask : Env :=
{| listdir := Demo.listing;
   pickle_load := fun _ => ([], []);
   image_shape := fun _ => (300, 300)%nat;
   load_gt := fun _ p => if String.eqb p "x.png" then Some [[0; 1]; [1; 0]]%Q else None |}.

(** A stand-in for [get_savepath]; directory mode does not call it. *)
Definition utils : Utils :=
{| get_savepath := fun savepath _ _ => savepath |}.

(** A clock whose [k]-th reading is [k * k] milliseconds. *)
Definition clock : Clock :=
{| now_ms := fun k => Z.of_nat (k * k) |}.

(** Nearest-neighbour resampling of an image to [h] rows and [w] columns. *)
Definition nearest (mask : bool) (w h : nat) (img : array3) : array3 :=
map (fun r => map (fun c => nth (c * length (hd [] img) / w)
                                (nth (r * length img / h) img []) [])
                  (seq 0 w))
    (seq 0 h).

(** Resampling as above, no rotation, no colour normalisation. *)
Definition images : ImageLib :=
{| pil_resize := nearest;
   warp_affine := fun _ img => img;
   normalize_image := fun img => img |}.

(** A 2 x 3 image with one channel. *)
Definition tiny : array3 := [[[1]; [2]; [3]]; [[4]; [5]; [6]]]%Q.

(** The records after one augmented image with offsets (6, 13). *)
Definition recorded : @test_state Demo.lcg :=
  @Build_test_state Demo.lcg [] [-10]%Z [6]%Z [13]%Z (Some 6%Z) (Some 13%Z)
    1 [] 1 1 Demo.seed.

End Sample.

(** * Facts about the model *)

(** ** Laws of the effect monad *)

Lemma bind_ret_l {A B} (a : A) (f : A -> M B) : bind (ret a) f = f a.
Proof. unfold bind, ret. now destruct (f a). Qed.

Lemma bind_ret_r {A} (m : M A) : bind m (fun x => ret x) = m.
Proof. destruct m as [tr [x|s|e]]; simpl; [now rewrite app_nil_r|reflexivity|reflexivity]. Qed.

Lemma result_bind {A B} (m : M A) (f : A -> M B) :
  result (bind m f) =
  match result m with
  | Returned a => result (f a)
  | Exited s => Exited s
  | Raised e => Raised e
  end.
Proof. destruct m as [tr [a|s|e]]; simpl; [now destruct (f a)|reflexivity|reflexivity]. Qed.

Lemma trace_bind {A B} (m : M A) (f : A -> M B) :
  trace (bind m f) =
  match result m with
  | Returned a => trace m ++ trace (f a)
  | _ => trace m
  end.
Proof. destruct m as [tr [a|s|e]]; simpl; [now destruct (f a)|reflexivity|reflexivity]. Qed.

Lemma result_bind_returned {A B} (m : M A) (f : A -> M B) (a : A) :
  result m = Returned a -> result (bind m f) = result (f a).
Proof. intros Hm. now rewrite result_bind, Hm. Qed.

Lemma result_emit_then {B} (e : event) (k : M B) : result (emit e ;;; k) = result k.
Proof. now rewrite result_bind. Qed.

Lemma bind_emit {B} (e : event) (k : unit -> M B) :
  bind (emit e) k = (e :: trace (k tt), result (k tt)).
Proof. unfold bind, emit. now destruct (k tt). Qed.

Lemma py_index_Some {A} (l : list A) (i : nat) (x : A) :
  l !! i = Some x -> py_index l i = ret x.
Proof. intros Hl. unfold py_index. now rewrite Hl. Qed.

(** A loop whose body always returns, returns; an invariant indexed by the
    items already processed carries over to the final state. *)
Lemma for_each_inv {A S} (P : list A -> S -> Prop) (l : list A)
    (body : A -> S -> M S) (s0 : S) :
  P [] s0 ->
  (forall pre x post s, l = pre ++ x :: post -> P pre s ->
     exists s', result (body x s) = Returned s' /\ P (pre ++ [x]) s') ->
  exists s', result (for_each l body s0) = Returned s' /\ P l s'.
Proof.
  intros H0 Hstep.
  assert (Hgen : forall post pre s, l = pre ++ post -> P pre s ->
            exists s', result (for_each post body s) = Returned s' /\ P l s').
  { induction post as [|x post IH]; intros pre s Hl Hp.
    - rewrite app_nil_r in Hl. subst pre. exists s. auto.
    - destruct (Hstep pre x post s Hl Hp) as (s1 & Hb & Hp1).
      destruct (IH (pre ++ [x]) s1) as (s' & Hr & Hp').
      + now rewrite <- app_assoc.
      + exact Hp1.
      + exists s'. split; [|exact Hp']. simpl.
        now rewrite (result_bind_returned _ _ _ Hb). }
  now apply (Hgen l [] s0).
Qed.

(** A loop with a pure body is a left fold. *)
Lemma for_each_pure {A S} (l : list A) (body : A -> S -> M S) (f : S -> A -> S) (s : S) :
  (forall x s, result (body x s) = Returned (f s x)) ->
  result (for_each l body s) = Returned (fold_left f l s).
Proof.
  intros Hb. revert s. induction l as [|x r IH]; intros s; simpl; [reflexivity|].
  now rewrite (result_bind_returned _ _ _ (Hb x s)).
Qed.

Lemma bind_returned_inv {A B} (m : M A) (f : A -> M B) (b : B) :
  result (bind m f) = Returned b ->
  exists x, result m = Returned x /\ result (f x) = Returned b /\
            trace (bind m f) = trace m ++ trace (f x).
Proof.
  rewrite result_bind, trace_bind. destruct (result m) as [x| |]; try discriminate.
  intros Hf. eauto.
Qed.


(** ** Shapes and entries of arrays *)

Lemma Rect_row (r c : nat) (A : matrix) (i : nat) :
  Rect r c A -> (i < r)%nat -> length (nth i A []) = c.
Proof.
  intros [Hl Hall] Hi. rewrite List.Forall_forall in Hall.
  apply Hall, nth_In. lia.
Qed.

Lemma Box_slab (a b c : nat) (A : array3) (i : nat) :
  Box a b c A -> (i < a)%nat -> Rect b c (nth i A []).
Proof.
  intros [Hl Hall] Hi. rewrite List.Forall_forall in Hall.
  apply Hall, nth_In. lia.
Qed.

Lemma is_shape2_Rect (r c : nat) (A : matrix) : is_shape2 r c A = true -> Rect r c A.
Proof.
  unfold is_shape2. intros Hs. apply andb_prop in Hs as [Hl Hall].
  apply Nat.eqb_eq in Hl. split; [exact Hl|].
  rewrite forallb_forall in Hall. apply List.Forall_forall.
  intros row Hrow. now apply Nat.eqb_eq, Hall.
Qed.

Lemma nth_zip_with {A B C} (f : A -> B -> C) (l : list A) (k : list B)
    (i : nat) (da : A) (db : B) (dc : C) :
  (i < length l)%nat -> (i < length k)%nat ->
  nth i (zip_with f l k) dc = f (nth i l da) (nth i k db).
Proof.
  revert k i. induction l as [|x l IH]; intros [|y k] [|i]; simpl; intros; try lia; auto.
  apply IH; lia.
Qed.

Lemma nth_map_in {A B} (f : A -> B) (l : list A) (i : nat) (da : A) (db : B) :
  (i < length l)%nat -> nth i (map f l) db = f (nth i l da).
Proof.
  revert i. induction l as [|x l IH]; intros [|i]; simpl; intros; try lia; auto.
  apply IH; lia.
Qed.

Lemma zeros2_Rect (r c : nat) : Rect r c (zeros2 r c).
Proof.
  unfold zeros2. split; [apply repeat_length|].
  apply List.Forall_forall. intros row Hrow. apply repeat_spec in Hrow. subst.
  apply repeat_length.
Qed.

Lemma zeros3_Box (a b c : nat) : Box a b c (zeros3 a b c).
Proof.
  unfold zeros3. split; [apply repeat_length|].
  apply List.Forall_forall. intros m Hm. apply repeat_spec in Hm. subst.
  apply zeros2_Rect.
Qed.

Lemma get2_zeros2 (r c i j : nat) : get2 (zeros2 r c) i j = 0%Q.
Proof.
  unfold get2, zeros2.
  destruct (Nat.lt_ge_cases i r) as [Hi|Hi].
  - rewrite (nth_indep _ [] (repeat 0%Q c)) by now rewrite repeat_length.
    rewrite nth_repeat. apply nth_repeat.
  - rewrite (nth_overflow (repeat (repeat 0%Q c) r)) by now rewrite repeat_length.
    now destruct j.
Qed.

Lemma madd_Rect (r c : nat) (A B : matrix) :
  Rect r c A -> Rect r c B -> Rect r c (madd A B).
Proof.
  intros [HlA HA] [HlB HB]. unfold madd. split.
  - rewrite length_zip_with. lia.
  - clear HlA HlB r. revert B HB. induction HA as [|x A Hx HA IH]; intros [|y B] HB; simpl; auto.
    inversion HB; subst. constructor; [|now apply IH].
    rewrite length_zip_with. lia.
Qed.

Lemma get2_madd (r c : nat) (A B : matrix) (i j : nat) :
  Rect r c A -> Rect r c B -> (i < r)%nat -> (j < c)%nat ->
  get2 (madd A B) i j = (get2 A i j + get2 B i j)%Q.
Proof.
  intros HA HB Hi Hj. unfold get2, madd.
  pose proof (Rect_row _ _ _ i HA Hi) as HrA.
  pose proof (Rect_row _ _ _ i HB Hi) as HrB.
  destruct HA as [HlA _], HB as [HlB _].
  rewrite (nth_zip_with _ A B i [] [] []) by lia.
  now rewrite (nth_zip_with _ _ _ j 0%Q 0%Q 0%Q) by lia.
Qed.

(** [np.sum(E, axis=0)] is the entry-wise sum over the samples. *)
Lemma np_sum0_Rect (C HW : nat) (E : array3) :
  Forall (Rect C HW) E -> Rect C HW (np_sum0 C HW E).
Proof.
  induction 1 as [|s E Hs HE IH]; simpl; [apply zeros2_Rect|].
  now apply madd_Rect.
Qed.

Lemma get2_np_sum0 (C HW : nat) (E : array3) (c i : nat) :
  Forall (Rect C HW) E -> (c < C)%nat -> (i < HW)%nat ->
  get2 (np_sum0 C HW E) c i = sumQ (map (fun s => get2 s c i) E).
Proof.
  intros HE Hc Hi. induction HE as [|s E Hs HE IH]; simpl.
  - apply get2_zeros2.
  - rewrite (get2_madd C HW) by (auto using np_sum0_Rect).
    now rewrite IH.
Qed.

Lemma mdiv_Rect (r c : nat) (A : matrix) (n : Q) : Rect r c A -> Rect r c (mdiv A n).
Proof.
  intros [Hl HA]. unfold mdiv. split; [now rewrite length_map|].
  apply List.Forall_forall. intros row Hrow. apply in_map_iff in Hrow as (row0 & <- & Hin).
  rewrite length_map. rewrite List.Forall_forall in HA. now apply HA.
Qed.

Lemma get2_mdiv (r c : nat) (A : matrix) (n : Q) (i j : nat) :
  Rect r c A -> (i < r)%nat -> (j < c)%nat ->
  get2 (mdiv A n) i j = (get2 A i j / n)%Q.
Proof.
  intros HA Hi Hj. unfold get2, mdiv.
  pose proof (Rect_row _ _ _ i HA Hi) as Hr. destruct HA as [Hl _].
  rewrite (nth_map_in _ A i [] []) by lia.
  now rewrite (nth_map_in _ _ j 0%Q 0%Q) by lia.
Qed.

Lemma sumQ_app (l k : list Q) : (sumQ (l ++ k) == sumQ l + sumQ k)%Q.
Proof.
  induction l as [|x l IH]; simpl; [ring|]. rewrite IH. ring.
Qed.

Lemma nth_insert_eq {A} (v : list A) (i : nat) (x d : A) :
  (i < length v)%nat -> nth i (<[i := x]> v) d = x.
Proof.
  intros Hi. rewrite nth_lookup. now rewrite list_lookup_insert_eq.
Qed.

Lemma nth_insert_ne {A} (v : list A) (i j : nat) (x d : A) :
  i <> j -> nth j (<[i := x]> v) d = nth j v d.
Proof.
  intros Hne. rewrite !nth_lookup. now rewrite list_lookup_insert_ne.
Qed.

Lemma set_loc_update (cov : array3) (i : nat) (M : matrix) :
  set_loc cov i M = update_loc (fun _ x => x) cov i M.
Proof. reflexivity. Qed.

Lemma update_loc_Box (f : Q -> Q -> Q) (a b c : nat) (cov : array3) (i : nat) (M : matrix) :
  Box a b c cov -> Rect a b M -> Box a b c (update_loc f cov i M).
Proof.
  intros Hcov HM. unfold update_loc.
  assert (Hlen : length (zip_with (zip_with (fun v x => <[i := f (nth i v 0%Q) x]> v)) cov M) = a).
  { destruct Hcov as [Hl _], HM as [HlM _]. rewrite length_zip_with. lia. }
  split; [exact Hlen|].
  apply List.Forall_nth. intros r d Hr. rewrite Hlen in Hr.
  rewrite (nth_indep _ d []) by lia.
  pose proof (Box_slab _ _ _ _ r Hcov Hr) as Hslab.
  pose proof (Rect_row _ _ _ r HM Hr) as Hrow.
  destruct Hcov as [Hl _], HM as [HlM _].
  rewrite (nth_zip_with _ cov M r [] [] []) by lia.
  assert (Hlen2 : length (zip_with (fun v x => <[i := f (nth i v 0%Q) x]> v)
                    (nth r cov []) (nth r M [])) = b).
  { destruct Hslab as [Hls _]. rewrite length_zip_with. lia. }
  split; [exact Hlen2|].
  apply List.Forall_nth. intros k d' Hk. rewrite Hlen2 in Hk.
  rewrite (nth_indep _ d' []) by lia.
  pose proof (Rect_row _ _ _ k Hslab Hk) as Hv. destruct Hslab as [Hls _].
  rewrite (nth_zip_with _ _ _ k [] 0%Q []) by lia.
  now rewrite length_insert.
Qed.

Lemma get3_update_loc (f : Q -> Q -> Q) (a b c : nat) (cov : array3) (i : nat) (M : matrix)
    (c1 c2 j : nat) :
  Box a b c cov -> Rect a b M ->
  (c1 < a)%nat -> (c2 < b)%nat -> (i < c)%nat ->
  get3 (update_loc f cov i M) c1 c2 j
  = if Nat.eqb i j then f (get3 cov c1 c2 i) (get2 M c1 c2) else get3 cov c1 c2 j.
Proof.
  intros Hcov HM H1 H2 Hi. unfold get3, get2, update_loc.
  pose proof (Box_slab _ _ _ _ c1 Hcov H1) as Hslab.
  pose proof (Rect_row _ _ _ c2 Hslab H2) as Hv.
  pose proof (Rect_row _ _ _ c1 HM H1) as Hrow.
  destruct Hcov as [Hl _], HM as [HlM _], Hslab as [Hls _].
  rewrite (nth_zip_with _ cov M c1 [] [] []) by lia.
  rewrite (nth_zip_with _ _ _ c2 [] 0%Q []) by lia.
  destruct (Nat.eqb_spec i j) as [<-|Hne].
  - now rewrite nth_insert_eq by lia.
  - now rewrite nth_insert_ne.
Qed.

Lemma get2_loc_slice (E : array3) (i b c : nat) :
  get2 (loc_slice E i) b c = get3 E b c i.
Proof.
  unfold get2, get3, loc_slice.
  destruct (Nat.lt_ge_cases b (length E)) as [Hb|Hb].
  - rewrite (nth_map_in _ E b [] []) by lia.
    destruct (Nat.lt_ge_cases c (length (nth b E []))) as [Hc|Hc].
    + now rewrite (nth_map_in _ _ c [] 0%Q) by lia.
    + rewrite (nth_overflow (map _ _)) by now rewrite length_map.
      rewrite (nth_overflow (nth b E [])) by lia. now destruct i.
  - rewrite (nth_overflow (map _ _)) by now rewrite length_map.
    rewrite (nth_overflow E) by lia. destruct c; now destruct i.
Qed.

Lemma loc_slice_Rect (a b c : nat) (E : array3) (i : nat) :
  Box a b c E -> Rect a b (loc_slice E i).
Proof.
  intros [Hl HE]. unfold loc_slice. split; [now rewrite length_map|].
  apply List.Forall_forall. intros row Hrow.
  apply in_map_iff in Hrow as (slab & <- & Hin).
  rewrite length_map. rewrite List.Forall_forall in HE. now apply HE.
Qed.

(** A loop over all locations that rewrites location [i] from what it
    reads at location [i] alone. *)
Lemma fold_update_loc (f : Q -> Q -> Q) (G : nat -> matrix) (a b c : nat) (n : nat)
    (cov : array3) :
  Box a b c cov -> (forall i, Rect a b (G i)) -> (n <= c)%nat ->
  let cov' := fold_left (fun cov i => update_loc f cov i (G i)) (seq 0 n) cov in
  Box a b c cov' /\
  forall c1 c2 j, (c1 < a)%nat -> (c2 < b)%nat ->
    get3 cov' c1 c2 j
    = if (j <? n)%nat then f (get3 cov c1 c2 j) (get2 (G j) c1 c2) else get3 cov c1 c2 j.
Proof.
  intros Hcov HG. induction n as [|n IH]; intros Hn cov'; subst cov'.
  - simpl. split; [exact Hcov|]. intros. reflexivity.
  - rewrite seq_S, fold_left_app. simpl.
    destruct IH as [Hbox Hget]; [lia|]. split.
    + now apply update_loc_Box.
    + intros c1 c2 j H1 H2.
      rewrite (get3_update_loc f a b c) by (auto; lia).
      rewrite !Hget by auto.
      destruct (Nat.eqb_spec n j) as [<-|Hne].
      * rewrite Nat.ltb_irrefl.
        destruct (Nat.ltb_spec n (S n)); [reflexivity|lia].
      * destruct (Nat.ltb_spec j n), (Nat.ltb_spec j (S n)); try reflexivity; lia.
Qed.

Lemma add_loc_fold (G : nat -> matrix) (l : list nat) (cov : array3) :
  fold_left (fun cov i => add_loc cov i (G i)) l cov
  = fold_left (fun cov i => update_loc Qplus cov i (G i)) l cov.
Proof. reflexivity. Qed.

(** ** Transposes and products *)

Lemma Rect_hd (r c : nat) (A : matrix) : Rect r c A -> (0 < r)%nat -> length (hd [] A) = c.
Proof.
  intros HA Hr. pose proof (Rect_row _ _ _ 0 HA Hr) as H0.
  destruct A; exact H0.
Qed.

Lemma Rect_intro (r c : nat) (A : matrix) :
  length A = r -> (forall i, (i < r)%nat -> length (nth i A []) = c) -> Rect r c A.
Proof.
  intros Hl Hrows. split; [exact Hl|].
  apply List.Forall_nth. intros i d Hi. rewrite (nth_indep _ d []) by lia.
  apply Hrows. lia.
Qed.

Lemma nth_transpose (r c : nat) (A : matrix) (j : nat) :
  Rect r c A -> (0 < r)%nat -> (j < c)%nat ->
  nth j (transpose A) [] = column A j.
Proof.
  intros HA Hr Hj. unfold transpose, column.
  rewrite (Rect_hd r c A HA Hr).
  rewrite (nth_map_in _ _ j 0%nat []) by now rewrite length_seq.
  now rewrite seq_nth.
Qed.

Lemma transpose_Rect (r c : nat) (A : matrix) :
  Rect r c A -> (0 < r)%nat -> Rect c r (transpose A).
Proof.
  intros HA Hr. apply Rect_intro.
  - unfold transpose. now rewrite length_map, length_seq, (Rect_hd r c A HA Hr).
  - intros j Hj. rewrite (nth_transpose r c) by auto.
    unfold column. rewrite length_map. apply HA.
Qed.

Lemma matmul_Rect (r k c : nat) (A B : matrix) :
  Rect r k A -> Rect k c B -> (0 < k)%nat -> Rect r c (matmul A B).
Proof.
  intros HA HB Hk. apply Rect_intro.
  - unfold matmul. rewrite length_map. apply HA.
  - intros i Hi. unfold matmul. destruct HA as [HlA _].
    rewrite (nth_map_in _ A i [] []) by lia.
    rewrite length_map. apply (transpose_Rect k c B HB Hk).
Qed.

Lemma get2_matmul (r k c : nat) (A B : matrix) (i j : nat) :
  Rect r k A -> Rect k c B -> (0 < k)%nat -> (i < r)%nat -> (j < c)%nat ->
  get2 (matmul A B) i j = dot (nth i A []) (column B j).
Proof.
  intros HA HB Hk Hi Hj. unfold get2, matmul.
  destruct HA as [HlA _].
  rewrite (nth_map_in _ A i [] []) by lia.
  pose proof (transpose_Rect k c B HB Hk) as [HlT _].
  rewrite (nth_map_in _ _ j [] 0%Q) by lia.
  now rewrite (nth_transpose k c).
Qed.

Lemma msub_row_Rect (r c : nat) (m rowm : matrix) :
  Rect r c m -> Rect 1 c rowm -> Rect r c (msub_row m rowm).
Proof.
  intros Hm Hrow. apply Rect_intro.
  - unfold msub_row. rewrite length_map. apply Hm.
  - intros i Hi. unfold msub_row. destruct Hm as [Hl Hrows].
    rewrite (nth_map_in _ m i [] []) by lia.
    rewrite length_zip_with. rewrite (Rect_hd 1 c rowm Hrow) by lia.
    rewrite List.Forall_forall in Hrows. rewrite (Hrows (nth i m [])); [lia|].
    apply nth_In. lia.
Qed.

Lemma col_keepdim_Rect (r c : nat) (A : matrix) (i : nat) :
  Rect r c A -> Rect r 1 (col_keepdim A i).
Proof.
  intros [Hl _]. apply Rect_intro.
  - unfold col_keepdim. now rewrite length_map.
  - intros j Hj. unfold col_keepdim. now rewrite (nth_map_in _ A j [] []) by lia.
Qed.

Lemma centered_Rect (B C HW : nat) (mean : matrix) (N : nat) (E : array3) (i : nat) :
  Box B C HW E -> Rect C HW mean -> (0 < C)%nat ->
  Rect B C (msub_row (loc_slice E i) (mdiv (transpose (col_keepdim mean i)) (nat2Q N))).
Proof.
  intros HE Hmean HC. apply msub_row_Rect.
  - now apply (loc_slice_Rect B C HW).
  - apply mdiv_Rect, transpose_Rect; [|exact HC].
    now apply (col_keepdim_Rect C HW).
Qed.

Lemma scatter_Rect (B C HW : nat) (mean : matrix) (N : nat) (E : array3) (i : nat) :
  Box B C HW E -> Rect C HW mean -> (0 < B)%nat -> (0 < C)%nat ->
  Rect C C (scatter mean N E i).
Proof.
  intros HE Hmean HB HC. unfold scatter.
  pose proof (centered_Rect B C HW mean N E i HE Hmean HC) as Hm.
  apply (matmul_Rect C B C); [|exact Hm|exact HB].
  now apply transpose_Rect.
Qed.

(** ** The concrete installation satisfies the laws *)

Lemma lcg_laws : @RandomStateLaws Demo.lcg.
Proof.
  constructor. intros low high g Hlt. simpl.
  pose proof (Z.mod_pos_bound g (high - low)). lia.
Qed.

Lemma demo_net_laws : @BackboneLaws Demo.net 1 1 1.
Proof.
  assert (Hf : forall p, is_shape3 1 1 1 (Demo.feature p) = true).
  { intros p. unfold Demo.feature.
    destruct (String.eqb p "train/a.png"); [reflexivity|].
    destruct (String.eqb p "train/b.png"); reflexivity. }
  constructor.
  - intros aug lap imgs. simpl. unfold is_shape4.
    rewrite length_map, Nat.eqb_refl. simpl.
    apply forallb_forall. intros s Hs. apply in_map_iff in Hs as (p & <- & _). apply Hf.
  - intros lap imgs. simpl. unfold is_shape4.
    rewrite length_map, Nat.eqb_refl. simpl.
    apply forallb_forall. intros s Hs. apply in_map_iff in Hs as (p & <- & _). apply Hf.
Qed.

(** ** The rotation angle of [preprocess_aug] *)

Section Angle.
Context `{RandomState} `{!RandomStateLaws}.

Lemma np_randint_unit (lo : Z) (g : rng) :
  fst (np_randint lo (lo + 1) g) = Returned lo.
Proof.
  unfold np_randint.
  destruct (Z.ltb_spec lo (lo + 1)) as [Hlt|]; [|lia].
  pose proof (randint_range lo (lo + 1) g Hlt) as Hr.
  destruct (randint lo (lo + 1) g) as [v g']. simpl in *.
  f_equal. lia.
Qed.

Lemma np_randint_returns (low high : Z) (g : rng) :
  (low < high)%Z ->
  exists v g', np_randint low high g = (Returned v, g') /\ (low <= v < high)%Z.
Proof.
  intros Hlt. unfold np_randint.
  destruct (Z.ltb_spec low high) as [_|]; [|lia].
  pose proof (randint_range low high g Hlt) as Hr.
  destruct (randint low high g) as [v g']. simpl in *. eauto.
Qed.

Lemma resized_shape_ge (h w : nat) :
  (0 < h)%nat -> (0 < w)%nat ->
  (IMAGE_RESIZE <= fst (resized_shape h w))%nat /\
  (IMAGE_RESIZE <= snd (resized_shape h w))%nat.
Proof.
  intros Hh Hw. unfold resized_shape.
  destruct (Nat.ltb_spec w h); simpl; split; try lia.
  - apply Nat.div_le_lower_bound; [lia|]. unfold IMAGE_RESIZE. nia.
  - apply Nat.div_le_lower_bound; [lia|]. unfold IMAGE_RESIZE. nia.
Qed.

End Angle.

(** C8.  The rotation angle that [preprocess_aug] draws for a non-mask
    image is constant: [np.random.randint(lo, lo + 1)] is [lo] in every
    generator state, whatever the upper end of [angle_range]; the call
    returns for every image with positive height and width, its angle is
    [lo], and with the default range the angle is -10. *)
Theorem preprocess_aug_angle_constant `{RandomState} `{!RandomStateLaws}
    (lo : Z) (rest : list Z) (h w : nat) (g : rng) :
  (0 < h)%nat -> (0 < w)%nat ->
  fst (np_randint lo (lo + 1) g) = Returned lo /\
  (exists pad_h pad_w g',
     preprocess_aug (lo :: rest) h w g = (Returned (lo, pad_h, pad_w), g')) /\
  (forall angle pad_h pad_w g',
     preprocess_aug default_angle_range h w g = (Returned (angle, pad_h, pad_w), g') ->
     angle = (-10)%Z).
Proof.
  intros Hh Hw.
  assert (Hform : forall lo0 rest0, exists pad_h pad_w g',
     preprocess_aug (lo0 :: rest0) h w g = (Returned (lo0, pad_h, pad_w), g')).
  { intros lo0 rest0. unfold preprocess_aug.
    pose proof (resized_shape_ge h w Hh Hw) as [Hh' Hw'].
    destruct (resized_shape h w) as [h' w']. simpl in Hh', Hw'.
    pose proof (np_randint_unit lo0 g) as Ha.
    destruct (np_randint lo0 (lo0 + 1) g) as [o g1]. simpl in Ha. subst o.
    destruct (np_randint_returns 0 (Z.of_nat h' - Z.of_nat IMAGE_SIZE) g1)
      as (ph & g2 & -> & _); [unfold IMAGE_RESIZE, IMAGE_SIZE in *; lia|].
    destruct (np_randint_returns 0 (Z.of_nat w' - Z.of_nat IMAGE_SIZE) g2)
      as (pw & g3 & -> & _); [unfold IMAGE_RESIZE, IMAGE_SIZE in *; lia|].
    eauto. }
  split; [apply np_randint_unit|]. split; [apply Hform|].
  intros angle pad_h pad_w g' Heq.
  destruct (Hform (-10)%Z [10%Z]) as (ph & pw & g3 & Hrun).
  unfold default_angle_range in Heq. rewrite Hrun in Heq. congruence.
Qed.

Lemma preprocess_aug_angle_constant_witness :
  fst (@np_randint Demo.lcg 7 (7 + 1) 12345%Z) = Returned 7%Z /\
  (exists pad_h pad_w g',
     @preprocess_aug Demo.lcg [7; 30]%Z 300 400 12345%Z = (Returned (7%Z, pad_h, pad_w), g')) /\
  (forall angle pad_h pad_w g',
     @preprocess_aug Demo.lcg default_angle_range 300 400 12345%Z
       = (Returned (angle, pad_h, pad_w), g') ->
     angle = (-10)%Z).
Proof.
  apply (@preprocess_aug_angle_constant Demo.lcg lcg_laws 7%Z [30%Z] 300 400 12345%Z); lia.
Defined.

(** ** Empty inputs *)

Lemma sorted_nil_iff (l : list string) : sorted l = [] <-> l = [].
Proof.
  split; [|intros ->; reflexivity].
  destruct l as [|x r]; [reflexivity|]. simpl.
  destruct (sorted r) as [|y r']; simpl; [discriminate|].
  destruct (String.leb x y); discriminate.
Qed.

Lemma filter_nil_iff {A} (p : A -> bool) (l : list A) :
  List.filter p l = [] <-> (forall x, In x l -> p x = false).
Proof.
  induction l as [|x r IH]; simpl.
  - split; [intros _ y []|intros _; reflexivity].
  - destruct (p x) eqn:Hp.
    + split; [discriminate|]. intros Hall. specialize (Hall x (or_introl eq_refl)). congruence.
    + rewrite IH. split.
      * intros Hall y [<-|Hy]; auto.
      * intros Hall y Hy. apply Hall. now right.
Qed.

(** The training directory has no image exactly when no name in it ends in
    one of the three extensions. *)
Lemma train_files_nil_iff `{Env} (a : Args) :
  train_files a = [] <->
  (forall f, In f (listdir (train_dir a)) ->
     endswith f ".png" || endswith f ".jpg" || endswith f ".bmp" = false).
Proof.
  unfold train_files. rewrite sorted_nil_iff.
  rewrite <- filter_nil_iff.
  split.
  - intros Hmap. destruct (List.filter _ _); [reflexivity|discriminate].
  - intros ->. reflexivity.
Qed.

(** C10.  Without a feature pickle, a training directory with no name
    ending in .png, .jpg or .bmp makes [get_train_outputs] log one error
    and exit with status -1, and an empty input list makes [main] log one
    error and return; in both runs no batch is sent to the network (the
    trace has no [Predict] event). *)
Theorem fail_fast_on_empty_inputs `{Env} `{Backbone} `{NumLib} `{RandomState}
    (a : Args) (g : rng) :
  (truthy (feat a) = false ->
   (forall f, In f (listdir (train_dir a)) ->
      endswith f ".png" || endswith f ".jpg" || endswith f ".bmp" = false) ->
   get_train_outputs a
   = ([Log ERROR ("train images not found in '" ++ train_dir a ++ "'")], Exited (-1)%Z)) /\
  (input a = [] ->
   main a g = ([Download; Log ERROR "Input file not found"], Returned tt)).
Proof.
  split.
  - intros Hfeat Hnone. unfold get_train_outputs. rewrite Hfeat.
    apply train_files_nil_iff in Hnone. rewrite Hnone. reflexivity.
  - intros Hin. unfold main. rewrite Hin. reflexivity.
Qed.

Lemma fail_fast_on_empty_inputs_witness :
  @get_train_outputs Demo.env Demo.net Demo.empty_args
  = ([Log ERROR "train images not found in 'empty'"], Exited (-1)%Z) /\
  @main Demo.env Demo.net Demo.lib Demo.lcg Demo.empty_args Demo.seed
  = ([Download; Log ERROR "Input file not found"], Returned tt).
Proof.
  destruct (@fail_fast_on_empty_inputs Demo.env Demo.net Demo.lib Demo.lcg
              Demo.empty_args Demo.seed) as [Htrain Hmain].
  split.
  - apply Htrain; [reflexivity|].
    intros f [<-|[]]. reflexivity.
  - apply Hmain. reflexivity.
Defined.

(** ** Batches *)

Lemma slice_width {A} (l : list A) (i n : nat) : slice l i (i + n) = take n (drop i l).
Proof. unfold slice. f_equal. lia. Qed.

(** The batches of one lap are the image list cut into consecutive pieces. *)
Lemma chunks_concat {A} (n : nat) (q : nat) (l : list A) :
  (length l <= q * n)%nat ->
  concat (map (fun k => take n (drop (k * n) l)) (seq 0 q)) = l.
Proof.
  revert l. induction q as [|q IH]; intros l Hl.
  - simpl in *. destruct l; [reflexivity|simpl in Hl; lia].
  - simpl. rewrite <- seq_shift, map_map.
    rewrite (map_ext _ (fun k => take n (drop (k * n) (drop n l)))).
    + rewrite IH; [apply take_drop|]. rewrite length_drop. lia.
    + intros k. rewrite drop_drop. do 2 f_equal; lia.
Qed.

Lemma range_step_chunks {A} (l : list A) (n : nat) :
  (0 < n)%nat ->
  concat (map (fun i => slice l i (i + n)) (range_step (length l) n)) = l.
Proof.
  intros Hn. unfold range_step. rewrite map_map.
  rewrite (map_ext _ (fun k => take n (drop (k * n) l)))
    by (intros k; apply slice_width).
  apply chunks_concat.
  pose proof (Nat.div_mod_eq (length l + n - 1) n) as Hdm.
  pose proof (Nat.mod_upper_bound (length l + n - 1) n). nia.
Qed.

Lemma range_step_lt (stop n i : nat) :
  (0 < n)%nat -> In i (range_step stop n) -> (i < stop)%nat.
Proof.
  intros Hn Hi. unfold range_step in Hi.
  apply in_map_iff in Hi as (k & <- & Hk). apply in_seq in Hk.
  pose proof (Nat.div_mod_eq (stop + n - 1) n) as Hdm.
  pose proof (Nat.mod_upper_bound (stop + n - 1) n).
  assert (S k <= (stop + n - 1) / n)%nat as Hk' by lia. nia.
Qed.

Lemma range_step_nonempty (stop n : nat) :
  (0 < n)%nat -> (0 < stop)%nat -> range_step stop n <> [].
Proof.
  intros Hn Hs. unfold range_step.
  assert (1 <= (stop + n - 1) / n)%nat as Hq.
  { apply Nat.div_le_lower_bound; lia. }
  destruct ((stop + n - 1) / n)%nat; [lia|]. discriminate.
Qed.

Lemma slice_nonempty {A} (l : list A) (i n : nat) :
  (0 < n)%nat -> (i < length l)%nat -> slice l i (i + n) <> [].
Proof.
  intros Hn Hi. rewrite slice_width. intros E.
  apply (f_equal (@length A)) in E. rewrite length_take, length_drop in E.
  simpl in E. lia.
Qed.

Lemma fold_left_flat_map {A B S} (f : S -> B -> S) (g : A -> list B) (l : list A) (s : S) :
  fold_left f (flat_map g l) s = fold_left (fun s x => fold_left f (g x) s) l s.
Proof.
  revert s. induction l as [|x l IH]; intros s; simpl; [reflexivity|].
  now rewrite fold_left_app, IH.
Qed.

Lemma fold_left_through_map {A B S} (f : S -> B -> S) (g : A -> B) (l : list A) (s : S) :
  fold_left f (map g l) s = fold_left (fun s x => f s (g x)) l s.
Proof. revert s. induction l as [|x l IH]; intros s; simpl; auto. Qed.

(** ** Shapes of the embeddings *)

Lemma length_concat_shape2 (h w : nat) (ch : matrix) :
  is_shape2 h w ch = true -> length (concat ch) = (h * w)%nat.
Proof.
  intros Hs. apply is_shape2_Rect in Hs as [Hl Hrows]. subst h.
  induction Hrows as [|row ch Hrow Hrows IH]; simpl; [reflexivity|].
  rewrite length_app, IH. lia.
Qed.

Lemma reshape_Box (B C H W : nat) (E : array4) :
  is_shape4 B C H W E = true -> Box B C (H * W) (reshape_BC_HW E).
Proof.
  unfold is_shape4. intros Hs. apply andb_prop in Hs as [Hl Hall].
  apply Nat.eqb_eq in Hl. rewrite forallb_forall in Hall.
  unfold reshape_BC_HW. split; [now rewrite length_map|].
  apply List.Forall_forall. intros s Hs. apply in_map_iff in Hs as (s0 & <- & Hin).
  specialize (Hall s0 Hin). unfold is_shape3 in Hall.
  apply andb_prop in Hall as [Hls Hch]. apply Nat.eqb_eq in Hls.
  rewrite forallb_forall in Hch.
  split; [now rewrite length_map|].
  apply List.Forall_forall. intros v Hv. apply in_map_iff in Hv as (ch & <- & Hinch).
  apply length_concat_shape2. now apply Hch.
Qed.

Lemma shape4_spec (B C H W : nat) (E : array4) :
  is_shape4 B C H W E = true -> (0 < B)%nat -> (0 < C)%nat ->
  exists W', shape4 E = (B, C, H, W') /\ (H * W' = H * W)%nat.
Proof.
  unfold is_shape4, shape4. intros Hs HB HC. apply andb_prop in Hs as [Hl Hall].
  apply Nat.eqb_eq in Hl. destruct E as [|s E]; [simpl in Hl; lia|].
  simpl in Hall. apply andb_prop in Hall as [Hs _].
  unfold is_shape3 in Hs. apply andb_prop in Hs as [Hls Hch]. apply Nat.eqb_eq in Hls.
  destruct s as [|ch s]; [simpl in Hls; lia|].
  simpl in Hch. apply andb_prop in Hch as [Hch _].
  unfold is_shape2 in Hch. apply andb_prop in Hch as [Hlc Hrows]. apply Nat.eqb_eq in Hlc.
  simpl. destruct ch as [|row ch]; simpl in *.
  - exists 0%nat. subst. split; [reflexivity|lia].
  - apply andb_prop in Hrows as [Hrow _]. apply Nat.eqb_eq in Hrow.
    exists W. subst. split; reflexivity.
Qed.

(** ** The training loop as a fold over its batches *)

Lemma accumulate_unfold (N C HW : nat) (E : array3) (stats : option (matrix * array3)) :
  accumulate N C HW E stats
  = (madd (fst (stats_or_zero C HW stats)) (np_sum0 C HW E),
     fold_left (fun cov i =>
         add_loc cov i (scatter (madd (fst (stats_or_zero C HW stats)) (np_sum0 C HW E)) N E i))
       (seq 0 HW) (snd (stats_or_zero C HW stats))).
Proof. unfold accumulate. destruct stats as [[mean cov]|]; reflexivity. Qed.

Section TrainLoop.
Context {net : Backbone}.
Variable a : Args.
Variable imgs : list string.

Let bs : nat := Z.to_nat (batch_size a).

Lemma train_batch_result (i_aug i_img : nat) (st : train_state) :
  result (train_batch a imgs i_aug i_img st) = Returned (train_step a imgs st (i_aug, i_img)).
Proof.
  unfold train_batch, train_step. rewrite !result_emit_then. reflexivity.
Qed.

Lemma train_loop_result :
  (0 < batch_size a)%Z ->
  result (train_loop a imgs)
  = Returned (fold_left (train_step a imgs) (schedule a (length imgs)) train_init).
Proof.
  intros Hbs. unfold train_loop.
  assert (Hlaps : forall k : Z -> M train_state,
    result (laps <- (if aug a
             then emit (Log INFO "extract train set features with augmentation") ;;;
                  ret (aug_num a)
             else emit (Log INFO "extract train set features without augmentation") ;;;
                  ret 1%Z) ;; k laps) = result (k (laps_of a))).
  { intros k. unfold laps_of. destruct (aug a); now rewrite result_bind. }
  rewrite Hlaps. unfold schedule. rewrite fold_left_flat_map.
  apply for_each_pure. intros lap st.
  unfold py_range_step.
  destruct (Z.eqb_spec (batch_size a) 0) as [|_]; [lia|].
  destruct (Z.ltb_spec (batch_size a) 0) as [|_]; [lia|].
  rewrite bind_ret_l. fold bs.
  rewrite fold_left_through_map.
  apply for_each_pure. intros i st'. apply train_batch_result.
Qed.

Lemma schedule_chunks_nonempty :
  (0 < bs)%nat ->
  Forall (fun p => slice imgs (snd p) (snd p + bs) <> []) (schedule a (length imgs)).
Proof.
  intros Hbs. apply List.Forall_forall. intros [lap i] Hin.
  unfold schedule in Hin. apply in_flat_map in Hin as (lap' & _ & Hin).
  apply in_map_iff in Hin as (i' & [= <- <-] & Hi). fold bs in Hi.
  simpl. apply slice_nonempty; [exact Hbs|]. now apply (range_step_lt _ bs).
Qed.

Lemma schedule_nonempty :
  (0 < bs)%nat -> imgs <> [] -> (0 < laps_of a)%Z -> schedule a (length imgs) <> [].
Proof.
  intros Hbs Himgs Hlaps. unfold schedule, py_range.
  destruct (Z.to_nat (laps_of a)) as [|k] eqn:Hk; [lia|].
  simpl. fold bs.
  pose proof (range_step_nonempty (length imgs) bs Hbs) as Hne.
  destruct (range_step (length imgs) bs); [|discriminate].
  exfalso. apply Hne; [|reflexivity]. destruct imgs; [congruence|simpl; lia].
Qed.

End TrainLoop.

Section TrainFacts.
Context {net : Backbone} (C H W : nat) {laws : BackboneLaws C H W}.
Variable a : Args.
Variable imgs : list string.

Let bs : nat := Z.to_nat (batch_size a).

Lemma length_batch_of (p : nat * nat) :
  length (batch_of a imgs p) = length (slice imgs (snd p) (snd p + bs)).
Proof.
  unfold batch_of, reshape_BC_HW. rewrite length_map.
  pose proof (train_embedding_shape (aug a) (fst p) (slice imgs (snd p) (snd p + bs))) as Hs.
  unfold is_shape4 in Hs. apply andb_prop in Hs as [Hl _]. now apply Nat.eqb_eq in Hl.
Qed.

(** Every lap sees every image once. *)
Lemma schedule_sample_count :
  (0 < bs)%nat ->
  length (flat_map (batch_of a imgs) (schedule a (length imgs)))
  = (Z.to_nat (laps_of a) * length imgs)%nat.
Proof.
  intros Hbs. unfold schedule, py_range. fold bs.
  assert (Hlap : forall lap : nat,
    length (flat_map (batch_of a imgs) (map (pair lap) (range_step (length imgs) bs)))
    = length imgs).
  { intros lap. rewrite length_flat_map, map_map.
    rewrite (map_ext _ (fun i => length (slice imgs i (i + bs))))
      by (intros i; apply length_batch_of).
    rewrite <- (map_map (fun i => slice imgs i (i + bs)) (@length string)).
    rewrite <- length_concat. now rewrite range_step_chunks. }
  generalize 0%nat. induction (Z.to_nat (laps_of a)) as [|k IH]; intros s; simpl.
  - reflexivity.
  - rewrite flat_map_app, length_app, Hlap, IH. reflexivity.
Qed.

Hypothesis HC : (0 < C)%nat.

Lemma train_step_inv (st : train_state) (samples : list matrix) (p : nat * nat) :
  train_inv C H W st samples ->
  slice imgs (snd p) (snd p + bs) <> [] ->
  train_inv C H W (train_step a imgs st p) (samples ++ batch_of a imgs p) /\
  is_Some (ts_stats (train_step a imgs st p)) /\
  ts_C (train_step a imgs st p) = C /\ ts_HW (train_step a imgs st p) = (H * W).
Proof.
  intros (HN & Hmean & Hcov & Hsum) Hne.
  unfold train_step, batch_of. fold bs.
  set (chunk := slice imgs (snd p) (snd p + bs)) in *.
  pose proof (train_embedding_shape (aug a) (fst p) chunk) as Hshape.
  set (E := train_embedding (aug a) (fst p) chunk) in *.
  assert (HB : (0 < length chunk)%nat) by (destruct chunk; [congruence|simpl; lia]).
  destruct (shape4_spec _ _ _ _ _ Hshape HB HC) as (W' & -> & HW').
  rewrite HW'.
  pose proof (reshape_Box _ _ _ _ _ Hshape) as HE.
  set (E3 := reshape_BC_HW E) in *.
  assert (HEall : Forall (Rect C (H * W)) E3) by apply HE.
  assert (HlenE : length E3 = length chunk) by apply HE.
  simpl. rewrite accumulate_unfold.
  set (mean0 := fst (stats_or_zero C (H * W) (ts_stats st))) in *.
  set (cov0 := snd (stats_or_zero C (H * W) (ts_stats st))) in *.
  set (mean1 := madd mean0 (np_sum0 C (H * W) E3)).
  assert (Hmean1 : Rect C (H * W) mean1) by (apply madd_Rect; auto using np_sum0_Rect).
  split; [|simpl; eauto].
  unfold train_inv. simpl.
  split; [rewrite length_app; lia|].
  split; [exact Hmean1|].
  split.
  - apply (fold_update_loc Qplus
             (fun i => scatter mean1 (ts_N st + length chunk) E3 i) C C (H * W) (H * W) cov0); auto.
    intros i. apply (scatter_Rect (length chunk) C (H * W)); auto.
  - intros c i Hc Hi. unfold mean1.
    rewrite (get2_madd C (H * W)) by auto using np_sum0_Rect.
    rewrite Hsum by auto. rewrite get2_np_sum0 by auto.
    rewrite map_app, sumQ_app. reflexivity.
Qed.

Lemma train_fold_inv (ps : list (nat * nat)) :
  Forall (fun p => slice imgs (snd p) (snd p + bs) <> []) ps ->
  let st := fold_left (train_step a imgs) ps train_init in
  train_inv C H W st (flat_map (batch_of a imgs) ps) /\
  (ps <> [] -> is_Some (ts_stats st) /\ ts_C st = C /\ ts_HW st = (H * W)).
Proof.
  induction ps as [|p ps IH] using rev_ind; intros Hall st; subst st.
  - simpl. split; [|congruence]. unfold train_inv. simpl.
    split; [reflexivity|]. split; [apply zeros2_Rect|]. split; [apply zeros3_Box|].
    intros c i _ _. now rewrite get2_zeros2.
  - apply Forall_app in Hall as [Hps Hp]. inversion Hp as [|? ? Hp' _]; subst.
    rewrite fold_left_app, flat_map_app. simpl. rewrite app_nil_r.
    destruct (IH Hps) as [Hinv _].
    destruct (train_step_inv _ _ p Hinv Hp') as (Hinv' & Hsome & HCeq & HHW).
    split; [exact Hinv'|]. auto.
Qed.

End TrainFacts.

(** ** Regularisation (lines 283-286) *)

Lemma identity_Rect (C : nat) : Rect C C (identity C).
Proof.
  apply Rect_intro.
  - unfold identity. now rewrite length_map, length_seq.
  - intros i Hi. unfold identity.
    rewrite (nth_map_in _ _ i 0%nat []) by now rewrite length_seq.
    now rewrite length_map, length_seq.
Qed.

Lemma get2_identity (C i j : nat) :
  (i < C)%nat -> (j < C)%nat ->
  get2 (identity C) i j = if Nat.eqb i j then 1%Q else 0%Q.
Proof.
  intros Hi Hj. unfold get2, identity.
  rewrite (nth_map_in _ _ i 0%nat []) by now rewrite length_seq.
  rewrite (nth_map_in _ _ j 0%nat 0%Q) by now rewrite length_seq.
  now rewrite !seq_nth by lia.
Qed.

Lemma mscale_Rect (r c : nat) (x : Q) (A : matrix) : Rect r c A -> Rect r c (mscale x A).
Proof.
  intros HA. apply Rect_intro.
  - unfold mscale. rewrite length_map. apply HA.
  - intros i Hi. unfold mscale. pose proof (Rect_row _ _ _ i HA Hi) as Hr.
    destruct HA as [Hl _]. rewrite (nth_map_in _ A i [] []) by lia.
    now rewrite length_map.
Qed.

Lemma get2_mscale (r c : nat) (x : Q) (A : matrix) (i j : nat) :
  Rect r c A -> (i < r)%nat -> (j < c)%nat ->
  get2 (mscale x A) i j = (x * get2 A i j)%Q.
Proof.
  intros HA Hi Hj. unfold get2, mscale.
  pose proof (Rect_row _ _ _ i HA Hi) as Hr. destruct HA as [Hl _].
  rewrite (nth_map_in _ A i [] []) by lia.
  now rewrite (nth_map_in _ _ j 0%Q 0%Q) by lia.
Qed.

Lemma regularize_prefix (C HW N : nat) (cov : array3) (n : nat) :
  Box C C HW cov -> (n <= HW)%nat ->
  let cov' :=
    fold_left (fun cov i =>
      set_loc cov i (madd (mdiv (loc_slice cov i) (inject_Z (Z.of_nat N - 1)))
                          (mscale (1 # 100) (identity C))))
      (seq 0 n) cov in
  Box C C HW cov' /\
  forall c1 c2 j, (c1 < C)%nat -> (c2 < C)%nat ->
    get3 cov' c1 c2 j
    = if (j <? n)%nat then regularized N c1 c2 (get3 cov c1 c2 j) else get3 cov c1 c2 j.
Proof.
  intros Hcov. induction n as [|n IH]; intros Hn cov'; subst cov'.
  - simpl. split; [exact Hcov|]. reflexivity.
  - rewrite seq_S, fold_left_app. simpl.
    destruct IH as [Hbox Hget]; [lia|].
    set (cur := fold_left _ (seq 0 n) cov) in *.
    set (M := madd (mdiv (loc_slice cur n) (inject_Z (Z.of_nat N - 1)))
                   (mscale (1 # 100) (identity C))).
    assert (HM : Rect C C M).
    { apply madd_Rect.
      - apply mdiv_Rect. now apply (loc_slice_Rect C C HW).
      - apply mscale_Rect, identity_Rect. }
    rewrite set_loc_update. split; [now apply update_loc_Box|].
    intros c1 c2 j H1 H2.
    rewrite (get3_update_loc _ C C HW) by (auto; lia).
    destruct (Nat.eqb_spec n j) as [<-|Hne].
    + destruct (Nat.ltb_spec n (S n)); [|lia].
      unfold M. rewrite (get2_madd C C); auto.
      * rewrite (get2_mdiv C C) by (auto; now apply (loc_slice_Rect C C HW)).
        rewrite (get2_mscale C C) by (auto using identity_Rect).
        rewrite get2_loc_slice, get2_identity by auto.
        rewrite Hget by auto. now rewrite Nat.ltb_irrefl.
      * apply mdiv_Rect. now apply (loc_slice_Rect C C HW).
      * apply mscale_Rect, identity_Rect.
    + rewrite Hget by auto.
      destruct (Nat.ltb_spec j n), (Nat.ltb_spec j (S n)); try reflexivity; lia.
Qed.

Lemma regularize_entries (C HW N : nat) (cov : array3) (c1 c2 i : nat) :
  Box C C HW cov -> (c1 < C)%nat -> (c2 < C)%nat -> (i < HW)%nat ->
  get3 (regularize C HW N cov) c1 c2 i = regularized N c1 c2 (get3 cov c1 c2 i).
Proof.
  intros Hcov H1 H2 Hi. unfold regularize.
  destruct (regularize_prefix C HW N cov HW Hcov (le_n _)) as [_ Hget].
  rewrite Hget by auto. destruct (Nat.ltb_spec i HW); [reflexivity|lia].
Qed.

(** ** Distances of one batch (lines 499-505) *)

Lemma set_column_Rect (r c : nat) (A : matrix) (i : nat) (v : vector) :
  Rect r c A -> length v = r -> Rect r c (set_column A i v).
Proof.
  intros HA Hv. apply Rect_intro.
  - unfold set_column. rewrite length_zip_with. destruct HA. lia.
  - intros b Hb. unfold set_column. pose proof (Rect_row _ _ _ b HA Hb) as Hr.
    destruct HA as [Hl _].
    rewrite (nth_zip_with _ A v b [] 0%Q []) by lia.
    now rewrite length_insert.
Qed.

Lemma get2_set_column (r c : nat) (A : matrix) (i : nat) (v : vector) (b j : nat) :
  Rect r c A -> length v = r -> (b < r)%nat -> (i < c)%nat ->
  get2 (set_column A i v) b j = if Nat.eqb i j then nth b v 0%Q else get2 A b j.
Proof.
  intros HA Hv Hb Hi. unfold get2, set_column.
  pose proof (Rect_row _ _ _ b HA Hb) as Hr. destruct HA as [Hl _].
  rewrite (nth_zip_with _ A v b [] 0%Q []) by lia.
  destruct (Nat.eqb_spec i j) as [<-|Hne].
  - now rewrite nth_insert_eq by lia.
  - now rewrite nth_insert_ne.
Qed.

Lemma fold_set_column (G : nat -> vector) (r c n : nat) (A : matrix) :
  Rect r c A -> (forall i, length (G i) = r) -> (n <= c)%nat ->
  let A' := fold_left (fun A i => set_column A i (G i)) (seq 0 n) A in
  Rect r c A' /\
  forall b j, (b < r)%nat ->
    get2 A' b j = if (j <? n)%nat then nth b (G j) 0%Q else get2 A b j.
Proof.
  intros HA HG. induction n as [|n IH]; intros Hn A'; subst A'.
  - simpl. split; [exact HA|]. reflexivity.
  - rewrite seq_S, fold_left_app. simpl.
    destruct IH as [Hrect Hget]; [lia|]. split; [now apply set_column_Rect|].
    intros b j Hb. rewrite (get2_set_column r c) by (auto; lia).
    rewrite Hget by auto.
    destruct (Nat.eqb_spec n j) as [<-|Hne].
    + destruct (Nat.ltb_spec n (S n)); [reflexivity|lia].
    + destruct (Nat.ltb_spec j n), (Nat.ltb_spec j (S n)); try reflexivity; lia.
Qed.

(** Entry [(b, i)] of [dist_tmp] is the Mahalanobis distance of sample [b]
    at location [i] to the stored mean, under the inverse of the stored
    covariance of that location. *)
Lemma batch_distances_entry `{NumLib} (train_outputs : matrix * array3)
    (HW : nat) (E : array3) (b i : nat) :
  (b < length E)%nat -> (i < HW)%nat ->
  get2 (batch_distances train_outputs HW E) b i
  = mahalanobis (column (nth b E []) i)
                (column (fst train_outputs) i)
                (linalg_inv (loc_slice (snd train_outputs) i)).
Proof.
  intros Hb Hi. unfold batch_distances.
  set (G := fun i => map (fun sample =>
              mahalanobis (column sample i) (column (fst train_outputs) i)
                          (linalg_inv (loc_slice (snd train_outputs) i))) E).
  destruct (fold_set_column G (length E) HW HW (zeros2 (length E) HW)) as [_ Hget].
  - apply zeros2_Rect.
  - intros j. unfold G. now rewrite length_map.
  - lia.
  - rewrite Hget by auto. destruct (Nat.ltb_spec i HW); [|lia].
    unfold G. now rewrite (nth_map_in _ E b [] 0%Q).
Qed.

(** ** What [get_train_outputs] returns *)

Section TrainOutputs.
Context {env : Env} {net : Backbone} (C H W : nat) {laws : BackboneLaws C H W}.
Variable a : Args.
Hypothesis HC : (0 < C)%nat.
Hypothesis Hfeat : truthy (feat a) = false.
Hypothesis Himgs : train_files a <> [].
Hypothesis Hbs : (0 < batch_size a)%Z.
Hypothesis Hlaps : (0 < laps_of a)%Z.

Let imgs := train_files a.
Let samples := flat_map (batch_of a imgs) (schedule a (length imgs)).
Let N := length samples.

(** The run reaches line 281 with the sums of all batches, and returns
    the divided mean and the regularised covariances. *)
Lemma get_train_outputs_returns :
  exists st mean_sum cov_acc,
    result (train_loop a imgs) = Returned st /\
    ts_stats st = Some (mean_sum, cov_acc) /\
    train_inv C H W st samples /\
    ts_N st = N /\
    result (get_train_outputs a)
    = Returned (mdiv mean_sum (nat2Q N), regularize C (H * W) N cov_acc).
Proof.
  pose proof (train_loop_result a imgs Hbs) as Hloop.
  set (st := fold_left (train_step a imgs) (schedule a (length imgs)) train_init) in *.
  assert (Hbs' : (0 < Z.to_nat (batch_size a))%nat) by lia.
  destruct (train_fold_inv C H W a imgs HC (schedule a (length imgs))
              (schedule_chunks_nonempty a imgs Hbs')) as [Hinv Hsome].
  destruct Hsome as ([[mean_sum cov_acc] Hstats] & HCeq & HHW).
  { now apply schedule_nonempty. }
  fold st in Hinv, Hstats, HCeq, HHW.
  exists st, mean_sum, cov_acc.
  assert (HN : ts_N st = N) by apply Hinv.
  repeat split; auto; try apply Hinv.
  unfold get_train_outputs. rewrite Hfeat. fold imgs.
  destruct (Nat.eqb_spec (length imgs) 0) as [Hz|_].
  { exfalso. apply Himgs. now apply length_zero_iff_nil. }
  rewrite (result_bind_returned _ _ _ Hloop).
  unfold train_finish. rewrite Hstats, !result_emit_then. simpl.
  now rewrite HCeq, HHW, HN.
Qed.

End TrainOutputs.

(** In the exact model the run returns, [N] is the number of laps times
    the number of training images, and the mean at every channel [c] and
    location [i] is the sum over all [N] processed samples of their entry
    [(c, i)], divided by [N]. *)
Lemma get_train_outputs_mean {env : Env} {net : Backbone} (C H W : nat)
    {laws : BackboneLaws C H W} (a : Args) :
  (0 < C)%nat ->
  truthy (feat a) = false ->
  train_files a <> [] ->
  (0 < batch_size a)%Z ->
  (0 < laps_of a)%Z ->
  let imgs := train_files a in
  let samples := flat_map (batch_of a imgs) (schedule a (length imgs)) in
  let N := length samples in
  N = (Z.to_nat (laps_of a) * length imgs)%nat /\
  exists mean cov,
    result (get_train_outputs a) = Returned (mean, cov) /\
    forall c i, (c < C)%nat -> (i < H * W)%nat ->
      (get2 mean c i == sumQ (map (fun s => get2 s c i) samples) / nat2Q N)%Q.
Proof.
  intros HC Hfeat Himgs Hbs Hlaps imgs samples N.
  split.
  { apply (schedule_sample_count C H W). lia. }
  destruct (get_train_outputs_returns C H W a HC Hfeat Himgs Hbs Hlaps)
    as (st & mean_sum & cov_acc & _ & Hstats & Hinv & _ & Hres).
  fold imgs in Hinv, Hres. fold samples in Hinv, Hres. fold N in Hres.
  exists (mdiv mean_sum (nat2Q N)), (regularize C (H * W) N cov_acc).
  split; [exact Hres|].
  intros c i Hc Hi.
  destruct Hinv as (_ & Hmean & _ & Hsum). rewrite Hstats in Hmean, Hsum. simpl in Hmean, Hsum.
  rewrite (get2_mdiv C (H * W)) by auto.
  now rewrite Hsum.
Qed.

(** A property kept by every iteration that returns holds when the loop
    returns. *)
Lemma for_each_returned {A S} (P : S -> Prop) (l : list A) (body : A -> S -> M S) (s s' : S) :
  P s ->
  (forall x s0 s1, P s0 -> result (body x s0) = Returned s1 -> P s1) ->
  result (for_each l body s) = Returned s' -> P s'.
Proof.
  intros Hs Hstep. revert s Hs. induction l as [|x l IH]; intros s Hs; simpl.
  - now intros [= <-].
  - rewrite result_bind. destruct (result (body x s)) as [s1| |] eqn:Hb; try discriminate.
    apply IH. eapply Hstep; eauto.
Qed.

Section TestBatch.
Context {env : Env} {net : Backbone} {lib : NumLib} {rs : RandomState}.

Lemma prepare_image_dist (a : Args) (path : string)
    (acc acc' : list (string * option (Z * Z * Z)) * test_state) :
  result (prepare_image a path acc) = Returned acc' ->
  te_dist_list (snd acc') = te_dist_list (snd acc) /\ te_N (snd acc') = te_N (snd acc).
Proof.
  destruct acc as [imgs st]. unfold prepare_image.
  destruct (aug a).
  - destruct (image_shape path) as [h w].
    destruct (preprocess_aug default_angle_range h w (te_rng st)) as [o g'].
    rewrite result_bind. destruct o as [[[angle ph] pw]| |]; simpl; try discriminate.
    now intros [= <-].
  - simpl. now intros [= <-].
Qed.

(** The distances of a test batch are computed from the train outputs the
    caller passes in. *)
Lemma test_batch_dist (a : Args) (train_outputs : matrix * array3)
    (i_aug i_img : nat) (st st' : test_state) :
  result (test_batch a train_outputs i_aug i_img st) = Returned st' ->
  exists imgs,
    te_dist_list st'
    = te_dist_list st
      ++ [batch_distances train_outputs (te_H st' * te_W st')
            (reshape_BC_HW (test_embedding i_aug imgs))].
Proof.
  unfold test_batch. rewrite result_emit_then, result_bind.
  destruct (result (for_each _ (prepare_image a) ([], st))) as [[imgs st1]| |] eqn:Hprep;
    try discriminate.
  rewrite result_emit_then.
  destruct (shape4 (test_embedding i_aug imgs)) as [[[B0 C0] H0] W0] eqn:Hshape.
  simpl. intros [= <-]. simpl. exists imgs.
  assert (Hkeep : te_dist_list st1 = te_dist_list st).
  { apply (for_each_returned
             (fun acc => te_dist_list (snd acc) = te_dist_list st)
             _ (prepare_image a) ([], st) (imgs, st1)) in Hprep; [exact Hprep|reflexivity|].
    intros x s0 s1 Hs0 Hb. apply prepare_image_dist in Hb as [Hb _]. congruence. }
  now rewrite Hkeep.
Qed.

End TestBatch.


(** ** One batch: the accumulated covariance is the sample covariance *)

Lemma get3_zeros3 (a b c i j k : nat) : get3 (zeros3 a b c) i j k = 0%Q.
Proof.
  unfold get3, zeros3.
  destruct (Nat.lt_ge_cases i a) as [Hi|Hi].
  - rewrite (nth_indep _ [] (zeros2 b c)) by now rewrite repeat_length.
    rewrite nth_repeat. apply get2_zeros2.
  - rewrite (nth_overflow (repeat _ _)) by now rewrite repeat_length.
    destruct j; now destruct k.
Qed.

Lemma sumQ_map_Qeq {A} (f g : A -> Q) (l : list A) :
  (forall x, In x l -> (f x == g x)%Q) -> (sumQ (map f l) == sumQ (map g l))%Q.
Proof.
  induction l as [|x l IH]; intros Hfg; simpl; [reflexivity|].
  rewrite (Hfg x) by now left. rewrite IH; [reflexivity|].
  intros y Hy. apply Hfg. now right.
Qed.

Lemma dot_columns (m : matrix) (c1 c2 : nat) :
  dot (column m c1) (column m c2)
  = sumQ (map (fun row => (nth c1 row 0 * nth c2 row 0)%Q) m).
Proof.
  unfold dot, column, sumQ. induction m as [|row m IH]; simpl; [reflexivity|].
  f_equal. exact IH.
Qed.

(** Entry [(c1, c2)] of [m.T @ m] for the centred batch at location [i]. *)
Lemma get2_scatter (B C HW : nat) (mean : matrix) (N : nat) (E : array3) (i c1 c2 : nat) :
  Box B C HW E -> Rect C HW mean -> (0 < B)%nat ->
  (c1 < C)%nat -> (c2 < C)%nat -> (i < HW)%nat ->
  get2 (scatter mean N E i) c1 c2
  = sumQ (map (fun s => ((get2 s c1 i - get2 mean c1 i / nat2Q N)
                         * (get2 s c2 i - get2 mean c2 i / nat2Q N))%Q) E).
Proof.
  intros HE Hmean HB H1 H2 Hi.
  assert (HC : (0 < C)%nat) by lia.
  unfold scatter.
  pose proof (centered_Rect B C HW mean N E i HE Hmean HC) as Hm.
  set (r := mdiv (transpose (col_keepdim mean i)) (nat2Q N)) in *.
  set (m := msub_row (loc_slice E i) r) in *.
  rewrite (get2_matmul C B C) by (auto using transpose_Rect).
  rewrite (nth_transpose B C) by auto.
  rewrite dot_columns. unfold m, msub_row, loc_slice. rewrite !map_map.
  assert (Hr : Rect 1 C r).
  { apply mdiv_Rect, transpose_Rect; [|exact HC]. now apply (col_keepdim_Rect C HW). }
  assert (Hr0 : forall c, (c < C)%nat -> nth c (hd [] r) 0%Q = (get2 mean c i / nat2Q N)%Q).
  { intros c Hc.
    assert (Hhd : hd [] r = nth 0 r []) by now destruct r.
    rewrite Hhd. change (nth c (nth 0 r []) 0%Q) with (get2 r 0 c). unfold r.
    rewrite (get2_mdiv 1 C); [|apply transpose_Rect; [now apply (col_keepdim_Rect C HW)|exact HC]|lia|exact Hc].
    f_equal. unfold get2 at 1.
    rewrite (nth_transpose C 1); [|now apply (col_keepdim_Rect C HW)|exact HC|lia].
    unfold column, col_keepdim. rewrite map_map. simpl.
    destruct Hmean as [Hl _].
    now rewrite (nth_map_in _ mean c [] 0%Q) by lia. }
  f_equal. apply map_ext_in. intros s Hs.
  assert (Hs' : Rect C HW s).
  { destruct HE as [_ HE]. rewrite List.Forall_forall in HE. now apply HE. }
  assert (Hlen : length (map (fun v => nth i v 0%Q) s) = C).
  { rewrite length_map. apply Hs'. }
  assert (Hlr : length (hd [] r) = C) by (apply (Rect_hd 1 C r Hr); lia).
  rewrite (nth_zip_with _ _ _ c1 0%Q 0%Q 0%Q) by lia.
  rewrite (nth_zip_with _ _ _ c2 0%Q 0%Q 0%Q) by lia.
  destruct Hs' as [Hls _].
  rewrite !(nth_map_in _ s _ [] 0%Q) by lia.
  now rewrite !Hr0 by auto.
Qed.

(** When all [N] samples arrive in one batch, the running mean is the final
    mean, and the accumulated matrix divided by [N - 1] is the sample
    covariance. *)
Lemma single_batch_covariance (C HW : nat) (E : array3) (c1 c2 i : nat) :
  Box (length E) C HW E -> (0 < length E)%nat ->
  (c1 < C)%nat -> (c2 < C)%nat -> (i < HW)%nat ->
  (get3 (snd (accumulate (length E) C HW E None)) c1 c2 i
     / inject_Z (Z.of_nat (length E) - 1)
   == sample_covariance E i c1 c2)%Q.
Proof.
  intros HE HB H1 H2 Hi. rewrite accumulate_unfold. simpl.
  assert (HEall : Forall (Rect C HW) E) by apply HE.
  set (mean1 := madd (zeros2 C HW) (np_sum0 C HW E)).
  assert (Hmean1 : Rect C HW mean1).
  { apply madd_Rect; [apply zeros2_Rect|now apply np_sum0_Rect]. }
  destruct (fold_update_loc Qplus (fun i => scatter mean1 (length E) E i)
              C C HW HW (zeros3 C C HW)) as [_ Hget].
  - apply zeros3_Box.
  - intros j. apply (scatter_Rect (length E) C HW); auto. lia.
  - lia.
  - rewrite <- add_loc_fold in Hget. rewrite Hget by auto.
    destruct (Nat.ltb_spec i HW); [|lia].
    rewrite get3_zeros3, (get2_scatter (length E) C HW) by auto.
    assert (Hmu : forall c, (c < C)%nat ->
              (get2 mean1 c i / nat2Q (length E) == sample_mean E i c)%Q).
    { intros c Hc. unfold mean1, sample_mean.
      rewrite (get2_madd C HW) by (auto using zeros2_Rect, np_sum0_Rect).
      rewrite get2_zeros2, get2_np_sum0 by auto. now rewrite Qplus_0_l. }
    unfold sample_covariance. rewrite Qplus_0_l.
    apply Qmult_comp; [|reflexivity].
    apply sumQ_map_Qeq. intros s _. now rewrite !Hmu by auto.
Qed.


(** C1, evaluated.  Two training images whose single feature is 0 and 2.
    Processed one image per batch, the accumulated covariance divided by
    [N - 1] is 1; the sample covariance of the two values is 2; processed
    as one batch of two, the accumulated value divided by [N - 1] is 2. *)
Theorem streaming_covariance_depends_on_batching :
  let imgs := @train_files Demo.env (Demo.args 1) in
  let samples :=
    flat_map (@batch_of Demo.net (Demo.args 1) imgs) (schedule (Demo.args 1) (length imgs)) in
  samples = [[[0]]; [[2]]]%Q /\
  (sample_covariance samples 0 0 0 == 2)%Q /\
  (exists st mean cov,
     result (@train_loop Demo.net (Demo.args 1) imgs) = Returned st /\
     ts_stats st = Some (mean, cov) /\ ts_N st = 2%nat /\
     (get3 cov 0 0 0 / inject_Z (Z.of_nat (ts_N st) - 1) == 1)%Q /\
     ~ (get3 cov 0 0 0 / inject_Z (Z.of_nat (ts_N st) - 1)
        == sample_covariance samples 0 0 0)%Q) /\
  (exists st mean cov,
     result (@train_loop Demo.net (Demo.args 2) imgs) = Returned st /\
     ts_stats st = Some (mean, cov) /\ ts_N st = 2%nat /\
     (get3 cov 0 0 0 / inject_Z (Z.of_nat (ts_N st) - 1)
      == sample_covariance samples 0 0 0)%Q) /\
  (exists mean cov,
     result (@get_train_outputs Demo.env Demo.net (Demo.args 1)) = Returned (mean, cov) /\
     (get3 cov 0 0 0 == 1 + (1 # 100))%Q /\
     ~ (get3 cov 0 0 0 == sample_covariance samples 0 0 0 + (1 # 100))%Q).
Proof.
  intros imgs samples.
  split; [reflexivity|]. split; [reflexivity|]. split; [|split].
  - eexists _, _, _. split; [vm_compute; reflexivity|].
    split; [reflexivity|]. split; [reflexivity|]. split; [reflexivity|]. discriminate.
  - eexists _, _, _. split; [vm_compute; reflexivity|].
    split; [reflexivity|]. split; [reflexivity|]. reflexivity.
  - eexists _, _. split; [vm_compute; reflexivity|]. split; [reflexivity|]. discriminate.
Qed.

(** ** Reversing the crop *)

Lemma np_pad_shape (A : matrix) (top bottom left right : Z) (out : matrix) :
  (0 < length A)%nat ->
  result (np_pad A top bottom left right) = Returned out ->
  (0 <= top)%Z /\ (0 <= bottom)%Z /\ (0 <= left)%Z /\ (0 <= right)%Z /\
  shape2 out = ((Z.to_nat top + length A + Z.to_nat bottom)%nat,
                (Z.to_nat left + length (hd [] A) + Z.to_nat right)%nat).
Proof.
  intros HA. unfold np_pad.
  destruct (Z.ltb_spec top 0); [discriminate|].
  destruct (Z.ltb_spec bottom 0); [discriminate|].
  destruct (Z.ltb_spec left 0); [discriminate|].
  destruct (Z.ltb_spec right 0); [discriminate|].
  simpl. intros [= <-]. repeat split; try lia.
  unfold shape2. f_equal.
  - rewrite !length_app, !repeat_length, length_map. lia.
  - destruct (Z.to_nat top) as [|k]; simpl.
    + destruct A as [|row A]; [simpl in HA; lia|]. simpl.
      rewrite !length_app, !repeat_length. lia.
    + now rewrite repeat_length.
Qed.

(** The padded map has the recorded top and left widths of image [i], but
    bottom and right widths computed from the offsets of the image that
    was prepared last. *)
Lemma reverse_crop_shape {rs : RandomState} (st : test_state) (i : nat) (m out : matrix) :
  (0 < length m)%nat ->
  result (reverse_crop st i m) = Returned out ->
  exists top left pad_h pad_w,
    te_pad_h_list st !! i = Some top /\ te_pad_w_list st !! i = Some left /\
    te_pad_h st = Some pad_h /\ te_pad_w st = Some pad_w /\
    shape2 out
    = ((Z.to_nat top + length m
        + Z.to_nat (Z.of_nat IMAGE_RESIZE - Z.of_nat IMAGE_SIZE - pad_h))%nat,
       (Z.to_nat left + length (hd [] m)
        + Z.to_nat (Z.of_nat IMAGE_RESIZE - Z.of_nat IMAGE_SIZE - pad_w))%nat).
Proof.
  intros Hm. unfold reverse_crop, py_index.
  destruct (te_pad_h_list st !! i) as [top|]; [|now rewrite result_bind].
  rewrite bind_ret_l.
  destruct (te_pad_w_list st !! i) as [left|]; [|now rewrite result_bind].
  rewrite bind_ret_l.
  destruct (te_pad_h st) as [pad_h|]; [|now rewrite result_bind].
  rewrite bind_ret_l.
  destruct (te_pad_w st) as [pad_w|]; [|now rewrite result_bind].
  rewrite bind_ret_l.
  intros Hpad. apply np_pad_shape in Hpad as (_ & _ & _ & _ & Hshape); [|exact Hm].
  exists top, left, pad_h, pad_w. auto.
Qed.

Lemma demo_resample_shape (w h : nat) (m : matrix) :
  (0 < h)%nat ->
  length (Demo.resample w h m) = h /\ length (hd [] (Demo.resample w h m)) = w.
Proof.
  intros Hh. unfold Demo.resample. split; [now rewrite length_map, length_seq|].
  destruct h as [|h]; [lia|]. cbn [seq map hd].
  now rewrite length_map, length_seq.
Qed.

(** C4, evaluated.  Two test images with augmentation on two laps: the
    recorded offsets of the first image are (6, 13), those of the image
    prepared last are (13, 30).  Reversing the crop of the first map pads
    6 rows on top and 32 - 13 = 19 below, 13 columns on the left and
    32 - 30 = 2 on the right: the padded map is 249 x 239, not 256 x 256.
    Only the map of the last image is padded back to 256 x 256. *)
Theorem reverse_crop_pads_with_last_offsets :
  let a := Demo.aug_args in
  exists (st : @test_state Demo.lcg) dist_list out out_last,
    result (@test_loop Demo.env Demo.net Demo.lib Demo.lcg a (Demo.trained a) Demo.seed)
    = Returned (st, dist_list) /\
    te_pad_h_list st = [6; 21; 14; 13]%Z /\
    te_pad_w_list st = [13; 22; 5; 30]%Z /\
    te_pad_h st = Some 13%Z /\
    te_pad_w st = Some 30%Z /\
    result (reverse_crop st 0
              (@resize_bilinear Demo.lib IMAGE_SIZE IMAGE_SIZE (nth 0 dist_list [])))
    = Returned out /\
    shape2 out = (249, 239)%nat /\
    shape2 out <> (IMAGE_RESIZE, IMAGE_RESIZE) /\
    result (reverse_crop st 3
              (@resize_bilinear Demo.lib IMAGE_SIZE IMAGE_SIZE (nth 3 dist_list [])))
    = Returned out_last /\
    shape2 out_last = (IMAGE_RESIZE, IMAGE_RESIZE).
Proof.
  intros a.
  assert (Hloop : exists st dist_list,
    result (@test_loop Demo.env Demo.net Demo.lib Demo.lcg a (Demo.trained a) Demo.seed)
    = Returned (st, dist_list) /\
    te_pad_h_list st = [6; 21; 14; 13]%Z /\
    te_pad_w_list st = [13; 22; 5; 30]%Z /\
    te_pad_h st = Some 13%Z /\
    te_pad_w st = Some 30%Z).
  { eexists _, _. split; [vm_compute; reflexivity|]. repeat split. }
  destruct Hloop as (st & dist_list & Hrun & Hph & Hpw & Hh & Hw).
  assert (Hcrop : forall i m top left,
            te_pad_h_list st !! i = Some top -> te_pad_w_list st !! i = Some left ->
            (0 <= top)%Z -> (0 <= left)%Z ->
            exists out, result (reverse_crop st i m) = Returned out).
  { intros i m top left Ht Hl Htop Hleft. unfold reverse_crop.
    rewrite (py_index_Some _ _ _ Ht), bind_ret_l, (py_index_Some _ _ _ Hl), bind_ret_l.
    rewrite Hh, Hw, !bind_ret_l. unfold np_pad.
    destruct (Z.ltb_spec top 0); [lia|]. destruct (Z.ltb_spec left 0); [lia|].
    simpl. eauto. }
  assert (Hsize : forall m, length (@resize_bilinear Demo.lib IMAGE_SIZE IMAGE_SIZE m) = 224%nat
                            /\ length (hd [] (@resize_bilinear Demo.lib IMAGE_SIZE IMAGE_SIZE m))
                               = 224%nat).
  { intros m. apply (demo_resample_shape IMAGE_SIZE IMAGE_SIZE m). unfold IMAGE_SIZE. lia. }
  assert (Hout : exists out, result (reverse_crop st 0
            (@resize_bilinear Demo.lib IMAGE_SIZE IMAGE_SIZE (nth 0 dist_list []))) = Returned out).
  { apply (Hcrop 0%nat _ 6%Z 13%Z); [now rewrite Hph|now rewrite Hpw|discriminate|discriminate]. }
  assert (Hout3 : exists out, result (reverse_crop st 3
            (@resize_bilinear Demo.lib IMAGE_SIZE IMAGE_SIZE (nth 3 dist_list []))) = Returned out).
  { apply (Hcrop 3%nat _ 13%Z 30%Z); [now rewrite Hph|now rewrite Hpw|discriminate|discriminate]. }
  destruct Hout as [out Hout]. destruct Hout3 as [out3 Hout3].
  exists st, dist_list, out, out3.
  destruct (Hsize (nth 0 dist_list [])) as [Hl0 Hw0].
  destruct (Hsize (nth 3 dist_list [])) as [Hl3 Hw3].
  apply reverse_crop_shape in Hout as Hs; [|rewrite Hl0; apply Nat.lt_0_succ].
  apply reverse_crop_shape in Hout3 as Hs3; [|rewrite Hl3; apply Nat.lt_0_succ].
  destruct Hs as (top & left & ph & pw & Ht & Hl & Hph' & Hpw' & Hshape).
  destruct Hs3 as (top3 & left3 & ph3 & pw3 & Ht3 & Hl3' & Hph3 & Hpw3 & Hshape3).
  rewrite Hph in Ht, Ht3. rewrite Hpw in Hl, Hl3'. rewrite Hh in Hph', Hph3.
  rewrite Hw in Hpw', Hpw3.
  injection Ht as <-. injection Hl as <-. injection Hph' as <-. injection Hpw' as <-.
  injection Ht3 as <-. injection Hl3' as <-. injection Hph3 as <-. injection Hpw3 as <-.
  rewrite Hl0, Hw0 in Hshape. rewrite Hl3, Hw3 in Hshape3.
  split; [exact Hrun|]. split; [exact Hph|]. split; [exact Hpw|].
  split; [exact Hh|]. split; [exact Hw|]. split; [exact Hout|].
  split; [rewrite Hshape; reflexivity|].
  split; [rewrite Hshape; discriminate|].
  split; [exact Hout3|]. rewrite Hshape3. reflexivity.
Qed.

(** ** Maximum and minimum of an array *)

Lemma fold_left_Qmax_spec (r : list Q) (x : Q) :
  (x <= fold_left Qmax r x)%Q /\
  (forall y, In y r -> (y <= fold_left Qmax r x)%Q) /\
  In (fold_left Qmax r x) (x :: r).
Proof.
  revert x. induction r as [|z r IH]; intros x; simpl.
  - repeat split; [apply Qle_refl|intros y []|now left].
  - destruct (IH (Qmax x z)) as (Hge & Hall & Hin).
    repeat split.
    + eapply Qle_trans; [apply Q.le_max_l|exact Hge].
    + intros y [<-|Hy]; [|now apply Hall].
      eapply Qle_trans; [apply Q.le_max_r|exact Hge].
    + destruct Hin as [Hin|Hin]; [|now right; right].
      rewrite <- Hin. unfold Qmax, GenericMinMax.gmax.
      destruct (x ?= z)%Q; [now left|now right; left|now left].
Qed.

(** [a.max()] is an entry of the array and bounds every entry. *)
Lemma np_max_spec (l : list Q) (m : Q) :
  result (np_max l) = Returned m ->
  In m l /\ forall y, In y l -> (y <= m)%Q.
Proof.
  destruct l as [|x r]; simpl; [discriminate|].
  intros [= <-]. destruct (fold_left_Qmax_spec r x) as (Hx & Hall & Hin).
  split; [exact Hin|]. intros y [<-|Hy]; auto.
Qed.

(** ** [np.argmax] *)

(** The scan keeps the first index of the largest value seen so far. *)
Lemma argmax_from_spec (l pre : list Q) (best : Q) (ibest : nat) :
  pre !! ibest = Some best ->
  (forall y, In y pre -> (y <= best)%Q) ->
  (forall j y, (j < ibest)%nat -> pre !! j = Some y -> (y < best)%Q) ->
  let k := argmax_from best ibest (length pre) l in
  exists v, (pre ++ l) !! k = Some v /\
            (forall y, In y (pre ++ l) -> (y <= v)%Q) /\
            (forall j y, (j < k)%nat -> (pre ++ l) !! j = Some y -> (y < v)%Q).
Proof.
  revert pre best ibest. induction l as [|x r IH]; intros pre best ibest Hat Hub Hfirst; simpl.
  - rewrite app_nil_r. exists best. auto.
  - assert (Hlen : length (pre ++ [x]) = S (length pre)) by (rewrite length_app; simpl; lia).
    replace (pre ++ x :: r) with ((pre ++ [x]) ++ r) by now rewrite <- app_assoc.
    destruct (Qlt_le_dec best x) as [Hlt|Hle].
    + rewrite <- Hlen. apply IH.
      * rewrite lookup_app_r by lia. now rewrite Nat.sub_diag.
      * intros y Hy. apply in_app_iff in Hy as [Hy|[<-|[]]]; [|apply Qle_refl].
        apply Qle_trans with best; [auto|now apply Qlt_le_weak].
      * intros j y Hj Hy. rewrite lookup_app_l in Hy by lia.
        apply Qle_lt_trans with best; [|exact Hlt].
        apply Hub. apply list_elem_of_In. eapply list_elem_of_lookup_2; eauto.
    + rewrite <- Hlen. apply IH.
      * apply lookup_lt_Some in Hat as Hlt. now rewrite lookup_app_l.
      * intros y Hy. apply in_app_iff in Hy as [Hy|[<-|[]]]; auto.
      * intros j y Hj Hy. apply lookup_lt_Some in Hat as Hlt.
        rewrite lookup_app_l in Hy by lia. eauto.
Qed.

Lemma np_argmax_spec (l : list Q) :
  l <> [] ->
  exists k v, np_argmax l = ([], Returned k) /\ l !! k = Some v /\
              (forall y, In y l -> (y <= v)%Q) /\
              (forall j y, (j < k)%nat -> l !! j = Some y -> (y < v)%Q).
Proof.
  destruct l as [|x r]; [congruence|]. intros _.
  destruct (argmax_from_spec r [x] x 0) as (v & Hv & Hub & Hfirst).
  - reflexivity.
  - intros y [<-|[]]. apply Qle_refl.
  - intros j y Hj. lia.
  - exists (argmax_from x 0 1 r), v. simpl in *. auto.
Qed.

(** ** The F1 curve *)

Lemma f1_scores_lookup (precision recall : list Q) (j : nat) (p r : Q) :
  precision !! j = Some p -> recall !! j = Some r ->
  f1_scores precision recall !! j = Some (f1_of p r).
Proof.
  intros Hp Hr. unfold f1_scores. rewrite lookup_zip_with, Hp. simpl. now rewrite Hr.
Qed.

Lemma f1_of_nonneg (p r : Q) : (0 <= p)%Q -> (0 <= r)%Q -> (0 <= f1_of p r)%Q.
Proof.
  intros Hp Hr. unfold f1_of.
  destruct (Qeq_bool (p + r) 0) eqn:Hz; [apply Qle_refl|].
  apply Qeq_bool_neq in Hz.
  assert (0 <= p + r)%Q as Hs.
  { replace 0%Q with (0 + 0)%Q by reflexivity. now apply Qplus_le_compat. }
  apply Qle_shift_div_l.
  - apply Qle_lteq in Hs as [Hs|Hs]; [exact Hs|]. now symmetry in Hs.
  - rewrite Qmult_0_l. apply Qmult_le_0_compat; [|exact Hr].
    apply Qmult_le_0_compat; [discriminate|exact Hp].
Qed.

Lemma f1_of_recall_zero (p r : Q) : (r == 0)%Q -> (f1_of p r == 0)%Q.
Proof.
  intros Hr. unfold f1_of. destruct (Qeq_bool (p + r) 0) eqn:Hz; [reflexivity|].
  apply Qeq_bool_neq in Hz. rewrite Hr in *. field.
  intros E. apply Hz. rewrite E. ring.
Qed.

(** ** Ground-truth masks *)

Lemma for_each_flatten_masks (masks : list matrix) (acc : list Q) :
  for_each (map Some masks) (fun g acc =>
      match g with
      | Some m => ret (acc ++ concat m)
      | None => raise ValueError
      end) acc
  = ([], Returned (acc ++ concat (map (@concat Q) masks))).
Proof.
  revert acc. induction masks as [|m r IH]; intros acc; simpl.
  - now rewrite app_nil_r.
  - rewrite IH. now rewrite <- app_assoc.
Qed.

Lemma flatten_masks_some (masks : list matrix) :
  flatten_masks (map Some masks) = ([], Returned (concat (map (@concat Q) masks))).
Proof. unfold flatten_masks. now rewrite for_each_flatten_masks. Qed.

(** The threshold a run reports is the one [select_threshold] returns for
    the masks the test loop collected and the normalised score maps. *)
Lemma recognize_from_image_threshold
    {env : Env} {net : Backbone} {lib : NumLib} {rs : RandomState}
    (a : Args) (g : rng) (r : report) :
  result (recognize_from_image a g) = Returned r ->
  exists train_outputs st dist_list normalized,
    result (test_loop a train_outputs g) = Returned (st, dist_list) /\
    result (normalize (r_score_map r)) = Returned normalized /\
    result (select_threshold a (te_gt_imgs st) normalized) = Returned (r_threshold r).
Proof.
  intros Hrun. unfold recognize_from_image in Hrun.
  apply bind_returned_inv in Hrun as (train_outputs & _ & Hrun & _); cbv beta in Hrun.
  apply bind_returned_inv in Hrun as ([st dist_list] & Htest & Hrun & _); cbv beta in Hrun.
  apply bind_returned_inv in Hrun as (pre & _ & Hrun & _); cbv beta in Hrun.
  apply bind_returned_inv in Hrun as (normalized & Hnorm & Hrun & _); cbv beta in Hrun.
  apply bind_returned_inv in Hrun as (an & _ & Hrun & _); cbv beta in Hrun.
  apply bind_returned_inv in Hrun as (t & Hthr & Hrun & _); cbv beta in Hrun.
  unfold alloc in Hrun.
  apply bind_returned_inv in Hrun as (h1 & _ & Hrun & _); cbv beta in Hrun.
  rewrite result_emit_then in Hrun. simpl in Hrun. injection Hrun as <-. simpl.
  exists train_outputs, st, dist_list, normalized. auto.
Qed.

(** C6.  The threshold [recognize_from_image] reports is the result of
    [select_threshold] on the collected masks and the normalised maps.
    A threshold given on the command line is returned unchanged and
    no curve is computed.  Without one, the precision-recall curve of the
    flattened scores against the flattened masks is computed: against all
    collected masks without augmentation, against the first
    [len / aug_num] of them with augmentation.  F1 is 2pr/(p+r) and 0
    where p + r = 0, and the returned threshold is the curve threshold at
    the first index where F1 is largest.  The curve is sklearn's: one more
    precision and recall value than thresholds, none negative, the last
    recall 0. *)
Theorem threshold_is_optional_and_f1_optimal
    {env : Env} {net : Backbone} {lib : NumLib} {rs : RandomState}
    (a : Args) (gt_imgs : list (option matrix)) (scores : array3) :
  (forall g r, result (recognize_from_image a g) = Returned r ->
     exists train_outputs st dist_list normalized,
       result (test_loop a train_outputs g) = Returned (st, dist_list) /\
       result (normalize (r_score_map r)) = Returned normalized /\
       result (select_threshold a (te_gt_imgs st) normalized)
         = Returned (r_threshold r)) /\
  (forall t, threshold a = Some t ->
     select_threshold a gt_imgs scores = ([], Returned t)) /\
  (threshold a = None ->
   (aug a = true -> (0 < aug_num a)%Z) ->
   forall masks precision recall thresholds,
     (if aug a
      then take (length gt_imgs / Z.to_nat (aug_num a)) gt_imgs
      else gt_imgs) = map Some masks ->
     precision_recall_curve (concat (map (@concat Q) masks)) (flatten3 scores)
       = (precision, recall, thresholds) ->
     thresholds <> [] ->
     length precision = S (length thresholds) ->
     length recall = S (length thresholds) ->
     (forall p, In p precision -> (0 <= p)%Q) ->
     (forall r, In r recall -> (0 <= r)%Q) ->
     (nth (length thresholds) recall 1 == 0)%Q ->
     let f1 := f1_scores precision recall in
     exists k t v,
       select_threshold a gt_imgs scores = ([Log INFO "Optimal threshold"], Returned t) /\
       thresholds !! k = Some t /\
       f1 !! k = Some v /\
       (forall y, In y f1 -> (y <= v)%Q) /\
       (forall j y, (j < k)%nat -> f1 !! j = Some y -> (y < v)%Q) /\
       (forall j p r, precision !! j = Some p -> recall !! j = Some r ->
          f1 !! j = Some (if Qeq_bool (p + r) 0 then 0%Q else (2 * p * r / (p + r))%Q))).
Proof.
  split; [|split].
  - intros g r. apply recognize_from_image_threshold.
  - intros t Ht. unfold select_threshold. now rewrite Ht.
  - intros Hnone Hnum masks precision recall thresholds Hmasks Hcurve Hne Hlp Hlr Hp Hr Hlast f1.
    assert (Hsel : selected_masks a gt_imgs = ret (map Some masks)).
    { unfold selected_masks. rewrite <- Hmasks. destruct (aug a); [|reflexivity].
      specialize (Hnum eq_refl).
      destruct (Z.eqb_spec (aug_num a) 0) as [|_]; [lia|].
      rewrite Z.quot_div_nonneg by lia.
      rewrite Z2Nat.inj_div, Nat2Z.id by lia. reflexivity. }
    set (n := length thresholds) in *.
    assert (Hlf : length f1 = S n).
    { unfold f1, f1_scores. rewrite length_zip_with. lia. }
    assert (Hf1ne : f1 <> []) by (intros E; rewrite E in Hlf; discriminate).
    destruct (np_argmax_spec f1 Hf1ne) as (k & v & Harg & Hk & Hub & Hfirst).
    (* the last F1 value is 0, so the first maximum is not the last index *)
    assert (Hkn : (k < n)%nat).
    { apply lookup_lt_Some in Hk as Hklt.
      destruct (Nat.eq_dec k n) as [->|]; [exfalso|lia].
      assert (0 < n)%nat as Hnpos by (unfold n; destruct thresholds; [congruence|simpl; lia]).
      destruct (lookup_lt_is_Some_2 precision n) as [pn Hpn]; [lia|].
      destruct (lookup_lt_is_Some_2 recall n) as [rn Hrn]; [lia|].
      destruct (lookup_lt_is_Some_2 precision 0) as [p0 Hp0]; [lia|].
      destruct (lookup_lt_is_Some_2 recall 0) as [r0 Hr0]; [lia|].
      pose proof (f1_scores_lookup _ _ _ _ _ Hpn Hrn) as Hfn.
      pose proof (f1_scores_lookup _ _ _ _ _ Hp0 Hr0) as Hf0.
      fold f1 in Hfn, Hf0. rewrite Hk in Hfn. injection Hfn as ->.
      specialize (Hfirst 0%nat _ Hnpos Hf0).
      assert (rn == 0)%Q as Hrn0.
      { rewrite <- Hlast. unfold n. erewrite nth_lookup_Some; [reflexivity|exact Hrn]. }
      rewrite (f1_of_recall_zero pn rn Hrn0) in Hfirst.
      apply (Qlt_not_le _ _ Hfirst). apply f1_of_nonneg.
      - apply Hp, list_elem_of_In. eapply list_elem_of_lookup_2; eauto.
      - apply Hr, list_elem_of_In. eapply list_elem_of_lookup_2; eauto. }
    destruct (lookup_lt_is_Some_2 thresholds k) as [t Ht]; [exact Hkn|].
    exists k, t, v. repeat split; auto.
    + unfold select_threshold. rewrite Hnone.
      rewrite Hsel.
      unfold bind at 1, ret at 1. rewrite flatten_masks_some.
      unfold bind at 1. rewrite Hcurve. fold f1. rewrite Harg.
      unfold bind at 1. unfold py_index. rewrite Ht. reflexivity.
    + intros j p r Hpj Hrj. apply (f1_scores_lookup _ _ _ _ _ Hpj Hrj).
Qed.

Lemma threshold_is_optional_and_f1_optimal_witness :
  let a := Demo.aug_args in
  let gt_imgs := [Some [[0; 1]; [1; 0]]; Some [[1; 1]; [0; 0]];
                  Some [[0; 0]; [0; 0]]; None]%Q in
  let scores := [[[1 # 4; 3 # 4]; [1; 0]]; [[1 # 2; 1 # 2]; [0; 1]]]%Q in
  threshold a = None /\ aug a = true /\ aug_num a = 2%Z /\
  exists k t v,
    @select_threshold Demo.lib a gt_imgs scores
    = ([Log INFO "Optimal threshold"], Returned t) /\
    [1 # 4; 3 # 4]%Q !! k = Some t /\
    f1_scores [1 # 2; 1; 1]%Q [1; 1 # 2; 0]%Q !! k = Some v /\
    (forall y, In y (f1_scores [1 # 2; 1; 1]%Q [1; 1 # 2; 0]%Q) -> (y <= v)%Q).
Proof.
  intros a gt_imgs scores.
  split; [reflexivity|]. split; [reflexivity|]. split; [reflexivity|].
  destruct (@threshold_is_optional_and_f1_optimal Demo.env Demo.net Demo.lib Demo.lcg
              a gt_imgs scores) as (_ & _ & Hnone).
  destruct (Hnone eq_refl (fun _ => eq_refl) [[[0; 1]; [1; 0]]; [[1; 1]; [0; 0]]]%Q
              [1 # 2; 1; 1]%Q [1; 1 # 2; 0]%Q [1 # 4; 3 # 4]%Q)
    as (k & t & v & Hrun & Ht & Hv & Hub & _).
  - reflexivity.
  - reflexivity.
  - discriminate.
  - reflexivity.
  - reflexivity.
  - intros p [<-|[<-|[<-|[]]]]; discriminate.
  - intros r [<-|[<-|[<-|[]]]]; discriminate.
  - reflexivity.
  - exists k, t, v. auto.
Defined.

(** ** [plot_fig] writes through the view *)

(** The two masked assignments of lines 320-321, taken together. *)
Lemma assign_gt_le (t : Q) (m : matrix) :
  assign_le t 0 (assign_gt t 1 m)
  = map (map (fun x => if Qlt_le_dec t x
                       then (if Qlt_le_dec t 1 then 1%Q else 0%Q)
                       else 0%Q)) m.
Proof.
  unfold assign_le, assign_gt. rewrite map_map.
  apply map_ext. intros row. rewrite map_map. apply map_ext. intros x.
  destruct (Qlt_le_dec t x) as [Hx|Hx]; [reflexivity|].
  destruct (Qlt_le_dec t x) as [Hx'|_]; [|reflexivity].
  exfalso. exact (Qlt_not_le _ _ Hx' Hx).
Qed.

Lemma assign_gt_le_normalized (t : Q) (m : matrix) :
  (forall x, In x (concat m) -> (x <= 1)%Q) ->
  assign_le t 0 (assign_gt t 1 m) = binarize t m.
Proof.
  intros Hn. rewrite assign_gt_le. unfold binarize.
  apply map_ext_in. intros row Hrow. apply map_ext_in. intros x Hx.
  destruct (Qlt_le_dec t x) as [Htx|]; [|reflexivity].
  destruct (Qlt_le_dec t 1) as [|Ht1]; [reflexivity|].
  exfalso. apply (Qlt_not_le _ _ Htx). apply Qle_trans with 1%Q; [|exact Ht1].
  apply Hn. apply in_concat. eauto.
Qed.

Lemma alloc_fresh (o : obj) (h : store) (l : loc) :
  is_Some (h !! l) -> fst (alloc o h) <> l /\ snd (alloc o h) !! l = h !! l.
Proof.
  intros Hl. unfold alloc. simpl.
  assert (fresh (dom h) <> l) as Hne.
  { intros E. apply (is_fresh (dom h)). rewrite E. now apply elem_of_dom. }
  split; [exact Hne|]. now rewrite lookup_insert_ne.
Qed.

Lemma read_ref_sub (h : store) (l : loc) (i : nat) (s : array3) (m : matrix) :
  h !! l = Some (Arr3 s) -> s !! i = Some m -> read_ref h (Sub l i) = ret m.
Proof. intros Hh Hs. simpl. rewrite Hh. now apply py_index_Some. Qed.

Lemma write_ref_sub (h : store) (l : loc) (i : nat) (s : array3) (m : matrix) :
  h !! l = Some (Arr3 s) -> write_ref h (Sub l i) m = <[l := Arr3 (<[i := m]> s)]> h.
Proof. intros Hh. simpl. now rewrite Hh. Qed.

Section PlotFigFacts.
Context `{NumLib}.

(** One iteration: it saves the figure of image [i] with the heat map
    read before the mask is written, rewrites map [i] of the caller's
    array and nothing else in it. *)
Lemma plot_one_run (file_list : list string) (scores : loc) (anormal_scores : list Q)
    (gt_imgs : list (option matrix)) (t : Q) (i : nat) (h : store)
    (s : array3) (m : matrix) (p : string) (v : Q) :
  h !! scores = Some (Arr3 s) ->
  s !! i = Some m ->
  file_list !! i = Some p ->
  anormal_scores !! i = Some v ->
  (exists g, gt_imgs !! i = Some (Some g)) ->
  exists h',
    plot_one file_list scores anormal_scores gt_imgs t i h
    = ([Log INFO "Anomaly score";
        SaveFig p (mscale 255 m)
                (mscale 255 (opening (assign_le t 0 (assign_gt t 1 m)))) v],
       Returned h') /\
    h' !! scores = Some (Arr3 (<[i := assign_le t 0 (assign_gt t 1 m)]> s)).
Proof.
  intros Hh Hs Hp Hv [g Hg].
  assert (Hi : (i < length s)%nat) by (eapply lookup_lt_Some; eauto).
  unfold plot_one.
  rewrite (py_index_Some _ _ _ Hp), bind_ret_l.
  rewrite (py_index_Some _ _ _ Hg), bind_ret_l, bind_ret_l.
  rewrite !(read_ref_sub _ _ _ _ _ Hh Hs), !bind_ret_l.
  rewrite (write_ref_sub _ _ i _ (assign_gt t 1 m) Hh).
  set (s1 := <[i := assign_gt t 1 m]> s).
  set (h1 := <[scores := Arr3 s1]> h).
  assert (Hh1 : h1 !! scores = Some (Arr3 s1)) by apply lookup_insert_eq.
  assert (Hs1 : s1 !! i = Some (assign_gt t 1 m)) by now apply list_lookup_insert_eq.
  rewrite !(read_ref_sub _ _ _ _ _ Hh1 Hs1), !bind_ret_l.
  rewrite (write_ref_sub _ _ i _ (assign_le t 0 (assign_gt t 1 m)) Hh1).
  set (s2 := <[i := assign_le t 0 (assign_gt t 1 m)]> s1).
  set (h2 := <[scores := Arr3 s2]> h1).
  assert (Hh2 : h2 !! scores = Some (Arr3 s2)) by apply lookup_insert_eq.
  assert (Hs2 : s2 !! i = Some (assign_le t 0 (assign_gt t 1 m))).
  { apply list_lookup_insert_eq. unfold s1. now rewrite length_insert. }
  rewrite !(read_ref_sub _ _ _ _ _ Hh2 Hs2), !bind_ret_l.
  set (o := Arr2 (opening (assign_le t 0 (assign_gt t 1 m)))).
  destruct (alloc_fresh o h2 scores) as [Hne Hkeep]; [now rewrite Hh2|].
  unfold alloc in *. simpl in Hne, Hkeep.
  set (l := fresh (dom h2)) in *.
  set (h3 := <[l := o]> h2) in *.
  assert (Hh3 : h3 !! l = Some o) by apply lookup_insert_eq.
  unfold read_ref at 1. rewrite Hh3. unfold o at 1. rewrite bind_ret_l.
  rewrite (py_index_Some _ _ _ Hv), bind_ret_l.
  rewrite bind_emit.
  unfold write_ref, read_ref. rewrite lookup_insert_eq, !bind_ret_l, !bind_emit. simpl.
  eexists. split; [reflexivity|].
  rewrite lookup_insert_ne by exact Hne. rewrite Hkeep, Hh2.
  unfold s2, s1. now rewrite list_insert_insert_eq.
Qed.

(** An iteration that returns found everything it indexes. *)
Lemma plot_one_returned (file_list : list string) (scores : loc) (anormal_scores : list Q)
    (gt_imgs : list (option matrix)) (t : Q) (i : nat) (h h' : store) (s : array3) :
  h !! scores = Some (Arr3 s) ->
  result (plot_one file_list scores anormal_scores gt_imgs t i h) = Returned h' ->
  exists p m v,
    file_list !! i = Some p /\ s !! i = Some m /\ anormal_scores !! i = Some v /\
    (exists g, gt_imgs !! i = Some (Some g)).
Proof.
  intros Hh. unfold plot_one, py_index.
  destruct (file_list !! i) as [p|]; [|now rewrite result_bind].
  rewrite bind_ret_l.
  destruct (gt_imgs !! i) as [[g|]|]; [| |now rewrite result_bind].
  2:{ rewrite bind_ret_l. now rewrite result_bind. }
  rewrite !bind_ret_l.
  unfold read_ref at 1. rewrite Hh. unfold py_index.
  destruct (s !! i) as [m|] eqn:Hs; [|now rewrite result_bind].
  rewrite bind_ret_l.
  rewrite !(read_ref_sub _ _ _ _ _ Hh Hs), !bind_ret_l.
  rewrite (write_ref_sub _ _ i _ (assign_gt t 1 m) Hh).
  apply lookup_lt_Some in Hs as Hi.
  set (s1 := <[i := assign_gt t 1 m]> s).
  set (h1 := <[scores := Arr3 s1]> h).
  assert (Hh1 : h1 !! scores = Some (Arr3 s1)) by apply lookup_insert_eq.
  assert (Hs1 : s1 !! i = Some (assign_gt t 1 m)) by now apply list_lookup_insert_eq.
  rewrite !(read_ref_sub _ _ _ _ _ Hh1 Hs1), !bind_ret_l.
  rewrite (write_ref_sub _ _ i _ (assign_le t 0 (assign_gt t 1 m)) Hh1).
  set (s2 := <[i := assign_le t 0 (assign_gt t 1 m)]> s1).
  set (h2 := <[scores := Arr3 s2]> h1).
  assert (Hh2 : h2 !! scores = Some (Arr3 s2)) by apply lookup_insert_eq.
  assert (Hs2 : s2 !! i = Some (assign_le t 0 (assign_gt t 1 m))).
  { apply list_lookup_insert_eq. unfold s1. now rewrite length_insert. }
  rewrite !(read_ref_sub _ _ _ _ _ Hh2 Hs2), !bind_ret_l.
  unfold alloc.
  unfold read_ref at 1. rewrite lookup_insert_eq, bind_ret_l.
  destruct (anormal_scores !! i) as [v|]; [|now rewrite result_bind].
  intros _. eauto 10.
Qed.

End PlotFigFacts.

Lemma seq_split_at (n : nat) (pre post : list nat) (x : nat) :
  seq 0 n = pre ++ x :: post -> x = length pre /\ (x < n)%nat.
Proof.
  intros Hs.
  assert (Hx : seq 0 n !! length pre = Some x).
  { rewrite Hs. rewrite lookup_app_r by lia. now rewrite Nat.sub_diag. }
  apply lookup_seq in Hx. lia.
Qed.

Lemma in_flatten3 (s : array3) (i : nat) (m : matrix) (x : Q) :
  s !! i = Some m -> In x (concat m) -> In x (flatten3 s).
Proof.
  intros Hm Hx. unfold flatten3.
  apply in_concat in Hx as (row & Hrow & Hx).
  apply in_concat. exists row. split; [|exact Hx].
  apply in_concat. exists m. split; [|exact Hrow].
  apply list_elem_of_In. eapply list_elem_of_lookup_2; eauto.
Qed.

Lemma binarize_values (t : Q) (m : matrix) (x : Q) :
  In x (concat (binarize t m)) -> x = 0%Q \/ x = 1%Q.
Proof.
  intros Hx. apply in_concat in Hx as (row & Hrow & Hx).
  unfold binarize in Hrow. apply in_map_iff in Hrow as (row0 & <- & _).
  apply in_map_iff in Hx as (y & <- & _).
  destruct (Qlt_le_dec t y); auto.
Qed.

(** [plot_fig] returns when every list it indexes is long enough and every
    plotted image has a ground-truth mask; map [i] of the caller's array
    then holds the result of the two masked assignments. *)
Lemma plot_fig_run `{NumLib}
    (file_list : list string) (scores : loc) (anormal_scores : list Q)
    (gt_imgs : list (option matrix)) (t : Q) (h : store) (s : array3) :
  h !! scores = Some (Arr3 s) ->
  (length file_list <= length s)%nat ->
  (length file_list <= length anormal_scores)%nat ->
  (forall i, (i < length file_list)%nat -> exists g, gt_imgs !! i = Some (Some g)) ->
  exists h' s',
    result (plot_fig file_list scores anormal_scores gt_imgs t h) = Returned h' /\
    h' !! scores = Some (Arr3 s') /\
    length s' = length s /\
    (forall i m, (i < length file_list)%nat -> s !! i = Some m ->
       s' !! i = Some (assign_le t 0 (assign_gt t 1 m))) /\
    (forall i, (length file_list <= i)%nat -> s' !! i = s !! i).
Proof.
  intros Hh Hls Hla Hgt.
  set (P := fun (pre : list nat) (h' : store) =>
    exists s', h' !! scores = Some (Arr3 s') /\ length s' = length s /\
      (forall i m, (i < length pre)%nat -> s !! i = Some m ->
         s' !! i = Some (assign_le t 0 (assign_gt t 1 m))) /\
      (forall i, (length pre <= i)%nat -> s' !! i = s !! i)).
  destruct (for_each_inv P (seq 0 (length file_list))
              (plot_one file_list scores anormal_scores gt_imgs t) h)
    as (h' & Hres & s' & Hh' & Hlen & Hdone & Hrest).
  - exists s. repeat split; auto. intros i m Hi. simpl in Hi. lia.
  - intros pre x post h0 Hsplit (s0 & Hh0 & Hlen0 & Hdone0 & Hrest0).
    apply seq_split_at in Hsplit as [-> Hx].
    destruct (lookup_lt_is_Some_2 s (length pre)) as [m Hm]; [lia|].
    assert (Hm0 : s0 !! length pre = Some m) by (rewrite Hrest0 by lia; exact Hm).
    destruct (lookup_lt_is_Some_2 file_list (length pre)) as [p Hp]; [lia|].
    destruct (lookup_lt_is_Some_2 anormal_scores (length pre)) as [v Hv]; [lia|].
    destruct (plot_one_run file_list scores anormal_scores gt_imgs t (length pre) h0 s0 m p v)
      as (h1 & Hr1 & Hh1); auto.
    exists h1. split; [now rewrite Hr1|].
    exists (<[length pre := assign_le t 0 (assign_gt t 1 m)]> s0).
    rewrite length_app. simpl.
    split; [exact Hh1|]. split; [now rewrite length_insert|]. split.
    + intros i mi Hi Hmi. destruct (Nat.eq_dec i (length pre)) as [->|Hne].
      * rewrite list_lookup_insert_eq by lia. congruence.
      * rewrite list_lookup_insert_ne by lia. apply Hdone0; [lia|exact Hmi].
    + intros i Hi. rewrite list_lookup_insert_ne by lia. apply Hrest0. lia.
  - rewrite length_seq in Hdone, Hrest.
    exists h', s'. repeat split; auto.
Qed.

(** C9.  [plot_fig] overwrites its [scores] argument: the array object the
    caller passed (all entries at most 1, as after normalisation) holds,
    when [plot_fig] returns, for every plotted image the binarised map
    (1 where the score was above the threshold, 0 elsewhere) in place of
    the continuous scores; maps beyond the plotted images are untouched. *)
Theorem plot_fig_overwrites_scores `{NumLib}
    (file_list : list string) (scores : loc) (anormal_scores : list Q)
    (gt_imgs : list (option matrix)) (t : Q) (h : store) (s : array3) :
  h !! scores = Some (Arr3 s) ->
  (length file_list <= length s)%nat ->
  (length file_list <= length anormal_scores)%nat ->
  (forall i, (i < length file_list)%nat -> exists g, gt_imgs !! i = Some (Some g)) ->
  (forall x, In x (flatten3 s) -> (x <= 1)%Q) ->
  exists h' s',
    result (plot_fig file_list scores anormal_scores gt_imgs t h) = Returned h' /\
    h' !! scores = Some (Arr3 s') /\
    length s' = length s /\
    (forall i m, (i < length file_list)%nat -> s !! i = Some m ->
       s' !! i = Some (binarize t m) /\
       forall x, In x (concat (binarize t m)) -> x = 0%Q \/ x = 1%Q) /\
    (forall i, (length file_list <= i)%nat -> s' !! i = s !! i).
Proof.
  intros Hh Hls Hla Hgt Hnorm.
  destruct (plot_fig_run file_list scores anormal_scores gt_imgs t h s Hh Hls Hla Hgt)
    as (h' & s' & Hrun & Hh' & Hlen & Hdone & Hrest).
  exists h', s'. split; [exact Hrun|]. split; [exact Hh'|]. split; [exact Hlen|].
  split; [|exact Hrest].
  intros i m Hi Hm. split; [|intros x; apply binarize_values].
  rewrite (Hdone i m Hi Hm). f_equal.
  apply assign_gt_le_normalized. intros y Hy. apply Hnorm. eapply in_flatten3; eauto.
Qed.

Lemma plot_fig_overwrites_scores_witness :
  let s := [[[1 # 4; 3 # 4]; [1; 0]]; [[1 # 2; 1 # 2]; [0; 1]]]%Q in
  let h : store := <[0%nat := Arr3 s]> ∅ in
  let gt := [Some [[0; 1]; [1; 0]]; Some [[0; 1]; [1; 0]]]%Q in
  h !! 0%nat = Some (Arr3 s) /\
  (forall x, In x (flatten3 s) -> (x <= 1)%Q) /\
  exists h' s',
    result (@plot_fig Demo.lib ["x.png"; "y.png"] 0%nat [4; 1]%Q gt (1 # 2) h) = Returned h' /\
    h' !! 0%nat = Some (Arr3 s') /\
    s' !! 0%nat = Some (binarize (1 # 2) [[1 # 4; 3 # 4]; [1; 0]]%Q) /\
    s' !! 1%nat = Some (binarize (1 # 2) [[1 # 2; 1 # 2]; [0; 1]]%Q).
Proof.
  intros s h gt.
  assert (Hh : h !! 0%nat = Some (Arr3 s)) by reflexivity.
  assert (Hn : forall x, In x (flatten3 s) -> (x <= 1)%Q).
  { intros x Hx. simpl in Hx.
    repeat (destruct Hx as [<-|Hx]; [discriminate|]). destruct Hx. }
  split; [exact Hh|]. split; [exact Hn|].
  destruct (@plot_fig_overwrites_scores Demo.lib ["x.png"; "y.png"] 0%nat [4; 1]%Q gt
              (1 # 2) h s Hh) as (h' & s' & Hrun & Hh' & _ & Hdone & _).
  - simpl. lia.
  - simpl. lia.
  - intros [|[|i]] Hi; simpl in Hi; [eexists; reflexivity|eexists; reflexivity|lia].
  - exact Hn.
  - exists h', s'. split; [exact Hrun|]. split; [exact Hh'|]. split.
    + apply (Hdone 0%nat); [simpl; lia|reflexivity].
    + apply (Hdone 1%nat); [simpl; lia|reflexivity].
Defined.

(** ** Saved figures *)

Lemma figures_app (t1 t2 : list event) : figures (t1 ++ t2) = figures t1 ++ figures t2.
Proof.
  induction t1 as [|e t1 IH]; simpl; [reflexivity|].
  destruct e; simpl; now rewrite IH.
Qed.

Lemma quiet_bind {A B} (m : M A) (f : A -> M B) :
  quiet m -> (forall x, quiet (f x)) -> quiet (bind m f).
Proof.
  unfold quiet. intros Hm Hf. rewrite trace_bind.
  destruct (result m); [|exact Hm|exact Hm].
  now rewrite figures_app, Hm, Hf.
Qed.

Lemma quiet_for_each {A S} (l : list A) (body : A -> S -> M S) (s : S) :
  (forall x s, quiet (body x s)) -> quiet (for_each l body s).
Proof.
  intros Hb. revert s. induction l as [|x l IH]; intros s; simpl; [reflexivity|].
  apply quiet_bind; auto.
Qed.

Lemma quiet_py_index {A} (l : list A) (i : nat) : quiet (py_index l i).
Proof. unfold py_index. now destruct (l !! i). Qed.

Lemma quiet_np_max (l : list Q) : quiet (np_max l).
Proof. now destruct l. Qed.

Lemma quiet_np_min (l : list Q) : quiet (np_min l).
Proof. now destruct l. Qed.

Lemma quiet_lift {A} (o : outcome A) : quiet (lift o).
Proof. reflexivity. Qed.

Ltac quiet_step :=
  match goal with
  | |- quiet (bind _ _) => apply quiet_bind; [|intros]
  | |- quiet (for_each _ _ _) => apply quiet_for_each; intros
  | |- quiet (py_index _ _) => apply quiet_py_index
  | |- quiet (np_max _) => apply quiet_np_max
  | |- quiet (np_min _) => apply quiet_np_min
  | |- quiet (lift _) => apply quiet_lift
  | |- quiet (ret _) => reflexivity
  | |- quiet (raise _) => reflexivity
  | |- quiet (sys_exit _) => reflexivity
  | |- quiet (emit (Log _ _)) => reflexivity
  | |- quiet (emit (Predict _)) => reflexivity
  | |- quiet (emit (PickleLoad _)) => reflexivity
  | |- quiet (emit (PickleDump _)) => reflexivity
  | |- quiet (emit (batch_log ?a _ _ _)) => unfold batch_log; destruct (aug a); reflexivity
  | |- quiet (if ?b then _ else _) => destruct b
  | |- quiet (match ?x with _ => _ end) => destruct x
  end.

Ltac quiet_tac := repeat quiet_step.

Section Quiet.
Context {env : Env} {net : Backbone} {lib : NumLib} {rs : RandomState}.

Lemma quiet_get_train_outputs (a : Args) : quiet (get_train_outputs a).
Proof.
  unfold get_train_outputs, train_loop, train_finish, py_range_step, train_batch.
  quiet_tac.
Qed.

Lemma quiet_test_loop (a : Args) (train_outputs : matrix * array3) (g : rng) :
  quiet (test_loop a train_outputs g).
Proof.
  unfold test_loop, py_range_step, test_batch, np_vstack, np_reshape_NHW.
  quiet_tac. unfold prepare_image. quiet_tac.
Qed.

Lemma quiet_score_map_aug (a : Args) (st : test_state) (dist_list : array3) :
  quiet (score_map_aug a st dist_list).
Proof.
  unfold score_map_aug, reverse_one, reverse_crop, reverse_rotate, np_pad, mean_over_laps.
  quiet_tac.
Qed.

Lemma quiet_normalize (score_map : array3) : quiet (normalize score_map).
Proof. unfold normalize. quiet_tac. Qed.

Lemma quiet_anormal_scores_of (score_map : array3) : quiet (anormal_scores_of score_map).
Proof. unfold anormal_scores_of. quiet_tac. Qed.

Lemma quiet_select_threshold (a : Args) (gt_imgs : list (option matrix)) (scores : array3) :
  quiet (select_threshold a gt_imgs scores).
Proof.
  unfold select_threshold, selected_masks, flatten_masks, np_argmax.
  quiet_tac.
Qed.

End Quiet.

(** ** Image scores *)

Lemma anormal_scores_from (score_map : array3) (acc : list Q) :
  (forall m, In m score_map -> concat m <> []) ->
  exists vs,
    for_each score_map (fun m acc => v <- np_max (concat m) ;; ret (acc ++ [v])) acc
    = ([], Returned (acc ++ vs)) /\
    length vs = length score_map.
Proof.
  revert acc. induction score_map as [|m r IH]; intros acc Hne; cbn [for_each].
  - exists []. now rewrite app_nil_r.
  - destruct (concat m) as [|x xs] eqn:Hm.
    { exfalso. apply (Hne m); [now left|assumption]. }
    change (np_max (x :: xs)) with (ret (fold_left Qmax xs x)). rewrite !bind_ret_l.
    destruct (IH (acc ++ [fold_left Qmax xs x])) as (vs & Hrun & Hlen).
    { intros m' Hm'. apply Hne. now right. }
    exists (fold_left Qmax xs x :: vs). rewrite Hrun. simpl.
    split; [now rewrite <- app_assoc|]. now rewrite Hlen.
Qed.

Lemma anormal_scores_returned (score_map : array3) (acc vs : list Q) :
  result (for_each score_map (fun m acc => v <- np_max (concat m) ;; ret (acc ++ [v])) acc)
  = Returned vs ->
  length vs = (length acc + length score_map)%nat /\
  (forall i, (i < length acc)%nat -> vs !! i = acc !! i) /\
  forall i m, score_map !! i = Some m ->
    exists v, vs !! (length acc + i)%nat = Some v /\ In v (concat m) /\
              forall y, In y (concat m) -> (y <= v)%Q.
Proof.
  revert acc. induction score_map as [|m r IH]; intros acc; simpl.
  - intros [= <-]. split; [lia|]. split; [reflexivity|]. intros i m Hm. discriminate.
  - rewrite result_bind, result_bind.
    destruct (result (np_max (concat m))) as [v| |] eqn:Hmax; try discriminate.
    simpl. intros Hrun. destruct (IH _ Hrun) as (Hlen & Hkeep & Hrest).
    rewrite length_app in Hlen, Hkeep, Hrest. simpl in Hlen, Hkeep, Hrest.
    split; [lia|]. split.
    + intros i Hi. rewrite Hkeep by lia. now rewrite lookup_app_l.
    + intros [|i] m' Hm'; simpl in Hm'.
      * injection Hm' as <-. exists v. rewrite Nat.add_0_r.
        rewrite Hkeep by lia. rewrite lookup_app_r by lia. rewrite Nat.sub_diag.
        split; [reflexivity|]. now apply np_max_spec.
      * destruct (Hrest i m' Hm') as (v' & Hv' & Hin & Hub).
        exists v'. split; [|auto]. rewrite <- Hv'. f_equal. lia.
Qed.

Section ImageScores.
Context {env : Env} {net : Backbone} {lib : NumLib} {rs : RandomState}.

(** Every score is the largest value of its map. *)
Lemma anormal_scores_spec (score_map : array3) (vs : list Q) :
  result (anormal_scores_of score_map) = Returned vs ->
  length vs = length score_map /\
  forall i m, score_map !! i = Some m ->
    exists v, vs !! i = Some v /\ In v (concat m) /\
              forall y, In y (concat m) -> (y <= v)%Q.
Proof.
  intros Hrun. apply anormal_scores_returned in Hrun as (Hlen & _ & Hrest).
  split; [exact Hlen|]. exact Hrest.
Qed.

Lemma normalize_returned (score_map scores : array3) :
  result (normalize score_map) = Returned scores ->
  exists mn mx,
    result (np_max (flatten3 score_map)) = Returned mx /\
    result (np_min (flatten3 score_map)) = Returned mn /\
    scores = map (map (map (fun x => ((x - mn) / (mx - mn))%Q))) score_map.
Proof.
  unfold normalize. rewrite result_bind.
  destruct (result (np_max (flatten3 score_map))) as [mx| |]; try discriminate.
  rewrite result_bind.
  destruct (result (np_min (flatten3 score_map))) as [mn| |]; try discriminate.
  simpl. intros [= <-]. eauto.
Qed.

(** The figures of [plot_fig], one per file, from image [k] on. *)
Lemma plot_fig_figures_from (file_list : list string) (scores : loc)
    (anormal_scores : list Q) (gt_imgs : list (option matrix)) (t : Q)
    (n k : nat) (h h' : store) (s : array3) :
  h !! scores = Some (Arr3 s) ->
  result (for_each (seq k n) (plot_one file_list scores anormal_scores gt_imgs t) h)
  = Returned h' ->
  let figs := figures (trace (for_each (seq k n)
                (plot_one file_list scores anormal_scores gt_imgs t) h)) in
  length figs = n /\
  forall j, (j < n)%nat ->
    exists p m mask v,
      file_list !! (k + j)%nat = Some p /\ s !! (k + j)%nat = Some m /\
      anormal_scores !! (k + j)%nat = Some v /\
      figs !! j = Some (p, mscale 255 m, mask, v).
Proof.
  revert k h s. induction n as [|n IH]; intros k h s Hh Hrun figs; subst figs.
  - simpl. split; [reflexivity|]. intros j Hj. lia.
  - simpl in Hrun |- *.
    apply bind_returned_inv in Hrun as (h1 & Hone & Hrest & Htrace).
    rewrite Htrace, figures_app.
    destruct (plot_one_returned _ _ _ _ _ _ _ _ _ Hh Hone) as (p & m & v & Hp & Hm & Hv & Hg).
    destruct (plot_one_run _ _ _ _ t _ _ _ _ _ _ Hh Hm Hp Hv Hg) as (h1' & Hrun1 & Hh1').
    rewrite Hrun1 in Hone |- *. simpl in Hone. injection Hone as ->.
    destruct (IH (S k) h1 _ Hh1' Hrest) as [Hlen Hfigs].
    simpl. split; [now rewrite Hlen|].
    intros [|j] Hj.
    + rewrite Nat.add_0_r.
      exists p, m, (mscale 255 (opening (assign_le t 0 (assign_gt t 1 m)))), v.
      simpl. auto.
    + destruct (Hfigs j) as (p' & m' & mask' & v' & Hp' & Hm' & Hv' & Hf'); [lia|].
      rewrite list_lookup_insert_ne in Hm' by lia.
      replace (k + S j)%nat with (S k + j)%nat by lia.
      exists p', m', mask', v'. simpl. auto.
Qed.

Lemma plot_fig_figures (file_list : list string) (scores : loc)
    (anormal_scores : list Q) (gt_imgs : list (option matrix)) (t : Q)
    (h h' : store) (s : array3) :
  h !! scores = Some (Arr3 s) ->
  result (plot_fig file_list scores anormal_scores gt_imgs t h) = Returned h' ->
  let figs := figures (trace (plot_fig file_list scores anormal_scores gt_imgs t h)) in
  length figs = length file_list /\
  forall i p, file_list !! i = Some p ->
    exists m mask v,
      s !! i = Some m /\ anormal_scores !! i = Some v /\
      figs !! i = Some (p, mscale 255 m, mask, v).
Proof.
  intros Hh Hrun figs. subst figs. unfold plot_fig in *.
  destruct (plot_fig_figures_from _ _ _ _ _ _ _ _ _ _ Hh Hrun) as [Hlen Hfigs].
  split; [exact Hlen|]. intros i p Hp.
  apply lookup_lt_Some in Hp as Hi.
  destruct (Hfigs i Hi) as (p' & m & mask & v & Hp' & Hm & Hv & Hf).
  simpl in Hp', Hm, Hv. exists m, mask, v. repeat split; auto. congruence.
Qed.

End ImageScores.

(** ** The test loop without augmentation *)

Section TestLoopPlain.
Context {env : Env} {net : Backbone} {lib : NumLib} {rs : RandomState}.
Variable a : Args.
Variable train_outputs : matrix * array3.
Hypothesis Hplain : aug a = false.

Lemma with_gt_nil (st : test_state) : with_gt st [] = st.
Proof. destruct st. unfold with_gt. simpl. now rewrite app_nil_r. Qed.

Lemma with_gt_app (st : test_state) (g1 g2 : list (option matrix)) :
with_gt (with_gt st g1) g2 = with_gt st (g1 ++ g2).
Proof. unfold with_gt. simpl. now rewrite app_assoc. Qed.

Lemma prepare_images_plain (chunk : list string)
  (imgs : list (string * option (Z * Z * Z))) (st : test_state) :
for_each chunk (prepare_image a) (imgs, st)
= ret (imgs ++ map (fun path => (path, None)) chunk,
       with_gt st (map (load_gt false) chunk)).
Proof.
revert imgs st. induction chunk as [|p chunk IH]; intros imgs st; cbn [for_each map].
- now rewrite app_nil_r, with_gt_nil.
- unfold prepare_image at 1. rewrite Hplain. cbv beta iota zeta. rewrite bind_ret_l.
  fold (with_gt st [load_gt false p]).
  rewrite IH, with_gt_app, <- app_assoc. reflexivity.
Qed.

Lemma test_batch_plain (i_aug i_img : nat) (st : test_state) :
result (test_batch a train_outputs i_aug i_img st)
= Returned (test_step a train_outputs st (i_aug, i_img)).
Proof.
unfold test_batch, test_step. rewrite result_emit_then.
rewrite prepare_images_plain, bind_ret_l, result_emit_then. reflexivity.
Qed.

Lemma test_loop_plain (g : rng) :
(0 < batch_size a)%Z ->
let st := fold_left (test_step a train_outputs)
            (map (pair 0%nat) (range_step (length (input a)) (Z.to_nat (batch_size a))))
            (test_init g) in
result (test_loop a train_outputs g)
= result (D <- np_vstack (te_dist_list st) ;;
          dist_list <- np_reshape_NHW (te_N st) (te_H st) (te_W st) D ;;
          ret (st, dist_list)).
Proof.
intros Hbs st. unfold test_loop. rewrite Hplain. cbv iota.
rewrite (result_bind_returned _ _ 1%Z) by (now rewrite result_emit_then).
rewrite (result_bind_returned _ _ st); [reflexivity|].
unfold py_range. change (Z.to_nat 1) with 1%nat. cbn [seq for_each].
rewrite bind_ret_r. unfold py_range_step.
destruct (Z.eqb_spec (batch_size a) 0) as [|_]; [lia|].
destruct (Z.ltb_spec (batch_size a) 0) as [|_]; [lia|].
rewrite bind_ret_l.
rewrite (for_each_pure _ _ (fun s i => test_step a train_outputs s (0%nat, i)))
  by (intros; apply test_batch_plain).
cbn [result ret snd]. unfold st. now rewrite fold_left_through_map.
Qed.

End TestLoopPlain.

Lemma length_concat_uniform {A} (k : nat) (l : list (list A)) :
  Forall (fun row => length row = k) l -> length (concat l) = (length l * k)%nat.
Proof.
  induction 1 as [|row l Hrow Hl IH]; simpl; [reflexivity|].
  rewrite length_app, IH. lia.
Qed.

Lemma batch_distances_Rect `{NumLib} (train_outputs : matrix * array3)
    (HW : nat) (E : array3) :
  Rect (length E) HW (batch_distances train_outputs HW E).
Proof.
  unfold batch_distances.
  set (G := fun i => map (fun sample =>
              mahalanobis (column sample i) (column (fst train_outputs) i)
                          (linalg_inv (loc_slice (snd train_outputs) i))) E).
  destruct (fold_set_column G (length E) HW HW (zeros2 (length E) HW)) as [Hrect _].
  - apply zeros2_Rect.
  - intros j. unfold G. now rewrite length_map.
  - lia.
  - exact Hrect.
Qed.

Section TestInv.
Context {env : Env} {net : Backbone} {lib : NumLib} {rs : RandomState}.
Context (C H W : nat) {laws : BackboneLaws C H W}.
Variable a : Args.
Variable train_outputs : matrix * array3.
Hypothesis HC : (0 < C)%nat.

Lemma test_step_inv (st : test_state) (done : list string) (p : nat * nat) :
test_inv H W st done ->
slice (input a) (snd p) (snd p + Z.to_nat (batch_size a)) <> [] ->
test_inv H W (test_step a train_outputs st p)
         (done ++ slice (input a) (snd p) (snd p + Z.to_nat (batch_size a))).
Proof.
intros (HN & Hgt & Hrows & Hlen & Hlast) Hne. unfold test_step.
set (chunk := slice (input a) (snd p) (snd p + Z.to_nat (batch_size a))) in *.
set (imgs := map (fun path => (path, @None (Z * Z * Z))) chunk).
assert (Hli : length imgs = length chunk) by (unfold imgs; now rewrite length_map).
pose proof (test_embedding_shape (fst p) imgs) as Hshape.
set (E := test_embedding (fst p) imgs) in *.
assert (HB : (0 < length imgs)%nat).
{ rewrite Hli. destruct chunk; [congruence|simpl; lia]. }
destruct (shape4_spec _ _ _ _ _ Hshape HB HC) as (W' & -> & HW').
pose proof (reshape_Box _ _ _ _ _ Hshape) as [HlE _].
pose proof (batch_distances_Rect train_outputs (H * W') (reshape_BC_HW E)) as [HlD HrD].
assert (HrD' : Forall (fun row : list Q => length row = (H * W)%nat)
                 (batch_distances train_outputs (H * W') (reshape_BC_HW E))).
{ apply List.Forall_forall. intros row Hrow. rewrite List.Forall_forall in HrD.
  rewrite (HrD row Hrow). exact HW'. }
unfold test_inv. cbn [te_N te_gt_imgs te_dist_list te_H te_W with_gt].
rewrite concat_app. cbn [concat]. rewrite app_nil_r.
split; [rewrite length_app; lia|].
split; [now rewrite map_app, Hgt|].
split; [apply Forall_app; split; [exact Hrows|exact HrD']|].
split; [rewrite !length_app; lia|].
intros _. split; [|exact HW'].
intros E0. apply (f_equal (@length matrix)) in E0. rewrite length_app in E0.
simpl in E0. lia.
Qed.

Lemma test_fold_inv (g : rng) (ps : list (nat * nat)) :
Forall (fun p => slice (input a) (snd p) (snd p + Z.to_nat (batch_size a)) <> []) ps ->
test_inv H W (fold_left (test_step a train_outputs) ps (test_init g))
  (concat (map (fun p => slice (input a) (snd p) (snd p + Z.to_nat (batch_size a))) ps)).
Proof.
induction ps as [|p ps IH] using rev_ind; intros Hall.
- simpl. unfold test_inv. simpl. repeat split; auto; congruence.
- apply Forall_app in Hall as [Hps Hp]. inversion Hp as [|? ? Hp' _]; subst.
  rewrite fold_left_app, map_app, concat_app. simpl. rewrite app_nil_r.
  apply test_step_inv; auto.
Qed.

(** Without augmentation the test loop returns one distance map and one
  mask slot per input image. *)
Lemma test_loop_returns (g : rng) :
aug a = false -> (0 < batch_size a)%Z -> input a <> [] ->
exists st dist_list,
  result (test_loop a train_outputs g) = Returned (st, dist_list) /\
  length dist_list = length (input a) /\
  te_gt_imgs st = map (load_gt false) (input a).
Proof.
intros Hplain Hbs Hin.
rewrite (test_loop_plain a train_outputs Hplain g Hbs).
set (bs := Z.to_nat (batch_size a)).
set (ps := map (pair 0%nat) (range_step (length (input a)) bs)).
assert (Hbs' : (0 < bs)%nat) by (unfold bs; lia).
assert (Hall : Forall (fun p => slice (input a) (snd p) (snd p + bs) <> []) ps).
{ apply List.Forall_forall. intros [lap i] Hp. unfold ps in Hp.
  apply in_map_iff in Hp as (i' & [= <- <-] & Hi). simpl.
  apply slice_nonempty; [exact Hbs'|]. now apply (range_step_lt _ bs). }
pose proof (test_fold_inv g ps Hall) as Hinv.
assert (Hdone : concat (map (fun p : nat * nat => slice (input a) (snd p) (snd p + bs)) ps)
                = input a).
{ unfold ps. rewrite map_map. simpl. now apply range_step_chunks. }
fold bs in Hinv. rewrite Hdone in Hinv.
set (st := fold_left (test_step a train_outputs) ps (test_init g)) in *.
destruct Hinv as (HN & Hgt & Hrows & Hlen & Hlast).
destruct (Hlast Hin) as [Hne HHW].
unfold np_vstack. destruct (te_dist_list st) as [|D0 Ds] eqn:HD; [congruence|].
rewrite bind_ret_l. unfold np_reshape_NHW.
rewrite (length_concat_uniform (H * W)) by exact Hrows.
assert (Hcheck : (length (concat (D0 :: Ds)) * (H * W) =? te_N st * te_H st * te_W st)%nat
                 = true).
{ apply Nat.eqb_eq. rewrite Hlen, HN. rewrite <- HHW. lia. }
rewrite Hcheck, bind_ret_l.
eexists _, _. split; [reflexivity|]. split; [|exact Hgt].
now rewrite length_map, Hlen.
Qed.

End TestInv.

(** ** The whole run without augmentation *)

Lemma Rect_concat_nonempty (r c : nat) (m : matrix) :
  Rect r c m -> (0 < r)%nat -> (0 < c)%nat -> concat m <> [].
Proof.
  intros [Hl Hrows] Hr Hc. destruct m as [|row m]; [simpl in Hl; lia|].
  inversion Hrows as [|? ? Hrow _]; subst.
  destruct row; [simpl in Hc; lia|]. discriminate.
Qed.

Lemma flatten3_nonempty (A : array3) (m : matrix) :
  A !! 0%nat = Some m -> concat m <> [] -> flatten3 A <> [].
Proof.
  destruct A as [|m0 A]; [discriminate|]. simpl. intros [= ->] Hm.
  unfold flatten3. simpl. rewrite concat_app.
  intros E. apply app_eq_nil in E as [E _]. contradiction.
Qed.

Lemma np_max_returns (l : list Q) : l <> [] -> exists v, np_max l = ret v.
Proof. destruct l; [congruence|]. intros _. eexists. reflexivity. Qed.

Lemma np_min_returns (l : list Q) : l <> [] -> exists v, np_min l = ret v.
Proof. destruct l; [congruence|]. intros _. eexists. reflexivity. Qed.

Section WholeRun.
Context {env : Env} {net : Backbone} {lib : NumLib} {rs : RandomState}.
Context (C H W : nat) {laws : BackboneLaws C H W} {lib_laws : NumLibLaws}.

Lemma normalize_returns (score_map : array3) :
flatten3 score_map <> [] ->
exists scores, normalize score_map = ret scores /\ length scores = length score_map.
Proof.
intros Hne. unfold normalize.
destruct (np_max_returns _ Hne) as [mx ->]. destruct (np_min_returns _ Hne) as [mn ->].
rewrite !bind_ret_l. eexists. split; [reflexivity|]. now rewrite length_map.
Qed.

Lemma smooth_maps_shape (dist_list : array3) (m : matrix) :
In m (smooth (score_map_plain dist_list)) -> Rect IMAGE_SIZE IMAGE_SIZE m.
Proof.
unfold smooth, score_map_plain. rewrite map_map. intros Hm.
apply in_map_iff in Hm as (d & <- & _).
apply gaussian_filter_shape, resize_bilinear_shape.
Qed.

Lemma get_train_outputs_total (a : Args) :
(0 < C)%nat ->
truthy (feat a) = true \/ train_files a <> [] ->
(0 < batch_size a)%Z -> (0 < laps_of a)%Z ->
exists train_outputs, result (get_train_outputs a) = Returned train_outputs.
Proof.
intros HC Hsrc Hbs Hlaps.
destruct (truthy (feat a)) eqn:Hfeat.
- unfold get_train_outputs. rewrite Hfeat, !result_emit_then. eexists. reflexivity.
- destruct Hsrc as [|Himgs]; [discriminate|].
  destruct (get_train_outputs_returns C H W a HC Hfeat Himgs Hbs Hlaps)
    as (_ & mean_sum & cov_acc & _ & _ & _ & _ & Hres).
  eexists. exact Hres.
Qed.

(** A run without augmentation and with a threshold on the command line
  returns, provided there are training data, at least one test image
  and a ground-truth mask for every test image. *)
Lemma recognize_from_image_returns (a : Args) (g : rng) (t : Q) :
(0 < C)%nat ->
aug a = false ->
threshold a = Some t ->
(0 < batch_size a)%Z ->
truthy (feat a) = true \/ train_files a <> [] ->
input a <> [] ->
(forall p, In p (input a) -> is_Some (load_gt false p)) ->
exists r, result (recognize_from_image a g) = Returned r.
Proof.
intros HC Hplain Hthr Hbs Hsrc Hin Hgt.
assert (Hlaps : (0 < laps_of a)%Z) by (unfold laps_of; rewrite Hplain; lia).
destruct (get_train_outputs_total a HC Hsrc Hbs Hlaps) as [train_outputs Htrain].
destruct (test_loop_returns C H W a train_outputs HC g Hplain Hbs Hin)
  as (st & dist_list & Htest & Hlen & Hgts).
set (sm := smooth (score_map_plain dist_list)).
assert (Hlsm : length sm = length (input a)).
{ unfold sm, smooth, score_map_plain. now rewrite !length_map. }
assert (Hpos : (0 < length (input a))%nat).
{ destruct (input a); [congruence|simpl; lia]. }
assert (Hmaps : forall m, In m sm -> concat m <> []).
{ intros m Hm. apply (Rect_concat_nonempty IMAGE_SIZE IMAGE_SIZE).
  - now apply (smooth_maps_shape dist_list).
  - unfold IMAGE_SIZE. lia.
  - unfold IMAGE_SIZE. lia. }
destruct (lookup_lt_is_Some_2 sm 0%nat) as [m0 Hm0]; [lia|].
assert (Hflat : flatten3 sm <> []).
{ apply (flatten3_nonempty sm m0 Hm0). apply Hmaps.
  apply list_elem_of_In. eapply list_elem_of_lookup_2; eauto. }
destruct (normalize_returns sm Hflat) as (scores & Hnorm & Hlsc).
destruct (anormal_scores_from sm [] Hmaps) as (an & Han & Hlan).
unfold recognize_from_image.
rewrite (result_bind_returned _ _ _ Htrain).
rewrite (result_bind_returned _ _ _ Htest). cbv beta iota.
rewrite Hplain, bind_ret_l. fold sm.
rewrite Hnorm, bind_ret_l.
change (anormal_scores_of sm) with
  (for_each sm (fun m acc => v <- np_max (concat m) ;; ret (acc ++ [v])) []).
rewrite Han. change ([], Returned ([] ++ an)) with (ret an). rewrite bind_ret_l.
unfold select_threshold. rewrite Hthr, bind_ret_l.
unfold alloc.
set (l := fresh (dom (∅ : store))).
set (h0 := <[l := Arr3 scores]> (∅ : store)).
assert (Hh0 : h0 !! l = Some (Arr3 scores)) by apply lookup_insert_eq.
destruct (plot_fig_run (input a) l an (te_gt_imgs st) t h0 scores Hh0)
  as (h1 & s' & Hplot & _).
- lia.
- lia.
- intros i Hi. rewrite Hgts.
  destruct (lookup_lt_is_Some_2 (input a) i Hi) as [p Hp].
  destruct (Hgt p) as [gt Hgtp].
  { apply list_elem_of_In. eapply list_elem_of_lookup_2; eauto. }
  exists gt. rewrite list_lookup_fmap, Hp. simpl. now rewrite Hgtp.
- rewrite (result_bind_returned _ _ _ Hplot), result_emit_then.
  eexists. reflexivity.
Qed.

End WholeRun.

(** ** What the loops leave behind when they return *)

(** An invariant indexed by the items already processed, for a loop that
    is known to return. *)
Lemma for_each_returned_at {A S} (P : list A -> S -> Prop) (l : list A)
    (body : A -> S -> M S) (s0 s' : S) :
  P [] s0 ->
  (forall pre x post s s1, l = pre ++ x :: post -> P pre s ->
     result (body x s) = Returned s1 -> P (pre ++ [x]) s1) ->
  result (for_each l body s0) = Returned s' -> P l s'.
Proof.
  intros H0 Hstep.
  assert (Hgen : forall post pre s, l = pre ++ post -> P pre s ->
            result (for_each post body s) = Returned s' -> P l s').
  { induction post as [|x post IH]; intros pre s Hl Hp; cbn [for_each].
    - rewrite app_nil_r in Hl. subst pre. now intros [= <-].
    - rewrite result_bind. destruct (result (body x s)) as [s1| |] eqn:Hb; try discriminate.
      apply (IH (pre ++ [x])); [now rewrite <- app_assoc|].
      now apply (Hstep pre x post s s1). }
  now apply (Hgen l [] s0).
Qed.

Lemma np_pad_returned (A : matrix) (top bottom left right : Z) (out : matrix) :
  result (np_pad A top bottom left right) = Returned out ->
  np_pad A top bottom left right = ret out.
Proof.
  unfold np_pad. destruct (_ || _)%bool; [discriminate|]. now intros [= <-].
Qed.

Section ReversalLoop.
Context {lib : NumLib} {rs : RandomState}.

Lemma reverse_one_returned (st : test_state) (dist_list : array3) (i : nat)
    (sm sm' : array3) :
  result (reverse_one st dist_list i sm) = Returned sm' ->
  exists out, reversed_map st dist_list i out /\ sm' = <[i := out]> sm.
Proof.
  unfold reverse_one, reverse_crop, reverse_rotate, py_index.
  destruct (dist_list !! i) as [d|] eqn:Hd; [|now rewrite result_bind].
  rewrite bind_ret_l, result_bind.
  destruct (te_pad_h_list st !! i) as [top|] eqn:Htop; [|now rewrite result_bind].
  rewrite bind_ret_l.
  destruct (te_pad_w_list st !! i) as [left|] eqn:Hleft; [|now rewrite result_bind].
  rewrite bind_ret_l.
  destruct (te_pad_h st) as [ph|] eqn:Hph; [|now rewrite result_bind].
  rewrite bind_ret_l.
  destruct (te_pad_w st) as [pw|] eqn:Hpw; [|now rewrite result_bind].
  rewrite bind_ret_l.
  destruct (result (np_pad _ top _ left _)) as [padded| |] eqn:Hpad; try discriminate.
  apply np_pad_returned in Hpad.
  destruct (te_angle_list st !! i) as [angle|] eqn:Hang; [|now rewrite result_bind].
  rewrite !bind_ret_l. intros [= <-].
  exists (warp_rotate (- angle) IMAGE_RESIZE padded). split; [|reflexivity].
  exists d, top, left, ph, pw, angle, padded. repeat split; auto.
Qed.

(** When the reversal loop returns, entry [i] of [score_map] is the
    reversed map of the prepared image [i]. *)
Lemma reversal_loop_returned (st : test_state) (dist_list : array3) (N : nat) (sm : array3) :
  result (for_each (seq 0 N) (reverse_one st dist_list)
            (zeros3 N IMAGE_RESIZE IMAGE_RESIZE)) = Returned sm ->
  length sm = N /\
  forall i, (i < N)%nat ->
    exists out, sm !! i = Some out /\ reversed_map st dist_list i out.
Proof.
  intros Hrun.
  pose (P := fun (pre : list nat) (s : array3) =>
    length s = N /\
    forall i, (i < length pre)%nat ->
      exists out, s !! i = Some out /\ reversed_map st dist_list i out).
  assert (HP : P (seq 0 N) sm).
  { apply (for_each_returned_at P _ _ _ _) with (3 := Hrun).
    - split; [unfold zeros3; apply repeat_length|]. intros i Hi. simpl in Hi. lia.
    - intros pre x post s s1 Hsplit [Hlen Hdone] Hbody.
      apply seq_split_at in Hsplit as [-> Hx].
      apply reverse_one_returned in Hbody as (out & Hout & ->).
      split; [now rewrite length_insert|].
      intros i Hi. rewrite length_app in Hi. simpl in Hi.
      destruct (Nat.eq_dec i (length pre)) as [->|Hne].
      + exists out. split; [|exact Hout]. apply list_lookup_insert_eq. lia.
      + destruct (Hdone i) as (o & Ho & Hrev); [lia|].
        exists o. split; [|exact Hrev]. rewrite list_lookup_insert_ne by congruence. exact Ho. }
  destruct HP as [Hlen Hall]. split; [exact Hlen|].
  intros i Hi. apply Hall. now rewrite length_seq.
Qed.

(** When the reversal and the averaging return, there are [n] maps, the
    loop has reversed [n * aug_num] maps, and map [j] is the mean over
    the laps of the reversed maps [lap * n + j]. *)
Lemma score_map_aug_returned (a : Args) (st : test_state) (dist_list pre : array3) :
  result (score_map_aug a st dist_list) = Returned pre ->
  (0 < aug_num a)%Z /\
  te_N st = (length pre * Z.to_nat (aug_num a))%nat /\
  forall j, (j < length pre)%nat ->
    exists maps,
      length maps = Z.to_nat (aug_num a) /\
      (forall lap, (lap < Z.to_nat (aug_num a))%nat ->
         exists out, maps !! lap = Some out /\
                     reversed_map st dist_list (lap * length pre + j) out) /\
      pre !! j = Some (mdiv (np_sum0 IMAGE_RESIZE IMAGE_RESIZE maps) (inject_Z (aug_num a))).
Proof.
  unfold score_map_aug. intros Hrun.
  apply bind_returned_inv in Hrun as (sm & Hloop & Hmean & _).
  apply reversal_loop_returned in Hloop as [Hlen Hall].
  unfold mean_over_laps in Hmean.
  destruct (Z.leb_spec (aug_num a) 0) as [|Hnum]; [discriminate|].
  set (k := Z.to_nat (aug_num a)) in *.
  set (n := (length sm / k)%nat) in *.
  destruct (Nat.eqb_spec (n * k) (length sm)) as [Hnk|]; [|discriminate].
  cbn [result ret snd] in Hmean. injection Hmean as <-.
  rewrite length_map, length_seq.
  split; [exact Hnum|]. split; [lia|].
  intros j Hj.
  exists (map (fun lap => nth (lap * n + j) sm []) (seq 0 k)).
  split; [now rewrite length_map, length_seq|]. split.
  - intros lap Hlap.
    destruct (Hall (lap * n + j)%nat) as (out & Hout & Hrev); [nia|].
    exists out. split; [|exact Hrev].
    rewrite list_lookup_fmap, lookup_seq_lt by exact Hlap. cbn.
    f_equal. now apply nth_lookup_Some with (d := []).
  - rewrite list_lookup_fmap, lookup_seq_lt by exact Hj. reflexivity.
Qed.

End ReversalLoop.

Section TestLoopReturned.
Context {env : Env} {net : Backbone} {lib : NumLib} {rs : RandomState}.
Variable a : Args.
Variable train_outputs : matrix * array3.

Lemma prepare_image_length (path : string)
    (acc acc' : list (string * option (Z * Z * Z)) * test_state) :
  result (prepare_image a path acc) = Returned acc' ->
  length (fst acc') = S (length (fst acc)).
Proof.
  destruct acc as [imgs st]. unfold prepare_image.
  destruct (aug a).
  - destruct (image_shape path) as [h w].
    destruct (preprocess_aug default_angle_range h w (te_rng st)) as [o g'].
    rewrite result_bind. destruct o as [[[angle ph] pw]| |]; simpl; try discriminate.
    intros [= <-]. simpl. rewrite length_app. simpl. lia.
  - simpl. intros [= <-]. simpl. rewrite length_app. simpl. lia.
Qed.

(** A batch that returns has counted the images of its slice and added one
    array of distances. *)
Lemma test_batch_returned (i_aug i_img : nat) (st st' : test_state) :
  result (test_batch a train_outputs i_aug i_img st) = Returned st' ->
  te_N st' = (te_N st + length (slice (input a) i_img (i_img + Z.to_nat (batch_size a))))%nat /\
  exists batch,
    te_dist_list st'
    = te_dist_list st
      ++ [batch_distances train_outputs (te_H st' * te_W st')
            (reshape_BC_HW (test_embedding i_aug batch))].
Proof.
  intros Hrun. split; [|exact (test_batch_dist a _ i_aug i_img st st' Hrun)].
  revert Hrun. unfold test_batch. rewrite result_emit_then, result_bind.
  set (chunk := slice (input a) i_img (i_img + Z.to_nat (batch_size a))).
  destruct (result (for_each chunk (prepare_image a) ([], st))) as [[imgs st1]| |] eqn:Hprep;
    try discriminate.
  rewrite result_emit_then.
  destruct (shape4 (test_embedding i_aug imgs)) as [[[B0 C0] H0] W0].
  simpl. intros [= <-]. simpl.
  pose (P := fun (pre : list string) (acc : list (string * option (Z * Z * Z)) * test_state) =>
               length (fst acc) = length pre /\ te_N (snd acc) = te_N st).
  assert (HP : P chunk (imgs, st1)).
  { apply (for_each_returned_at P _ _ _ _) with (3 := Hprep).
    - split; reflexivity.
    - intros pre x post s s1 _ [Hl HN] Hbody. split.
      + rewrite (prepare_image_length _ _ _ Hbody), Hl, length_app. simpl. lia.
      + apply prepare_image_dist in Hbody as [_ Hb]. congruence. }
  destruct HP as [Hl HN]. simpl in Hl, HN. lia.
Qed.

Lemma test_lap_returned (i_aug : nat) (starts : list nat) (st st' : test_state) :
  result (for_each starts (test_batch a train_outputs i_aug) st) = Returned st' ->
  te_N st' = (te_N st + length (concat (map (fun i => slice (input a) i
                                               (i + Z.to_nat (batch_size a))) starts)))%nat /\
  (distances_of_batches train_outputs (te_dist_list st) -> distances_of_batches train_outputs (te_dist_list st')) /\
  (starts = [] -> st' = st).
Proof.
  intros Hrun.
  pose (P := fun (pre : list nat) (s : test_state) =>
    te_N s = (te_N st + length (concat (map (fun i => slice (input a) i
                                               (i + Z.to_nat (batch_size a))) pre)))%nat /\
    (distances_of_batches train_outputs (te_dist_list st) -> distances_of_batches train_outputs (te_dist_list s))).
  assert (HP : P starts st').
  { apply (for_each_returned_at P _ _ _ _) with (3 := Hrun).
    - split; [simpl; lia|auto].
    - intros pre x post s s1 _ [HN Hd] Hbody.
      apply test_batch_returned in Hbody as [HN1 [batch Hd1]]. split.
      + rewrite HN1, HN, map_app, concat_app, length_app. simpl. rewrite app_nil_r. lia.
      + intros H0. rewrite Hd1. unfold distances_of_batches in *.
        apply Forall_app. split; [exact (Hd H0)|].
        constructor; [|constructor]. eauto. }
  destruct HP as [HN Hd]. split; [exact HN|]. split; [exact Hd|].
  intros ->. simpl in Hrun. now injection Hrun as <-.
Qed.

(** When the test loops return, the batch size is positive, every input
    image has been counted once per lap, and [dist_list] holds the rows
    of the distance arrays of the batches, each reshaped to a map. *)
Lemma test_loop_returned (g : rng) (st : test_state) (dist_list : array3) :
  result (test_loop a train_outputs g) = Returned (st, dist_list) ->
  (0 < batch_size a)%Z /\
  te_N st = (Z.to_nat (laps_of a) * length (input a))%nat /\
  dist_list = map (reshape_HW (te_H st) (te_W st)) (concat (te_dist_list st)) /\
  distances_of_batches train_outputs (te_dist_list st).
Proof.
  unfold test_loop. intros Hrun.
  apply bind_returned_inv in Hrun as (laps & Hlaps & Hrun & _).
  assert (Hl : laps = laps_of a).
  { unfold laps_of. destruct (aug a); rewrite result_emit_then in Hlaps;
      now injection Hlaps as <-. }
  subst laps.
  apply bind_returned_inv in Hrun as (st0 & Hloop & Hrun & _).
  apply bind_returned_inv in Hrun as (D & Hstack & Hrun & _).
  apply bind_returned_inv in Hrun as (dl & Hshape & Hrun & _).
  cbn [result ret snd] in Hrun. injection Hrun as <- <-.
  assert (Hne : te_dist_list st0 <> [] /\ D = concat (te_dist_list st0)).
  { unfold np_vstack in Hstack. destruct (te_dist_list st0); [discriminate|].
    split; [discriminate|]. now injection Hstack as <-. }
  destruct Hne as [Hne ->].
  assert (Hdl : dl = map (reshape_HW (te_H st0) (te_W st0)) (concat (te_dist_list st0))).
  { unfold np_reshape_NHW in Hshape. destruct (_ =? _)%nat; [|discriminate].
    now injection Hshape as <-. }
  pose (P := fun (pre : list nat) (s : test_state) =>
    (te_dist_list s <> [] -> (0 < batch_size a)%Z) /\
    ((0 < batch_size a)%Z -> te_N s = (length pre * length (input a))%nat) /\
    distances_of_batches train_outputs (te_dist_list s)).
  assert (HP : P (py_range (laps_of a)) st0).
  { apply (for_each_returned_at P _ _ _ _) with (3 := Hloop).
    - split; [intros H0; now contradiction H0|]. split; [reflexivity|constructor].
    - intros pre x post s s1 _ (Hpos & HN & Hd) Hbody.
      apply bind_returned_inv in Hbody as (starts & Hstarts & Hbody & _).
      unfold py_range_step in Hstarts.
      destruct (Z.eqb_spec (batch_size a) 0) as [|Hnz]; [discriminate|].
      apply test_lap_returned in Hbody as (HN1 & Hd1 & Hsame).
      destruct (Z.ltb_spec (batch_size a) 0) as [Hneg|Hge].
      + injection Hstarts as <-. rewrite (Hsame eq_refl).
        split; [exact Hpos|]. split; [lia|exact Hd].
      + injection Hstarts as <-.
        split; [lia|]. split; [|auto].
        intros Hbs. rewrite HN1, (HN Hbs), range_step_chunks, length_app by lia.
        simpl. lia. }
  destruct HP as (Hpos & HN & Hd).
  specialize (Hpos Hne). split; [exact Hpos|].
  split; [|split; [exact Hdl|exact Hd]].
  rewrite (HN Hpos). unfold py_range. now rewrite length_seq.
Qed.

End TestLoopReturned.

Lemma demo_lib_laws : @NumLibLaws Demo.lib.
Proof.
  constructor.
  - intros w h m. simpl. unfold Demo.resample. apply Rect_intro.
    + now rewrite length_map, length_seq.
    + intros i Hi. rewrite (nth_map_in _ _ i 0%nat []) by now rewrite length_seq.
      now rewrite length_map, length_seq.
  - intros r c m Hm. exact Hm.
Qed.


(** * Further facts *)

(** ** Bad batch sizes and lap counts *)

Lemma predicts_app (t1 t2 : list event) : predicts (t1 ++ t2) = predicts t1 ++ predicts t2.
Proof.
  induction t1 as [|e t1 IH]; simpl; [reflexivity|].
  destruct e; simpl; now rewrite IH.
Qed.

Lemma dumps_app (t1 t2 : list event) : dumps (t1 ++ t2) = (dumps t1 + dumps t2)%nat.
Proof.
  induction t1 as [|e t1 IH]; simpl; [reflexivity|].
  destruct e; simpl; now rewrite IH.
Qed.

(** A loop whose body leaves the state alone and does nothing. *)
Lemma for_each_skip {A S} (l : list A) (body : A -> S -> M S) (s : S) :
  (forall x, body x s = ret s) -> for_each l body s = ret s.
Proof.
  intros Hb. induction l as [|x l IH]; simpl; [reflexivity|].
  now rewrite Hb, bind_ret_l.
Qed.

(** A loop whose first iteration raises. *)
Lemma for_each_raises_first {A S} (x : A) (l : list A) (body : A -> S -> M S) (s : S)
    (tr : list event) (e : exn) :
  body x s = (tr, Raised e) -> for_each (x :: l) body s = (tr, Raised e).
Proof. intros Hb. simpl. now rewrite Hb. Qed.

Lemma py_range_pos (n : Z) : (0 < n)%Z -> exists r, py_range n = 0%nat :: r.
Proof.
  intros Hn. unfold py_range. destruct (Z.to_nat n) as [|k] eqn:Hk; [lia|].
  simpl. eauto.
Qed.

Lemma py_range_nonpos (n : Z) : (n <= 0)%Z -> py_range n = [].
Proof.
  intros Hn. unfold py_range. replace (Z.to_nat n) with 0%nat by lia. reflexivity.
Qed.

Section BadSizes.
Context {env : Env} {net : Backbone} {lib : NumLib} {rs : RandomState}.
Variable a : Args.

(** The log line and the lap count that open both pairs of loops. *)
Lemma laps_then {B} (m1 m2 : string) (k : Z -> M B) :
  (laps <- (if aug a then emit (Log INFO m1) ;;; ret (aug_num a)
            else emit (Log INFO m2) ;;; ret 1%Z) ;; k laps)
  = (Log INFO (if aug a then m1 else m2) :: trace (k (laps_of a)), result (k (laps_of a))).
Proof.
  unfold laps_of. destruct (aug a); unfold bind, emit, ret; simpl;
    now destruct (k _).
Qed.

(** The training loops with a batch size of 0: [range] raises on the
    first lap. *)
Lemma train_loop_zero_step (imgs : list string) :
  (0 < laps_of a)%Z -> batch_size a = 0%Z ->
  exists msg, train_loop a imgs = ([Log INFO msg], Raised ValueError).
Proof.
  intros Hlaps Hbs. unfold train_loop. rewrite laps_then.
  destruct (py_range_pos _ Hlaps) as [r ->].
  rewrite (for_each_raises_first _ _ _ _ [] ValueError).
  - eexists. reflexivity.
  - unfold py_range_step. now rewrite Hbs.
Qed.

(** The training loops when no batch is run. *)
Lemma train_loop_no_batch (imgs : list string) :
  (laps_of a <= 0)%Z \/ (batch_size a < 0)%Z ->
  exists msg, train_loop a imgs = ([Log INFO msg], Returned train_init).
Proof.
  intros Hbad. unfold train_loop. rewrite laps_then.
  assert (Hloop : for_each (py_range (laps_of a)) (fun (i_aug : nat) (st : train_state) =>
            starts <- py_range_step (length imgs) (batch_size a) ;;
            for_each starts (train_batch a imgs i_aug) st) train_init = ret train_init).
  { destruct (Z_le_gt_dec (laps_of a) 0) as [Hl|Hl].
    - now rewrite py_range_nonpos.
    - destruct Hbad as [|Hbs]; [lia|].
      apply for_each_skip. intros lap. unfold py_range_step.
      destruct (Z.eqb_spec (batch_size a) 0); [lia|].
      destruct (Z.ltb_spec (batch_size a) 0); [|lia].
      now rewrite bind_ret_l. }
  rewrite Hloop. eexists. reflexivity.
Qed.

End BadSizes.

(** X1.  Training needs at least one batch.  With training images present
    and no feature file, a batch size of 0 makes [range] raise ValueError
    on the first lap; a negative batch size or a lap count below 1 runs no
    batch at all, and [mean / N] with [mean = None] raises TypeError.  In
    both cases the network is never run and no feature file is written. *)
Theorem training_without_a_batch_raises {env : Env} {net : Backbone} (a : Args) :
  truthy (feat a) = false ->
  train_files a <> [] ->
  ((0 < laps_of a)%Z -> batch_size a = 0%Z ->
     result (get_train_outputs a) = Raised ValueError) /\
  ((laps_of a <= 0)%Z \/ (batch_size a < 0)%Z ->
     result (get_train_outputs a) = Raised TypeError) /\
  ((batch_size a <= 0)%Z \/ (laps_of a <= 0)%Z ->
     predicts (trace (get_train_outputs a)) = [] /\
     dumps (trace (get_train_outputs a)) = 0%nat).
Proof.
  intros Hfeat Himgs.
  assert (Hrun : get_train_outputs a = (st <- train_loop a (train_files a) ;; train_finish a st)).
  { unfold get_train_outputs. rewrite Hfeat.
    destruct (Nat.eqb_spec (length (train_files a)) 0) as [Hz|_]; [|reflexivity].
    exfalso. apply Himgs. now apply length_zero_iff_nil. }
  assert (Hzero : (0 < laps_of a)%Z -> batch_size a = 0%Z ->
            exists msg, get_train_outputs a = ([Log INFO msg], Raised ValueError)).
  { intros Hlaps Hbs. destruct (train_loop_zero_step a (train_files a) Hlaps Hbs) as [msg Hl].
    exists msg. now rewrite Hrun, Hl. }
  assert (Hnone : (laps_of a <= 0)%Z \/ (batch_size a < 0)%Z ->
            exists msg, get_train_outputs a = ([Log INFO msg], Raised TypeError)).
  { intros Hbad. destruct (train_loop_no_batch a (train_files a) Hbad) as [msg Hl].
    exists msg. now rewrite Hrun, Hl. }
  split; [|split].
  - intros Hlaps Hbs. destruct (Hzero Hlaps Hbs) as [msg ->]. reflexivity.
  - intros Hbad. destruct (Hnone Hbad) as [msg ->]. reflexivity.
  - intros Hbad.
    destruct (Z_le_gt_dec (laps_of a) 0) as [Hl|Hl].
    { destruct (Hnone (or_introl Hl)) as [msg ->]. now split. }
    destruct (Z.eq_dec (batch_size a) 0%Z) as [Hz|Hnz].
    { assert (Hpos : (0 < laps_of a)%Z) by lia.
      destruct (Hzero Hpos Hz) as [msg ->]. now split. }
    assert (Hneg : (batch_size a < 0)%Z) by lia.
    destruct (Hnone (or_intror Hneg)) as [msg ->]. now split.
Qed.

Lemma training_without_a_batch_raises_witness :
  result (@get_train_outputs Demo.env Demo.net (Demo.args 0)) = Raised ValueError /\
  result (@get_train_outputs Demo.env Demo.net (Demo.args (-4))) = Raised TypeError /\
  predicts (trace (@get_train_outputs Demo.env Demo.net (Demo.args (-4)))) = [].
Proof.
  split; [|split].
  - apply (@training_without_a_batch_raises Demo.env Demo.net (Demo.args 0));
      [reflexivity|discriminate|reflexivity|reflexivity].
  - apply (@training_without_a_batch_raises Demo.env Demo.net (Demo.args (-4)));
      [reflexivity|discriminate|right; reflexivity].
  - apply (@training_without_a_batch_raises Demo.env Demo.net (Demo.args (-4)));
      [reflexivity|discriminate|left; discriminate].
Defined.

Lemma bind_raised {A B} (m : M A) (f : A -> M B) (tr : list event) (e : exn) :
  m = (tr, Raised e) -> bind m f = (tr, Raised e).
Proof. now intros ->. Qed.

Lemma bind_returned_eq {A B} (m : M A) (f : A -> M B) (tr : list event) (x : A) :
  m = (tr, Returned x) -> bind m f = (tr ++ trace (f x), result (f x)).
Proof. intros ->. simpl. now destruct (f x). Qed.

(** With a feature file the train outputs are read from it. *)
Lemma get_train_outputs_feat {env : Env} {net : Backbone} (a : Args) :
  truthy (feat a) = true ->
  get_train_outputs a
  = ([Log INFO ("loading train set feature from: " ++ default "" (feat a));
      PickleLoad (default "" (feat a)); Log INFO "loaded."],
     Returned (pickle_load (default "" (feat a)))).
Proof. intros Hfeat. unfold get_train_outputs. now rewrite Hfeat. Qed.

Section BadSizesTest.
Context {env : Env} {net : Backbone} {lib : NumLib} {rs : RandomState}.
Variable a : Args.

(** The test loops when no batch can be run: either [range] raises on
    the first lap, or [np.vstack] finds no distance array. *)
Lemma test_loop_no_batch (train_outputs : matrix * array3) (g : rng) :
  (batch_size a <= 0)%Z \/ (laps_of a <= 0)%Z ->
  exists msg, test_loop a train_outputs g = ([Log INFO msg], Raised ValueError).
Proof.
  intros Hbad. unfold test_loop. rewrite laps_then.
  destruct (Z_le_gt_dec (laps_of a) 0) as [Hl|Hl].
  { rewrite py_range_nonpos by exact Hl. eexists. reflexivity. }
  destruct (Z.eq_dec (batch_size a) 0%Z) as [Hz|Hnz].
  { destruct (py_range_pos (laps_of a)) as [r ->]; [lia|].
    rewrite (for_each_raises_first _ _ _ _ [] ValueError).
    - eexists. reflexivity.
    - unfold py_range_step. now rewrite Hz. }
  rewrite for_each_skip.
  - eexists. reflexivity.
  - intros lap. unfold py_range_step.
    destruct (Z.eqb_spec (batch_size a) 0); [lia|].
    destruct (Z.ltb_spec (batch_size a) 0); [|lia].
    now rewrite bind_ret_l.
Qed.

End BadSizesTest.

(** X2.  With a feature file, a batch size or lap count below 1 makes the
    run raise ValueError after the features are loaded: the network is
    never run and no figure is saved. *)
Theorem run_without_a_batch_raises
    {env : Env} {net : Backbone} {lib : NumLib} {rs : RandomState}
    (a : Args) (g : rng) :
  truthy (feat a) = true ->
  (batch_size a <= 0)%Z \/ (laps_of a <= 0)%Z ->
  result (recognize_from_image a g) = Raised ValueError /\
  predicts (trace (recognize_from_image a g)) = [] /\
  figures (trace (recognize_from_image a g)) = [].
Proof.
  intros Hfeat Hbad.
  destruct (test_loop_no_batch a (pickle_load (default "" (feat a))) g Hbad) as [msg Hl].
  assert (Hrun : recognize_from_image a g
                 = ([Log INFO ("loading train set feature from: " ++ default "" (feat a));
                     PickleLoad (default "" (feat a)); Log INFO "loaded."; Log INFO msg],
                    Raised ValueError)).
  { unfold recognize_from_image.
    rewrite (bind_returned_eq _ _ _ _ (get_train_outputs_feat a Hfeat)).
    now rewrite (bind_raised _ _ _ _ Hl). }
  rewrite Hrun. auto.
Qed.

(** ** The batches passed to the network *)

(** The [Predict] events of a loop whose body always returns. *)
Lemma for_each_predicts {A S} (l : list A) (body : A -> S -> M S) (f : A -> list nat) (s : S) :
  (forall x s, exists s', result (body x s) = Returned s' /\ predicts (trace (body x s)) = f x) ->
  (exists s', result (for_each l body s) = Returned s') /\
  predicts (trace (for_each l body s)) = flat_map f l.
Proof.
  intros Hb. revert s. induction l as [|x l IH]; intros s; simpl.
  - split; [eexists|]; reflexivity.
  - destruct (Hb x s) as (s1 & Hr & Hp).
    destruct (IH s1) as [[s2 Hr2] Hp2].
    rewrite result_bind, trace_bind, Hr. split; [eauto|].
    now rewrite predicts_app, Hp, Hp2.
Qed.

Lemma batches_concat (a : Args) (files : list string) :
  (0 < batch_size a)%Z -> concat (batches_of a files) = files.
Proof. intros Hbs. unfold batches_of. apply range_step_chunks. lia. Qed.

Lemma batches_sizes (a : Args) (files : list string) :
  (0 < batch_size a)%Z ->
  Forall (fun b => (1 <= length b <= Z.to_nat (batch_size a))%nat) (batches_of a files).
Proof.
  intros Hbs. unfold batches_of. apply List.Forall_forall. intros b Hb.
  apply in_map_iff in Hb as (i & <- & Hi).
  apply range_step_lt in Hi; [|lia].
  rewrite slice_width, length_take, length_drop. lia.
Qed.

Lemma flat_map_singleton {A B} (f : A -> B) (l : list A) :
  flat_map (fun x => [f x]) l = map f l.
Proof. induction l as [|x l IH]; simpl; [reflexivity|]. now rewrite IH. Qed.

Lemma flat_map_const_concat {A B} (l : list A) (k : list B) :
  flat_map (fun _ => k) l = concat (repeat k (length l)).
Proof. induction l as [|x l IH]; simpl; [reflexivity|]. now rewrite IH. Qed.

Lemma predicts_batch_log (a : Args) (files : list string) (i_aug i_img : nat)
    (tr : list event) :
  predicts (batch_log a files i_aug i_img :: tr) = predicts tr.
Proof. unfold batch_log. now destruct (aug a). Qed.

Section Batches.
Context {net : Backbone}.
Variable a : Args.
Hypothesis Hbs : (0 < batch_size a)%Z.

Lemma train_batch_run (imgs : list string) (i_aug i_img : nat) (st : train_state) :
  train_batch a imgs i_aug i_img st
  = ([batch_log a imgs i_aug i_img;
      Predict (length (slice imgs i_img (i_img + Z.to_nat (batch_size a))))],
     Returned (train_step a imgs st (i_aug, i_img))).
Proof.
  unfold train_batch, train_step. rewrite !bind_emit. cbn [fst snd].
  destruct (shape4 _) as [[[B0 C0] H0] W0]. reflexivity.
Qed.

Lemma py_range_step_pos (n : nat) :
  py_range_step n (batch_size a) = ret (range_step n (Z.to_nat (batch_size a))).
Proof.
  unfold py_range_step.
  destruct (Z.eqb_spec (batch_size a) 0); [lia|].
  destruct (Z.ltb_spec (batch_size a) 0); [lia|]. reflexivity.
Qed.

Lemma train_loop_predicts (imgs : list string) :
  predicts (trace (train_loop a imgs))
  = concat (repeat (map (@length string) (batches_of a imgs)) (Z.to_nat (laps_of a))).
Proof.
  unfold train_loop. rewrite laps_then. cbn [trace fst predicts].
  destruct (for_each_predicts (py_range (laps_of a))
              (fun (i_aug : nat) (st : train_state) =>
                 starts <- py_range_step (length imgs) (batch_size a) ;;
                 for_each starts (train_batch a imgs i_aug) st)
              (fun _ => map (@length string) (batches_of a imgs)) train_init) as [_ Hp].
  - intros lap st. rewrite py_range_step_pos, bind_ret_l.
    destruct (for_each_predicts (range_step (length imgs) (Z.to_nat (batch_size a)))
                (train_batch a imgs lap)
                (fun i => [length (slice imgs i (i + Z.to_nat (batch_size a)))]) st)
      as [[s' Hr] Hp].
    + intros i s. rewrite train_batch_run. eexists. split; [reflexivity|].
      apply predicts_batch_log.
    + exists s'. split; [exact Hr|]. rewrite Hp. unfold batches_of.
      rewrite map_map. apply flat_map_singleton.
  - rewrite Hp, flat_map_const_concat. unfold py_range. now rewrite length_seq.
Qed.

End Batches.

(** X3.  Batching loses no image and repeats none.  For a positive batch
    size the batches of one lap are consecutive pieces of the image list:
    put end to end they give the list back, each holds between 1 and
    [batch_size] images, and the training loops run the network once per
    batch, on every lap. *)
Theorem every_image_is_predicted_once_per_lap
    {net : Backbone} (a : Args) (train_imgs : list string) :
  (0 < batch_size a)%Z ->
  (forall files,
     concat (batches_of a files) = files /\
     Forall (fun b => (1 <= length b <= Z.to_nat (batch_size a))%nat) (batches_of a files)) /\
  predicts (trace (train_loop a train_imgs))
  = concat (repeat (map (@length string) (batches_of a train_imgs)) (Z.to_nat (laps_of a))).
Proof.
  intros Hbs. split.
  - intros files. split; [now apply batches_concat|now apply batches_sizes].
  - now apply train_loop_predicts.
Qed.

(** ** Test images without a ground-truth mask *)

Lemma for_each_app {A S} (l1 l2 : list A) (body : A -> S -> M S) (s : S) :
  for_each (l1 ++ l2) body s = (s' <- for_each l1 body s ;; for_each l2 body s').
Proof.
  revert s. induction l1 as [|x l1 IH]; intros s; cbn [app for_each].
  - now rewrite bind_ret_l.
  - destruct (body x s) as [tr [s1| |]] eqn:Hb; simpl; [|reflexivity|reflexivity].
    rewrite IH. destruct (for_each l1 body s1) as [tr1 [s2| |]]; simpl; try reflexivity.
    destruct (for_each l2 body s2) as [tr2 o]. now rewrite app_assoc.
Qed.

Lemma figures_bind_quiet {A B} (m : M A) (k : A -> M B) (x : A) :
  result m = Returned x -> quiet m -> figures (trace (bind m k)) = figures (trace (k x)).
Proof.
  intros Hr Hq. rewrite trace_bind, Hr, figures_app. unfold quiet in Hq. now rewrite Hq.
Qed.

(** The flattening of the masks stops at the first missing one. *)
Lemma flatten_masks_missing (gt : list (option matrix)) :
  In None gt -> flatten_masks gt = ([], Raised ValueError).
Proof.
  unfold flatten_masks. generalize (@nil Q).
  induction gt as [|g gt IH]; intros acc Hin; [destruct Hin|].
  simpl. destruct g as [m|]; [|reflexivity].
  rewrite bind_ret_l. apply IH. destruct Hin as [Hin|Hin]; [discriminate|exact Hin].
Qed.

Section MissingMask.
Context `{NumLib}.

(** The first [n] iterations of [plot_fig], all with masks. *)
Lemma plot_prefix_run (file_list : list string) (scores : loc) (anormal_scores : list Q)
    (gt_imgs : list (option matrix)) (t : Q) (h : store) (s : array3) (n : nat) :
  h !! scores = Some (Arr3 s) ->
  (n <= length file_list)%nat -> (n <= length s)%nat -> (n <= length anormal_scores)%nat ->
  (forall i, (i < n)%nat -> exists g, gt_imgs !! i = Some (Some g)) ->
  exists h',
    result (for_each (seq 0 n) (plot_one file_list scores anormal_scores gt_imgs t) h)
    = Returned h' /\
    length (figures (trace (for_each (seq 0 n)
              (plot_one file_list scores anormal_scores gt_imgs t) h))) = n.
Proof.
  intros Hh Hlf Hls Hla Hgt.
  set (P := fun (pre : list nat) (h' : store) =>
    exists s', h' !! scores = Some (Arr3 s') /\ length s' = length s).
  destruct (for_each_inv P (seq 0 n)
              (plot_one file_list scores anormal_scores gt_imgs t) h)
    as (h' & Hres & _).
  - exists s. auto.
  - intros pre x post h0 Hsplit (s0 & Hh0 & Hlen0).
    apply seq_split_at in Hsplit as [-> Hx].
    destruct (lookup_lt_is_Some_2 s0 (length pre)) as [m Hm]; [lia|].
    destruct (lookup_lt_is_Some_2 file_list (length pre)) as [p Hp]; [lia|].
    destruct (lookup_lt_is_Some_2 anormal_scores (length pre)) as [v Hv]; [lia|].
    destruct (plot_one_run file_list scores anormal_scores gt_imgs t (length pre) h0 s0 m p v)
      as (h1 & Hr1 & Hh1); auto.
    exists h1. split; [now rewrite Hr1|].
    eexists. split; [exact Hh1|]. now rewrite length_insert.
  - exists h'. split; [exact Hres|].
    exact (proj1 (plot_fig_figures_from _ _ _ _ _ _ _ _ _ _ Hh Hres)).
Qed.

(** The iteration for an image whose mask is missing: [None.transpose]. *)
Lemma plot_one_missing (file_list : list string) (scores : loc) (anormal_scores : list Q)
    (gt_imgs : list (option matrix)) (t : Q) (k : nat) (h : store) :
  (k < length file_list)%nat -> gt_imgs !! k = Some None ->
  plot_one file_list scores anormal_scores gt_imgs t k h = ([], Raised AttributeError).
Proof.
  intros Hk Hg. destruct (lookup_lt_is_Some_2 file_list k Hk) as [p Hp].
  unfold plot_one.
  rewrite (py_index_Some _ _ _ Hp), bind_ret_l.
  now rewrite (py_index_Some _ _ _ Hg), bind_ret_l.
Qed.

Lemma plot_fig_missing (file_list : list string) (scores : loc) (anormal_scores : list Q)
    (gt_imgs : list (option matrix)) (t : Q) (h : store) (s : array3) (k : nat) :
  h !! scores = Some (Arr3 s) ->
  (k < length file_list)%nat -> (k <= length s)%nat -> (k <= length anormal_scores)%nat ->
  (forall i, (i < k)%nat -> exists g, gt_imgs !! i = Some (Some g)) ->
  gt_imgs !! k = Some None ->
  result (plot_fig file_list scores anormal_scores gt_imgs t h) = Raised AttributeError /\
  length (figures (trace (plot_fig file_list scores anormal_scores gt_imgs t h))) = k.
Proof.
  intros Hh Hk Hls Hla Hgt Hnone.
  destruct (plot_prefix_run file_list scores anormal_scores gt_imgs t h s k Hh)
    as (h' & Hres & Hfigs); auto; [lia|].
  unfold plot_fig.
  replace (length file_list) with (k + S (length file_list - S k))%nat by lia.
  rewrite seq_app. cbn [seq]. rewrite for_each_app.
  set (pre := for_each (seq 0 k) (plot_one file_list scores anormal_scores gt_imgs t) h) in *.
  rewrite result_bind, trace_bind, Hres. cbn [for_each].
  rewrite Nat.add_0_l.
  rewrite (plot_one_missing file_list scores anormal_scores gt_imgs t k h' Hk Hnone).
  split; [reflexivity|]. cbn. now rewrite app_nil_r.
Qed.

End MissingMask.

Section PlainRun.
Context {env : Env} {net : Backbone} {lib : NumLib} {rs : RandomState}.
Context (C H W : nat) {laws : BackboneLaws C H W} {lib_laws : NumLibLaws}.
Variable a : Args.
Variable g : rng.
Hypothesis HC : (0 < C)%nat.
Hypothesis Hplain : aug a = false.
Hypothesis Hbs : (0 < batch_size a)%Z.
Hypothesis Hsrc : truthy (feat a) = true \/ train_files a <> [].
Hypothesis Hin : input a <> [].

(** Without augmentation the run reaches the choice of the threshold with
    one normalised map, one score and one mask slot per test image; from
    there on it behaves as [select_threshold] followed by [plot_fig]. *)
Lemma plain_run_reaches_threshold :
  exists gts scores an,
    gts = map (load_gt false) (input a) /\
    length scores = length (input a) /\
    length an = length (input a) /\
    let rest :=
      threshold <- select_threshold a gts scores ;;
      plot_fig (input a) (fresh (dom (∅ : store))) an gts threshold
               (<[fresh (dom (∅ : store)) := Arr3 scores]> ∅) in
    (forall e, result rest = Raised e -> result (recognize_from_image a g) = Raised e) /\
    figures (trace (recognize_from_image a g)) = figures (trace rest).
Proof.
  assert (Hlaps : (0 < laps_of a)%Z) by (unfold laps_of; rewrite Hplain; lia).
  destruct (get_train_outputs_total C H W a HC Hsrc Hbs Hlaps) as [train_outputs Htrain].
  destruct (test_loop_returns C H W a train_outputs HC g Hplain Hbs Hin)
    as (st & dist_list & Htest & Hlen & Hgts).
  set (sm := smooth (score_map_plain dist_list)).
  assert (Hlsm : length sm = length (input a)).
  { unfold sm, smooth, score_map_plain. now rewrite !length_map. }
  assert (Hpos : (0 < length (input a))%nat).
  { destruct (input a); [congruence|simpl; lia]. }
  assert (Hmaps : forall m, In m sm -> concat m <> []).
  { intros m Hm. apply (Rect_concat_nonempty IMAGE_SIZE IMAGE_SIZE).
    - now apply (smooth_maps_shape dist_list).
    - unfold IMAGE_SIZE. lia.
    - unfold IMAGE_SIZE. lia. }
  destruct (lookup_lt_is_Some_2 sm 0%nat) as [m0 Hm0]; [lia|].
  assert (Hflat : flatten3 sm <> []).
  { apply (flatten3_nonempty sm m0 Hm0). apply Hmaps.
    apply list_elem_of_In. eapply list_elem_of_lookup_2; eauto. }
  destruct (normalize_returns sm Hflat) as (scores & Hnorm & Hlsc).
  destruct (anormal_scores_from sm [] Hmaps) as (an & Han & Hlan).
  exists (te_gt_imgs st), scores, an.
  split; [exact Hgts|]. split; [lia|]. split; [lia|].
  intros rest. subst rest.
  assert (Hscore : (if aug a then score_map_aug a st dist_list
                    else ret (score_map_plain dist_list)) = ret (score_map_plain dist_list))
    by now rewrite Hplain.
  assert (Han' : anormal_scores_of sm = ret an) by exact Han.
  split.
  - intros e He. unfold recognize_from_image.
    rewrite (result_bind_returned _ _ _ Htrain).
    rewrite (result_bind_returned _ _ _ Htest). cbv beta iota.
    rewrite Hscore, bind_ret_l. fold sm.
    rewrite Hnorm, bind_ret_l, Han', bind_ret_l.
    rewrite result_bind in He. rewrite result_bind.
    destruct (result (select_threshold a (te_gt_imgs st) scores)) as [t| |];
      [|discriminate|now injection He as ->].
    unfold alloc. cbv beta iota zeta. rewrite result_bind.
    now rewrite He.
  - unfold recognize_from_image.
    rewrite (figures_bind_quiet _ _ _ Htrain (quiet_get_train_outputs a)).
    rewrite (figures_bind_quiet _ _ _ Htest (quiet_test_loop a train_outputs g)).
    cbv beta iota.
    rewrite Hscore, bind_ret_l. fold sm.
    rewrite Hnorm, bind_ret_l, Han', bind_ret_l.
    rewrite !trace_bind.
    destruct (result (select_threshold a (te_gt_imgs st) scores)) as [t| |]; [|reflexivity..].
    rewrite !figures_app. f_equal.
    unfold alloc. cbv beta iota zeta. rewrite trace_bind.
    destruct (result (plot_fig _ _ _ _ _ _)); [|reflexivity..].
    rewrite figures_app. cbn. now rewrite app_nil_r.
Qed.

End PlainRun.


(** ** Strings *)

Lemma append_cons (x : ascii) (s t : string) : (String x s ++ t)%string = String x (s ++ t).
Proof. reflexivity. Qed.

Lemma append_nil_l (s : string) : ("" ++ s)%string = s.
Proof. reflexivity. Qed.

Lemma append_nil_r (s : string) : (s ++ "")%string = s.
Proof. induction s as [|x s IH]; [reflexivity|]. now rewrite append_cons, IH. Qed.

Lemma append_assoc (s t u : string) : ((s ++ t) ++ u)%string = (s ++ t ++ u)%string.
Proof. induction s as [|x s IH]; [reflexivity|]. now rewrite !append_cons, IH. Qed.

Lemma contains_char_app (c : ascii) (u v : string) :
  contains_char c (u ++ v) = contains_char c u || contains_char c v.
Proof.
  induction u as [|x u IH]; [reflexivity|].
  rewrite append_cons. cbn [contains_char]. now rewrite IH, orb_assoc.
Qed.

Lemma split_char_nonempty (c : ascii) (s : string) : split_char c s <> [].
Proof.
  induction s as [|x s IH]; simpl; [discriminate|].
  destruct (Ascii.eqb x c); [discriminate|].
  destruct (split_char c s); discriminate.
Qed.

Lemma split_char_none (c : ascii) (s : string) :
  contains_char c s = false -> split_char c s = [s].
Proof.
  induction s as [|x s IH]; cbn [contains_char split_char]; [reflexivity|]. intros Hc.
  apply orb_false_elim in Hc as [Hx Hs]. rewrite Hx, (IH Hs). reflexivity.
Qed.

(** The pieces in front of the first separator behind a separator-free
    start. *)
Lemma split_char_cut (c : ascii) (u v : string) :
  contains_char c u = false -> split_char c (u ++ String c v) = u :: split_char c v.
Proof.
  induction u as [|x u IH].
  - intros _. rewrite append_nil_l. cbn [split_char]. now rewrite Ascii.eqb_refl.
  - intros Hc. cbn [contains_char] in Hc. apply orb_false_elim in Hc as [Hx Hu].
    rewrite append_cons. cbn [split_char]. rewrite Hx, (IH Hu). reflexivity.
Qed.

Lemma last_keeps_suffix {A} (l k : list A) (d : A) : k <> [] -> List.last (l ++ k) d = List.last k d.
Proof.
  intros Hk. induction l as [|x l IH]; [reflexivity|].
  simpl. destruct (l ++ k) eqn:E; [|exact IH].
  apply app_eq_nil in E as [_ E]. contradiction.
Qed.

Lemma split_char_suffix (c : ascii) (u v : string) :
  exists p ps, split_char c (u ++ String c v) = (p :: ps) ++ split_char c v.
Proof.
  induction u as [|x u (p & ps & IH)].
  - rewrite append_nil_l. cbn [split_char].
    rewrite Ascii.eqb_refl. exists EmptyString, []. reflexivity.
  - rewrite append_cons. cbn [split_char]. destruct (Ascii.eqb x c).
    + exists EmptyString, (p :: ps). now rewrite IH.
    + rewrite IH. exists (String x p), ps. reflexivity.
Qed.

(** What follows the last separator does not depend on what precedes it. *)
Lemma last_piece_cut (c : ascii) (u v : string) :
  last_piece c (u ++ String c v) = last_piece c v.
Proof.
  unfold last_piece. destruct (split_char_suffix c u v) as (p & ps & ->).
  apply last_keeps_suffix, split_char_nonempty.
Qed.

Lemma last_piece_none (c : ascii) (s : string) :
  contains_char c s = false -> last_piece c s = s.
Proof. intros Hc. unfold last_piece. now rewrite split_char_none. Qed.

(** The directory of a path does not matter to its last component. *)
Lemma last_piece_path (dir name : string) :
  contains_char "/" name = false ->
  last_piece "/" (dir ++ "/" ++ name) = name /\ last_piece "/" name = name.
Proof.
  intros Hn. split; [|now apply last_piece_none].
  change (dir ++ "/" ++ name)%string with (dir ++ String "/" name)%string.
  rewrite last_piece_cut. now apply last_piece_none.
Qed.

(** *** [replace] *)

Lemma prefix_other (c x : ascii) (e r : string) :
  Ascii.eqb x c = false -> String.prefix (String c e) (String x r) = false.
Proof.
  intros Hx. simpl. destruct (ascii_dec c x) as [->|]; [|reflexivity].
  now rewrite Ascii.eqb_refl in Hx.
Qed.

(** Text without the first character of [old] is copied. *)
Lemma replace_copy (c : ascii) (e new u v : string) :
  contains_char c u = false ->
  replace_from (String c e) new 0 (u ++ v) = (u ++ replace_from (String c e) new 0 v)%string.
Proof.
  induction u as [|x u IH]; [reflexivity|].
  intros Hc. cbn [contains_char] in Hc. apply orb_false_elim in Hc as [Hx Hu].
  rewrite !append_cons.
  cbn [replace_from]. rewrite (prefix_other c x e (u ++ v) Hx).
  now rewrite (IH Hu).
Qed.

(** The characters of a found occurrence are passed over. *)
Lemma replace_skip (old new e v : string) :
  replace_from old new (String.length e) (e ++ v) = replace_from old new 0 v.
Proof. induction e as [|x e IH]; [reflexivity|]. rewrite append_cons. exact IH. Qed.

Lemma prefix_split (e p : string) :
  String.prefix e p = true -> p = (e ++ string_drop (String.length e) p)%string.
Proof.
  revert p. induction e as [|a e IH]; intros p; [reflexivity|].
  destruct p as [|b p]; cbn [String.prefix String.length string_drop]; [discriminate|].
  destruct (ascii_dec a b) as [->|]; [|discriminate].
  intros Hp. rewrite append_cons. now rewrite <- (IH p Hp).
Qed.

(** Whether a dot-free [e] starts [p ++ rest] is decided within [p], when
    [rest] is empty or starts with a dot. *)
Lemma prefix_before_dot (e p rest : string) :
  contains_char "." e = false ->
  rest = EmptyString \/ (exists r, rest = String "." r) ->
  String.prefix e (p ++ rest) = String.prefix e p.
Proof.
  intros He Hrest. revert p. induction e as [|a e IH]; intros p.
  - now destruct (p ++ rest)%string, p.
  - cbn [contains_char] in He. apply orb_false_elim in He as [Ha He].
    destruct p as [|b p].
    + rewrite append_nil_l. destruct Hrest as [->|[r ->]]; [reflexivity|].
      cbn [String.prefix].
      destruct (ascii_dec a ".") as [->|]; [|reflexivity].
      now rewrite Ascii.eqb_refl in Ha.
    + rewrite append_cons. cbn [String.prefix].
      destruct (ascii_dec a b); [|reflexivity]. now apply IH.
Qed.

Lemma dotted_shape (ps : list string) :
  dotted ps = EmptyString \/ exists r, dotted ps = String "." r.
Proof. destruct ps as [|p ps]; [now left|]. right. cbn [dotted fold_right]. eauto. Qed.

Lemma string_drop_dot_free (n : nat) (s : string) :
  contains_char "." s = false -> contains_char "." (string_drop n s) = false.
Proof.
  revert s. induction n as [|n IH]; intros s Hs; [now destruct s|].
  destruct s as [|x s]; [reflexivity|]. cbn [contains_char string_drop] in Hs |- *.
  apply orb_false_elim in Hs as [_ Hs]. now apply IH.
Qed.

(** [replace] on a dotted name, piece by piece. *)
Lemma replace_dotted (e : string) (ps : list string) :
  contains_char "." e = false ->
  Forall (fun p => contains_char "." p = false) ps ->
  replace_from ("." ++ e) ".png" 0 (dotted ps) = renamed e ps.
Proof.
  intros He Hps. induction Hps as [|p ps Hp Hps IH]; [reflexivity|].
  cbn [dotted renamed fold_right]. fold (dotted ps). fold (renamed e ps).
  change ("." ++ e)%string with (String "." e) in *.
  cbn [replace_from].
  assert (Hpre : String.prefix (String "." e) (String "." (p ++ dotted ps))
                 = String.prefix e p).
  { cbn [String.prefix]. destruct (ascii_dec "." ".") as [_|Hne]; [|contradiction].
    apply prefix_before_dot; [exact He|apply dotted_shape]. }
  rewrite Hpre. destruct (String.prefix e p) eqn:Hep.
  - rewrite (prefix_split e p Hep) at 1. rewrite append_assoc.
    change (String.length (String "." e) - 1)%nat with (String.length e - 0)%nat.
    rewrite Nat.sub_0_r, replace_skip.
    rewrite (replace_copy "." e), IH; [reflexivity|].
    now apply string_drop_dot_free.
  - now rewrite (replace_copy "." e), IH.
Qed.

Lemma split_dotted (p0 : string) (ps : list string) :
  contains_char "." p0 = false ->
  Forall (fun p => contains_char "." p = false) ps ->
  split_char "." (p0 ++ dotted ps) = p0 :: ps.
Proof.
  intros H0 Hps. revert p0 H0. induction Hps as [|p ps Hp Hps IH]; intros p0 H0.
  - cbn [dotted fold_right]. rewrite append_nil_r. now apply split_char_none.
  - cbn [dotted fold_right]. fold (dotted ps).
    rewrite split_char_cut by exact H0. now rewrite IH.
Qed.

(** ** Where the figures are saved *)

Lemma contains_char_dotted (ps : list string) :
  Forall (fun p => contains_char "/" p = false) ps -> contains_char "/" (dotted ps) = false.
Proof.
  induction 1 as [|p ps Hp Hps IH]; [reflexivity|].
  cbn [dotted fold_right]. fold (dotted ps). cbn [contains_char].
  rewrite contains_char_app, Hp, IH. reflexivity.
Qed.

Lemma last_dot_free (p0 : string) (ps : list string) :
  contains_char "." p0 = false ->
  Forall (fun p => contains_char "." p = false) ps ->
  contains_char "." (List.last (p0 :: ps) EmptyString) = false.
Proof.
  intros H0 Hps. revert p0 H0. induction Hps as [|p ps Hp Hps IH]; intros p0 H0; [exact H0|].
  change (List.last (p0 :: p :: ps) EmptyString) with (List.last (p :: ps) EmptyString).
  now apply IH.
Qed.

(** In directory mode the figure of an image whose file name is
    [p0.p1. ... .pn] is saved under [savepath], with ".pn" replaced by
    ".png" in front of every piece that starts with [pn]. *)
Lemma savepath_dotted `{Utils} (savepath dir p0 : string) (ps : list string) :
  contains_char "." (last_piece "/" savepath) = false ->
  Forall (fun p => contains_char "/" p = false /\ contains_char "." p = false) (p0 :: ps) ->
  savepath_tmp savepath (dir ++ "/" ++ p0 ++ dotted ps)
  = (savepath ++ "/" ++ p0 ++ renamed (List.last (p0 :: ps) EmptyString) ps)%string /\
  savepath_tmp savepath (p0 ++ dotted ps)
  = (savepath ++ "/" ++ p0 ++ renamed (List.last (p0 :: ps) EmptyString) ps)%string.
Proof.
  intros Hdir Hall.
  assert (Hs : Forall (fun p => contains_char "/" p = false) (p0 :: ps)).
  { eapply List.Forall_impl; [|exact Hall]. now intros p [? _]. }
  assert (Hd : Forall (fun p => contains_char "." p = false) (p0 :: ps)).
  { eapply List.Forall_impl; [|exact Hall]. now intros p [_ ?]. }
  inversion Hs as [|? ? Hs0 Hsps]; subst. inversion Hd as [|? ? Hd0 Hdps]; subst.
  set (name := (p0 ++ dotted ps)%string).
  assert (Hname : contains_char "/" name = false).
  { unfold name. now rewrite contains_char_app, Hs0, contains_char_dotted. }
  destruct (last_piece_path dir name Hname) as [Hfull Hbare].
  assert (Hrun : forall image_path, last_piece "/" image_path = name ->
            savepath_tmp savepath image_path
            = (savepath ++ "/" ++ p0 ++ renamed (List.last (p0 :: ps) EmptyString) ps)%string).
  { intros image_path Hlast. unfold savepath_tmp. rewrite Hdir, Hlast.
    unfold name at 1. unfold last_piece at 1. rewrite split_dotted by assumption.
    set (e := List.last (p0 :: ps) EmptyString).
    change ("." ++ e)%string with (String "." e). cbn [py_replace].
    unfold name. rewrite (replace_copy "." e) by exact Hd0.
    change (String "." e) with ("." ++ e)%string.
    rewrite replace_dotted; [reflexivity| |exact Hdps].
    now apply last_dot_free. }
  split; apply Hrun; assumption.
Qed.

(** X6.  When [savepath] names a directory (its last component has no
    dot), the figure of an image [dir/stem.ext] is saved as
    [savepath/stem.png]: neither the directory of the image nor its
    extension enters the name, so images that differ only in these are
    saved to the same file. *)
Theorem figure_path_ignores_directory_and_extension `{Utils}
    (savepath dir stem ext : string) :
  contains_char "." (last_piece "/" savepath) = false ->
  contains_char "/" stem = false -> contains_char "." stem = false ->
  contains_char "/" ext = false -> contains_char "." ext = false ->
  savepath_tmp savepath (dir ++ "/" ++ stem ++ "." ++ ext)
  = (savepath ++ "/" ++ stem ++ ".png")%string /\
  savepath_tmp savepath (stem ++ "." ++ ext) = (savepath ++ "/" ++ stem ++ ".png")%string.
Proof.
  intros Hdir Hs1 Hs2 He1 He2.
  assert (Hren : renamed ext [ext] = ".png"%string).
  { cbn [renamed fold_right].
    assert (Hp : String.prefix ext ext = true).
    { apply prefix_correct. clear. induction ext as [|x e IH]; [reflexivity|].
      cbn [String.length substring]. now rewrite IH. }
    rewrite Hp. rewrite append_nil_r.
    assert (Hdrop : string_drop (String.length ext) ext = EmptyString).
    { clear. induction ext as [|x e IH]; [reflexivity|exact IH]. }
    now rewrite Hdrop. }
  destruct (savepath_dotted savepath dir stem [ext] Hdir) as [Hfull Hbare].
  { repeat constructor; assumption. }
  cbn [dotted fold_right List.last] in Hfull, Hbare.
  rewrite append_nil_r in Hfull, Hbare. rewrite Hren in Hfull, Hbare.
  split; assumption.
Qed.

(** X7.  The renaming is a textual replacement over the whole file name.
    In directory mode a name without a dot is kept as it is, so the path
    handed to [savefig] is [savepath/stem], the renaming adding no ".png";
    and ".ext" is replaced wherever it occurs
    in the name, not only at its end: [stem.ext.mid.ext] becomes
    [stem.png.mid.png] when [mid] does not start with [ext], and
    [stem.ext<tail>.ext] becomes [stem.png<tail>.png]. *)
Theorem figure_path_replaces_every_occurrence `{Utils}
    (savepath dir stem ext mid tail : string) :
  contains_char "." (last_piece "/" savepath) = false ->
  Forall (fun p => contains_char "/" p = false /\ contains_char "." p = false)
         [stem; ext; mid; tail] ->
  savepath_tmp savepath (dir ++ "/" ++ stem) = (savepath ++ "/" ++ stem)%string /\
  (String.prefix ext mid = false ->
   savepath_tmp savepath (dir ++ "/" ++ stem ++ "." ++ ext ++ "." ++ mid ++ "." ++ ext)
   = (savepath ++ "/" ++ stem ++ ".png." ++ mid ++ ".png")%string) /\
  savepath_tmp savepath (dir ++ "/" ++ stem ++ "." ++ ext ++ tail ++ "." ++ ext)
  = (savepath ++ "/" ++ stem ++ ".png" ++ tail ++ ".png")%string.
Proof.
  intros Hdir Hall.
  inversion Hall as [|? ? Hstem Hall1]; subst.
  inversion Hall1 as [|? ? Hext Hall2]; subst.
  inversion Hall2 as [|? ? Hmid Hall3]; subst.
  inversion Hall3 as [|? ? Htail _]; subst.
  assert (Hself : String.prefix ext ext = true).
  { apply prefix_correct. clear. induction ext as [|x e IH]; [reflexivity|].
    cbn [String.length substring]. now rewrite IH. }
  assert (Hdrop : forall t, string_drop (String.length ext) (ext ++ t) = t).
  { clear. intros t. induction ext as [|x e IH]; [now destruct t|].
    rewrite append_cons. exact IH. }
  assert (Hpre : forall t, String.prefix ext (ext ++ t) = true).
  { clear. intros t. induction ext as [|x e IH]; [now destruct t|].
    rewrite append_cons. cbn [String.prefix].
    destruct (ascii_dec x x); [exact IH|contradiction]. }
  split; [|split].
  - destruct (savepath_dotted savepath dir stem [] Hdir) as [Hfull _].
    { repeat constructor; apply Hstem. }
    cbn [dotted renamed fold_right] in Hfull. now rewrite !append_nil_r in Hfull.
  - intros Hno.
    destruct (savepath_dotted savepath dir stem [ext; mid; ext] Hdir) as [Hfull _].
    { repeat constructor; (apply Hstem || apply Hext || apply Hmid). }
    cbn [dotted renamed fold_right List.last] in Hfull.
    rewrite Hself, Hno in Hfull. rewrite <- (append_nil_r ext) in Hfull at 6.
    rewrite Hdrop in Hfull. rewrite !append_nil_r in Hfull.
    rewrite <- (append_nil_r ext) in Hfull at 4. rewrite Hdrop in Hfull.
    exact Hfull.
  - assert (Ht : contains_char "/" (ext ++ tail) = false /\ contains_char "." (ext ++ tail) = false).
    { rewrite !contains_char_app. destruct Hext as [-> ->], Htail as [-> ->]. now split. }
    destruct (savepath_dotted savepath dir stem [(ext ++ tail)%string; ext] Hdir) as [Hfull _].
    { repeat constructor; (apply Hstem || apply Hext || apply Ht). }
    cbn [dotted renamed fold_right List.last] in Hfull.
    rewrite Hself, Hpre, Hdrop in Hfull.
    rewrite <- (append_nil_r ext) in Hfull at 4. rewrite Hdrop in Hfull.
    rewrite !append_nil_r, append_assoc in Hfull.
    exact Hfull.
Qed.

(** ** The feature file and the mask files *)

(** X8.  The learned distribution is saved in the working directory, in a
    file named after the last component of [train_dir]: the directories in
    front of it do not enter the name, and a [train_dir] that ends with a
    slash gives the file name ".pkl". *)
Theorem feature_file_is_named_after_last_component (dir name : string) :
  contains_char "/" name = false ->
  train_feat_file (dir ++ "/" ++ name) = (name ++ ".pkl")%string /\
  train_feat_file name = (name ++ ".pkl")%string /\
  train_feat_file (dir ++ "/") = ".pkl"%string.
Proof.
  intros Hn. unfold train_feat_file, basename.
  destruct (last_piece_path dir name Hn) as [-> ->].
  split; [reflexivity|]. split; [reflexivity|].
  change (dir ++ "/")%string with (dir ++ String "/" EmptyString)%string.
  now rewrite last_piece_cut.
Qed.

Lemma rfind_from_none (c : ascii) (i : nat) (s : string) :
  contains_char c s = false -> rfind_from c i s = None.
Proof.
  revert i. induction s as [|x s IH]; intros i; [reflexivity|].
  cbn [contains_char rfind_from]. intros Hc. apply orb_false_elim in Hc as [Hx Hs].
  now rewrite (IH (S i) Hs), Hx.
Qed.

(** The last occurrence, when nothing behind it holds the character. *)
Lemma rfind_from_last (c : ascii) (i : nat) (u v : string) :
  contains_char c v = false ->
  rfind_from c i (u ++ String c v) = Some (i + String.length u)%nat.
Proof.
  intros Hv. revert i. induction u as [|x u IH]; intros i.
  - rewrite append_nil_l. cbn [rfind_from String.length].
    rewrite (rfind_from_none c (S i) v Hv), Ascii.eqb_refl. f_equal. lia.
  - rewrite append_cons. cbn [rfind_from String.length].
    rewrite (IH (S i)). f_equal. lia.
Qed.

Lemma substring_prefix (u v : string) : substring 0 (String.length u) (u ++ v) = u.
Proof.
  induction u as [|x u IH]; [now destruct v|].
  rewrite append_cons. cbn [String.length substring]. now rewrite IH.
Qed.

(** X9.  The mask of a test image is looked up by the stem of its file
    name alone: for an image [dir/pre.ext] ([pre] not made of dots only)
    the file is [<gt_dir>/pre_mask.png], whatever [dir] and [ext] are, and
    for a name without a dot it is [<gt_dir>/<name>_mask.png]. *)
Theorem mask_path_uses_only_the_stem (gt_type_dir dir pre ext name : string) :
  contains_char "/" pre = false ->
  contains_char "/" ext = false ->
  contains_char "." ext = false ->
  contains_char "/" name = false ->
  contains_char "." name = false ->
  (has_other "." pre = true ->
   gt_fpath gt_type_dir (dir ++ "/" ++ pre ++ "." ++ ext)
   = path_join gt_type_dir (pre ++ "_mask.png")) /\
  gt_fpath gt_type_dir (dir ++ "/" ++ name) = path_join gt_type_dir (name ++ "_mask.png").
Proof.
  intros Hp He1 He2 Hn1 Hn2. unfold gt_fpath, basename. split.
  - intros Hpre.
    assert (Hname : contains_char "/" (pre ++ "." ++ ext) = false).
    { rewrite contains_char_app, Hp. change ("." ++ ext)%string with (String "." ext).
      cbn [contains_char]. now rewrite He1. }
    destruct (last_piece_path dir (pre ++ "." ++ ext) Hname) as [-> _].
    unfold splitext_root, rfind.
    change (pre ++ "." ++ ext)%string with (pre ++ String "." ext)%string.
    rewrite (rfind_from_last "." 0 pre ext He2).
    change (pre ++ String "." ext)%string with (pre ++ "." ++ ext)%string.
    rewrite (rfind_from_none "/" 0 _ Hname).
    cbn [Nat.add Nat.leb andb]. rewrite Nat.sub_0_r.
    now rewrite !substring_prefix, Hpre.
  - destruct (last_piece_path dir name Hn1) as [-> _].
    unfold splitext_root, rfind. now rewrite (rfind_from_none "." 0 name Hn2).
Qed.

(** ** Benchmark mode *)

Section Benchmark.
Context `{Clock}.

Lemma benchmark_loop (batch tick : nat) (m j : nat) (total : Z) :
  exists tr,
    for_each (seq j m) (benchmark_iteration batch) ((tick + 2 * j)%nat, total)
    = (tr, Returned ((tick + 2 * (j + m))%nat,
                     (total + sumZ (map (elapsed tick)
                                        (List.filter (fun i => negb (i =? 0)%nat) (seq j m))))%Z)) /\
    predicts tr = repeat batch m.
Proof.
  revert j total. induction m as [|m IH]; intros j total.
  - exists []. cbn [seq for_each List.filter map sumZ fold_right repeat predicts].
    split; [|reflexivity]. unfold ret. do 3 f_equal; lia.
  - cbn [seq for_each]. unfold benchmark_iteration at 1.
    rewrite !bind_emit. cbn [trace result ret fst snd].
    set (total' := if (j =? 0)%nat then total
                   else (total + (now_ms (S (tick + 2 * j)) - now_ms (tick + 2 * j)))%Z).
    replace (S (S (tick + 2 * j))) with (tick + 2 * S j)%nat by lia.
    destruct (IH (S j) total') as (tr & Hrun & Hp).
    exists (Predict batch :: Log INFO "ailia processing time" :: tr).
    unfold bind. rewrite Hrun. cbn [app predicts repeat]. rewrite Hp.
    split; [|reflexivity]. do 3 f_equal; [lia|].
    cbn [List.filter]. unfold total'.
    destruct (Nat.eqb_spec j 0) as [->|Hj]; cbn [negb map sumZ fold_right]; [reflexivity|].
    unfold elapsed at 2. replace (tick + 2 * j + 1)%nat with (S (tick + 2 * j)) by lia.
    fold (sumZ (map (elapsed tick)
                  (List.filter (fun i => negb (i =? 0)%nat) (seq (S j) m)))). lia.
Qed.

Lemma filter_nonzero_seq (j n : nat) :
  (0 < j)%nat -> List.filter (fun i => negb (i =? 0)%nat) (seq j n) = seq j n.
Proof.
  revert j. induction n as [|n IH]; intros j Hj; [reflexivity|].
  cbn [seq List.filter]. destruct (Nat.eqb_spec j 0); [lia|].
  cbn [negb]. rewrite IH by lia. reflexivity.
Qed.

(** The whole inference step in benchmark mode with [n] timed runs. *)
Lemma predict_batch_timed (benchmark_count : Z) (batch tick : nat) :
  exists tr,
    for_each (py_range benchmark_count) (benchmark_iteration batch) (tick, 0%Z)
    = (tr, Returned ((tick + 2 * Z.to_nat benchmark_count)%nat,
                     sumZ (map (elapsed tick) (seq 1 (Z.to_nat benchmark_count - 1))))) /\
    predicts tr = repeat batch (Z.to_nat benchmark_count).
Proof.
  unfold py_range.
  destruct (benchmark_loop batch tick (Z.to_nat benchmark_count) 0 0) as (tr & Hrun & Hp).
  exists tr. split; [|exact Hp].
  replace (tick + 2 * 0)%nat with tick in Hrun by lia. rewrite Hrun.
  do 3 f_equal. destruct (Z.to_nat benchmark_count) as [|n]; [reflexivity|].
  replace (S n - 1)%nat with n by lia.
  cbn [seq List.filter Nat.eqb negb]. now rewrite filter_nonzero_seq by lia.
Qed.

End Benchmark.

(** X10.  Benchmark mode.  With [benchmark_count] = 1 the batch is
    predicted once and the average then divides by zero
    (ZeroDivisionError).  With a count of at least 2 the batch is
    predicted [benchmark_count] times and the reported average is the mean
    of all timings but the first.  With a count below 1 the batch is not
    predicted at all. *)
Theorem benchmark_average_skips_the_first_run `{Clock}
    (benchmark_count : Z) (batch tick : nat) :
  (benchmark_count = 1%Z ->
     result (predict_batch true benchmark_count batch tick) = Raised ZeroDivisionError /\
     predicts (trace (predict_batch true benchmark_count batch tick)) = [batch]) /\
  ((2 <= benchmark_count)%Z ->
     let n := Z.to_nat benchmark_count in
     result (predict_batch true benchmark_count batch tick)
     = Returned ((tick + 2 * n)%nat,
                 Some (inject_Z (sumZ (map (elapsed tick) (seq 1 (n - 1))))
                       / inject_Z (Z.of_nat (n - 1)))%Q) /\
     predicts (trace (predict_batch true benchmark_count batch tick)) = repeat batch n) /\
  ((benchmark_count <= 0)%Z ->
     predicts (trace (predict_batch true benchmark_count batch tick)) = []).
Proof.
  destruct (predict_batch_timed benchmark_count batch tick) as (tr & Hrun & Hp).
  unfold predict_batch. rewrite bind_emit, (bind_returned_eq _ _ _ _ Hrun).
  cbn [trace result fst snd predicts].
  split; [|split].
  - intros ->. cbn [Z.sub Z.eqb Z.add Z.opp Z.pos_sub]. cbn [trace result raise fst snd].
    rewrite predicts_app, Hp. split; reflexivity.
  - intros Hn.
    destruct (Z.eqb_spec (benchmark_count - 1) 0) as [|_]; [lia|].
    rewrite !bind_emit. cbn [trace result ret fst snd].
    rewrite predicts_app, Hp. cbn [predicts]. rewrite app_nil_r.
    split; [|reflexivity].
    replace (Z.of_nat (Z.to_nat benchmark_count - 1)) with (benchmark_count - 1)%Z by lia.
    reflexivity.
  - intros Hn. rewrite predicts_app, Hp.
    replace (Z.to_nat benchmark_count) with 0%nat by lia.
    destruct (Z.eqb_spec (benchmark_count - 1) 0); reflexivity.
Qed.

(** ** [preprocess] *)

Lemma py_slice_inside {A} (l : list A) (start : Z) (n : nat) :
  (0 <= start)%Z -> (start + Z.of_nat n <= Z.of_nat (length l))%Z ->
  py_slice l start (start + Z.of_nat n) = take n (drop (Z.to_nat start) l).
Proof.
  intros H0 Hn. unfold py_slice.
  destruct (Z.ltb_spec (start + Z.of_nat n) 0); [lia|].
  destruct (Z.ltb_spec start 0); [lia|].
  rewrite !Z.min_l by lia. do 2 f_equal. lia.
Qed.

Lemma nth_take_drop {A} (l : list A) (s n i : nat) (d : A) :
  (i < n)%nat -> nth i (take n (drop s l)) d = nth (s + i) l d.
Proof.
  intros Hi. rewrite !nth_lookup, lookup_take_lt by exact Hi. now rewrite lookup_drop.
Qed.

Lemma Box_pixel (a b c : nat) (A : array3) (i j : nat) :
  Box a b c A -> (i < a)%nat -> (j < b)%nat -> length (nth j (nth i A []) []) = c.
Proof.
  intros [Hl Hall] Hi Hj. rewrite List.Forall_forall in Hall.
  assert (Hrow : Rect b c (nth i A [])) by (apply Hall, nth_In; lia).
  now apply (Rect_row b c).
Qed.

Lemma Box_intro (a b c : nat) (A : array3) :
  length A = a -> (forall i, (i < a)%nat -> Rect b c (nth i A [])) -> Box a b c A.
Proof.
  intros Hl Hall. split; [exact Hl|]. apply List.Forall_forall. intros m Hm.
  apply (In_nth _ _ []) in Hm as (i & Hi & <-). apply Hall. lia.
Qed.

(** A crop window inside the image: the shape of the crop and where its
    pixels come from. *)
Lemma crop_inside (h w c : nat) (img : array3) (pad_h pad_w : nat) :
  Box h w c img ->
  (pad_h + IMAGE_SIZE <= h)%nat -> (pad_w + IMAGE_SIZE <= w)%nat ->
  Box IMAGE_SIZE IMAGE_SIZE c (crop img (Z.of_nat pad_h) (Z.of_nat pad_w)) /\
  forall r col, (r < IMAGE_SIZE)%nat -> (col < IMAGE_SIZE)%nat ->
    nth col (nth r (crop img (Z.of_nat pad_h) (Z.of_nat pad_w)) []) []
    = nth (pad_w + col) (nth (pad_h + r) img []) [].
Proof.
  intros Himg Hh Hw. pose proof Himg as [Hl Hall].
  unfold crop. rewrite py_slice_inside by lia. rewrite Nat2Z.id.
  assert (Hrows : forall r, (r < IMAGE_SIZE)%nat ->
            nth r (map (fun row : list (list Q) =>
                          py_slice row (Z.of_nat pad_w) (Z.of_nat pad_w + Z.of_nat IMAGE_SIZE))
                       (take IMAGE_SIZE (drop pad_h img))) []
            = take IMAGE_SIZE (drop pad_w (nth (pad_h + r) img []))).
  { intros r Hr.
    rewrite (nth_map_in _ _ r [] []) by (rewrite length_take, length_drop; lia).
    rewrite nth_take_drop by exact Hr.
    rewrite py_slice_inside; [now rewrite Nat2Z.id|lia|].
    assert (Hrow : Rect w c (nth (pad_h + r) img [])).
    { rewrite List.Forall_forall in Hall. apply Hall, nth_In. lia. }
    destruct Hrow as [-> _]. lia. }
  split.
  - apply Box_intro.
    + rewrite length_map, length_take, length_drop. lia.
    + intros r Hr. rewrite Hrows by exact Hr. apply Rect_intro.
      * rewrite length_take, length_drop.
        assert (Hrow : Rect w c (nth (pad_h + r) img [])).
        { rewrite List.Forall_forall in Hall. apply Hall, nth_In. lia. }
        destruct Hrow as [-> _]. lia.
      * intros col Hcol. rewrite nth_take_drop by exact Hcol.
        apply (Box_pixel h w c); [exact Himg|lia|lia].
  - intros r col Hr Hcol. rewrite Hrows by exact Hr. now apply nth_take_drop.
Qed.

(** Channels first: the shape and the entries of the transposed image. *)
Lemma hwc_to_chw_entries (h w c : nat) (img : array3) :
  Box h w c img -> (0 < h)%nat -> (0 < w)%nat ->
  Box c h w (hwc_to_chw img) /\
  forall k r col, (k < c)%nat -> (r < h)%nat -> (col < w)%nat ->
    get3 (hwc_to_chw img) k r col = get3 img r col k.
Proof.
  intros Himg Hh Hw. pose proof Himg as [Hl Hall].
  assert (Hc : length (hd [] (hd [] img)) = c).
  { replace (hd [] img) with (nth 0 img []) by now destruct img.
    replace (hd [] (nth 0 img [])) with (nth 0 (nth 0 img []) [])
      by now destruct (nth 0 img []).
    now apply (Box_pixel h w c). }
  unfold hwc_to_chw. rewrite Hc.
  assert (Hch : forall k, (k < c)%nat ->
            nth k (map (fun k => map (map (fun px : list Q => nth k px 0%Q)) img) (seq 0 c)) []
            = map (map (fun px : list Q => nth k px 0%Q)) img).
  { intros k Hk. rewrite (nth_map_in _ _ k 0%nat []) by now rewrite length_seq.
    now rewrite seq_nth. }
  split.
  - apply Box_intro; [now rewrite length_map, length_seq|].
    intros k Hk. rewrite Hch by exact Hk. apply Rect_intro; [now rewrite length_map|].
    intros r Hr. rewrite (nth_map_in _ _ r [] []) by lia. rewrite length_map.
    rewrite List.Forall_forall in Hall.
    assert (Hrow : Rect w c (nth r img [])) by (apply Hall, nth_In; lia).
    apply Hrow.
  - intros k r col Hk Hr Hcol. unfold get3. rewrite Hch by exact Hk.
    rewrite (nth_map_in _ _ r [] []) by lia.
    rewrite List.Forall_forall in Hall.
    assert (Hrow : Rect w c (nth r img [])) by (apply Hall, nth_In; lia).
    destruct Hrow as [Hlr _].
    now rewrite (nth_map_in _ _ col [] 0%Q) by lia.
Qed.

Lemma scale_255_entries (h w c : nat) (img : array3) :
  Box h w c img ->
  Box h w c (scale_255 img) /\
  forall r col k, (r < h)%nat -> (col < w)%nat -> (k < c)%nat ->
    get3 (scale_255 img) r col k = (get3 img r col k / 255)%Q.
Proof.
  intros Himg. pose proof Himg as [Hl Hall]. rewrite List.Forall_forall in Hall.
  assert (Hrow : forall r, (r < h)%nat -> Rect w c (nth r img [])).
  { intros r Hr. apply Hall, nth_In. lia. }
  unfold scale_255. split.
  - apply Box_intro; [now rewrite length_map|].
    intros r Hr. rewrite (nth_map_in _ _ r [] []) by lia.
    destruct (Hrow r Hr) as [Hlr Hpx]. apply Rect_intro; [now rewrite length_map|].
    intros col Hcol. rewrite (nth_map_in _ _ col [] []) by lia. rewrite length_map.
    now apply (Rect_row w c).
  - intros r col k Hr Hcol Hk. unfold get3.
    rewrite (nth_map_in _ _ r [] []) by lia.
    destruct (Hrow r Hr) as [Hlr Hpx].
    rewrite (nth_map_in _ _ col [] []) by lia.
    rewrite (nth_map_in _ _ k 0%Q 0%Q); [reflexivity|].
    rewrite (Rect_row w c _ col (Hrow r Hr)); lia.
Qed.

(** The size asked of [resize] for an image with positive sides. *)
Lemma resize_size_pos (h w : nat) :
  (0 < h)%nat -> (0 < w)%nat ->
  resize_size h w = ret (snd (resized_shape h w), fst (resized_shape h w)).
Proof.
  intros Hh Hw. unfold resize_size, resized_shape.
  destruct (Nat.ltb_spec w h).
  - destruct (Nat.eqb_spec w 0); [lia|reflexivity].
  - destruct (Nat.eqb_spec h 0); [lia|reflexivity].
Qed.

Lemma resize_size_zero (h w : nat) :
  h = 0%nat \/ w = 0%nat -> resize_size h w = raise ZeroDivisionError.
Proof.
  intros Hz. unfold resize_size.
  destruct (Nat.ltb_spec w h).
  - destruct (Nat.eqb_spec w 0); [reflexivity|lia].
  - destruct (Nat.eqb_spec h 0); [reflexivity|lia].
Qed.

Lemma shape_hw_Box (h w c : nat) (img : array3) :
  Box h w c img -> (0 < h)%nat -> shape_hw img = (h, w).
Proof.
  intros [Hl Hall] Hh. unfold shape_hw. f_equal; [exact Hl|].
  destruct img as [|row img]; [simpl in Hl; lia|].
  inversion Hall as [|? ? Hrow _]; subst. apply Hrow.
Qed.

(** X11.  [preprocess] cuts the centre of the resized image.  For an image
    with positive sides the shorter side is resized to 256, so the crop
    offsets [(h' - 224) // 2] and [(w' - 224) // 2] are at least 16, the
    224 x 224 window lies inside the resized image with margins that
    differ by at most one pixel, and the result has shape
    (1, channels, 224, 224); for a mask, entry [(k, r, col)] is pixel
    [(pad_h + r, pad_w + col)], channel [k], of the resized image divided
    by 255.  An image with a side of length 0 raises ZeroDivisionError. *)
Theorem preprocess_is_a_centre_crop `{ImageLib} `{!ImageLibLaws}
    (img : array3) (mask : bool) :
  (fst (shape_hw img) = 0%nat \/ snd (shape_hw img) = 0%nat ->
     preprocess img mask = raise ZeroDivisionError) /\
  (forall h w c, Box h w c img -> (0 < h)%nat -> (0 < w)%nat ->
     let h' := fst (resized_shape h w) in
     let w' := snd (resized_shape h w) in
     let resized := pil_resize mask w' h' img in
     let pad_h := ((h' - IMAGE_SIZE) / 2)%nat in
     let pad_w := ((w' - IMAGE_SIZE) / 2)%nat in
     (16 <= pad_h)%nat /\ (pad_h + IMAGE_SIZE <= h')%nat /\
     (h' - IMAGE_SIZE - 2 * pad_h <= 1)%nat /\
     (16 <= pad_w)%nat /\ (pad_w + IMAGE_SIZE <= w')%nat /\
     (w' - IMAGE_SIZE - 2 * pad_w <= 1)%nat /\
     exists out,
       preprocess img mask = ret [out] /\
       Box c IMAGE_SIZE IMAGE_SIZE out /\
       (mask = true ->
        forall k r col, (k < c)%nat -> (r < IMAGE_SIZE)%nat -> (col < IMAGE_SIZE)%nat ->
          get3 out k r col = (get3 resized (pad_h + r) (pad_w + col) k / 255)%Q)).
Proof.
  split.
  - intros Hz. unfold preprocess. destruct (shape_hw img) as [h w]. cbn [fst snd] in Hz.
    now rewrite (resize_size_zero h w Hz).
  - intros h w c Himg Hh Hw h' w' resized pad_h pad_w.
    destruct (resized_shape_ge h w Hh Hw) as [Hh' Hw']. fold h' in Hh'. fold w' in Hw'.
    unfold IMAGE_RESIZE in Hh', Hw'.
    assert (Hph : (16 <= pad_h)%nat /\ (pad_h + IMAGE_SIZE <= h')%nat /\
                  (h' - IMAGE_SIZE - 2 * pad_h <= 1)%nat).
    { unfold pad_h, IMAGE_SIZE.
      pose proof (Nat.div_mod_eq (h' - 224) 2) as Hd.
      pose proof (Nat.mod_upper_bound (h' - 224) 2). lia. }
    assert (Hpw : (16 <= pad_w)%nat /\ (pad_w + IMAGE_SIZE <= w')%nat /\
                  (w' - IMAGE_SIZE - 2 * pad_w <= 1)%nat).
    { unfold pad_w, IMAGE_SIZE.
      pose proof (Nat.div_mod_eq (w' - 224) 2) as Hd.
      pose proof (Nat.mod_upper_bound (w' - 224) 2). lia. }
    destruct Hph as (Hph1 & Hph2 & Hph3). destruct Hpw as (Hpw1 & Hpw2 & Hpw3).
    repeat (split; [assumption|]).
    assert (Hres : Box h' w' c resized) by (unfold resized; now apply (pil_resize_shape mask w' h' h w)).
    assert (Hh'pos : (0 < h')%nat) by lia.
    destruct (crop_inside h' w' c resized pad_h pad_w Hres Hph2 Hpw2) as [Hcrop Hpix].
    set (cropped := crop resized (Z.of_nat pad_h) (Z.of_nat pad_w)) in *.
    set (final := if mask then scale_255 cropped else normalize_image cropped).
    assert (Hfinal : Box IMAGE_SIZE IMAGE_SIZE c final).
    { unfold final. destruct mask; [now apply scale_255_entries|now apply normalize_image_shape]. }
    destruct (hwc_to_chw_entries IMAGE_SIZE IMAGE_SIZE c final Hfinal) as [Hout Hent];
      [unfold IMAGE_SIZE; lia..|].
    exists (hwc_to_chw final).
    split; [|split; [exact Hout|]].
    + unfold preprocess. rewrite (shape_hw_Box h w c img Himg Hh).
      rewrite (resize_size_pos h w Hh Hw), bind_ret_l. cbn [fst snd].
      fold h' w' resized. rewrite (shape_hw_Box h' w' c resized Hres Hh'pos).
      assert (Hzh : ((Z.of_nat h' - Z.of_nat IMAGE_SIZE) / 2)%Z = Z.of_nat pad_h).
      { unfold pad_h. rewrite Nat2Z.inj_div, Nat2Z.inj_sub by (unfold IMAGE_SIZE; lia).
        reflexivity. }
      assert (Hzw : ((Z.of_nat w' - Z.of_nat IMAGE_SIZE) / 2)%Z = Z.of_nat pad_w).
      { unfold pad_w. rewrite Nat2Z.inj_div, Nat2Z.inj_sub by (unfold IMAGE_SIZE; lia).
        reflexivity. }
      rewrite Hzh, Hzw. reflexivity.
    + intros Hmask k r col Hk Hr Hcol. rewrite Hent by assumption.
      unfold final. rewrite Hmask.
      rewrite (proj2 (scale_255_entries IMAGE_SIZE IMAGE_SIZE c cropped Hcrop)) by assumption.
      unfold get3. now rewrite Hpix.
Qed.

(** ** [preprocess_aug] *)

(** X12.  For a mask, [preprocess_aug] draws no random number and neither
    rotates nor crops: the generator state is unchanged and the result is
    the whole resized mask divided by 255, of shape
    (1, channels, h', w').  Asking for the references of a mask raises
    UnboundLocalError, because [angle], [pad_h] and [pad_w] are assigned
    only for images. *)
Theorem preprocess_aug_leaves_masks_whole `{ImageLib} `{!ImageLibLaws} `{RandomState}
    (h w c : nat) (img : array3) (angle_range : list Z) (g : rng) :
  Box h w c img -> (0 < h)%nat -> (0 < w)%nat ->
  let h' := fst (resized_shape h w) in
  let w' := snd (resized_shape h w) in
  let whole := hwc_to_chw (scale_255 (pil_resize true w' h' img)) in
  preprocess_aug_image img true angle_range false g = (Returned ([whole], None), g) /\
  Box c h' w' whole /\
  preprocess_aug_image img true angle_range true g = (Raised UnboundLocalError, g).
Proof.
  intros Himg Hh Hw h' w' whole.
  destruct (resized_shape_ge h w Hh Hw) as [Hh' Hw']. fold h' in Hh'. fold w' in Hw'.
  unfold IMAGE_RESIZE in Hh', Hw'.
  assert (Hres : Box h' w' c (pil_resize true w' h' img))
    by now apply (pil_resize_shape true w' h' h w).
  assert (Hrun : forall refs,
    preprocess_aug_image img true angle_range refs g
    = if refs then (Raised UnboundLocalError, g) else (Returned ([whole], None), g)).
  { intros refs. unfold preprocess_aug_image.
    rewrite (shape_hw_Box h w c img Himg Hh), (resize_size_pos h w Hh Hw).
    cbn [result ret snd fst rbind]. fold h' w'. now destruct refs. }
  split; [apply (Hrun false)|]. split; [|apply (Hrun true)].
  apply (hwc_to_chw_entries h' w' c); [|lia|lia].
  now apply scale_255_entries.
Qed.

(** X13.  For an image, [preprocess_aug] returns the references that the
    reversal later uses: the angle is the lower end of [angle_range], the
    offsets and the generator state after the call are those of the
    three draws, and the 224 x 224 crop window lies inside the resized
    image, never reaching its last row or column.  The result has shape
    (1, channels, 224, 224). *)
Theorem preprocess_aug_returns_its_draws
    `{ImageLib} `{!ImageLibLaws} `{RandomState} `{!RandomStateLaws}
    (h w c : nat) (img : array3) (lo : Z) (rest : list Z) (g : rng) :
  Box h w c img -> (0 < h)%nat -> (0 < w)%nat ->
  let h' := fst (resized_shape h w) in
  let w' := snd (resized_shape h w) in
  exists out pad_h pad_w g',
    preprocess_aug (lo :: rest) h w g = (Returned (lo, pad_h, pad_w), g') /\
    preprocess_aug_image img false (lo :: rest) true g
    = (Returned ([out], Some (pil_resize false w' h' img, lo, pad_h, pad_w)), g') /\
    Box c IMAGE_SIZE IMAGE_SIZE out /\
    (0 <= pad_h)%Z /\ (pad_h + Z.of_nat IMAGE_SIZE < Z.of_nat h')%Z /\
    (0 <= pad_w)%Z /\ (pad_w + Z.of_nat IMAGE_SIZE < Z.of_nat w')%Z.
Proof.
  intros Himg Hh Hw h' w'.
  destruct (resized_shape_ge h w Hh Hw) as [Hh' Hw']. fold h' in Hh'. fold w' in Hw'.
  unfold IMAGE_RESIZE in Hh', Hw'.
  set (resized := pil_resize false w' h' img).
  assert (Hres : Box h' w' c resized)
    by (unfold resized; now apply (pil_resize_shape false w' h' h w)).
  pose proof (np_randint_unit lo g) as Hangle.
  destruct (np_randint lo (lo + 1) g) as [o g1] eqn:Hdraw. cbn [fst] in Hangle. subst o.
  destruct (np_randint_returns 0 (Z.of_nat h' - Z.of_nat IMAGE_SIZE) g1)
    as (pad_h & g2 & Hdh & Hrh); [unfold IMAGE_SIZE; lia|].
  destruct (np_randint_returns 0 (Z.of_nat w' - Z.of_nat IMAGE_SIZE) g2)
    as (pad_w & g3 & Hdw & Hrw); [unfold IMAGE_SIZE; lia|].
  set (rotated := warp_affine lo resized).
  assert (Hrot : Box h' w' c rotated) by (unfold rotated; now apply warp_affine_shape).
  destruct (crop_inside h' w' c rotated (Z.to_nat pad_h) (Z.to_nat pad_w) Hrot) as [Hcrop _];
    [lia|lia|].
  rewrite !Z2Nat.id in Hcrop by lia.
  set (final := normalize_image (crop rotated pad_h pad_w)).
  assert (Hfinal : Box IMAGE_SIZE IMAGE_SIZE c final)
    by (unfold final; now apply normalize_image_shape).
  exists (hwc_to_chw final), pad_h, pad_w, g3.
  split; [|split; [|split]].
  - unfold preprocess_aug. 
    replace (resized_shape h w) with (h', w') by (unfold h', w'; now destruct (resized_shape h w)).
    now rewrite Hdraw, Hdh, Hdw.
  - unfold preprocess_aug_image.
    rewrite (shape_hw_Box h w c img Himg Hh), (resize_size_pos h w Hh Hw).
    cbn [result ret snd fst rbind]. fold h' w' resized.
    rewrite Hdraw. cbn [rbind]. fold rotated.
    rewrite (shape_hw_Box h' w' c rotated Hrot) by lia.
    rewrite Hdh. cbn [rbind]. rewrite Hdw. cbn [rbind]. reflexivity.
  - apply (hwc_to_chw_entries IMAGE_SIZE IMAGE_SIZE c); [exact Hfinal|unfold IMAGE_SIZE; lia..].
  - lia.
Qed.

(** ** The test loops with augmentation *)

Section AugDraws.
Context `{RandomState} `{!RandomStateLaws}.

(** The three draws of [preprocess_aug] for an image with positive sides. *)
Lemma preprocess_aug_draws (lo : Z) (rest : list Z) (h w : nat) (g : rng) :
  (0 < h)%nat -> (0 < w)%nat ->
  exists pad_h pad_w g',
    preprocess_aug (lo :: rest) h w g = (Returned (lo, pad_h, pad_w), g') /\
    (0 <= pad_h < Z.of_nat (fst (resized_shape h w)) - Z.of_nat IMAGE_SIZE)%Z /\
    (0 <= pad_w < Z.of_nat (snd (resized_shape h w)) - Z.of_nat IMAGE_SIZE)%Z.
Proof.
  intros Hh Hw. unfold preprocess_aug.
  pose proof (resized_shape_ge h w Hh Hw) as [Hh' Hw'].
  destruct (resized_shape h w) as [h' w']. cbn [fst snd] in *.
  pose proof (np_randint_unit lo g) as Ha.
  destruct (np_randint lo (lo + 1) g) as [o g1]. cbn [fst] in Ha. subst o.
  destruct (np_randint_returns 0 (Z.of_nat h' - Z.of_nat IMAGE_SIZE) g1)
    as (ph & g2 & -> & Hph); [unfold IMAGE_RESIZE, IMAGE_SIZE in *; lia|].
  destruct (np_randint_returns 0 (Z.of_nat w' - Z.of_nat IMAGE_SIZE) g2)
    as (pw & g3 & -> & Hpw); [unfold IMAGE_RESIZE, IMAGE_SIZE in *; lia|].
  exists ph, pw, g3. auto.
Qed.

End AugDraws.

Lemma slice_In {A} (l : list A) (i j : nat) (x : A) : In x (slice l i j) -> In x l.
Proof.
  unfold slice. intros Hx.
  rewrite <- (take_drop i l). apply in_or_app. right.
  rewrite <- (take_drop (j - i) (drop i l)). apply in_or_app. now left.
Qed.

Section AugLoop.
Context {env : Env} {net : Backbone} {lib : NumLib} {rs : RandomState}.
Context {rs_laws : RandomStateLaws}.
Context (C H W : nat) {laws : BackboneLaws C H W}.
Variable a : Args.
Variable train_outputs : matrix * array3.
Hypothesis Haug : aug a = true.
Hypothesis HC : (0 < C)%nat.
Hypothesis Hshapes : forall p, In p (input a) ->
  (0 < fst (image_shape p))%nat /\ (0 < snd (image_shape p))%nat.

(** One image is prepared: the records grow by one entry each. *)
Lemma prepare_image_aug (p : string) (imgs : list (string * option (Z * Z * Z)))
    (st : test_state) (done : list string) :
  In p (input a) -> aug_records st done ->
  exists refs st',
    prepare_image a p (imgs, st) = ret (imgs ++ [(p, Some refs)], st') /\
    aug_records st' (done ++ [p]) /\
    te_N st' = te_N st /\ te_dist_list st' = te_dist_list st /\
    te_H st' = te_H st /\ te_W st' = te_W st.
Proof.
  intros Hp (Hgt & Hang & Hph & Hpw & Hlh & Hlw).
  destruct (Hshapes p Hp) as [Hh Hw].
  unfold prepare_image. rewrite Haug.
  destruct (image_shape p) as [h w] eqn:Hshape. cbn [fst snd] in Hh, Hw.
  destruct (preprocess_aug_draws (-10) [10%Z] h w (te_rng st) Hh Hw)
    as (pad_h & pad_w & g' & Hdraw & Hrh & Hrw).
  change (-10 :: [10])%Z with default_angle_range in Hdraw. rewrite Hdraw.
  unfold lift, bind, ret. cbv beta iota. cbn [app].
  eexists. eexists. split; [reflexivity|].
  cbn [te_N te_dist_list te_H te_W]. repeat split; try reflexivity.
  - cbn [te_gt_imgs]. now rewrite map_app, Hgt.
  - cbn [te_angle_list]. now rewrite map_app, Hang.
  - cbn [te_pad_h_list]. apply Forall2_app; [exact Hph|].
    constructor; [|constructor]. unfold resized_of. now rewrite Hshape.
  - cbn [te_pad_w_list]. apply Forall2_app; [exact Hpw|].
    constructor; [|constructor]. unfold resized_of. now rewrite Hshape.
  - cbn [te_pad_h te_pad_h_list]. now rewrite last_snoc.
  - cbn [te_pad_w te_pad_w_list]. now rewrite last_snoc.
Qed.

(** The images of one batch are prepared. *)
Lemma prepare_images_aug (chunk : list string) (imgs : list (string * option (Z * Z * Z)))
    (st : test_state) (done : list string) :
  (forall p, In p chunk -> In p (input a)) -> aug_records st done ->
  exists imgs' st',
    for_each chunk (prepare_image a) (imgs, st) = ret (imgs', st') /\
    length imgs' = (length imgs + length chunk)%nat /\
    aug_records st' (done ++ chunk) /\
    te_N st' = te_N st /\ te_dist_list st' = te_dist_list st /\
    te_H st' = te_H st /\ te_W st' = te_W st.
Proof.
  revert imgs st done. induction chunk as [|p chunk IH]; intros imgs st done Hin Hrec.
  - exists imgs, st. rewrite app_nil_r. cbn [for_each length].
    split; [reflexivity|]. split; [lia|]. auto.
  - destruct (prepare_image_aug p imgs st done) as (refs & st1 & Hrun & Hrec1 & HN & HD & HH & HW);
      [apply Hin; now left|exact Hrec|].
    destruct (IH (imgs ++ [(p, Some refs)]) st1 (done ++ [p])) as
      (imgs' & st' & Hrun' & Hlen & Hrec' & HN' & HD' & HH' & HW');
      [intros q Hq; apply Hin; now right|exact Hrec1|].
    exists imgs', st'. cbn [for_each]. rewrite Hrun, bind_ret_l, Hrun'.
    rewrite <- app_assoc in Hrec'. rewrite length_app in Hlen. cbn [length] in Hlen |- *.
    split; [reflexivity|]. split; [lia|]. split; [exact Hrec'|].
    repeat split; congruence.
Qed.

(** One batch: the records of its images and their distance rows. *)
Lemma test_batch_aug (i_aug i_img : nat) (st : test_state) (done : list string) :
  let chunk := slice (input a) i_img (i_img + Z.to_nat (batch_size a)) in
  chunk <> [] ->
  aug_records st done -> dist_records H W st done ->
  exists st',
    result (test_batch a train_outputs i_aug i_img st) = Returned st' /\
    aug_records st' (done ++ chunk) /\ dist_records H W st' (done ++ chunk).
Proof.
  intros chunk Hne Hrec (HN & Hrows & Hlen & Hlast).
  destruct (prepare_images_aug chunk [] st done) as
    (imgs & st1 & Hprep & Hli & Hrec1 & HN1 & HD1 & HH1 & HW1); [|exact Hrec|].
  { intros p Hp. exact (slice_In _ _ _ _ Hp). }
  cbn [length Nat.add] in Hli.
  unfold test_batch. rewrite result_emit_then. fold chunk. rewrite Hprep, bind_ret_l.
  rewrite result_emit_then.
  pose proof (test_embedding_shape i_aug imgs) as Hshape.
  set (E := test_embedding i_aug imgs) in *.
  assert (HB : (0 < length imgs)%nat).
  { rewrite Hli. destruct chunk; [congruence|simpl; lia]. }
  destruct (shape4_spec _ _ _ _ _ Hshape HB HC) as (W' & -> & HW').
  pose proof (reshape_Box _ _ _ _ _ Hshape) as [HlE _].
  pose proof (batch_distances_Rect train_outputs (H * W') (reshape_BC_HW E)) as [HlD HrD].
  assert (HrD' : Forall (fun row : list Q => length row = (H * W)%nat)
                   (batch_distances train_outputs (H * W') (reshape_BC_HW E))).
  { apply List.Forall_forall. intros row Hrow. rewrite List.Forall_forall in HrD.
    rewrite (HrD row Hrow). exact HW'. }
  eexists. split; [reflexivity|]. split.
  - destruct Hrec1 as (Hgt & Hang & Hph & Hpw & Hlh & Hlw).
    exact (conj Hgt (conj Hang (conj Hph (conj Hpw (conj Hlh Hlw))))).
  - unfold dist_records. cbn [te_N te_dist_list te_H te_W].
    rewrite HD1, HN1, concat_app. cbn [concat]. rewrite app_nil_r.
    split; [rewrite length_app; lia|].
    split; [apply Forall_app; split; [exact Hrows|exact HrD']|].
    split; [rewrite !length_app; lia|].
    intros _. split; [|exact HW'].
    intros E0. apply (f_equal (@length matrix)) in E0. rewrite length_app in E0.
    simpl in E0. lia.
Qed.

Hypothesis Hbs : (0 < batch_size a)%Z.

(** One lap over the test images. *)
Lemma test_lap_aug (i_aug : nat) (st : test_state) (done : list string) :
  aug_records st done -> dist_records H W st done ->
  exists st',
    result (starts <- py_range_step (length (input a)) (batch_size a) ;;
            for_each starts (test_batch a train_outputs i_aug) st) = Returned st' /\
    aug_records st' (done ++ input a) /\ dist_records H W st' (done ++ input a).
Proof.
  intros Hrec Hdist.
  set (bs := Z.to_nat (batch_size a)).
  assert (Hbs' : (0 < bs)%nat) by (unfold bs; lia).
  unfold py_range_step.
  destruct (Z.eqb_spec (batch_size a) 0) as [|_]; [lia|].
  destruct (Z.ltb_spec (batch_size a) 0) as [|_]; [lia|].
  rewrite bind_ret_l. fold bs.
  set (P := fun (pre : list nat) (s : test_state) =>
    aug_records s (done ++ concat (map (fun i => slice (input a) i (i + bs)) pre)) /\
    dist_records H W s (done ++ concat (map (fun i => slice (input a) i (i + bs)) pre))).
  destruct (for_each_inv P (range_step (length (input a)) bs)
              (test_batch a train_outputs i_aug) st) as (st' & Hres & Hrec' & Hdist').
  - unfold P. cbn [map concat]. rewrite app_nil_r. auto.
  - intros pre x post s Hsplit [Hr Hd].
    assert (Hx : In x (range_step (length (input a)) bs)).
    { rewrite Hsplit. apply in_or_app. right. now left. }
    apply range_step_lt in Hx; [|exact Hbs'].
    destruct (test_batch_aug i_aug x s _ (slice_nonempty (input a) x bs Hbs' Hx) Hr Hd)
      as (s' & Hrun & Hr' & Hd').
    exists s'. split; [exact Hrun|]. unfold P.
    rewrite map_app, concat_app. cbn [map concat]. rewrite app_nil_r, app_assoc.
    auto.
  - exists st'. split; [exact Hres|].
    rewrite (range_step_chunks (input a) bs Hbs') in Hrec', Hdist'. auto.
Qed.

(** All laps. *)
Lemma test_laps_aug (g : rng) (laps : nat) :
  exists st',
    result (for_each (seq 0 laps) (fun i_aug st =>
              starts <- py_range_step (length (input a)) (batch_size a) ;;
              for_each starts (test_batch a train_outputs i_aug) st) (test_init g))
    = Returned st' /\
    aug_records st' (concat (repeat (input a) laps)) /\
    dist_records H W st' (concat (repeat (input a) laps)).
Proof.
  set (P := fun (pre : list nat) (s : test_state) =>
    aug_records s (concat (repeat (input a) (length pre))) /\
    dist_records H W s (concat (repeat (input a) (length pre)))).
  destruct (for_each_inv P (seq 0 laps)
              (fun i_aug st =>
                 starts <- py_range_step (length (input a)) (batch_size a) ;;
                 for_each starts (test_batch a train_outputs i_aug) st) (test_init g))
    as (st' & Hres & Hrec' & Hdist').
  - unfold P. cbn [length repeat concat]. split.
    + unfold aug_records. cbn. repeat split; constructor.
    + unfold dist_records. cbn. repeat split; auto; congruence.
  - intros pre x post s _ [Hr Hd].
    destruct (test_lap_aug x s _ Hr Hd) as (s' & Hrun & Hr' & Hd').
    exists s'. split; [exact Hrun|]. unfold P.
    rewrite length_app. cbn [length].
    replace (length pre + 1)%nat with (S (length pre)) by lia.
    assert (Hrep : concat (repeat (input a) (S (length pre)))
                   = concat (repeat (input a) (length pre)) ++ input a).
    { rewrite <- Nat.add_1_r, repeat_app, concat_app. cbn [repeat concat].
      now rewrite app_nil_r. }
    rewrite Hrep. auto.
  - exists st'. split; [exact Hres|]. unfold P in *. rewrite length_seq in Hrec', Hdist'. auto.
Qed.

(** With augmentation the test loops return one distance map per
    prepared image, with the records of all of them. *)
Lemma test_loop_aug_returns (g : rng) :
  (0 < aug_num a)%Z -> input a <> [] ->
  let done := concat (repeat (input a) (Z.to_nat (aug_num a))) in
  exists st dist_list,
    result (test_loop a train_outputs g) = Returned (st, dist_list) /\
    length dist_list = length done /\
    te_N st = length done /\
    aug_records st done.
Proof.
  intros Hnum Hin done.
  destruct (test_laps_aug g (Z.to_nat (aug_num a))) as (st & Hres & Hrec & HN & Hrows & Hlen & Hlast).
  fold done in Hrec, HN, Hrows, Hlen, Hlast.
  assert (Hdone : done <> []).
  { unfold done. destruct (Z.to_nat (aug_num a)) as [|k] eqn:Hk; [lia|].
    cbn [repeat concat]. intros E. apply app_eq_nil in E as [E _]. contradiction. }
  destruct (Hlast Hdone) as [Hne HHW].
  unfold test_loop.
  assert (Hlaps : laps_of a = aug_num a) by (unfold laps_of; now rewrite Haug).
  rewrite (result_bind_returned _ _ (aug_num a)) by (rewrite Haug; now rewrite result_emit_then).
  unfold py_range. rewrite (result_bind_returned _ _ _ Hres).
  unfold np_vstack. destruct (te_dist_list st) as [|D0 Ds] eqn:HD; [congruence|].
  rewrite bind_ret_l. unfold np_reshape_NHW.
  rewrite (length_concat_uniform (H * W)) by exact Hrows.
  assert (Hcheck : (length (concat (D0 :: Ds)) * (H * W) =? te_N st * te_H st * te_W st)%nat
                   = true).
  { apply Nat.eqb_eq. rewrite Hlen, HN. rewrite <- HHW. lia. }
  rewrite Hcheck, bind_ret_l.
  eexists _, _. split; [reflexivity|]. split; [now rewrite length_map, Hlen|].
  split; [exact HN|exact Hrec].
Qed.

End AugLoop.

(** ** Reversing the augmentation *)

Section Reversal.
Context {env : Env} {lib : NumLib} {rs : RandomState}.

(** The reversal of the crop of image [i] returns exactly when no padding
    width is negative. *)
Lemma reverse_crop_runs (st : test_state) (i : nat) (m : matrix) (top left ph pw : Z) :
  te_pad_h_list st !! i = Some top -> te_pad_w_list st !! i = Some left ->
  te_pad_h st = Some ph -> te_pad_w st = Some pw ->
  ((0 <= top)%Z -> (0 <= left)%Z -> (ph <= 32)%Z -> (pw <= 32)%Z ->
     exists out, reverse_crop st i m = ret out) /\
  ((top < 0)%Z \/ (left < 0)%Z \/ (32 < ph)%Z \/ (32 < pw)%Z ->
     reverse_crop st i m = raise ValueError).
Proof.
  intros Ht Hl Hh Hw. unfold reverse_crop.
  rewrite (py_index_Some _ _ _ Ht), bind_ret_l, (py_index_Some _ _ _ Hl), bind_ret_l.
  rewrite Hh, bind_ret_l, Hw, bind_ret_l. unfold np_pad, IMAGE_RESIZE, IMAGE_SIZE.
  split.
  - intros H1 H2 H3 H4.
    destruct (Z.ltb_spec top 0); [lia|].
    destruct (Z.ltb_spec (Z.of_nat 256 - Z.of_nat 224 - ph) 0); [lia|].
    destruct (Z.ltb_spec left 0); [lia|].
    destruct (Z.ltb_spec (Z.of_nat 256 - Z.of_nat 224 - pw) 0); [lia|].
    eexists. reflexivity.
  - intros Hbad.
    destruct (Z.ltb_spec top 0); [reflexivity|].
    destruct (Z.ltb_spec (Z.of_nat 256 - Z.of_nat 224 - ph) 0); [reflexivity|].
    destruct (Z.ltb_spec left 0); [reflexivity|].
    destruct (Z.ltb_spec (Z.of_nat 256 - Z.of_nat 224 - pw) 0); [reflexivity|].
    lia.
Qed.

Lemma aug_records_lookup (st : test_state) (done : list string) (i : nat) (p : string) :
  aug_records st done -> done !! i = Some p ->
  exists top left,
    te_pad_h_list st !! i = Some top /\ te_pad_w_list st !! i = Some left /\
    te_angle_list st !! i = Some (-10)%Z /\
    (0 <= top < Z.of_nat (fst (resized_of p)) - Z.of_nat IMAGE_SIZE)%Z /\
    (0 <= left < Z.of_nat (snd (resized_of p)) - Z.of_nat IMAGE_SIZE)%Z.
Proof.
  intros (_ & Hang & Hph & Hpw & _ & _) Hp.
  destruct (Forall2_lookup_l _ _ _ _ _ Hph Hp) as (top & Htop & Hrt).
  destruct (Forall2_lookup_l _ _ _ _ _ Hpw Hp) as (left & Hleft & Hrl).
  exists top, left. repeat split; try tauto.
  rewrite Hang, list_lookup_fmap, Hp. reflexivity.
Qed.

Lemma aug_records_last (st : test_state) (done : list string) :
  aug_records st done -> done <> [] ->
  exists p ph pw,
    last done = Some p /\ te_pad_h st = Some ph /\ te_pad_w st = Some pw /\
    (0 <= ph < Z.of_nat (fst (resized_of p)) - Z.of_nat IMAGE_SIZE)%Z /\
    (0 <= pw < Z.of_nat (snd (resized_of p)) - Z.of_nat IMAGE_SIZE)%Z.
Proof.
  intros Hrec Hne. pose proof Hrec as (_ & _ & Hph & Hpw & Hlh & Hlw).
  assert (Hlast : exists p, done !! pred (length done) = Some p).
  { apply lookup_lt_is_Some_2. destruct done; [congruence|simpl; lia]. }
  destruct Hlast as [p Hp].
  destruct (aug_records_lookup st done _ p Hrec Hp) as (ph & pw & Hh & Hw & _ & Hrh & Hrw).
  exists p, ph, pw.
  rewrite Hlh, Hlw, !last_lookup.
  rewrite <- (Forall2_length _ _ _ Hph), <- (Forall2_length _ _ _ Hpw).
  auto.
Qed.

Context {lib_laws : NumLibLaws} {warp_laws : WarpLaws}.

(** With the offsets of the last image at most 32, every map is
    reversed, and the laps are averaged into one 256 x 256 map per
    test image. *)
Lemma score_map_aug_returns (a : Args) (st : test_state) (dist_list : array3)
    (done : list string) (n : nat) (ph pw : Z) :
  aug_records st done -> te_N st = length done -> length dist_list = length done ->
  te_pad_h st = Some ph -> te_pad_w st = Some pw ->
  (ph <= 32)%Z -> (pw <= 32)%Z ->
  (0 < aug_num a)%Z -> length done = (n * Z.to_nat (aug_num a))%nat ->
  exists score_map,
    result (score_map_aug a st dist_list) = Returned score_map /\
    length score_map = n /\
    Forall (Rect IMAGE_RESIZE IMAGE_RESIZE) score_map.
Proof.
  intros Hrec HN Hld Hh Hw Hph Hpw Hnum Hlen.
  set (N := length done) in *.
  set (P := fun (pre : list nat) (sm : array3) => Box N IMAGE_RESIZE IMAGE_RESIZE sm).
  destruct (for_each_inv P (seq 0 N) (reverse_one st dist_list)
              (zeros3 N IMAGE_RESIZE IMAGE_RESIZE)) as (sm & Hres & Hsm).
  - apply zeros3_Box.
  - intros pre i post sm0 Hsplit Hbox.
    apply seq_split_at in Hsplit as [-> Hi].
    destruct (lookup_lt_is_Some_2 dist_list (length pre)) as [d Hd]; [lia|].
    destruct (lookup_lt_is_Some_2 done (length pre)) as [p Hp]; [exact Hi|].
    destruct (aug_records_lookup st done _ p Hrec Hp)
      as (top & left & Htop & Hleft & Hang & Hrt & Hrl).
    destruct (proj1 (reverse_crop_runs st (length pre)
                (resize_bilinear IMAGE_SIZE IMAGE_SIZE d) top left ph pw Htop Hleft Hh Hw))
      as [out Hout]; try lia.
    exists (<[length pre := warp_rotate (- -10) IMAGE_RESIZE out]> sm0). split.
    + unfold reverse_one. rewrite (py_index_Some _ _ _ Hd), bind_ret_l.
      rewrite Hout, bind_ret_l. unfold reverse_rotate.
      rewrite (py_index_Some _ _ _ Hang), !bind_ret_l. reflexivity.
    + unfold P in *. destruct Hbox as [Hl Hall]. split; [now rewrite length_insert|].
      apply Forall_insert; [exact Hall|apply warp_rotate_shape].
  - unfold score_map_aug. rewrite HN.
    rewrite (result_bind_returned _ _ _ Hres).
    destruct Hsm as [Hl Hall]. unfold mean_over_laps.
    destruct (Z.leb_spec (aug_num a) 0) as [|_]; [lia|].
    set (k := Z.to_nat (aug_num a)) in *.
    assert (Hk : (0 < k)%nat) by (unfold k; lia).
    assert (Hdiv : (length sm / k = n)%nat).
    { rewrite Hl, Hlen. apply Nat.div_mul. lia. }
    rewrite Hdiv.
    assert (Hchk : (n * k =? length sm)%nat = true).
    { apply Nat.eqb_eq. now rewrite Hl, Hlen. }
    rewrite Hchk. eexists. split; [reflexivity|].
    split; [now rewrite length_map, length_seq|].
    apply List.Forall_forall. intros m Hm. apply in_map_iff in Hm as (j & <- & Hj).
    apply in_seq in Hj. apply mdiv_Rect, np_sum0_Rect.
    apply List.Forall_forall. intros m Hm. apply in_map_iff in Hm as (lap & <- & Hlap).
    apply in_seq in Hlap. rewrite List.Forall_forall in Hall. apply Hall, nth_In.
    rewrite Hl, Hlen. nia.
Qed.

(** With an offset of the last image above 32 the first reversal raises:
    [np.pad] is given a negative width. *)
Lemma score_map_aug_raises (a : Args) (st : test_state) (dist_list : array3)
    (done : list string) (ph pw : Z) :
  aug_records st done -> done <> [] ->
  te_N st = length done -> length dist_list = length done ->
  te_pad_h st = Some ph -> te_pad_w st = Some pw ->
  (32 < ph)%Z \/ (32 < pw)%Z ->
  score_map_aug a st dist_list = ([], Raised ValueError).
Proof.
  intros Hrec Hne HN Hld Hh Hw Hbad.
  assert (Hpos : (0 < length done)%nat) by (destruct done; [congruence|simpl; lia]).
  destruct (lookup_lt_is_Some_2 dist_list 0%nat) as [d Hd]; [lia|].
  destruct (lookup_lt_is_Some_2 done 0%nat) as [p Hp]; [exact Hpos|].
  destruct (aug_records_lookup st done _ p Hrec Hp)
    as (top & left & Htop & Hleft & _ & _ & _).
  unfold score_map_aug. rewrite HN.
  destruct (length done) as [|N]; [lia|]. cbn [seq for_each].
  unfold reverse_one at 1. rewrite (py_index_Some _ _ _ Hd), bind_ret_l.
  rewrite (proj2 (reverse_crop_runs st 0 (resize_bilinear IMAGE_SIZE IMAGE_SIZE d)
                    top left ph pw Htop Hleft Hh Hw)) by tauto.
  reflexivity.
Qed.

End Reversal.

(** ** The whole run with augmentation *)

Section RunTail.
Context {env : Env} {net : Backbone} {lib : NumLib} {rs : RandomState}.

(** Once the score maps are there, the run is [select_threshold] followed
    by [plot_fig]. *)
Lemma run_from_score_map (a : Args) (g : rng) (train_outputs : matrix * array3)
    (st : test_state) (dist_list pre scores : array3) (an : list Q) :
  result (get_train_outputs a) = Returned train_outputs ->
  result (test_loop a train_outputs g) = Returned (st, dist_list) ->
  result (if aug a then score_map_aug a st dist_list
          else ret (score_map_plain dist_list)) = Returned pre ->
  normalize (smooth pre) = ret scores ->
  anormal_scores_of (smooth pre) = ret an ->
  let rest :=
    threshold <- select_threshold a (te_gt_imgs st) scores ;;
    plot_fig (input a) (fresh (dom (∅ : store))) an (te_gt_imgs st) threshold
             (<[fresh (dom (∅ : store)) := Arr3 scores]> ∅) in
  (forall e, result rest = Raised e -> result (recognize_from_image a g) = Raised e) /\
  (forall h, result rest = Returned h -> exists r, result (recognize_from_image a g) = Returned r) /\
  figures (trace (recognize_from_image a g)) = figures (trace rest).
Proof.
  intros Htrain Htest Hpre Hnorm Han rest. subst rest.
  assert (Hq : quiet (if aug a then score_map_aug a st dist_list
                      else ret (score_map_plain dist_list))).
  { destruct (aug a); [apply quiet_score_map_aug|reflexivity]. }
  assert (Hres : result (recognize_from_image a g)
                 = match result (threshold <- select_threshold a (te_gt_imgs st) scores ;;
                      plot_fig (input a) (fresh (dom (∅ : store))) an (te_gt_imgs st) threshold
                               (<[fresh (dom (∅ : store)) := Arr3 scores]> ∅)) with
                   | Returned h =>
                       match result (select_threshold a (te_gt_imgs st) scores) with
                       | Returned t =>
                           Returned {| r_scores := fresh (dom (∅ : store)); r_store := h;
                                       r_score_map := smooth pre;
                                       r_anormal_scores := an; r_threshold := t |}
                       | Exited s => Exited s
                       | Raised e => Raised e
                       end
                   | Exited s => Exited s
                   | Raised e => Raised e
                   end).
  { unfold recognize_from_image.
    rewrite (result_bind_returned _ _ _ Htrain).
    rewrite (result_bind_returned _ _ _ Htest). cbv beta iota.
    rewrite (result_bind_returned _ _ _ Hpre).
    rewrite Hnorm, bind_ret_l, Han, bind_ret_l.
    rewrite !result_bind.
    destruct (result (select_threshold a (te_gt_imgs st) scores)) as [t| |]; try reflexivity.
    unfold alloc. cbv beta iota zeta. rewrite result_bind.
    destruct (result (plot_fig _ _ _ _ _ _)); reflexivity. }
  split; [|split].
  - intros e He. now rewrite Hres, He.
  - intros h Hh. rewrite Hres, Hh. rewrite result_bind in Hh.
    destruct (result (select_threshold a (te_gt_imgs st) scores)); try discriminate.
    eexists. reflexivity.
  - unfold recognize_from_image.
    rewrite (figures_bind_quiet _ _ _ Htrain (quiet_get_train_outputs a)).
    rewrite (figures_bind_quiet _ _ _ Htest (quiet_test_loop a train_outputs g)).
    cbv beta iota.
    rewrite (figures_bind_quiet _ _ _ Hpre Hq).
    rewrite Hnorm, bind_ret_l, Han, bind_ret_l.
    rewrite !trace_bind.
    destruct (result (select_threshold a (te_gt_imgs st) scores)) as [t| |]; [|reflexivity..].
    rewrite !figures_app. f_equal.
    unfold alloc. cbv beta iota zeta. rewrite trace_bind.
    destruct (result (plot_fig _ _ _ _ _ _)); [|reflexivity..].
    rewrite figures_app. cbn. now rewrite app_nil_r.
Qed.

End RunTail.

Lemma length_concat_repeat {A} (l : list A) (k : nat) :
  length (concat (repeat l k)) = (k * length l)%nat.
Proof. induction k as [|k IH]; simpl; [reflexivity|]. rewrite length_app, IH. lia. Qed.

Lemma lookup_concat_repeat {A} (l : list A) (k i : nat) :
  (0 < k)%nat -> (i < length l)%nat -> concat (repeat l k) !! i = l !! i.
Proof.
  intros Hk Hi. destruct k as [|k]; [lia|]. simpl. now rewrite lookup_app_l.
Qed.

Lemma last_concat_repeat {A} (l : list A) (k : nat) :
  (0 < k)%nat -> l <> [] -> last (concat (repeat l k)) = last l.
Proof.
  intros Hk Hl. destruct k as [|k]; [lia|].
  change (repeat l (S k)) with (l :: repeat l k). rewrite repeat_cons, concat_app.
  cbn [concat]. rewrite app_nil_r, last_app.
  destruct (last l) eqn:E; [reflexivity|].
  apply last_None in E. contradiction.
Qed.

Lemma map_const_repeat {A B} (l : list A) (b : B) : map (fun _ => b) l = repeat b (length l).
Proof. induction l as [|x l IH]; simpl; [reflexivity|]. now rewrite IH. Qed.

Lemma resized_shape_square (s : nat) :
  (0 < s)%nat -> resized_shape s s = (IMAGE_RESIZE, IMAGE_RESIZE).
Proof.
  intros Hs. unfold resized_shape. rewrite Nat.ltb_irrefl.
  f_equal. apply Nat.div_mul. lia.
Qed.

(** X14.  With augmentation the test loops prepare every input image once
    per lap and record, for each prepared image, a mask slot, the angle
    -10 and a pair of crop offsets inside the range of that image;
    [pad_h] and [pad_w] end up holding the offsets of the image prepared
    last.  The loops return one distance map per prepared image. *)
Theorem augmented_test_loop_records
    {env : Env} {net : Backbone} {lib : NumLib} {rs : RandomState}
    {rs_laws : RandomStateLaws} (C H W : nat) {laws : BackboneLaws C H W}
    (a : Args) (train_outputs : matrix * array3) (g : rng) :
  aug a = true ->
  (0 < C)%nat ->
  (forall p, In p (input a) -> (0 < fst (image_shape p))%nat /\ (0 < snd (image_shape p))%nat) ->
  (0 < batch_size a)%Z ->
  (0 < aug_num a)%Z ->
  input a <> [] ->
  let done := concat (repeat (input a) (Z.to_nat (aug_num a))) in
  exists st dist_list,
    result (test_loop a train_outputs g) = Returned (st, dist_list) /\
    length done = (Z.to_nat (aug_num a) * length (input a))%nat /\
    length dist_list = length done /\
    te_N st = length done /\
    te_gt_imgs st = map (load_gt true) done /\
    te_angle_list st = repeat (-10)%Z (length done) /\
    length (te_pad_h_list st) = length done /\
    length (te_pad_w_list st) = length done /\
    (forall i p, done !! i = Some p ->
       exists pad_h pad_w,
         te_pad_h_list st !! i = Some pad_h /\ te_pad_w_list st !! i = Some pad_w /\
         (0 <= pad_h < Z.of_nat (fst (resized_of p)) - Z.of_nat IMAGE_SIZE)%Z /\
         (0 <= pad_w < Z.of_nat (snd (resized_of p)) - Z.of_nat IMAGE_SIZE)%Z) /\
    te_pad_h st = last (te_pad_h_list st) /\
    te_pad_w st = last (te_pad_w_list st).
Proof.
  intros Haug HC Hshapes Hbs Hnum Hin done.
  destruct (test_loop_aug_returns C H W a train_outputs Haug HC Hshapes Hbs g Hnum Hin)
    as (st & dist_list & Hres & Hlen & HN & Hrec).
  fold done in Hlen, HN, Hrec.
  exists st, dist_list. split; [exact Hres|].
  split; [apply length_concat_repeat|]. split; [exact Hlen|]. split; [exact HN|].
  pose proof Hrec as (Hgt & Hang & Hph & Hpw & Hlh & Hlw).
  split; [exact Hgt|]. split; [now rewrite Hang, map_const_repeat|].
  split; [symmetry; exact (Forall2_length _ _ _ Hph)|].
  split; [symmetry; exact (Forall2_length _ _ _ Hpw)|].
  split; [|split; assumption].
  intros i p Hp.
  destruct (aug_records_lookup st done i p Hrec Hp) as (top & left & Ht & Hl & _ & Hrt & Hrl).
  exists top, left. auto.
Qed.

(** X15.  Whether the augmentation can be reversed depends on the image
    prepared last, which is the last input image.  If its offsets are at
    most 32 the reversal returns one 256 x 256 map per input image; if
    one of them exceeds 32, [np.pad] is given a negative width for the
    very first map and the reversal raises ValueError.  A square last
    image always has offsets below 32. *)
Theorem reversal_depends_on_the_last_image
    {env : Env} {net : Backbone} {lib : NumLib} {rs : RandomState}
    {rs_laws : RandomStateLaws} {lib_laws : NumLibLaws} {warp_laws : WarpLaws}
    (C H W : nat) {laws : BackboneLaws C H W}
    (a : Args) (train_outputs : matrix * array3) (g : rng) :
  aug a = true ->
  (0 < C)%nat ->
  (forall p, In p (input a) -> (0 < fst (image_shape p))%nat /\ (0 < snd (image_shape p))%nat) ->
  (0 < batch_size a)%Z ->
  (0 < aug_num a)%Z ->
  input a <> [] ->
  exists st dist_list p pad_h pad_w,
    result (test_loop a train_outputs g) = Returned (st, dist_list) /\
    last (input a) = Some p /\
    te_pad_h st = Some pad_h /\ te_pad_w st = Some pad_w /\
    ((pad_h <= 32)%Z -> (pad_w <= 32)%Z ->
       exists score_map,
         result (score_map_aug a st dist_list) = Returned score_map /\
         length score_map = length (input a) /\
         Forall (Rect IMAGE_RESIZE IMAGE_RESIZE) score_map) /\
    ((32 < pad_h)%Z \/ (32 < pad_w)%Z ->
       result (score_map_aug a st dist_list) = Raised ValueError) /\
    (fst (image_shape p) = snd (image_shape p) -> (pad_h < 32)%Z /\ (pad_w < 32)%Z).
Proof.
  intros Haug HC Hshapes Hbs Hnum Hin.
  destruct (test_loop_aug_returns C H W a train_outputs Haug HC Hshapes Hbs g Hnum Hin)
    as (st & dist_list & Hres & Hlen & HN & Hrec).
  set (done := concat (repeat (input a) (Z.to_nat (aug_num a)))) in *.
  assert (Hk : (0 < Z.to_nat (aug_num a))%nat) by lia.
  assert (Hdone : done <> []).
  { intros E. apply (f_equal (@length string)) in E. unfold done in E.
    rewrite length_concat_repeat in E. destruct (input a); [congruence|simpl in E; nia]. }
  destruct (aug_records_last st done Hrec Hdone) as (p & ph & pw & Hlast & Hh & Hw & Hrh & Hrw).
  unfold done in Hlast. rewrite last_concat_repeat in Hlast by assumption.
  exists st, dist_list, p, ph, pw.
  split; [exact Hres|]. split; [exact Hlast|]. split; [exact Hh|]. split; [exact Hw|].
  split; [|split].
  - intros Hph Hpw.
    apply (score_map_aug_returns a st dist_list done (length (input a)) ph pw); auto.
    unfold done. rewrite length_concat_repeat. lia.
  - intros Hbad.
    now rewrite (score_map_aug_raises a st dist_list done ph pw Hrec Hdone HN Hlen Hh Hw Hbad).
  - intros Hsq.
    assert (Hp : In p (input a)).
    { apply last_Some in Hlast as [l' ->]. apply in_or_app. right. now left. }
    destruct (Hshapes p Hp) as [Hpos _].
    unfold resized_of in Hrh, Hrw. rewrite <- Hsq in Hrh, Hrw.
    rewrite resized_shape_square in Hrh, Hrw by exact Hpos.
    cbn [fst snd] in Hrh, Hrw. unfold IMAGE_RESIZE, IMAGE_SIZE in Hrh, Hrw. lia.
Qed.

(** ** Distances do not depend on the batching *)

Lemma Rect_ext (r c : nat) (A B : matrix) :
  Rect r c A -> Rect r c B ->
  (forall i j, (i < r)%nat -> (j < c)%nat -> get2 A i j = get2 B i j) -> A = B.
Proof.
  intros HA HB Heq.
  apply (nth_ext A B [] []); [destruct HA, HB; congruence|].
  intros i Hi. destruct HA as [HlA HrA]. rewrite HlA in Hi.
  assert (HA : Rect r c A) by (split; assumption).
  apply (nth_ext _ _ 0%Q 0%Q).
  - now rewrite (Rect_row r c A i HA Hi), (Rect_row r c B i HB Hi).
  - intros j Hj. rewrite (Rect_row r c A i HA Hi) in Hj. now apply Heq.
Qed.

(** The distances of a batch, row by row. *)
Lemma batch_distances_rows `{NumLib} (train_outputs : matrix * array3) (HW : nat) (E : array3) :
  batch_distances train_outputs HW E = map (distance_row train_outputs HW) E.
Proof.
  apply (Rect_ext (length E) HW).
  - apply batch_distances_Rect.
  - apply Rect_intro; [now rewrite length_map|].
    intros b Hb. rewrite (nth_map_in _ _ b [] []) by exact Hb.
    unfold distance_row. now rewrite length_map, length_seq.
  - intros b i Hb Hi. rewrite batch_distances_entry by assumption.
    unfold get2. rewrite (nth_map_in _ _ b [] []) by exact Hb.
    unfold distance_row.
    rewrite (nth_map_in _ _ i 0%nat 0%Q) by now rewrite length_seq.
    now rewrite seq_nth.
Qed.

Section PerImage.
Context {env : Env} {net : Backbone} {lib : NumLib} {rs : RandomState}.
Context (C H W : nat) {laws : BackboneLaws C H W} {per_image : BackbonePerImage}.
Variable a : Args.
Variable train_outputs : matrix * array3.
Hypothesis HC : (0 < C)%nat.
Hypothesis HH : (0 < H)%nat.

(** The reshaped embeddings of a batch are those of its images. *)
Lemma batch_samples (chunk : list string) :
  reshape_BC_HW (test_embedding 0 (map (fun path => (path, @None (Z * Z * Z))) chunk))
  = map sample_of chunk.
Proof.
  rewrite test_embedding_per_image.
  induction chunk as [|p chunk IH]; [reflexivity|].
  cbn [map flat_map]. unfold reshape_BC_HW in *. rewrite map_app, IH. clear IH.
  unfold sample_of.
  pose proof (test_embedding_shape 0 [(p, @None (Z * Z * Z))]) as Hs.
  unfold is_shape4 in Hs. apply andb_prop in Hs as [Hl _]. apply Nat.eqb_eq in Hl.
  destruct (test_embedding 0 [(p, None)]) as [|e [|e' r]]; try discriminate.
  reflexivity.
Qed.

Lemma test_step_rows (st : test_state) (i : nat) :
  let chunk := slice (input a) i (i + Z.to_nat (batch_size a)) in
  chunk <> [] ->
  let st' := test_step a train_outputs st (0%nat, i) in
  te_dist_list st' = te_dist_list st ++ [map (distance_row train_outputs (H * W))
                                             (map sample_of chunk)] /\
  te_H st' = H /\ te_W st' = W.
Proof.
  intros chunk Hne st'. unfold st', test_step. cbn [fst snd]. fold chunk.
  set (imgs := map (fun path => (path, @None (Z * Z * Z))) chunk).
  pose proof (test_embedding_shape 0 imgs) as Hshape.
  assert (HB : (0 < length imgs)%nat).
  { unfold imgs. rewrite length_map. destruct chunk; [congruence|simpl; lia]. }
  destruct (shape4_spec _ _ _ _ _ Hshape HB HC) as (W' & Hs4 & HW').
  assert (HWeq : W' = W) by nia. subst W'.
  rewrite Hs4. cbn [te_dist_list te_H te_W with_gt].
  unfold imgs. rewrite batch_samples, batch_distances_rows. auto.
Qed.

Lemma test_fold_rows (g : rng) (starts : list nat) :
  Forall (fun i => slice (input a) i (i + Z.to_nat (batch_size a)) <> []) starts ->
  let st := fold_left (test_step a train_outputs) (map (pair 0%nat) starts) (test_init g) in
  concat (te_dist_list st)
  = map (distance_row train_outputs (H * W))
        (map sample_of
             (concat (map (fun i => slice (input a) i (i + Z.to_nat (batch_size a))) starts))) /\
  (starts <> [] -> te_H st = H /\ te_W st = W).
Proof.
  induction starts as [|i starts IH] using rev_ind; intros Hall st; subst st.
  - cbn. split; [reflexivity|congruence].
  - apply Forall_app in Hall as [Hs Hi]. inversion Hi as [|? ? Hi' _]; subst.
    rewrite map_app, fold_left_app. cbn [map fold_left].
    destruct (IH Hs) as [Hrows _].
    destruct (test_step_rows (fold_left (test_step a train_outputs) (map (pair 0%nat) starts)
                                (test_init g)) i Hi') as (Hd & HHe & HWe).
    split; [|intros _; split; assumption].
    rewrite Hd, concat_app, Hrows. cbn [concat]. rewrite app_nil_r.
    rewrite map_app, concat_app. cbn [map concat]. rewrite app_nil_r.
    now rewrite !map_app.
Qed.

End PerImage.


(** ** The progress line of a batch *)

(** X18.  The progress line 'from (a ~ b)' of a batch names as [a] the
    first image of the batch and as [b] the image at index
    [min(len - 1, i_img + batch_size)]: for every batch but the last this
    is the first image of the next batch, not the last image of the batch
    being processed; for the last batch it is the last image. *)
Theorem batch_log_names_the_next_batch (a : Args) (files : list string)
    (i_aug i_img : nat) (lo hi : string) :
  (0 < batch_size a)%Z ->
  let bs := Z.to_nat (batch_size a) in
  let line := if aug a
              then Log INFO ("from (" ++ lo ++ " ~ " ++ hi ++ ") on augmentation lap "
                             ++ str_of_nat i_aug)
              else Log INFO ("from (" ++ lo ++ " ~ " ++ hi ++ ") ") in
  head (slice files i_img (i_img + bs)) = Some lo ->
  ((i_img + bs < length files)%nat ->
     head (slice files (i_img + bs) (i_img + bs + bs)) = Some hi ->
     batch_log a files i_aug i_img = line /\
     (NoDup files -> ~ In hi (slice files i_img (i_img + bs)))) /\
  ((length files <= i_img + bs)%nat ->
     last files = Some hi ->
     batch_log a files i_aug i_img = line).
Proof.
  intros Hbs bs line Hlo.
  assert (Hbs' : (0 < bs)%nat) by (unfold bs; lia).
  assert (Hlo' : nth i_img files ""%string = lo).
  { rewrite slice_width in Hlo. destruct bs as [|k]; [lia|].
    rewrite nth_lookup. rewrite <- (Nat.add_0_r i_img), <- lookup_drop.
    destruct (drop i_img files) as [|y r]; [discriminate|]. cbn in Hlo |- *.
    now injection Hlo as ->. }
  split.
  - intros Hnext Hhi.
    assert (Hhi' : files !! (i_img + bs)%nat = Some hi).
    { rewrite slice_width in Hhi. destruct bs as [|k]; [lia|].
      rewrite <- (Nat.add_0_r (i_img + S k)), <- lookup_drop.
      destruct (drop (i_img + S k) files) as [|y r]; [discriminate|]. exact Hhi. }
    split.
    + unfold batch_log, line. fold bs. rewrite Hlo'.
      rewrite Nat.min_r by lia. rewrite (nth_lookup_Some _ _ _ _ Hhi'). reflexivity.
    + intros Hnd Hin. rewrite slice_width in Hin.
      apply list_elem_of_In, list_elem_of_lookup in Hin as [j Hj].
      apply lookup_lt_Some in Hj as Hjlt. rewrite length_take in Hjlt.
      rewrite lookup_take_lt, lookup_drop in Hj by lia.
      pose proof (NoDup_lookup files _ _ hi Hnd Hj Hhi'). lia.
  - intros Hlastb Hlast.
    unfold batch_log, line. fold bs. rewrite Hlo'.
    rewrite Nat.min_l by lia.
    rewrite last_lookup in Hlast.
    replace (length files - 1)%nat with (pred (length files)) by lia.
    rewrite (nth_lookup_Some _ _ _ _ Hlast). reflexivity.
Qed.

(** ** The masks of the threshold search *)

Lemma take_map_concat_repeat {A B} (f : A -> B) (l : list A) (k : nat) :
  (0 < k)%nat -> take (length l) (map f (concat (repeat l k))) = map f l.
Proof.
  intros Hk. destruct k as [|k]; [lia|]. cbn [repeat concat].
  rewrite map_app, take_app_le by (rewrite length_map; lia).
  apply firstn_all2. rewrite length_map. lia.
Qed.

(** X19.  The threshold search sees exactly one mask per input image, in
    input order: without augmentation all collected masks, with
    augmentation the masks of the first lap, [len / aug_num] of the
    [aug_num * len] collected ones. *)
Theorem threshold_search_sees_one_mask_per_image
    {env : Env} {net : Backbone} {lib : NumLib} {rs : RandomState}
    {rs_laws : RandomStateLaws} (C H W : nat) {laws : BackboneLaws C H W}
    (a : Args) (train_outputs : matrix * array3) (g : rng) :
  (0 < C)%nat ->
  (0 < batch_size a)%Z ->
  input a <> [] ->
  (aug a = true ->
   (0 < aug_num a)%Z /\
   forall p, In p (input a) -> (0 < fst (image_shape p))%nat /\ (0 < snd (image_shape p))%nat) ->
  exists st dist_list,
    result (test_loop a train_outputs g) = Returned (st, dist_list) /\
    length (te_gt_imgs st) = (Z.to_nat (laps_of a) * length (input a))%nat /\
    selected_masks a (te_gt_imgs st) = ret (map (load_gt (aug a)) (input a)).
Proof.
  intros HC Hbs Hin Haugh. destruct (aug a) eqn:Haug.
  - destruct (Haugh eq_refl) as [Hnum Hshapes].
    destruct (test_loop_aug_returns C H W a train_outputs Haug HC Hshapes Hbs g Hnum Hin)
      as (st & dist_list & Hres & _ & _ & Hgt & _).
    exists st, dist_list. split; [exact Hres|].
    assert (Hlaps : laps_of a = aug_num a) by (unfold laps_of; now rewrite Haug).
    rewrite Hgt, length_map, length_concat_repeat, Hlaps. split; [reflexivity|].
    unfold selected_masks. rewrite Haug.
    destruct (Z.eqb_spec (aug_num a) 0) as [|_]; [lia|].
    rewrite length_map, length_concat_repeat.
    assert (Hq : Z.to_nat (Z.quot (Z.of_nat (Z.to_nat (aug_num a) * length (input a)))
                                  (aug_num a)) = length (input a)).
    { rewrite Nat2Z.inj_mul, Z2Nat.id by lia.
      rewrite Z.mul_comm, Z.quot_mul by lia. apply Nat2Z.id. }
    rewrite Hq, take_map_concat_repeat by lia. reflexivity.
  - destruct (test_loop_returns C H W a train_outputs HC g Haug Hbs Hin)
      as (st & dist_list & Hres & _ & Hgt).
    exists st, dist_list. split; [exact Hres|].
    assert (Hlaps : laps_of a = 1%Z) by (unfold laps_of; now rewrite Haug).
    rewrite Hgt, length_map, Hlaps. split; [cbn; lia|].
    unfold selected_masks. now rewrite Haug.
Qed.

(** ** Where the padded map lies *)

Lemma nth_repeat_zero (n j : nat) : nth j (repeat 0%Q n) 0%Q = 0%Q.
Proof.
  destruct (Nat.lt_ge_cases j n) as [Hj|Hj].
  - apply nth_repeat.
  - apply nth_overflow. now rewrite repeat_length.
Qed.

Lemma get2_zero_rows (n w i j : nat) : get2 (repeat (repeat 0%Q w) n) i j = 0%Q.
Proof.
  unfold get2. destruct (Nat.lt_ge_cases i n) as [Hi|Hi].
  - rewrite (nth_indep _ [] (repeat 0%Q w)) by now rewrite repeat_length.
    rewrite nth_repeat. apply nth_repeat_zero.
  - rewrite (nth_overflow (repeat _ _)) by now rewrite repeat_length. now destruct j.
Qed.

(** The entries of a padded matrix: the matrix at offset [(top, left)],
    zeros around it. *)
Lemma np_pad_entries (r c : nat) (A : matrix) (top bottom left right : nat) :
  Rect r c A ->
  exists out,
    np_pad A (Z.of_nat top) (Z.of_nat bottom) (Z.of_nat left) (Z.of_nat right) = ret out /\
    forall i j,
      get2 out i j
      = if ((top <=? i) && (i <? top + r) && (left <=? j) && (j <? left + c))%nat
        then get2 A (i - top) (j - left) else 0%Q.
Proof.
  intros HA. unfold np_pad.
  destruct (Z.ltb_spec (Z.of_nat top) 0); [lia|].
  destruct (Z.ltb_spec (Z.of_nat bottom) 0); [lia|].
  destruct (Z.ltb_spec (Z.of_nat left) 0); [lia|].
  destruct (Z.ltb_spec (Z.of_nat right) 0); [lia|].
  cbn [orb]. rewrite !Nat2Z.id. eexists. split; [reflexivity|].
  intros i j. pose proof HA as [Hl _].
  set (w := (left + length (hd [] A) + right)%nat).
  destruct (Nat.leb_spec top i) as [Hti|Hti]; cbn [andb].
  - destruct (Nat.ltb_spec i (top + r)) as [Hir|Hir]; cbn [andb].
    + unfold get2.
      rewrite app_nth2 by (rewrite repeat_length; lia). rewrite repeat_length.
      rewrite app_nth1 by (rewrite length_map; lia).
      rewrite (nth_map_in _ _ (i - top) [] []) by lia.
      pose proof (Rect_row r c A (i - top) HA ltac:(lia)) as Hrow.
      destruct (Nat.leb_spec left j) as [Hlj|Hlj]; cbn [andb].
      * rewrite app_nth2 by (rewrite repeat_length; lia). rewrite repeat_length.
        destruct (Nat.ltb_spec j (left + c)) as [Hjc|Hjc].
        -- now rewrite app_nth1 by lia.
        -- rewrite app_nth2 by lia. apply nth_repeat_zero.
      * rewrite app_nth1 by (rewrite repeat_length; lia). apply nth_repeat_zero.
    + unfold get2.
      rewrite app_nth2 by (rewrite repeat_length; lia). rewrite repeat_length.
      rewrite app_nth2 by (rewrite length_map; lia). rewrite length_map.
      apply (get2_zero_rows bottom w).
  - unfold get2. rewrite app_nth1 by (rewrite repeat_length; lia).
    apply (get2_zero_rows top w).
Qed.

(** X20.  The reversal of the crop puts the upsampled map of image [i] at
    the offsets recorded for that image: entry [(pad_h_list[i] + r,
    pad_w_list[i] + c)] of the padded map is entry [(r, c)] of the
    upsampled map, and every entry outside this window is 0.  (The
    offsets of the image prepared last only decide how many rows and
    columns follow the window.) *)
Theorem reverse_crop_places_the_map_at_its_offsets {rs : RandomState}
    (st : test_state) (i : nat) (m : matrix) (top left pad_h pad_w : Z) :
  Rect IMAGE_SIZE IMAGE_SIZE m ->
  te_pad_h_list st !! i = Some top -> te_pad_w_list st !! i = Some left ->
  te_pad_h st = Some pad_h -> te_pad_w st = Some pad_w ->
  (0 <= top)%Z -> (0 <= left)%Z -> (pad_h <= 32)%Z -> (pad_w <= 32)%Z ->
  exists out,
    reverse_crop st i m = ret out /\
    (forall r c, (r < IMAGE_SIZE)%nat -> (c < IMAGE_SIZE)%nat ->
       get2 out (Z.to_nat top + r) (Z.to_nat left + c) = get2 m r c) /\
    (forall y x,
       (y < Z.to_nat top)%nat \/ (Z.to_nat top + IMAGE_SIZE <= y)%nat \/
       (x < Z.to_nat left)%nat \/ (Z.to_nat left + IMAGE_SIZE <= x)%nat ->
       get2 out y x = 0%Q).
Proof.
  intros Hm Ht Hl Hh Hw Htop Hleft Hph Hpw.
  destruct (np_pad_entries IMAGE_SIZE IMAGE_SIZE m (Z.to_nat top)
              (Z.to_nat (Z.of_nat IMAGE_RESIZE - Z.of_nat IMAGE_SIZE - pad_h))
              (Z.to_nat left)
              (Z.to_nat (Z.of_nat IMAGE_RESIZE - Z.of_nat IMAGE_SIZE - pad_w)) Hm)
    as (out & Hpad & Hent).
  rewrite !Z2Nat.id in Hpad by (unfold IMAGE_RESIZE, IMAGE_SIZE; lia).
  exists out. split; [|split].
  - unfold reverse_crop.
    rewrite (py_index_Some _ _ _ Ht), bind_ret_l, (py_index_Some _ _ _ Hl), bind_ret_l.
    now rewrite Hh, bind_ret_l, Hw, bind_ret_l.
  - intros r c Hr Hc. rewrite Hent.
    destruct (Nat.leb_spec (Z.to_nat top) (Z.to_nat top + r)); [|lia].
    destruct (Nat.ltb_spec (Z.to_nat top + r) (Z.to_nat top + IMAGE_SIZE)); [|lia].
    destruct (Nat.leb_spec (Z.to_nat left) (Z.to_nat left + c)); [|lia].
    destruct (Nat.ltb_spec (Z.to_nat left + c) (Z.to_nat left + IMAGE_SIZE)); [|lia].
    cbn [andb]. f_equal; lia.
  - intros y x Hout. rewrite Hent.
    destruct (Nat.leb_spec (Z.to_nat top) y); cbn [andb]; [|reflexivity].
    destruct (Nat.ltb_spec y (Z.to_nat top + IMAGE_SIZE)); cbn [andb]; [|reflexivity].
    destruct (Nat.leb_spec (Z.to_nat left) x); cbn [andb]; [|reflexivity].
    destruct (Nat.ltb_spec x (Z.to_nat left + IMAGE_SIZE)); [lia|reflexivity].
Qed.

(** ** The training images *)

Lemma ascii_compare_lt_trans (a b c : ascii) :
  Ascii.compare a b = Lt -> Ascii.compare b c = Lt -> Ascii.compare a c = Lt.
Proof.
  unfold Ascii.compare. rewrite !N.compare_lt_iff. apply N.lt_trans.
Qed.

Lemma string_compare_lt_trans (s t u : string) :
  String.compare s t = Lt -> String.compare t u = Lt -> String.compare s u = Lt.
Proof.
  revert t u. induction s as [|a s IH]; intros [|b t] [|c u]; cbn [String.compare];
    try discriminate; try reflexivity.
  destruct (Ascii.compare a b) eqn:Hab; try discriminate;
    destruct (Ascii.compare b c) eqn:Hbc; try discriminate; intros Hst Htu.
  - apply Ascii.compare_eq_iff in Hab, Hbc. subst.
    assert (Hcc : Ascii.compare c c = Eq) by (unfold Ascii.compare; apply N.compare_refl).
    rewrite Hcc. now apply (IH t u).
  - apply Ascii.compare_eq_iff in Hab. subst. now rewrite Hbc.
  - apply Ascii.compare_eq_iff in Hbc. subst. now rewrite Hab.
  - now rewrite (ascii_compare_lt_trans a b c Hab Hbc).
Qed.

Lemma string_compare_refl (s : string) : String.compare s s = Eq.
Proof.
  induction s as [|a s IH]; cbn [String.compare]; [reflexivity|].
  assert (Haa : Ascii.compare a a = Eq) by (unfold Ascii.compare; apply N.compare_refl).
  now rewrite Haa.
Qed.

Lemma string_leb_trans (s t u : string) :
  String.leb s t = true -> String.leb t u = true -> String.leb s u = true.
Proof.
  unfold String.leb.
  destruct (String.compare s t) eqn:Hst; try discriminate;
    destruct (String.compare t u) eqn:Htu; try discriminate; intros _ _.
  - apply String.compare_eq_iff in Hst, Htu. subst.
    now rewrite string_compare_refl.
  - apply String.compare_eq_iff in Hst. subst. now rewrite Htu.
  - apply String.compare_eq_iff in Htu. subst. now rewrite Hst.
  - now rewrite (string_compare_lt_trans s t u Hst Htu).
Qed.

Lemma insert_sorted_perm (s : string) (l : list string) :
  Permutation (insert_sorted s l) (s :: l).
Proof.
  induction l as [|x l IH]; cbn [insert_sorted]; [reflexivity|].
  destruct (String.leb s x); [reflexivity|].
  rewrite IH. apply perm_swap.
Qed.

Lemma sorted_perm (l : list string) : Permutation (sorted l) l.
Proof.
  induction l as [|x l IH]; cbn; [reflexivity|].
  fold (sorted l). now rewrite insert_sorted_perm, IH.
Qed.

Lemma insert_sorted_sorted (s : string) (l : list string) :
  StronglySorted (fun x y => String.leb x y = true) l ->
  StronglySorted (fun x y => String.leb x y = true) (insert_sorted s l).
Proof.
  induction 1 as [|x l Hl IH Hx]; cbn [insert_sorted].
  - repeat constructor.
  - destruct (String.leb s x) eqn:Hsx.
    + constructor; [now constructor|]. constructor; [exact Hsx|].
      eapply List.Forall_impl; [|exact Hx]. intros y Hy. cbn in Hy |- *.
      now apply (string_leb_trans s x y).
    + constructor; [exact IH|].
      apply List.Forall_forall. intros y Hy.
      apply (Permutation_in _ (insert_sorted_perm s l)) in Hy as [<-|Hy].
      * destruct (String.leb_total s x) as [E|E]; [congruence|exact E].
      * rewrite List.Forall_forall in Hx. now apply Hx.
Qed.

Lemma sorted_sorted (l : list string) :
  StronglySorted (fun x y => String.leb x y = true) (sorted l).
Proof.
  induction l as [|x l IH]; cbn; [constructor|]. now apply insert_sorted_sorted.
Qed.

(** X21.  The training images are the entries of [train_dir] whose names
    end in ".png", ".jpg" or ".bmp" (in exactly this spelling), each
    joined to [train_dir], in ascending order of their paths; no entry is
    lost or repeated by the sorting. *)
Theorem train_images_are_the_sorted_image_files `{Env} (a : Args) :
  let is_image := fun f => endswith f ".png" || endswith f ".jpg" || endswith f ".bmp" in
  Permutation (train_files a)
              (map (path_join (train_dir a)) (List.filter is_image (listdir (train_dir a)))) /\
  StronglySorted (fun x y => String.leb x y = true) (train_files a) /\
  (forall f, In f (train_files a) <->
     exists name, In name (listdir (train_dir a)) /\ is_image name = true /\
                  f = path_join (train_dir a) name).
Proof.
  intros is_image. unfold train_files. fold is_image.
  split; [apply sorted_perm|]. split; [apply sorted_sorted|].
  intros f. split.
  - intros Hf. apply (Permutation_in _ (sorted_perm _)) in Hf.
    apply in_map_iff in Hf as (name & <- & Hname).
    apply filter_In in Hname as [Hin Himg]. eauto.
  - intros (name & Hin & Himg & ->).
    apply (Permutation_in _ (Permutation_sym (sorted_perm _))).
    apply in_map. apply filter_In. auto.
Qed.

(** ** The stand-ins meet the laws *)

Lemma demo_warp_laws : @WarpLaws Demo.lib.
Proof.
  constructor. intros angle size m. cbn. unfold Demo.recentre. apply Rect_intro.
  - now rewrite length_map, length_seq.
  - intros i Hi. rewrite (nth_map_in _ _ i 0%nat []) by now rewrite length_seq.
    now rewrite length_map, length_seq.
Qed.

Lemma demo_per_image : @BackbonePerImage Demo.net.
Proof.
  constructor. intros lap imgs. cbn.
  induction imgs as [|x imgs IH]; [reflexivity|]. cbn. now rewrite IH.
Qed.

Lemma sample_image_laws : @ImageLibLaws Sample.images.
Proof.
  constructor; cbn; [|auto|auto].
  intros mask w h h0 w0 c img Hh0 Hw0 Himg. unfold Sample.nearest.
  pose proof (shape_hw_Box h0 w0 c img Himg Hh0) as Hs. unfold shape_hw in Hs.
  injection Hs as Hl Hw. rewrite Hl, Hw.
  apply Box_intro; [now rewrite length_map, length_seq|].
  intros r Hr. rewrite (nth_map_in _ _ r 0%nat []) by now rewrite length_seq.
  rewrite seq_nth by exact Hr. cbn [Nat.add].
  apply Rect_intro; [now rewrite length_map, length_seq|].
  intros col Hcol. rewrite (nth_map_in _ _ col 0%nat []) by now rewrite length_seq.
  rewrite seq_nth by exact Hcol. cbn [Nat.add].
  apply (Box_pixel h0 w0 c); [exact Himg| |].
  - apply Nat.Div0.div_lt_upper_bound. nia.
  - apply Nat.Div0.div_lt_upper_bound. nia.
Qed.

Lemma tiny_Box : Box 2 3 1 Sample.tiny.
Proof. repeat constructor. Qed.

(** ** Concrete runs *)

Lemma run_without_a_batch_raises_witness :
  result (@recognize_from_image Demo.env Demo.net Demo.lib Demo.lcg
            (Sample.feat_args 0) Demo.seed) = Raised ValueError /\
  predicts (trace (@recognize_from_image Demo.env Demo.net Demo.lib Demo.lcg
                     (Sample.feat_args 0) Demo.seed)) = [] /\
  figures (trace (@recognize_from_image Demo.env Demo.net Demo.lib Demo.lcg
                    (Sample.feat_args 0) Demo.seed)) = [].
Proof.
  apply (@run_without_a_batch_raises Demo.env Demo.net Demo.lib Demo.lcg
           (Sample.feat_args 0) Demo.seed); [reflexivity|left; simpl; lia].
Defined.

Lemma every_image_is_predicted_once_per_lap_witness :
  predicts (trace (@train_loop Demo.net (Demo.args 2) ["a.png"; "b.png"; "c.png"]))
  = concat (repeat (map (@length string)
                        (batches_of (Demo.args 2) ["a.png"; "b.png"; "c.png"]))
                   (Z.to_nat (laps_of (Demo.args 2)))) /\
  map (@length string) (batches_of (Demo.args 2) ["a.png"; "b.png"; "c.png"]) = [2; 1]%nat.
Proof.
  split; [|reflexivity].
  apply (@every_image_is_predicted_once_per_lap Demo.net
           (Demo.args 2) ["a.png"; "b.png"; "c.png"]).
  simpl. lia.
Defined.


Lemma figure_path_ignores_directory_and_extension_witness :
  @savepath_tmp Sample.utils "out" ("data/test" ++ "/" ++ "000" ++ "." ++ "jpg")
  = ("out" ++ "/" ++ "000" ++ ".png")%string /\
  @savepath_tmp Sample.utils "out" ("000" ++ "." ++ "jpg")
  = ("out" ++ "/" ++ "000" ++ ".png")%string.
Proof.
  apply (@figure_path_ignores_directory_and_extension Sample.utils "out" "data/test" "000" "jpg");
    reflexivity.
Defined.

Lemma figure_path_replaces_every_occurrence_witness :
  @savepath_tmp Sample.utils "out" ("data" ++ "/" ++ "README")
  = ("out" ++ "/" ++ "README")%string /\
  @savepath_tmp Sample.utils "out"
    ("data" ++ "/" ++ "img" ++ "." ++ "jpg" ++ "." ++ "v2" ++ "." ++ "jpg")
  = ("out" ++ "/" ++ "img" ++ ".png." ++ "v2" ++ ".png")%string.
Proof.
  destruct (@figure_path_replaces_every_occurrence Sample.utils "out" "data"
              "img" "jpg" "v2" "" eq_refl) as (_ & Hmid & _).
  { repeat constructor. }
  destruct (@figure_path_replaces_every_occurrence Sample.utils "out" "data"
              "README" "jpg" "v2" "" eq_refl) as (Hplain & _ & _).
  { repeat constructor. }
  split; [exact Hplain|]. apply Hmid. reflexivity.
Defined.

Lemma feature_file_is_named_after_last_component_witness :
  train_feat_file ("data/bottle" ++ "/" ++ "train") = ("train" ++ ".pkl")%string /\
  train_feat_file "train" = ("train" ++ ".pkl")%string /\
  train_feat_file ("data/bottle" ++ "/") = ".pkl"%string.
Proof.
  apply (feature_file_is_named_after_last_component "data/bottle" "train"). reflexivity.
Defined.

Lemma mask_path_uses_only_the_stem_witness :
  gt_fpath "gt_masks" ("data/test" ++ "/" ++ "000.v2" ++ "." ++ "png")
  = path_join "gt_masks" ("000.v2" ++ "_mask.png") /\
  gt_fpath "gt_masks" ("data/test" ++ "/" ++ "README")
  = path_join "gt_masks" ("README" ++ "_mask.png").
Proof.
  destruct (mask_path_uses_only_the_stem "gt_masks" "data/test" "000.v2" "png" "README")
    as [Hstem Hplain]; try reflexivity.
  split; [apply Hstem; reflexivity|exact Hplain].
Defined.

Lemma benchmark_average_skips_the_first_run_witness :
  result (@predict_batch Sample.clock true 1 4 0) = Raised ZeroDivisionError /\
  predicts (trace (@predict_batch Sample.clock true 1 4 0)) = [4%nat] /\
  predicts (trace (@predict_batch Sample.clock true 3 4 0)) = [4; 4; 4]%nat /\
  predicts (trace (@predict_batch Sample.clock true 0 4 0)) = [].
Proof.
  destruct (@benchmark_average_skips_the_first_run Sample.clock 1 4 0) as (H1 & _ & _).
  destruct (@benchmark_average_skips_the_first_run Sample.clock 3 4 0) as (_ & H3 & _).
  destruct (@benchmark_average_skips_the_first_run Sample.clock 0 4 0) as (_ & _ & H0).
  destruct (H1 eq_refl) as [Hr Hp].
  split; [exact Hr|]. split; [exact Hp|]. split; [apply H3; lia|apply H0; lia].
Defined.

Lemma preprocess_is_a_centre_crop_witness :
  exists out,
    @preprocess Sample.images Sample.tiny true = ret [out] /\
    Box 1 IMAGE_SIZE IMAGE_SIZE out.
Proof.
  destruct (proj2 (@preprocess_is_a_centre_crop Sample.images sample_image_laws Sample.tiny true)
              2%nat 3%nat 1%nat tiny_Box)
    as (_ & _ & _ & _ & _ & _ & out & Hrun & Hbox & _); [lia|lia|].
  exists out. split; assumption.
Defined.

Lemma preprocess_aug_leaves_masks_whole_witness :
  @preprocess_aug_image Sample.images Demo.lcg Sample.tiny true default_angle_range true Demo.seed
  = (Raised UnboundLocalError, Demo.seed).
Proof.
  apply (@preprocess_aug_leaves_masks_whole Sample.images sample_image_laws Demo.lcg
           2 3 1 Sample.tiny default_angle_range Demo.seed tiny_Box); lia.
Defined.

Lemma preprocess_aug_returns_its_draws_witness :
  exists out pad_h pad_w g',
    @preprocess_aug Demo.lcg default_angle_range 2 3 Demo.seed
    = (Returned ((-10)%Z, pad_h, pad_w), g') /\
    @preprocess_aug_image Sample.images Demo.lcg Sample.tiny false default_angle_range true
      Demo.seed
    = (Returned ([out], Some (@pil_resize Sample.images false
                                (snd (resized_shape 2 3)) (fst (resized_shape 2 3)) Sample.tiny,
                              (-10)%Z, pad_h, pad_w)), g').
Proof.
  destruct (@preprocess_aug_returns_its_draws Sample.images sample_image_laws Demo.lcg lcg_laws
              2 3 1 Sample.tiny (-10)%Z [10%Z] Demo.seed tiny_Box)
    as (out & pad_h & pad_w & g' & Hrefs & Hrun & _); [lia|lia|].
  exists out, pad_h, pad_w, g'. split; assumption.
Defined.

Lemma augmented_test_loop_records_witness :
  exists st dist_list,
    result (@test_loop Demo.env Demo.net Demo.lib Demo.lcg Demo.aug_args ([], []) Demo.seed)
    = Returned (st, dist_list) /\
    length dist_list = 4%nat /\
    te_angle_list st = [-10; -10; -10; -10]%Z /\
    te_pad_h st = last (te_pad_h_list st).
Proof.
  destruct (@augmented_test_loop_records Demo.env Demo.net Demo.lib Demo.lcg lcg_laws
              1 1 1 demo_net_laws Demo.aug_args ([], []) Demo.seed)
    as (st & dist_list & Hrun & _ & Hlen & _ & _ & Hang & _ & _ & _ & Hlast & _).
  - reflexivity.
  - lia.
  - intros p _. cbn. lia.
  - cbn. lia.
  - cbn. lia.
  - discriminate.
  - exists st, dist_list. auto.
Defined.

Lemma reversal_depends_on_the_last_image_witness :
  exists st dist_list pad_h pad_w,
    result (@test_loop Demo.env Demo.net Demo.lib Demo.lcg Demo.aug_args ([], []) Demo.seed)
    = Returned (st, dist_list) /\
    te_pad_h st = Some pad_h /\ te_pad_w st = Some pad_w /\
    (pad_h < 32)%Z /\ (pad_w < 32)%Z /\
    exists score_map,
      result (@score_map_aug Demo.lib Demo.lcg Demo.aug_args st dist_list) = Returned score_map /\
      length score_map = 2%nat.
Proof.
  destruct (@reversal_depends_on_the_last_image Demo.env Demo.net Demo.lib Demo.lcg lcg_laws
              demo_lib_laws demo_warp_laws 1 1 1 demo_net_laws Demo.aug_args ([], []) Demo.seed)
    as (st & dist_list & p & pad_h & pad_w & Hrun & _ & Hh & Hw & Hok & _ & Hsq).
  - reflexivity.
  - lia.
  - intros p _. cbn. lia.
  - cbn. lia.
  - cbn. lia.
  - discriminate.
  - destruct (Hsq eq_refl) as [H1 H2].
    destruct Hok as (score_map & Hsm & Hlen & _); [lia|lia|].
    exists st, dist_list, pad_h, pad_w. repeat (split; [assumption|]).
    exists score_map. split; assumption.
Defined.



Lemma batch_log_names_the_next_batch_witness :
  batch_log (Demo.args 2) ["a.png"; "b.png"; "c.png"; "d.png"] 0 0
  = Log INFO ("from (" ++ "a.png" ++ " ~ " ++ "c.png" ++ ") ") /\
  ~ In "c.png"%string (slice ["a.png"; "b.png"; "c.png"; "d.png"]%string 0 (0 + 2)).
Proof.
  destruct (batch_log_names_the_next_batch (Demo.args 2) ["a.png"; "b.png"; "c.png"; "d.png"]
              0 0 "a.png" "c.png") as [Hnext _].
  - reflexivity.
  - reflexivity.
  - destruct Hnext as [Hline Hnot]; [cbn; lia|reflexivity|].
    split; [exact Hline|]. apply Hnot.
    repeat (constructor; [rewrite ?list_elem_of_In; cbn; intuition discriminate|]). constructor.
Defined.

Lemma threshold_search_sees_one_mask_per_image_witness :
  exists st dist_list,
    result (@test_loop Demo.env Demo.net Demo.lib Demo.lcg Demo.aug_args ([], []) Demo.seed)
    = Returned (st, dist_list) /\
    length (te_gt_imgs st) = 4%nat /\
    @selected_masks Demo.aug_args (te_gt_imgs st)
    = ret (map (@load_gt Demo.env true) ["x.png"; "train/a.png"]).
Proof.
  apply (@threshold_search_sees_one_mask_per_image Demo.env Demo.net Demo.lib Demo.lcg lcg_laws
           1 1 1 demo_net_laws Demo.aug_args ([], []) Demo.seed).
  - lia.
  - cbn. lia.
  - discriminate.
  - intros _. split; [cbn; lia|]. intros p _. cbn. lia.
Defined.

Lemma reverse_crop_places_the_map_at_its_offsets_witness :
  exists out,
    @reverse_crop Demo.lcg Sample.recorded 0 (zeros2 IMAGE_SIZE IMAGE_SIZE) = ret out /\
    get2 out (Z.to_nat 6 + 0) (Z.to_nat 13 + 0) = get2 (zeros2 IMAGE_SIZE IMAGE_SIZE) 0 0.
Proof.
  destruct (@reverse_crop_places_the_map_at_its_offsets Demo.lcg Sample.recorded 0
              (zeros2 IMAGE_SIZE IMAGE_SIZE) 6 13 6 13 (zeros2_Rect _ _))
    as (out & Hrun & Hin & _); try reflexivity; try lia.
  exists out. split; [exact Hrun|]. apply Hin; unfold IMAGE_SIZE; lia.
Defined.

(** * The training mean in floating-point arithmetic *)

Section MeanArrays.
Context {D : Dtype}.

Lemma shaped2_fzeros2 (r c : nat) : shaped2 r c (fzeros2 r c).
Proof.
  unfold fzeros2. split; [apply repeat_length|].
  apply List.Forall_forall. intros row Hrow. apply repeat_spec in Hrow as ->.
  apply repeat_length.
Qed.

Lemma fget2_fzeros2 (r c i j : nat) : fget2 (fzeros2 r c) i j = fzero.
Proof.
  unfold fget2, fzeros2.
  destruct (Nat.lt_ge_cases i r) as [Hi|Hi].
  - rewrite nth_repeat_lt by exact Hi.
    destruct (Nat.lt_ge_cases j c) as [Hj|Hj].
    + now rewrite nth_repeat_lt.
    + apply nth_overflow. now rewrite repeat_length.
  - rewrite (nth_overflow _ _ (n := i)) by now rewrite repeat_length.
    now destruct j.
Qed.

Lemma shaped2_row (r c : nat) (A : list (list num)) (i : nat) :
  shaped2 r c A -> (i < r)%nat -> length (nth i A []) = c.
Proof.
  intros [Hl Hall] Hi. rewrite List.Forall_forall in Hall. apply Hall, nth_In. lia.
Qed.

Lemma shaped2_fmadd (r c : nat) (A B : list (list num)) :
  shaped2 r c A -> shaped2 r c B -> shaped2 r c (fmadd A B).
Proof.
  intros [HlA HA] [HlB HB]. unfold fmadd. split; [rewrite length_zip_with; lia|].
  apply List.Forall_forall. intros row Hrow.
  apply list_elem_of_In, list_elem_of_lookup_1 in Hrow as [i Hi].
  rewrite lookup_zip_with in Hi.
  destruct (A !! i) as [ra|] eqn:Ea; [|discriminate].
  destruct (B !! i) as [rb|] eqn:Eb; [|discriminate].
  simpl in Hi. injection Hi as <-. rewrite length_zip_with.
  rewrite List.Forall_forall in HA, HB.
  rewrite (HA ra), (HB rb); [lia| |];
    apply list_elem_of_In; eapply list_elem_of_lookup_2; eauto.
Qed.

Lemma fget2_fmadd (r c : nat) (A B : list (list num)) (i j : nat) :
  shaped2 r c A -> shaped2 r c B -> (i < r)%nat -> (j < c)%nat ->
  fget2 (fmadd A B) i j = fadd (fget2 A i j) (fget2 B i j).
Proof.
  intros HA HB Hi Hj. unfold fget2, fmadd.
  pose proof (shaped2_row r c A i HA Hi) as Hra.
  pose proof (shaped2_row r c B i HB Hi) as Hrb.
  destruct HA as [HlA _], HB as [HlB _].
  destruct (lookup_lt_is_Some_2 A i) as [ra Ea]; [lia|].
  destruct (lookup_lt_is_Some_2 B i) as [rb Eb]; [lia|].
  rewrite (nth_lookup_Some A i [] ra Ea) in Hra |- *.
  rewrite (nth_lookup_Some B i [] rb Eb) in Hrb |- *.
  assert (Hrow : zip_with (zip_with fadd) A B !! i = Some (zip_with fadd ra rb)).
  { now rewrite lookup_zip_with, Ea, Eb. }
  rewrite (nth_lookup_Some _ i [] _ Hrow).
  destruct (lookup_lt_is_Some_2 ra j) as [x Ex]; [lia|].
  destruct (lookup_lt_is_Some_2 rb j) as [y Ey]; [lia|].
  rewrite (nth_lookup_Some ra j fzero x Ex), (nth_lookup_Some rb j fzero y Ey).
  apply nth_lookup_Some. now rewrite lookup_zip_with, Ex, Ey.
Qed.

(** Adding samples to an array adds their entries, one after the other. *)
Lemma fold_fmadd_entries (r c : nat) (E : list (list (list num))) (acc : list (list num))
    (i j : nat) :
  shaped2 r c acc -> Forall (shaped2 r c) E -> (i < r)%nat -> (j < c)%nat ->
  shaped2 r c (fold_left fmadd E acc) /\
  fget2 (fold_left fmadd E acc) i j
  = fold_left fadd (map (fun s => fget2 s i j) E) (fget2 acc i j).
Proof.
  intros Hacc HE Hi Hj. revert acc Hacc.
  induction HE as [|s E Hs HE IH]; intros acc Hacc; cbn [fold_left map].
  - auto.
  - destruct (IH (fmadd acc s)) as [Hsh Hent]; [now apply shaped2_fmadd|].
    split; [exact Hsh|]. now rewrite Hent, (fget2_fmadd r c).
Qed.

Lemma fsum0_entries (C HW : nat) (E : list (list (list num))) (c i : nat) :
  Forall (shaped2 C HW) E -> (c < C)%nat -> (i < HW)%nat ->
  shaped2 C HW (fsum0 C HW E) /\ fget2 (fsum0 C HW E) c i = fsum_at c i E.
Proof.
  intros HE Hc Hi. unfold fsum0, fsum_at.
  destruct (fold_fmadd_entries C HW E (fzeros2 C HW) c i (shaped2_fzeros2 C HW) HE Hc Hi)
    as [Hsh Hent].
  split; [exact Hsh|]. now rewrite Hent, fget2_fzeros2.
Qed.

Lemma shaped2_fsum0 (C HW : nat) (E : list (list (list num))) :
  Forall (shaped2 C HW) E -> shaped2 C HW (fsum0 C HW E).
Proof.
  intros HE. unfold fsum0. generalize (shaped2_fzeros2 C HW).
  generalize (fzeros2 C HW). induction HE as [|s E Hs HE IH]; intros acc Hacc; cbn [fold_left].
  - exact Hacc.
  - apply IH. now apply shaped2_fmadd.
Qed.

Lemma fget2_fmdiv (r c : nat) (A : list (list num)) (n : Z) (i j : nat) :
  shaped2 r c A -> (i < r)%nat -> (j < c)%nat ->
  fget2 (fmdiv A n) i j = fdiv (fget2 A i j) (of_int n).
Proof.
  intros HA Hi Hj. unfold fget2, fmdiv.
  pose proof (shaped2_row r c A i HA Hi) as Hra. destruct HA as [Hl _].
  destruct (lookup_lt_is_Some_2 A i) as [ra Ea]; [lia|].
  rewrite (nth_lookup_Some A i [] ra Ea) in Hra |- *.
  assert (Hrow : map (map (fun x => fdiv x (of_int n))) A !! i
                 = Some (map (fun x => fdiv x (of_int n)) ra)).
  { now rewrite list_lookup_fmap, Ea. }
  rewrite (nth_lookup_Some _ i [] _ Hrow).
  destruct (lookup_lt_is_Some_2 ra j) as [x Ex]; [lia|].
  rewrite (nth_lookup_Some ra j fzero x Ex).
  apply nth_lookup_Some. now rewrite list_lookup_fmap, Ex.
Qed.

Lemma shaped2_fmdiv (r c : nat) (A : list (list num)) (n : Z) :
  shaped2 r c A -> shaped2 r c (fmdiv A n).
Proof.
  intros [Hl Hall]. unfold fmdiv. split; [now rewrite length_map|].
  apply List.Forall_forall. intros row Hrow. apply in_map_iff in Hrow as (r0 & <- & Hin).
  rewrite length_map. rewrite List.Forall_forall in Hall. now apply Hall.
Qed.

End MeanArrays.

Section MeanLoop.
Context {D : Dtype} {F : Features}.
Variable a : Args.
Variable imgs : list string.

Lemma mean_batch_result (i_aug i_img : nat) (st : mean_state) :
  result (mean_batch a imgs i_aug i_img st) = Returned (mean_step a imgs st (i_aug, i_img)).
Proof.
  unfold mean_batch, mean_step. rewrite !result_emit_then. cbn [fst snd].
  destruct (fshape4 _) as [[[B0 C0] H0] W0]. reflexivity.
Qed.

Lemma mean_loop_result :
  (0 < batch_size a)%Z ->
  result (mean_loop a imgs)
  = Returned (fold_left (mean_step a imgs) (schedule a (length imgs)) mean_init).
Proof.
  intros Hbs. unfold mean_loop.
  assert (Hlaps : forall k : Z -> M mean_state,
    result (laps <- (if aug a
             then emit (Log INFO "extract train set features with augmentation") ;;;
                  ret (aug_num a)
             else emit (Log INFO "extract train set features without augmentation") ;;;
                  ret 1%Z) ;; k laps) = result (k (laps_of a))).
  { intros k. unfold laps_of. destruct (aug a); now rewrite result_bind. }
  rewrite Hlaps. unfold schedule. rewrite fold_left_flat_map.
  apply for_each_pure. intros lap st.
  unfold py_range_step.
  destruct (Z.eqb_spec (batch_size a) 0) as [|_]; [lia|].
  destruct (Z.ltb_spec (batch_size a) 0) as [|_]; [lia|].
  rewrite bind_ret_l, fold_left_through_map.
  apply for_each_pure. intros i st'. apply mean_batch_result.
Qed.

(** Every image is in one batch of every lap. *)
Lemma schedule_image_count :
  (0 < batch_size a)%Z ->
  length (flat_map (fun p => slice imgs (snd p) (snd p + Z.to_nat (batch_size a)))
                   (schedule a (length imgs)))
  = (Z.to_nat (laps_of a) * length imgs)%nat.
Proof.
  intros Hbs. unfold schedule, py_range.
  generalize 0%nat. induction (Z.to_nat (laps_of a)) as [|k IH]; intros s0; [reflexivity|].
  cbn [seq flat_map]. rewrite flat_map_app, length_app, IH.
  rewrite flat_map_concat_map, map_map. cbn [snd].
  rewrite range_step_chunks by lia. lia.
Qed.

End MeanLoop.

Section MeanFacts.
Context {D : Dtype} {F : Features} (C H W : nat) {laws : FeaturesLaws C H W}.
Variable a : Args.
Variable imgs : list string.

Lemma fshape4_spec (aug : bool) (lap : nat) (chunk : list string) :
  chunk <> [] -> (0 < C)%nat ->
  exists W', fshape4 (train_features aug lap chunk) = (length chunk, C, H, W') /\
             (H * W' = H * W)%nat.
Proof.
  intros Hne HC. destruct (train_features_shape aug lap chunk) as [Hl Hall].
  unfold fshape4. rewrite Hl.
  destruct (train_features aug lap chunk) as [|s E].
  { destruct chunk; [congruence|discriminate]. }
  inversion Hall as [|? ? [Hls Hch] _]; subst. cbn [hd].
  destruct s as [|ch s]; [simpl in HC; lia|].
  inversion Hch as [|? ? [Hlc Hrows] _]; subst. cbn [hd].
  destruct ch as [|row ch]; cbn [hd length].
  - exists 0%nat. split; [reflexivity|]. simpl. lia.
  - inversion Hrows; subst. exists (length row). split; reflexivity.
Qed.

Lemma fbatch_shapes (p : nat * nat) :
  length (fbatch_of a imgs p)
  = length (slice imgs (snd p) (snd p + Z.to_nat (batch_size a))) /\
  Forall (shaped2 C (H * W)) (fbatch_of a imgs p).
Proof.
  unfold fbatch_of, freshape_BC_HW.
  destruct (train_features_shape (aug a) (fst p)
              (slice imgs (snd p) (snd p + Z.to_nat (batch_size a)))) as [Hl Hall].
  split; [now rewrite length_map|].
  apply List.Forall_forall. intros s Hs. apply in_map_iff in Hs as (s0 & <- & Hin).
  rewrite List.Forall_forall in Hall. destruct (Hall s0 Hin) as [Hls Hch].
  split; [now rewrite length_map|].
  apply List.Forall_forall. intros v Hv. apply in_map_iff in Hv as (ch & <- & Hinch).
  rewrite List.Forall_forall in Hch. destruct (Hch ch Hinch) as [Hlc Hrows].
  subst H. clear -Hrows. induction Hrows as [|row ch Hrow Hrows IH]; simpl; [reflexivity|].
  rewrite length_app, IH. lia.
Qed.

Lemma mean_step_after (st : mean_state) (ps : list (nat * nat)) (p : nat * nat) :
  (0 < C)%nat ->
  slice imgs (snd p) (snd p + Z.to_nat (batch_size a)) <> [] ->
  mean_after C H W a imgs st ps -> mean_after C H W a imgs (mean_step a imgs st p) (ps ++ [p]).
Proof.
  intros HC Hne [HN Hmean]. unfold mean_step.
  destruct (fshape4_spec (aug a) (fst p) _ Hne HC) as (W' & -> & HW).
  rewrite HW. fold (fbatch_of a imgs p).
  destruct (fbatch_shapes p) as [Hlb Hshapes].
  split.
  - cbn [ms_N]. rewrite map_app, concat_app, length_app. cbn [map concat].
    rewrite app_nil_r, Hlb, HN. reflexivity.
  - cbn [ms_mean].
    assert (Hold : exists m, (match ms_mean st with
                              | None => fzeros2 C (H * W)
                              | Some mean => mean
                              end) = m /\ shaped2 C (H * W) m /\
             forall c i, (c < C)%nat -> (i < H * W)%nat ->
               fget2 m c i
               = fold_left fadd (map (fun p => fsum_at c i (fbatch_of a imgs p)) ps) fzero).
    { destruct (ms_mean st) as [m|].
      - exists m. split; [reflexivity|exact Hmean].
      - subst ps. exists (fzeros2 C (H * W)). split; [reflexivity|].
        split; [apply shaped2_fzeros2|]. intros c i _ _. apply fget2_fzeros2. }
    destruct Hold as (m & -> & Hsh & Hent).
    split; [apply shaped2_fmadd; [exact Hsh|now apply shaped2_fsum0]|].
    intros c i Hc Hi.
    rewrite (fget2_fmadd C (H * W)); auto; [|now apply shaped2_fsum0].
    rewrite (Hent c i Hc Hi).
    rewrite (proj2 (fsum0_entries C (H * W) _ c i Hshapes Hc Hi)).
    rewrite map_app, fold_left_app. reflexivity.
Qed.

Lemma mean_fold_after (ps : list (nat * nat)) :
  (0 < C)%nat ->
  Forall (fun p => slice imgs (snd p) (snd p + Z.to_nat (batch_size a)) <> []) ps ->
  mean_after C H W a imgs (fold_left (mean_step a imgs) ps mean_init) ps.
Proof.
  intros HC. induction ps as [|p ps IH] using rev_ind; intros Hall.
  - split; reflexivity.
  - apply Forall_app in Hall as [Hps Hp]. inversion Hp; subst.
    rewrite fold_left_app. cbn [fold_left]. apply mean_step_after; auto.
Qed.

Lemma fbatches_count (ps : list (nat * nat)) :
  length (concat (map (fbatch_of a imgs) ps))
  = length (flat_map (fun p => slice imgs (snd p) (snd p + Z.to_nat (batch_size a))) ps).
Proof.
  induction ps as [|p ps IH]; [reflexivity|].
  cbn [map concat flat_map]. rewrite !length_app, IH.
  now rewrite (proj1 (fbatch_shapes p)).
Qed.

End MeanFacts.

(** With an associative addition that has 0 as unit, sums may be taken
    batch by batch. *)
Lemma fold_fadd_from `{Dtype} (l : list num) (z : num) :
  (forall x y z, fadd x (fadd y z) = fadd (fadd x y) z) ->
  (forall x, fadd fzero x = x) -> (forall x, fadd x fzero = x) ->
  fold_left fadd l z = fadd z (fold_left fadd l fzero).
Proof.
  intros Hassoc Hleft Hright. revert z. induction l as [|x l IH]; intros z; cbn [fold_left].
  - symmetry. apply Hright.
  - rewrite (IH (fadd z x)), (IH (fadd fzero x)), Hleft. symmetry. apply Hassoc.
Qed.

Lemma fsum_at_concat `{Dtype} (c i : nat) (batches : list (list (list (list num)))) :
  (forall x y z, fadd x (fadd y z) = fadd (fadd x y) z) ->
  (forall x, fadd fzero x = x) -> (forall x, fadd x fzero = x) ->
  fold_left fadd (map (fsum_at c i) batches) fzero = fsum_at c i (concat batches).
Proof.
  intros Hassoc Hleft Hright.
  assert (Hgen : forall z,
            fold_left fadd (map (fsum_at c i) batches) z
            = fold_left fadd (map (fun s => fget2 s c i) (concat batches)) z).
  { induction batches as [|b bs IH]; intros z; cbn [map concat fold_left]; [reflexivity|].
    rewrite map_app, fold_left_app, IH. f_equal. unfold fsum_at.
    symmetry. now apply fold_fadd_from. }
  apply Hgen.
Qed.

(** The run returns the accumulated array divided by [N]. *)
Lemma train_mean_entries
    {D : Dtype} {F : Features} (C H W : nat) {laws : FeaturesLaws C H W}
    (a : Args) (imgs : list string) :
  (0 < C)%nat -> imgs <> [] -> (0 < batch_size a)%Z -> (0 < laps_of a)%Z ->
  let N := (Z.to_nat (laps_of a) * length imgs)%nat in
  let batches := map (fbatch_of a imgs) (schedule a (length imgs)) in
  length (concat batches) = N /\
  exists mean,
    result (train_mean a imgs) = Returned mean /\
    shaped2 C (H * W) mean /\
    forall c i, (c < C)%nat -> (i < H * W)%nat ->
      fget2 mean c i
      = fdiv (fold_left fadd (map (fsum_at c i) batches) fzero) (of_int (Z.of_nat N)).
Proof.
  intros HC Himgs Hbs Hlaps N batches.
  assert (Hbs' : (0 < Z.to_nat (batch_size a))%nat) by lia.
  pose proof (mean_fold_after C H W a imgs (schedule a (length imgs)) HC
                (schedule_chunks_nonempty a imgs Hbs')) as [HN Hmean].
  set (st := fold_left (mean_step a imgs) (schedule a (length imgs)) mean_init) in *.
  assert (Hcount : length (concat batches) = N).
  { unfold batches, N. rewrite <- (schedule_image_count a imgs Hbs).
    apply (fbatches_count C H W). }
  split; [exact Hcount|].
  fold batches in HN. rewrite Hcount in HN.
  destruct (ms_mean st) as [m|] eqn:Em.
  - destruct Hmean as [Hsh Hent].
    exists (fmdiv m (Z.of_nat N)). split; [|split].
    + unfold train_mean. rewrite (result_bind_returned _ _ _ (mean_loop_result a imgs Hbs)).
      fold st. now rewrite Em, HN.
    + now apply shaped2_fmdiv.
    + intros c i Hc Hi. rewrite (fget2_fmdiv C (H * W)) by assumption.
      rewrite (Hent c i Hc Hi). unfold batches. now rewrite map_map.
  - exfalso. apply (schedule_nonempty a imgs Hbs' Himgs Hlaps). exact Hmean.
Qed.

(** C2.  For a training run with images, a positive batch size and at
    least one lap, [get_train_outputs] returns as entry [(c, i)] of [mean]
    the sum of the batch sums at [(c, i)], added in processing order in
    the arithmetic of the array, divided by [N], where [N] counts every
    image over every augmentation lap.  This holds for every arithmetic,
    rounded or not.  If the addition is associative and has 0 as unit, as
    in exact arithmetic, the entry is the sum of the entries of all [N]
    samples divided by [N], their arithmetic mean. *)
Theorem train_mean_is_accumulated_sum
    {D : Dtype} {F : Features} (C H W : nat) {laws : FeaturesLaws C H W}
    (a : Args) (imgs : list string) :
  (0 < C)%nat -> imgs <> [] -> (0 < batch_size a)%Z -> (0 < laps_of a)%Z ->
  let N := (Z.to_nat (laps_of a) * length imgs)%nat in
  let batches := map (fbatch_of a imgs) (schedule a (length imgs)) in
  exists mean,
    result (train_mean a imgs) = Returned mean /\
    shaped2 C (H * W) mean /\
    length (concat batches) = N /\
    (forall c i, (c < C)%nat -> (i < H * W)%nat ->
       fget2 mean c i
       = fdiv (fold_left fadd (map (fsum_at c i) batches) fzero) (of_int (Z.of_nat N))) /\
    ((forall x y z, fadd x (fadd y z) = fadd (fadd x y) z) ->
     (forall x, fadd fzero x = x) -> (forall x, fadd x fzero = x) ->
     forall c i, (c < C)%nat -> (i < H * W)%nat ->
       fget2 mean c i = fdiv (fsum_at c i (concat batches)) (of_int (Z.of_nat N))).
Proof.
  intros HC Himgs Hbs Hlaps N batches.
  destruct (train_mean_entries C H W a imgs HC Himgs Hbs Hlaps)
    as (Hcount & mean & Hrun & Hsh & Hent).
  fold N in Hcount, Hent. fold batches in Hcount, Hent.
  exists mean. split; [exact Hrun|]. split; [exact Hsh|]. split; [exact Hcount|].
  split; [exact Hent|].
  intros Hassoc Hleft Hright c i Hc Hi.
  rewrite (Hent c i Hc Hi). f_equal. now apply fsum_at_concat.
Qed.

(** * The normalisation in floating-point arithmetic *)

Section Normalize.
Context {D : Dtype} {laws : RoundingLaws}.

Lemma fmaximum_finite (acc x : num) :
  is_finite acc = true -> fmaximum acc x = if fleb x acc then acc else x.
Proof. intros Hacc. unfold fmaximum. now rewrite (finite_not_nan acc Hacc), orb_false_r. Qed.

Lemma fminimum_finite (acc x : num) :
  is_finite acc = true -> fminimum acc x = if fleb acc x then acc else x.
Proof. intros Hacc. unfold fminimum. now rewrite (finite_not_nan acc Hacc), orb_false_r. Qed.

(** The running maximum is one of the values met and bounds them all. *)
Lemma fold_fmaximum_spec (r : list num) (x0 : num) :
  Forall (fun x => is_finite x = true) (x0 :: r) ->
  In (fold_left fmaximum r x0) (x0 :: r) /\
  forall y, In y (x0 :: r) -> fle y (fold_left fmaximum r x0).
Proof.
  intros Hall.
  assert (Hgen : forall seen acc,
            is_finite acc = true -> In acc seen -> (forall y, In y seen -> fle y acc) ->
            Forall (fun x => is_finite x = true) r ->
            In (fold_left fmaximum r acc) (seen ++ r) /\
            forall y, In y (seen ++ r) -> fle y (fold_left fmaximum r acc)).
  { clear x0 Hall. induction r as [|x r IH]; intros seen acc Hacc Hin Hub Hr; cbn [fold_left].
    - rewrite app_nil_r. auto.
    - inversion Hr as [|? ? Hx Hr']; subst.
      replace (seen ++ x :: r) with ((seen ++ [x]) ++ r) by now rewrite <- app_assoc.
      rewrite (fmaximum_finite acc x Hacc).
      destruct (fleb x acc) eqn:Hle.
      + apply IH; auto.
        * apply in_or_app. now left.
        * intros y Hy. apply in_app_iff in Hy as [Hy|[<-|[]]]; [auto|exact Hle].
      + apply IH; auto.
        * apply in_or_app. right. now left.
        * assert (Hax : fle acc x).
          { destruct (fle_total acc x Hacc Hx) as [Hax|Hxa]; [exact Hax|].
            unfold fle in Hxa. congruence. }
          intros y Hy. apply in_app_iff in Hy as [Hy|[<-|[]]].
          -- apply fle_trans with acc; auto.
          -- now apply fle_refl. }
  inversion Hall as [|? ? H0 Hr]; subst.
  apply (Hgen [x0] x0 H0); auto.
  - now left.
  - intros y [<-|[]]. now apply fle_refl.
Qed.

Lemma fold_fminimum_spec (r : list num) (x0 : num) :
  Forall (fun x => is_finite x = true) (x0 :: r) ->
  In (fold_left fminimum r x0) (x0 :: r) /\
  forall y, In y (x0 :: r) -> fle (fold_left fminimum r x0) y.
Proof.
  intros Hall.
  assert (Hgen : forall seen acc,
            is_finite acc = true -> In acc seen -> (forall y, In y seen -> fle acc y) ->
            Forall (fun x => is_finite x = true) r ->
            In (fold_left fminimum r acc) (seen ++ r) /\
            forall y, In y (seen ++ r) -> fle (fold_left fminimum r acc) y).
  { clear x0 Hall. induction r as [|x r IH]; intros seen acc Hacc Hin Hlb Hr; cbn [fold_left].
    - rewrite app_nil_r. auto.
    - inversion Hr as [|? ? Hx Hr']; subst.
      replace (seen ++ x :: r) with ((seen ++ [x]) ++ r) by now rewrite <- app_assoc.
      rewrite (fminimum_finite acc x Hacc).
      destruct (fleb acc x) eqn:Hle.
      + apply IH; auto.
        * apply in_or_app. now left.
        * intros y Hy. apply in_app_iff in Hy as [Hy|[<-|[]]]; [auto|exact Hle].
      + apply IH; auto.
        * apply in_or_app. right. now left.
        * assert (Hxa : fle x acc).
          { destruct (fle_total acc x Hacc Hx) as [Hax|Hxa]; [|exact Hxa].
            unfold fle in Hax. congruence. }
          intros y Hy. apply in_app_iff in Hy as [Hy|[<-|[]]].
          -- apply fle_trans with acc; auto.
          -- now apply fle_refl. }
  inversion Hall as [|? ? H0 Hr]; subst.
  apply (Hgen [x0] x0 H0); auto.
  - now left.
  - intros y [<-|[]]. now apply fle_refl.
Qed.

(** The rescaling of line 553, for finite scores between a minimum and a
    larger maximum whose difference is finite. *)
Section Rescaling.
Variables mn mx : num.
Hypothesis Hmn : is_finite mn = true.
Hypothesis Hmx : is_finite mx = true.
Hypothesis Hlt : flt mn mx.
Hypothesis Hd : is_finite (fsub mx mn) = true.

Lemma rescale_denominator : flt fzero (fsub mx mn).
Proof. now apply fsub_pos. Qed.

Lemma rescale_weakly_monotone (x y : num) :
  is_finite x = true -> is_finite y = true -> fle x y ->
  fle (rescale mn mx x) (rescale mn mx y).
Proof.
  intros Hx Hy Hxy. unfold rescale.
  apply fdiv_mono; [exact Hd|exact rescale_denominator|].
  now apply fsub_mono.
Qed.

Lemma rescale_minimum : fle (rescale mn mx mn) fzero /\ fle fzero (rescale mn mx mn).
Proof.
  unfold rescale. destruct (fsub_self mn Hmn) as [H1 H2].
  destruct (fdiv_zero (fsub mx mn) Hd rescale_denominator) as [H3 H4].
  split.
  - apply fle_trans with (fdiv fzero (fsub mx mn)); [|exact H3].
    apply fdiv_mono; [exact Hd|exact rescale_denominator|exact H1].
  - apply fle_trans with (fdiv fzero (fsub mx mn)); [exact H4|].
    apply fdiv_mono; [exact Hd|exact rescale_denominator|exact H2].
Qed.

Lemma rescale_maximum : fle (rescale mn mx mx) fone /\ fle fone (rescale mn mx mx).
Proof. unfold rescale. apply fdiv_self; [exact Hd|exact rescale_denominator]. Qed.

Lemma rescale_between (x : num) :
  is_finite x = true -> fle mn x -> fle x mx ->
  fle fzero (rescale mn mx x) /\ fle (rescale mn mx x) fone.
Proof.
  intros Hx Hlo Hhi. split.
  - apply fle_trans with (rescale mn mx mn); [apply rescale_minimum|].
    now apply rescale_weakly_monotone.
  - apply fle_trans with (rescale mn mx mx); [|apply rescale_maximum].
    now apply rescale_weakly_monotone.
Qed.

End Rescaling.

End Normalize.


(** ** Exact arithmetic has the rounding laws *)

Lemma exact_fle (x y : Q) : @fle exact x y <-> (x <= y)%Q.
Proof. unfold fle. cbn. apply Qle_bool_iff. Qed.

Lemma exact_flt (x y : Q) : @flt exact x y <-> (x < y)%Q.
Proof.
  unfold flt. cbn. split.
  - intros [_ Hn]. apply Qnot_le_lt. intros Hle. apply Qle_bool_iff in Hle. congruence.
  - intros Hlt. split; [now apply Qle_bool_iff, Qlt_le_weak|].
    destruct (Qle_bool y x) eqn:E; [|reflexivity].
    apply Qle_bool_iff in E. exfalso. exact (Qlt_not_le _ _ Hlt E).
Qed.

Lemma exact_rounding_laws : @RoundingLaws exact.
Proof.
  constructor.
  - reflexivity.
  - intros x _. apply exact_fle, Qle_refl.
  - intros x y z Hxy Hyz. apply exact_fle in Hxy, Hyz. apply exact_fle.
    now apply Qle_trans with y.
  - intros x y _ _. destruct (Qlt_le_dec x y) as [Hlt|Hle].
    + left. now apply exact_fle, Qlt_le_weak.
    + right. now apply exact_fle.
  - intros x y m _ _ _ Hxy. apply exact_fle in Hxy. apply exact_fle. cbn.
    unfold Qminus. now apply Qplus_le_l.
  - intros x _. split; apply exact_fle; cbn; unfold Qminus; rewrite Qplus_opp_r; apply Qle_refl.
  - intros x y _ _ Hlt. apply exact_flt in Hlt. apply exact_flt. cbn.
    unfold Qminus. rewrite <- (Qplus_opp_r x). now apply Qplus_lt_l.
  - intros x y d _ Hd Hxy. apply exact_flt in Hd. apply exact_fle in Hxy.
    apply exact_fle. cbn. unfold Qdiv. apply Qmult_le_compat_r; [exact Hxy|].
    now apply Qlt_le_weak, Qinv_lt_0_compat.
  - intros d _ Hd. split; apply exact_fle; cbn; unfold Qdiv; rewrite Qmult_0_l; apply Qle_refl.
  - intros d _ Hd. apply exact_flt in Hd.
    assert (Hone : (d / d == 1)%Q).
    { unfold Qdiv. apply Qmult_inv_r. intros E. rewrite E in Hd. now apply Qlt_irrefl in Hd. }
    split; apply exact_fle; cbn; rewrite Hone; apply Qle_refl.
Qed.



(** ** The exact mean, and a float32 run *)

(** The shapes the network keeps, for its exact features. *)
Lemma exact_features_laws {net : Backbone} (C H W : nat) {laws : BackboneLaws C H W} :
  @FeaturesLaws exact (exact_features net) C H W.
Proof.
  constructor. intros aug lap imgs. cbn.
  pose proof (train_embedding_shape aug lap imgs) as Hs.
  unfold is_shape4 in Hs. apply andb_prop in Hs as [Hl Hall].
  apply Nat.eqb_eq in Hl. split; [exact Hl|].
  rewrite forallb_forall in Hall. apply List.Forall_forall. intros s Hs.
  specialize (Hall s Hs). unfold is_shape3 in Hall. apply andb_prop in Hall as [Hls Hch].
  apply Nat.eqb_eq in Hls. split; [exact Hls|].
  rewrite forallb_forall in Hch. apply List.Forall_forall. intros ch Hin.
  apply is_shape2_Rect. now apply Hch.
Qed.

Lemma Qplus_assoc_eq (x y z : Q) : (x + (y + z) = (x + y) + z)%Q.
Proof.
  destruct x as [xn xd], y as [yn yd], z as [zn zd]. unfold Qplus. cbn [Qnum Qden].
  f_equal; [|apply Pos.mul_assoc].
  rewrite !Pos2Z.inj_mul. ring.
Qed.

Lemma Qplus_0_l_eq (x : Q) : (0 + x = x)%Q.
Proof.
  destruct x as [xn xd]. unfold Qplus. cbn [Qnum Qden].
  f_equal. rewrite Z.mul_0_l, Z.add_0_l. apply Z.mul_1_r.
Qed.

Lemma Qplus_0_r_eq (x : Q) : (x + 0 = x)%Q.
Proof.
  destruct x as [xn xd]. unfold Qplus. cbn [Qnum Qden].
  f_equal; [|apply Pos.mul_1_r]. rewrite Z.mul_0_l, Z.add_0_r. apply Z.mul_1_r.
Qed.

Lemma train_mean_is_accumulated_sum_witness :
  let imgs := ["train/a.png"; "train/b.png"] in
  exists mean,
    result (@train_mean exact (exact_features Demo.net) (Demo.args 1) imgs) = Returned mean /\
    @fget2 exact mean 0 0 = (((0 + (0 + 0)) + (0 + 2)) / inject_Z 2)%Q.
Proof.
  intros imgs.
  destruct (@train_mean_is_accumulated_sum exact (exact_features Demo.net) 1 1 1
              (@exact_features_laws Demo.net 1 1 1 demo_net_laws) (Demo.args 1) imgs)
    as (mean & Hrun & _ & _ & Hent & _).
  - lia.
  - discriminate.
  - reflexivity.
  - reflexivity.
  - exists mean. split; [exact Hrun|]. apply (Hent 0%nat 0%nat); simpl; lia.
Defined.

(** C2, refuted as it is written.  Three training images with the single
    feature 2^24, 1 and 1, one image per batch, in [float32]: the running
    sum stays at 2^24 (2^24 + 1 is a tie and rounds to the even 2^24), and
    the returned mean is 5592405.5, not the arithmetic mean 5592406 of
    the three samples. *)
Lemma train_mean_is_rounded :
  exists m,
    result (@train_mean binary32 Float32.net Float32.args Float32.train_imgs)
    = Returned [[m]] /\
    @value binary32 m = Some (11184811 # 2)%Q /\
    map (fun s => @value binary32 (@fget2 binary32 s 0 0))
        (concat (map (@fbatch_of binary32 Float32.net Float32.args Float32.train_imgs)
                     (schedule Float32.args (length Float32.train_imgs))))
    = [Some 16777216; Some 1; Some 1]%Q /\
    ~ (11184811 # 2 == (16777216 + 1 + 1) / 3)%Q.
Proof.
  exists (float32 11184811 (-1)).
  split; [reflexivity|]. split; [reflexivity|]. split; [reflexivity|].
  intros E. vm_compute in E. discriminate.
Qed.

(** ** The exact model is the exact instance *)

Lemma Qmax_fmaximum (acc x : Q) : Qmax acc x = @fmaximum exact acc x.
Proof.
  unfold Qmax, GenericMinMax.gmax, fmaximum. cbn. rewrite orb_false_r.
  destruct (Qle_bool x acc) eqn:Hle.
  - apply Qle_bool_iff in Hle. destruct (acc ?= x)%Q eqn:Hc; try reflexivity.
    apply Qlt_alt in Hc. exfalso. exact (Qlt_not_le _ _ Hc Hle).
  - destruct (acc ?= x)%Q eqn:Hc; try reflexivity; exfalso.
    + apply Qeq_alt in Hc. assert (Hle' : (x <= acc)%Q) by (rewrite Hc; apply Qle_refl).
      apply Qle_bool_iff in Hle'. congruence.
    + apply Qgt_alt in Hc. apply Qlt_le_weak, Qle_bool_iff in Hc. congruence.
Qed.

Lemma Qmin_fminimum (acc x : Q) : Qmin acc x = @fminimum exact acc x.
Proof.
  unfold Qmin, GenericMinMax.gmin, fminimum. cbn. rewrite orb_false_r.
  destruct (Qle_bool acc x) eqn:Hle.
  - apply Qle_bool_iff in Hle. destruct (acc ?= x)%Q eqn:Hc; try reflexivity.
    apply Qgt_alt in Hc. exfalso. exact (Qlt_not_le _ _ Hc Hle).
  - destruct (acc ?= x)%Q eqn:Hc; try reflexivity; exfalso.
    + apply Qeq_alt in Hc. assert (Hle' : (acc <= x)%Q) by (rewrite Hc; apply Qle_refl).
      apply Qle_bool_iff in Hle'. congruence.
    + apply Qlt_alt in Hc. apply Qlt_le_weak, Qle_bool_iff in Hc. congruence.
Qed.

Lemma np_max_exact (l : list Q) : np_max l = @fnp_max exact l.
Proof.
  assert (Hfold : forall r x, fold_left Qmax r x = fold_left (@fmaximum exact) r x).
  { induction r as [|y r IH]; intros x; cbn [fold_left]; [reflexivity|].
    now rewrite Qmax_fmaximum, IH. }
  destruct l as [|x r]; [reflexivity|]. unfold np_max, fnp_max. now rewrite Hfold.
Qed.

Lemma np_min_exact (l : list Q) : np_min l = @fnp_min exact l.
Proof.
  assert (Hfold : forall r x, fold_left Qmin r x = fold_left (@fminimum exact) r x).
  { induction r as [|y r IH]; intros x; cbn [fold_left]; [reflexivity|].
    now rewrite Qmin_fminimum, IH. }
  destruct l as [|x r]; [reflexivity|]. unfold np_min, fnp_min. now rewrite Hfold.
Qed.

(** The normalisation of the exact model is [fnormalize] read with exact
    rationals. *)
Lemma normalize_exact (score_map : array3) :
  normalize score_map = @fnormalize exact score_map.
Proof.
  unfold normalize, fnormalize.
  change (@fflatten3 exact score_map) with (flatten3 score_map).
  now rewrite <- np_max_exact, <- np_min_exact.
Qed.

Lemma fold_left_Qplus_sumQ (l : list Q) (z : Q) : (fold_left Qplus l z == z + sumQ l)%Q.
Proof.
  revert z. induction l as [|x l IH]; intros z; cbn [fold_left sumQ fold_right].
  - ring.
  - rewrite IH. fold (sumQ l). ring.
Qed.

(** The mean that [get_train_outputs] returns in the exact model is the
    one [train_mean] computes with exact rationals. *)
Lemma train_mean_exact {env : Env} {net : Backbone} (C H W : nat)
    {laws : BackboneLaws C H W} (a : Args) :
  (0 < C)%nat ->
  truthy (feat a) = false ->
  train_files a <> [] ->
  (0 < batch_size a)%Z ->
  (0 < laps_of a)%Z ->
  exists mean cov mean',
    result (get_train_outputs a) = Returned (mean, cov) /\
    result (@train_mean exact (exact_features net) a (train_files a)) = Returned mean' /\
    forall c i, (c < C)%nat -> (i < H * W)%nat ->
      (get2 mean c i == @fget2 exact mean' c i)%Q.
Proof.
  intros HC Hfeat Himgs Hbs Hlaps.
  destruct (get_train_outputs_mean C H W a HC Hfeat Himgs Hbs Hlaps)
    as (HN & mean & cov & Hrun & Hmean).
  destruct (@train_mean_entries exact (exact_features net) C H W
              (exact_features_laws C H W) a (train_files a) HC Himgs Hbs Hlaps)
    as (_ & mean' & Hrun' & _ & Hent).
  exists mean, cov, mean'. split; [exact Hrun|]. split; [exact Hrun'|].
  intros c i Hc Hi. rewrite (Hmean c i Hc Hi), (Hent c i Hc Hi).
  rewrite (@fsum_at_concat exact c i _ Qplus_assoc_eq Qplus_0_l_eq Qplus_0_r_eq).
  cbv zeta in HN. rewrite HN. unfold fsum_at. cbn.
  rewrite fold_left_Qplus_sumQ, Qplus_0_l. rewrite flat_map_concat_map. reflexivity.
Qed.
